(* ===== verification/_CoqProject ===== *)
-Q . S2P
Prelude.v
RustStr.v
Net.v
NetFacts.v
Crypto.v
RefCrypto.v
Config.v
ConfigFacts.v
Token.v
TokenFacts.v
Stats.v
Json.v
Io.v
Stream.v
StreamFacts.v
Incoming.v
Events.v
Greeting.v
Commands.v
Protocol.v
Termination.v
CommandFacts.v
Session.v
SessionFacts.v
GreetingFacts.v
EventFacts.v
Version.v
VersionFacts.v
IpCheck.v
RefSerde.v
IpFacts.v
IpHttp.v
Upgrade.v
UpgradeFacts.v
Frame.v
Logger.v
Tls.v
Connection.v
SourceTests.v
ConnectionFacts.v
Accounting.v
EndToEnd.v
Server.v
ServerFacts.v
Service.v
Liveness.v
Main.v
MainFacts.v
