(* ===== verification/Prelude.v ===== *)
(** * A verification library for rmbtd, the RMBT measurement server

    rmbtd measures the speed of internet connections: a client connects over
    TCP or TLS, upgrades an HTTP request to the RMBT protocol (raw or in
    WebSocket frames), shows a token that a control server issued, and then asks
    for downloads, uploads and pings. The same listeners answer [/ip] (which
    address the server sees, signed for the control server) and [/version].

    The definitions are translated from the Rust sources under [src/]; they are
    executable and keep the names of the sources. This file is the prelude:
    byte strings, machine integers, tactics, and lemmas that all files share.

    ** The parts, and the files that model them

    - [RustStr], [Net], [NetFacts]: what the sources use of Rust's strings and of
      [std::net]: searching, splitting, trimming, number parsing and printing,
      UTF-8; addresses with their text form and its parser, which are inverse.
    - [Crypto], [RefCrypto]: HMAC, SHA-1 and Base64 come from libraries. They are
      the class [Crypto], with the laws the program relies on in [CryptoLaws]
      (lengths, and that Base64 decodes what it encodes to its own alphabet). No
      law says that a MAC cannot be forged: theorems that need two MACs to differ
      have that as a hypothesis on these MACs. [RefCrypto] implements the class
      from the published algorithms, and a toy instance for the witnesses.
    - [Config] ([config/*.rs]), [ConfigFacts]: constants, configuration, key
      file, command line.
    - [Token] ([protocol/token.rs]), [TokenFacts]: v1 and v2 tokens, the time
      window, the check of [/ip], and the issuer ([make_test_token]).
    - [Stats], [Json], [Events] ([events.rs]), [EventFacts]: the counters of a
      connection, the JSON builder with a reader for what it writes, the events
      and their RFC 5424 frame.
    - [Io]: the effects of a connection. A handler is a function in the monad
      [M] over a [World], which holds everything the environment will do (bytes,
      frames and read errors, failing writes, both clocks) and what the program
      did (output in order, statistics). Nothing is assumed of the environment
      unless a theorem says so. [transport_*] is [stream/transport.rs].
    - [Stream] ([stream/mod.rs]), [StreamFacts]: lines and chunks on raw and
      WebSocket streams. [Incoming] is the interface between streams and handlers:
      which lines and blocks a stream delivers next, however they are framed.
    - [Greeting] ([protocol/greeting.rs]), [GreetingFacts].
    - [Commands] ([protocol/commands.rs]): the handlers and the dispatch loop.
      [Protocol] has the protocol automaton [pstep] and shows that the loop
      follows it, [Termination] that it ends, [CommandFacts] what each command
      sends, reads and records. [Session] is the abstract specification of the
      loop, a function from requests and clock readings to replies and statistics;
      [SessionFacts] shows that the loop implements it over both framings.
    - [Version] ([version.rs], [build.rs]), [VersionFacts].
    - [IpCheck] ([ip_check.rs]), [RefSerde], [IpFacts], [IpHttp]: [serde_json] is the class
      [Serde]; [RefSerde] is a concrete reader and printer for the witnesses.
    - [Upgrade] ([stream/websocket_upgrade.rs]), [UpgradeFacts]: the HTTP phase.
    - [SourceTests]: the unit tests of the sources with their helpers, run by the
      kernel on the definitions with [RefCrypto] and [RefSerde].
    - [Frame]: what handlers leave alone, as preorders on worlds (the class
      [Frame]), with one lemma per handler.
    - [Connection] ([handle_connection] of [server/mod.rs]), [ConnectionFacts];
      [Accounting]: the types of the statistics and the events of a connection;
      [EndToEnd]: the three phases composed for a client that behaves.
    - [Server] (the rest of [server/mod.rs]), [ServerFacts]: start-up, and accept
      loop and workers as a transition system. A step is a point where a thread
      reads or writes the shutdown flag or a queue; [reachable] has every
      interleaving. [Service] composes it with [handle_connection]: each worker runs
      the connections it takes. [Liveness] is about fair schedules of these steps.
    - [Tls] ([tls.rs]): how the TLS configuration is made, [rustls] and its PEM
      reader being the class [Rustls]. [Logger] ([logger/mod.rs]): the set-up of the
      logger and the form of a log line.
    - [Main] ([main.rs]), [MainFacts]: from the command line to the accept loop and
      to the exit code; what the operating system answers is the record [System].

    They are composed as in the sources: [main_start] parses the command line,
    makes the event sink and the server and begins to accept; a worker takes a
    job from its queue and runs [handle_connection], which runs
    [detect_and_upgrade], then [run_greeting] (which calls [validate_token]), then
    [run_commands], and emits the close event.

    ** What is shown

    - Tokens: [validate_token] implements the declarative specification
      [admitted] (and [check_ip_token] its own); issued tokens are accepted from
      their address and refused from others; the wait is bounded; the 32-bit
      start time of a v2 token is extended to the nearest time.
    - Access: no connection passes the greeting without a token that validates
      for its own address, whatever fails; the dialogues of accepted and of
      rejected clients.
    - End to end: an admitted client with well-formed requests (commands within
      their limits, lines that are refused, lines that are no command) gets
      exactly the transcript that the session specification computes, over raw
      streams, and over WebSocket frames as long as a frame begins with each line
      and each chunk.
    - Measurement: the command loop only sends what the protocol automaton
      allows, does not panic and ends; downloads send the chunks asked for with
      the terminal byte on the last one; an upload consumes the upload and
      nothing else, and its reports and its final time are those of the clock; the
      statistics are the bytes and times of the dialogue.
    - Streams: data arrives unchanged in both framings, lines are read back and
      bounded, a chunk does not depend on how the client cut it into frames.
    - HTTP phase: heads are bounded, a protocol stream needs a GET with the text
      of an Upgrade header in its head; [/ip] signs only for tokens that validate, with the key
      that validated them; the control server reads the address and the signature
      back from the answer; the answers of [/ip] and [/version] are well framed, and
      no text of a request adds a header line to them.
    - Unit tests: all tests of the sources pass on the model.
    - Events: the JSON bodies read back to the intended fields whatever the
      client sends, on a single line; a connection has one connect event, at most
      one auth event and one close event, with well-typed statistics.
    - Connections and server: [course] lists all ways a connection can go, with
      the end reason, the greeting and the statistics of each;
      [handle_connection] goes one of them, returns normally and reports it in the
      one close event; so the running service makes exactly the steps of the
      accept loop and the workers, and reports every connection that it has
      handled completely, under an id of its own up to 100000 connections per
      worker; queues are bounded and FIFO, dispatch is round robin, shutdown stops
      the workers. Under fair schedules every queued connection is handled, and
      shutdown completes.
    - Process: a server that starts has keys, listeners and TLS as configured; each
      failure of the start-up and each end of the server has its exit code; exit
      does not wait for the workers.
    - Configuration: safe defaults, key files and IPv4 and IPv6 addresses read
      back; the version that is served is the release tag with the branch.

    ** Bounds

    Recursion that is not structural has fuel. [input_left] (bytes and frames
    left) bounds loops that consume input; [head_fuel] is one more than the
    largest head; text functions use the length of the text. [clock_fuel] bounds
    the loop of [GETTIME], which the clock ends: [clock_advances] says that the
    clock shows 30 more seconds within that many readings. An exhausted bound is
    the outcome [OutOfFuel] of its own; [Termination], [UpgradeFacts] and
    [ConnectionFacts] show that it never occurs under it. Integers keep their width:
    [wrap_u] and [wrap_s] are the arithmetic of the release build, saturating and
    checked operations are written out.

    ** What is not modelled

    The text of log lines and of messages on stderr, and [env_logger] behind
    [Logger], are left out. TLS records, certificate checks, WebSocket framing and
    masking ([rustls], [tungstenite]), [mio], sockets and threads are the
    environment. An interrupted [poll] is a step that changes nothing and has no
    label. The release of
    the sockets is outside the transition system. *)

From stdpp Require Export base tactics list sets strings.
From Stdlib Require Export ZArith Lia.
From Stdlib Require Strings.Byte.

#[export] Set Default Goal Selector "!".

Open Scope Z_scope.

(** ** Notations of the development *)

Declare Scope rmbt_scope.
Delimit Scope rmbt_scope with rmbt.
Open Scope rmbt_scope.

(** A Rust [String], [&str], [Vec<u8>] or [&[u8]] is its list of bytes (a
    [str] is the list of the bytes of its UTF-8 encoding). *)
Abbreviation byte := Byte.byte.
Abbreviation str := (list Byte.byte).

(** [!"GETTIME"] is the byte string of a literal. *)
Notation "! s" := (String.list_byte_of_string s%string)
  (at level 1, s constr at level 0, format "! s") : rmbt_scope.

(** Lengths are taken in [Z]: they are [usize] values of the program. *)
Notation "'len' l" := (Z.of_nat (length l)) (at level 10, l at level 9) : rmbt_scope.

(** ** Bytes *)

#[export] Instance byte_eq_dec : EqDecision byte := Byte.byte_eq_dec.
#[export] Instance byte_inhabited : Inhabited byte := populate Byte.x00.

(** The value of a byte, [b as u32] and wider. *)
Definition bz (b : byte) : Z := Z.of_N (Byte.to_N b).

(** [z as u8]: the low eight bits. *)
Definition zb (z : Z) : byte :=
  match Byte.of_N (Z.to_N (z mod 256)) with Some b => b | None => Byte.x00 end.

Lemma bz_range b : 0 <= bz b < 256.
Proof.
  unfold bz. split; [lia|].
  pose proof (Byte.to_N_bounded b). lia.
Qed.

Lemma bz_zb z : bz (zb z) = z mod 256.
Proof.
  unfold zb, bz.
  pose proof (Z.mod_pos_bound z 256 ltac:(lia)).
  destruct (Byte.of_N _) as [b|] eqn:E.
  - apply Byte.to_of_N in E. rewrite E. lia.
  - apply Byte.of_N_None_iff in E. lia.
Qed.

Lemma zb_bz b : zb (bz b) = b.
Proof.
  unfold zb. rewrite Z.mod_small by apply bz_range. unfold bz.
  rewrite N2Z.id, Byte.of_to_N. done.
Qed.

Lemma bz_inj b c : bz b = bz c -> b = c.
Proof. intros H. by rewrite <- (zb_bz b), H, zb_bz. Qed.

Lemma bz_zb_small z : 0 <= z < 256 -> bz (zb z) = z.
Proof. intros. rewrite bz_zb. by apply Z.mod_small. Qed.

(** ** Machine integers: the wrap-around of the release build *)

(** [z as uW] and the value of an unsigned W-bit operation that overflows. *)
Definition wrap_u (w z : Z) : Z := z mod 2 ^ w.

(** [z as iW] and the value of a signed W-bit operation that overflows. *)
Definition wrap_s (w z : Z) : Z := (z + 2 ^ (w - 1)) mod 2 ^ w - 2 ^ (w - 1).

Definition u32_max : Z := 2 ^ 32 - 1.
Definition u64_max : Z := 2 ^ 64 - 1.
Definition i64_max : Z := 2 ^ 63 - 1.
Definition i64_min : Z := - 2 ^ 63.
Definition u128_max : Z := 2 ^ 128 - 1.

Lemma wrap_u_small w z : 0 <= z < 2 ^ w -> wrap_u w z = z.
Proof. apply Z.mod_small. Qed.

Lemma wrap_u_range w z : 0 <= w -> 0 <= wrap_u w z < 2 ^ w.
Proof. intros. apply Z.mod_pos_bound. lia. Qed.

Lemma wrap_s_small w z : 0 < w -> - 2 ^ (w - 1) <= z < 2 ^ (w - 1) -> wrap_s w z = z.
Proof.
  intros Hw Hz. unfold wrap_s.
  assert (2 ^ w = 2 * 2 ^ (w - 1)).
  { rewrite <- Z.pow_succ_r by lia. f_equal. lia. }
  rewrite Z.mod_small; lia.
Qed.

Lemma wrap_s_range w z : 0 < w -> - 2 ^ (w - 1) <= wrap_s w z < 2 ^ (w - 1).
Proof.
  intros Hw. unfold wrap_s.
  assert (2 ^ w = 2 * 2 ^ (w - 1)).
  { rewrite <- Z.pow_succ_r by lia. f_equal. lia. }
  pose proof (Z.mod_pos_bound (z + 2 ^ (w - 1)) (2 ^ w)). lia.
Qed.

(** ** Tactics *)

(** Split on the scrutinee of some [match] or [if] of the goal. *)
Ltac case_one :=
  match goal with
  | |- context [match ?x with _ => _ end] =>
      lazymatch x with
      | context [match _ with _ => _ end] => fail
      | _ => destruct x eqn:?
      end
  end.

(** The same in a hypothesis. *)
Ltac case_one_in H :=
  match type of H with
  | context [match ?x with _ => _ end] =>
      lazymatch x with
      | context [match _ with _ => _ end] => fail
      | _ => destruct x eqn:?
      end
  end.

(** Turn the boolean tests in the context into the propositions they decide. *)
Ltac to_prop :=
  repeat match goal with
  | H : negb _ = true |- _ => apply negb_true_iff in H
  | H : negb _ = false |- _ => apply negb_false_iff in H
  | H : andb _ _ = true |- _ => apply andb_true_iff in H as [? ?]
  | H : orb _ _ = false |- _ => apply orb_false_iff in H as [? ?]
  | H : orb _ _ = true |- _ => apply orb_true_iff in H
  | H : andb _ _ = false |- _ => apply andb_false_iff in H
  | H : bool_decide _ = true |- _ => apply bool_decide_eq_true in H
  | H : bool_decide _ = false |- _ => apply bool_decide_eq_false in H
  | H : (_ =? _) = true |- _ => apply Z.eqb_eq in H
  | H : (_ =? _) = false |- _ => apply Z.eqb_neq in H
  | H : (_ <? _) = true |- _ => apply Z.ltb_lt in H
  | H : (_ <? _) = false |- _ => apply Z.ltb_ge in H
  | H : (_ <=? _) = true |- _ => apply Z.leb_le in H
  | H : (_ <=? _) = false |- _ => apply Z.leb_gt in H
  | H : (_ >? _) = true |- _ => rewrite Z.gtb_ltb in H
  | H : (_ >? _) = false |- _ => rewrite Z.gtb_ltb in H
  | H : (_ >=? _) = true |- _ => rewrite Z.geb_leb in H
  | H : (_ >=? _) = false |- _ => rewrite Z.geb_leb in H
  end.

(** The range of every byte of the context. *)
Ltac byte_bounds :=
  repeat match goal with
  | b : byte |- _ =>
      lazymatch goal with
      | _ : 0 <= bz b < 256 |- _ => fail
      | _ => pose proof (bz_range b)
      end
  end.

(** Replace a wrapped expression by the expression where [lia] bounds it. *)
Ltac unwrap :=
  repeat first
    [ rewrite wrap_u_small by (change (2 ^ 64) with 18446744073709551616 in *;
                               change (2 ^ 32) with 4294967296 in *; lia)
    | rewrite wrap_s_small by (try change (2 ^ (64 - 1)) with 9223372036854775808 in *; lia) ].

(** ** Lists *)

Section lists.
Context {A : Type}.
Implicit Types l k : list A.

Lemma app_eq_prefix_len l1 l2 k1 k2 :
  length l1 = length l2 -> l1 ++ k1 = l2 ++ k2 -> l1 = l2 /\ k1 = k2.
Proof. intros. by apply app_inj_1. Qed.

Lemma take_drop_split n l : l = take n l ++ drop n l.
Proof. symmetry. apply take_drop. Qed.

(** Big-endian and hash fields are fixed slices of a buffer. *)
Lemma slice_app_l n l k : length l = n -> take n (l ++ k) = l.
Proof. intros <-. apply take_app_length. Qed.

Lemma slice_app_r n l k : length l = n -> drop n (l ++ k) = k.
Proof. intros <-. apply drop_app_length. Qed.
End lists.

(** [l[i..j]]. *)
Definition slice {A} (i j : nat) (l : list A) : list A := take (j - i) (drop i l).

(** The first element satisfying a test: [Iterator::find]. *)
Fixpoint find_first {A} (f : A -> bool) (l : list A) : option A :=
  match l with
  | [] => None
  | x :: l' => if f x then Some x else find_first f l'
  end.

Lemma find_first_Some {A} (f : A -> bool) l x :
  find_first f l = Some x <->
  exists l1 l2, l = l1 ++ x :: l2 /\ f x = true /\ Forall (fun y => f y = false) l1.
Proof.
  induction l as [|y l IH]; cbn.
  - split; [done|]. intros (l1 & l2 & H & _). by destruct l1.
  - destruct (f y) eqn:E; split.
    + intros [= ->]. exists [], l. auto.
    + intros (l1 & l2 & H & Hx & Hl).
      destruct l1 as [|z l1]; simplify_list_eq; [done|].
      inversion Hl; congruence.
    + intros (l1 & l2 & -> & Hx & Hl)%IH. exists (y :: l1), l2. auto.
    + intros (l1 & l2 & H & Hx & Hl). apply IH.
      destruct l1 as [|z l1]; simplify_list_eq; [congruence|].
      inversion Hl; eauto.
Qed.

Lemma find_first_None {A} (f : A -> bool) l :
  find_first f l = None <-> Forall (fun y => f y = false) l.
Proof.
  induction l as [|y l IH]; cbn; [by split|].
  rewrite Forall_cons. destruct (f y) eqn:E; [naive_solver|].
  rewrite IH. naive_solver.
Qed.

Lemma find_first_ext {A} (f g : A -> bool) l :
  (forall x, x ∈ l -> f x = g x) -> find_first f l = find_first g l.
Proof.
  induction l as [|y l IH]; cbn; [done|]. intros H.
  rewrite (H y) by set_solver. rewrite IH by set_solver. done.
Qed.

(** ** Options *)

Definition or_else {A} (o : option A) (k : unit -> option A) : option A :=
  match o with Some x => Some x | None => k tt end.

Definition is_some {A} (o : option A) : bool :=
  match o with Some _ => true | None => false end.

Lemma is_some_true {A} (o : option A) : is_some o = true <-> exists x, o = Some x.
Proof. destruct o; naive_solver. Qed.

(** ** Results: Rust's [Result] *)

Inductive result (A E : Type) : Type :=
  | Ok (a : A)
  | Err (e : E).
Arguments Ok {A E} a.
Arguments Err {A E} e.

(** ** Hints *)

Create HintDb rmbt discriminated.
#[export] Hint Resolve bz_range : rmbt.
Create Rewrite HintDb rmbt.
#[export] Hint Rewrite zb_bz : rmbt.
#[export] Hint Rewrite bz_zb_small using lia : rmbt.
