(* ===== verification/RustStr.v ===== *)
(** * The string operations of Rust's standard library the program uses

    [str] is the list of UTF-8 bytes of a Rust string.  Searching, splitting
    and comparing with an ASCII pattern work byte by byte on it; trimming
    removes the encodings of the characters with the Unicode property
    [White_Space]; integers are parsed and printed as [FromStr] and [Display]
    do.  The last part gives the laws the components use: what splitting
    returns, what trimming keeps and the round trips of printing. *)

From S2P Require Import Prelude.

(** ** Prefixes and suffixes *)

(** [s.strip_prefix(p)] *)
Fixpoint strip_prefix (p s : str) : option str :=
  match p, s with
  | [], _ => Some s
  | _ :: _, [] => None
  | x :: p', y :: s' => if decide (x = y) then strip_prefix p' s' else None
  end.

(** [s.starts_with(p)] *)
Definition starts_with (p s : str) : bool := is_some (strip_prefix p s).

(** [s.ends_with(p)] *)
Definition ends_with (p s : str) : bool := starts_with (rev p) (rev s).

Definition str_eqb (s t : str) : bool := bool_decide (s = t).

(** ** Searching and splitting *)

(** [s.split_once(p)]: around the first occurrence of [p]. *)
Fixpoint split_once (p s : str) : option (str * str) :=
  match strip_prefix p s with
  | Some r => Some ([], r)
  | None =>
      match s with
      | [] => None
      | c :: s' =>
          match split_once p s' with
          | Some (a, r) => Some (c :: a, r)
          | None => None
          end
      end
  end.

(** [s.contains(p)] *)
Definition contains (p s : str) : bool := is_some (split_once p s).

(** [s.split(p)], for a pattern that is not empty: the length of [s] bounds the
    number of occurrences. *)
Fixpoint split_fuel (fuel : nat) (p s : str) : list str :=
  match fuel with
  | O => [s]
  | S f =>
      match split_once p s with
      | Some (a, r) => a :: split_fuel f p r
      | None => [s]
      end
  end.

Definition split (p s : str) : list str := split_fuel (length s) p s.

(** [s.splitn(n, p)] *)
Fixpoint splitn (n : nat) (p s : str) : list str :=
  match n with
  | O => []
  | S O => [s]
  | S m =>
      match split_once p s with
      | Some (a, r) => a :: splitn m p r
      | None => [s]
      end
  end.

(** ** Trimming *)

(** The encodings of the characters with the property [White_Space]: U+0009 to
    U+000D, U+0020, U+0085, U+00A0, U+1680, U+2000 to U+200A, U+2028, U+2029,
    U+202F, U+205F and U+3000. *)
Definition white_space : list str :=
  [ [Byte.x09]; [Byte.x0a]; [Byte.x0b]; [Byte.x0c]; [Byte.x0d]; [Byte.x20];
    [Byte.xc2; Byte.x85]; [Byte.xc2; Byte.xa0]; [Byte.xe1; Byte.x9a; Byte.x80];
    [Byte.xe2; Byte.x80; Byte.x80]; [Byte.xe2; Byte.x80; Byte.x81];
    [Byte.xe2; Byte.x80; Byte.x82]; [Byte.xe2; Byte.x80; Byte.x83];
    [Byte.xe2; Byte.x80; Byte.x84]; [Byte.xe2; Byte.x80; Byte.x85];
    [Byte.xe2; Byte.x80; Byte.x86]; [Byte.xe2; Byte.x80; Byte.x87];
    [Byte.xe2; Byte.x80; Byte.x88]; [Byte.xe2; Byte.x80; Byte.x89];
    [Byte.xe2; Byte.x80; Byte.x8a]; [Byte.xe2; Byte.x80; Byte.xa8];
    [Byte.xe2; Byte.x80; Byte.xa9]; [Byte.xe2; Byte.x80; Byte.xaf];
    [Byte.xe2; Byte.x81; Byte.x9f]; [Byte.xe3; Byte.x80; Byte.x80] ].

(** Remove one of the patterns from the front. *)
Fixpoint strip_any (ps : list str) (s : str) : option str :=
  match ps with
  | [] => None
  | p :: ps' =>
      match strip_prefix p s with
      | Some r => Some r
      | None => strip_any ps' s
      end
  end.

Fixpoint trim_front (fuel : nat) (ps : list str) (s : str) : str :=
  match fuel with
  | O => s
  | S f =>
      match strip_any ps s with
      | Some r => trim_front f ps r
      | None => s
      end
  end.

(** [s.trim_start()], [s.trim_end()] and [s.trim()] *)
Definition trim_start (s : str) : str := trim_front (length s) white_space s.
Definition trim_end (s : str) : str :=
  rev (trim_front (length s) (map (@rev byte) white_space) (rev s)).
Definition trim (s : str) : str := trim_end (trim_start s).

(** [s.trim_end_matches(c)] for an ASCII character [c] *)
Definition trim_end_matches (c : byte) (s : str) : str :=
  rev (trim_front (length s) [[c]] (rev s)).

(** ** Lines *)

(** Remove one last byte if it is [c]. *)
Definition pop_if (c : byte) (s : str) : str :=
  if ends_with [c] s then removelast s else s.

(** [s.lines()]: a line ends with "\n" or "\r\n"; the last one may end without. *)
Fixpoint lines_fuel (fuel : nat) (s : str) : list str :=
  match fuel, s with
  | O, _ | _, [] => []
  | S f, _ =>
      match split_once [Byte.x0a] s with
      | Some (l, r) => pop_if Byte.x0d l :: lines_fuel f r
      | None => [s]
      end
  end.

Definition lines (s : str) : list str := lines_fuel (length s) s.

(** ** ASCII case *)

Definition lower (c : byte) : byte :=
  if (65 <=? bz c) && (bz c <=? 90) then zb (bz c + 32) else c.

(** [s.to_ascii_lowercase()] and [s.eq_ignore_ascii_case(t)] *)
Definition to_ascii_lowercase (s : str) : str := map lower s.
Definition eq_ignore_ascii_case (s t : str) : bool :=
  str_eqb (to_ascii_lowercase s) (to_ascii_lowercase t).

(** ** Integers *)

Definition digit_val (c : byte) : option Z :=
  if (48 <=? bz c) && (bz c <=? 57) then Some (bz c - 48) else None.

(** Horner evaluation; [None] at the first byte that is not a digit. *)
Fixpoint digits_val (acc : Z) (s : str) : option Z :=
  match s with
  | [] => Some acc
  | c :: s' =>
      match digit_val c with
      | Some d => digits_val (acc * 10 + d) s'
      | None => None
      end
  end.

Definition in_bounds (lo hi v : Z) : option Z :=
  if (lo <=? v) && (v <=? hi) then Some v else None.

(** [s.parse::<uN>()], [hi] being the largest value of the type: an optional
    "+", at least one digit and no overflow. *)
Definition parse_unsigned (hi : Z) (s : str) : option Z :=
  match s with
  | [] => None
  | c :: s' =>
      if decide (c = Byte.x2b) then
        match s' with
        | [] => None
        | _ => digits_val 0 s' ≫= in_bounds 0 hi
        end
      else digits_val 0 s ≫= in_bounds 0 hi
  end.

(** [s.parse::<iN>()] *)
Definition parse_signed (lo hi : Z) (s : str) : option Z :=
  match s with
  | [] => None
  | c :: s' =>
      if decide (c = Byte.x2b) then
        match s' with
        | [] => None
        | _ => digits_val 0 s' ≫= in_bounds lo hi
        end
      else if decide (c = Byte.x2d) then
        match s' with
        | [] => None
        | _ => digits_val 0 s' ≫= fun v => in_bounds lo hi (- v)
        end
      else digits_val 0 s ≫= in_bounds lo hi
  end.

Definition digit (d : Z) : byte := zb (48 + d).

Fixpoint show_fuel (fuel : nat) (n : Z) (acc : str) : str :=
  match fuel with
  | O => acc
  | S f =>
      let acc' := digit (n mod 10) :: acc in
      if n <? 10 then acc' else show_fuel f (n / 10) acc'
  end.

(** [Display] of an unsigned and of a signed integer *)
Definition show_unsigned (n : Z) : str := show_fuel (S (Z.to_nat (Z.log2 n))) n [].
Definition show_int (n : Z) : str :=
  if n <? 0 then Byte.x2d :: show_unsigned (- n) else show_unsigned n.

(** ** Hexadecimal *)

(** A digit of [{:x}]. *)
Definition hex_digit (d : Z) : byte := if d <? 10 then zb (48 + d) else zb (87 + d).

(** [{:0wx}]: the low [w] hexadecimal digits. *)
Fixpoint hex_pad (w : nat) (n : Z) : str :=
  match w with
  | O => []
  | S w' => hex_pad w' (n / 16) ++ [hex_digit (n mod 16)]
  end.

(** The number of hexadecimal digits of [n]. *)
Fixpoint hex_len (fuel : nat) (n : Z) : nat :=
  match fuel with
  | O => 1
  | S f => if n <? 16 then 1 else S (hex_len f (n / 16))
  end.

(** [{:x}] of a [u16] *)
Definition show_hex (n : Z) : str := hex_pad (hex_len 4 n) n.

(** [char::to_digit(16)] *)
Definition hex_val (c : byte) : option Z :=
  let v := bz c in
  if (48 <=? v) && (v <=? 57) then Some (v - 48)
  else if (97 <=? v) && (v <=? 102) then Some (v - 87)
  else if (65 <=? v) && (v <=? 70) then Some (v - 55)
  else None.

(** [u8::is_ascii_hexdigit] *)
Definition is_ascii_hexdigit (c : byte) : bool := is_some (hex_val c).

(** ** UTF-8 *)

Definition between (lo hi : Z) (c : byte) : bool := (lo <=? bz c) && (bz c <=? hi).
Definition cont : byte -> bool := between 128 191.

(** The expected second byte of a sequence of three or four bytes. *)
Definition second_ok (b0 b1 : byte) : bool :=
  let v := bz b0 in
  if v =? 0xE0 then between 0xA0 0xBF b1
  else if v =? 0xED then between 0x80 0x9F b1
  else if v =? 0xF0 then between 0x90 0xBF b1
  else if v =? 0xF4 then between 0x80 0x8F b1
  else cont b1.

(** The width announced by a first byte; 0 for a byte that cannot start a
    character. *)
Definition lead_width (b0 : byte) : nat :=
  if between 0 127 b0 then 1
  else if between 0xC2 0xDF b0 then 2
  else if between 0xE0 0xEF b0 then 3
  else if between 0xF0 0xF4 b0 then 4
  else 0.

(** Scan one character: [inl n], a valid character of [n] bytes; [inr n], the
    first [n] bytes are an invalid sequence. *)
Definition utf8_step (s : str) : option (nat + nat) :=
  match s with
  | [] => None
  | b0 :: s1 =>
      Some (match lead_width b0 with
            | 1%nat => inl 1%nat
            | 2%nat =>
                match s1 with
                | b1 :: _ => if cont b1 then inl 2%nat else inr 1%nat
                | [] => inr 1%nat
                end
            | 3%nat =>
                match s1 with
                | b1 :: s2 =>
                    if second_ok b0 b1 then
                      match s2 with
                      | b2 :: _ => if cont b2 then inl 3%nat else inr 2%nat
                      | [] => inr 2%nat
                      end
                    else inr 1%nat
                | [] => inr 1%nat
                end
            | 4%nat =>
                match s1 with
                | b1 :: s2 =>
                    if second_ok b0 b1 then
                      match s2 with
                      | b2 :: s3 =>
                          if cont b2 then
                            match s3 with
                            | b3 :: _ => if cont b3 then inl 4%nat else inr 3%nat
                            | [] => inr 3%nat
                            end
                          else inr 2%nat
                      | [] => inr 2%nat
                      end
                    else inr 1%nat
                | [] => inr 1%nat
                end
            | _ => inr 1%nat
            end)
  end.

Fixpoint utf8_fuel (fuel : nat) (s : str) : bool :=
  match fuel with
  | O => true
  | S f =>
      match utf8_step s with
      | None => true
      | Some (inl n) => utf8_fuel f (drop n s)
      | Some (inr _) => false
      end
  end.

(** [std::str::from_utf8(s).is_ok()] *)
Definition utf8_valid (s : str) : bool := utf8_fuel (length s) s.

(** [String::from_utf8(s)] *)
Definition from_utf8 (s : str) : option str := if utf8_valid s then Some s else None.

(** U+FFFD *)
Definition replacement : str := [Byte.xef; Byte.xbf; Byte.xbd].

Fixpoint lossy_fuel (fuel : nat) (s : str) : str :=
  match fuel with
  | O => []
  | S f =>
      match utf8_step s with
      | None => []
      | Some (inl n) => take n s ++ lossy_fuel f (drop n s)
      | Some (inr n) => replacement ++ lossy_fuel f (drop n s)
      end
  end.

(** [String::from_utf8_lossy(s)] *)
Definition from_utf8_lossy (s : str) : str := lossy_fuel (length s) s.

(** * Laws *)

(** ** Prefixes, searching and splitting *)

Lemma strip_prefix_Some p s r : strip_prefix p s = Some r <-> s = p ++ r.
Proof.
  revert s. induction p as [|x p IH]; intros s; cbn; [split; congruence|].
  destruct s as [|y s]; cbn; [split; congruence|].
  destruct (decide (x = y)) as [->|Hne].
  - rewrite IH. split; congruence.
  - split; congruence.
Qed.

Lemma strip_prefix_app p r : strip_prefix p (p ++ r) = Some r.
Proof. by apply strip_prefix_Some. Qed.

Lemma starts_with_true p s : starts_with p s = true <-> exists r, s = p ++ r.
Proof.
  unfold starts_with. rewrite is_some_true.
  split; intros [r H]; exists r; by apply strip_prefix_Some.
Qed.

Lemma starts_with_app p r : starts_with p (p ++ r) = true.
Proof. apply starts_with_true. eauto. Qed.

Lemma ends_with_true p s : ends_with p s = true <-> exists r, s = r ++ p.
Proof.
  unfold ends_with. rewrite starts_with_true. split; intros [r H].
  - exists (rev r). rewrite <- (rev_involutive s), H, rev_app_distr, rev_involutive. done.
  - exists (rev r). by rewrite H, rev_app_distr.
Qed.

Lemma str_eqb_true s t : str_eqb s t = true <-> s = t.
Proof. apply bool_decide_eq_true. Qed.

Lemma str_eqb_false s t : str_eqb s t = false <-> s <> t.
Proof. apply bool_decide_eq_false. Qed.

Lemma str_eqb_refl s : str_eqb s s = true.
Proof. by apply str_eqb_true. Qed.

(** What a successful split returns, and that it splits at the first place. *)
Lemma split_once_Some p s a r :
  split_once p s = Some (a, r) -> s = a ++ p ++ r.
Proof.
  revert a r. induction s as [|c s IH]; intros a r; cbn.
  - destruct (strip_prefix p []) eqn:E; intros [=]; subst.
    by apply strip_prefix_Some in E.
  - destruct (strip_prefix p (c :: s)) eqn:E.
    + intros [=]; subst. by apply strip_prefix_Some in E.
    + destruct (split_once p s) as [[a' r']|] eqn:E'; intros [=]; subst.
      by rewrite (IH a' r).
Qed.

Lemma split_once_head c p a r :
  c ∉ a -> split_once (c :: p) (a ++ c :: p ++ r) = Some (a, r).
Proof.
  induction a as [|x a IH]; intros Hc.
  - cbn. destruct (decide (c = c)); [|done]. by rewrite strip_prefix_app.
  - cbn. apply not_elem_of_cons in Hc as [Hx Ha].
    destruct (decide (c = x)); [done|]. by rewrite IH.
Qed.

(** The same where only the second byte of the pattern is absent before it. *)
Lemma split_once_second c d p a r :
  d ∉ a -> c <> d ->
  split_once (c :: d :: p) (a ++ c :: d :: p ++ r) = Some (a, r).
Proof.
  intros Hd Hcd. induction a as [|x a IH].
  - cbn. destruct (decide (c = c)); [|done]. destruct (decide (d = d)); [|done].
    by rewrite strip_prefix_app.
  - apply not_elem_of_cons in Hd as [Hx Ha]. cbn.
    destruct (decide (c = x)) as [->|]; [|by rewrite IH].
    destruct a as [|y a]; cbn in *.
    + destruct (decide (d = x)); [congruence|]. by rewrite IH.
    + apply not_elem_of_cons in Ha as [Hy Ha].
      destruct (decide (d = y)); [congruence|]. by rewrite IH by set_solver.
Qed.

Lemma split_once_None_notin c p s : c ∉ s -> c ∈ p -> split_once p s = None.
Proof.
  intros Hs Hp. destruct (split_once p s) as [[a r]|] eqn:E; [|done].
  apply split_once_Some in E. subst. set_solver.
Qed.

Lemma split_once_char_Some c s a r :
  split_once [c] s = Some (a, r) <-> s = a ++ c :: r /\ c ∉ a.
Proof.
  split.
  - intros H. split; [by apply split_once_Some in H|].
    revert a r H. induction s as [|x s IH]; intros a r; cbn; [done|].
    destruct (decide (c = x)); [intros [=]; subst; set_solver|].
    destruct (split_once [c] s) as [[a' r']|]; intros [=]; subst.
    specialize (IH a' r eq_refl). set_solver.
  - intros [-> Ha]. by apply (split_once_head c []).
Qed.

Lemma split_once_char_None c s : split_once [c] s = None <-> c ∉ s.
Proof.
  split; [|intros; eapply split_once_None_notin; set_solver].
  induction s as [|x s IH]; cbn; [set_solver|].
  destruct (decide (c = x)) as [|]; [done|].
  destruct (split_once [c] s) as [[a r]|]; [done|]. set_solver.
Qed.

Lemma splitn3_fields c x y z :
  c ∉ x -> c ∉ y -> splitn 3 [c] (x ++ c :: y ++ c :: z) = [x; y; z].
Proof.
  intros Hx Hy. cbn [splitn].
  rewrite (proj2 (split_once_char_Some c _ x (y ++ c :: z))) by done.
  by rewrite (proj2 (split_once_char_Some c _ y z)).
Qed.

Lemma splitn3_inv c s x y z :
  splitn 3 [c] s = [x; y; z] -> s = x ++ c :: y ++ c :: z /\ (c ∉ x) /\ (c ∉ y).
Proof.
  cbn [splitn]. destruct (split_once [c] s) as [[a r]|] eqn:E; [|done].
  destruct (split_once [c] r) as [[a' r']|] eqn:E'; [|done].
  intros [=]; subst. apply split_once_char_Some in E as [-> ?].
  apply split_once_char_Some in E' as [-> ?]. done.
Qed.

Lemma contains_app p a r : contains p (a ++ p ++ r) = true.
Proof.
  unfold contains. apply is_some_true.
  induction a as [|c a IH]; cbn.
  - destruct p as [|c p]; cbn; [by destruct r; eauto|].
    destruct (decide (c = c)); [|done]. rewrite strip_prefix_app. eauto.
  - destruct (strip_prefix p (c :: a ++ p ++ r)); [eauto|].
    destruct IH as [[u v] ->]. eauto.
Qed.

Lemma contains_true p s : contains p s = true <-> exists a r, s = a ++ p ++ r.
Proof.
  split.
  - intros [[a r] H]%is_some_true. apply split_once_Some in H. eauto.
  - intros (a & r & ->). apply contains_app.
Qed.

Lemma contains_cons p c s : contains p (c :: s) = false -> contains p s = false.
Proof.
  intros H. apply not_true_iff_false. intros (a & r & ->)%contains_true.
  assert (E : contains p ((c :: a) ++ p ++ r) = true) by apply contains_app. cbn [app] in E. congruence.
Qed.

(** A part of a string contains what the string does not contain neither. *)
Lemma contains_part p a s b : contains p (a ++ s ++ b) = false -> contains p s = false.
Proof.
  intros H. apply not_true_iff_false. intros (u & v & ->)%contains_true.
  assert (E : contains p ((a ++ u) ++ p ++ (v ++ b)) = true) by apply contains_app.
  rewrite <- !app_assoc in *. congruence.
Qed.

(** What is in front of the first occurrence does not contain the pattern. *)
Lemma split_once_first p s a r : split_once p s = Some (a, r) -> p <> [] -> contains p a = false.
Proof.
  intros E Hp. revert a E. induction s as [|c s IH]; intros a; cbn [split_once].
  - destruct (strip_prefix p []) eqn:E; [|done]. intros [= <- <-]. by destruct p.
  - destruct (strip_prefix p (c :: s)) as [r'|] eqn:E.
    { intros [= <- <-]. by destruct p. }
    destruct (split_once p s) as [[a' r']|] eqn:Es; [|done]. intros [= <- ->].
    specialize (IH a' eq_refl). unfold contains in *. cbn [split_once].
    destruct (strip_prefix p (c :: a')) as [x|] eqn:E2.
    + exfalso. apply strip_prefix_Some in E2. apply split_once_Some in Es. subst s.
      rewrite app_comm_cons, E2, <- app_assoc, strip_prefix_app in E. done.
    + by destruct (split_once p a').
Qed.

Lemma split_pieces p s : p <> [] -> Forall (fun x => contains p x = false) (split p s).
Proof.
  intros Hp. unfold split. assert (Hl : (length s <= length s)%nat) by done. revert Hl.
  generalize (length s) at 2 3. intros n. revert s. induction n as [|n IH]; intros s Hl; cbn [split_fuel].
  - destruct s; [|cbn in Hl; lia]. constructor; [|done]. by destruct p.
  - destruct (split_once p s) as [[a r]|] eqn:E.
    + constructor; [by eapply split_once_first|]. apply IH. apply split_once_Some in E as ->.
      rewrite !length_app in Hl. destruct p; [done|cbn in Hl; lia].
    + constructor; [|done]. unfold contains. by rewrite E.
Qed.

(** The pieces of a split, joined with the pattern, give the string back. *)
Fixpoint join (p : str) (l : list str) : str :=
  match l with
  | [] => []
  | [s] => s
  | s :: l' => s ++ p ++ join p l'
  end.

Lemma split_fuel_nonempty f p s : split_fuel f p s <> [].
Proof. destruct f; cbn; [done|]. by destruct (split_once p s) as [[??]|]. Qed.

Lemma join_split_fuel f p s : join p (split_fuel f p s) = s.
Proof.
  revert s. induction f as [|f IH]; intros s; cbn; [done|].
  destruct (split_once p s) as [[a r]|] eqn:E; [|done].
  apply split_once_Some in E as ->. cbn.
  pose proof (split_fuel_nonempty f p r).
  destruct (split_fuel f p r) eqn:E'; [done|]. by rewrite <- E', IH.
Qed.

Lemma join_split p s : join p (split p s) = s.
Proof. apply join_split_fuel. Qed.

Lemma split_char_fuel c f s :
  (length s <= f)%nat -> Forall (fun x => c ∉ x) (split_fuel f [c] s).
Proof.
  revert s. induction f as [|f IH]; intros s Hf; cbn.
  - destruct s; cbn in Hf; [|lia]. repeat constructor. set_solver.
  - destruct (split_once [c] s) as [[a r]|] eqn:E.
    + apply split_once_char_Some in E as [-> ?]. constructor; [done|].
      apply IH. rewrite length_app in Hf. cbn [length] in Hf. lia.
    + constructor; [|done]. by apply split_once_char_None.
Qed.

Lemma split_char_pieces c s : Forall (fun x => c ∉ x) (split [c] s).
Proof. by apply split_char_fuel. Qed.

(** The first piece of a split at a byte. *)
Lemma split_char_first c x r : c ∉ x -> exists l, split [c] (x ++ c :: r) = x :: l.
Proof.
  intros Hx. unfold split. rewrite length_app. cbn [length].
  replace (length x + S (length r))%nat with (S (length x + length r)) by lia.
  cbn [split_fuel]. rewrite (proj2 (split_once_char_Some c _ x r)) by done. eauto.
Qed.

(** ** Trimming *)

(** The printable ASCII characters: none of them starts or ends the encoding of
    a white space. *)
Definition graphic (c : byte) : bool := (33 <=? bz c) && (bz c <=? 126).

Lemma strip_any_graphic ps c s :
  Forall (fun p => match p with [] => False | x :: _ => graphic x = false end) ps ->
  graphic c = true -> strip_any ps (c :: s) = None.
Proof.
  intros Hps Hc. induction Hps as [|p ps Hp _ IH]; cbn; [done|].
  destruct p as [|x p]; [done|]. cbn.
  destruct (decide (x = c)); [congruence|]. done.
Qed.

Lemma white_space_graphic :
  Forall (fun p => match p with [] => False | x :: _ => graphic x = false end) white_space.
Proof. repeat constructor. Qed.

Lemma white_space_rev_graphic :
  Forall (fun p => match p with [] => False | x :: _ => graphic x = false end)
    (map (@rev byte) white_space).
Proof. repeat constructor. Qed.

Lemma trim_start_graphic c s : graphic c = true -> trim_start (c :: s) = c :: s.
Proof.
  intros Hc. unfold trim_start. cbn [length trim_front].
  by rewrite strip_any_graphic by (apply white_space_graphic || done).
Qed.

Lemma trim_end_graphic c s : graphic c = true -> trim_end (s ++ [c]) = s ++ [c].
Proof.
  intros Hc. unfold trim_end. rewrite rev_app_distr, length_app.
  replace (length s + length [c])%nat with (S (length s)) by (cbn; lia).
  cbn [rev app trim_front].
  rewrite strip_any_graphic by (apply white_space_rev_graphic || done).
  cbn. by rewrite rev_involutive.
Qed.

Lemma trim_graphic s : s <> [] -> Forall (fun c => graphic c = true) s -> trim s = s.
Proof.
  intros Hne Hs. unfold trim. destruct s as [|c s]; [done|].
  rewrite trim_start_graphic by (by inversion Hs).
  destruct (exists_last Hne) as (s' & d & E). rewrite E in *.
  apply Forall_app in Hs as [_ Hd]. apply trim_end_graphic. by inversion Hd.
Qed.

(** Text that starts and ends with a graphic character is not trimmed. *)
Lemma trim_text s : Forall (fun c => graphic c = true) s -> trim s = s.
Proof. destruct s; [done|]. by apply trim_graphic. Qed.

Lemma trim_ends c s d t :
  graphic c = true -> graphic d = true -> c :: s = t ++ [d] -> trim (c :: s) = c :: s.
Proof.
  intros Hc Hd E. unfold trim. rewrite trim_start_graphic by done. rewrite E. by apply trim_end_graphic.
Qed.

Lemma strip_any_suffix ps s r : strip_any ps s = Some r -> exists p, s = p ++ r.
Proof.
  induction ps as [|p ps IH]; cbn; [done|].
  destruct (strip_prefix p s) eqn:E; [|done]. intros [=]; subst.
  apply strip_prefix_Some in E. eauto.
Qed.

Lemma trim_front_suffix f ps s : exists p, s = p ++ trim_front f ps s.
Proof.
  revert s. induction f as [|f IH]; intros s; cbn; [by exists []|].
  destruct (strip_any ps s) as [r|] eqn:E; [|by exists []].
  apply strip_any_suffix in E as [p ->]. destruct (IH r) as [q Hq].
  exists (p ++ q). by rewrite <- app_assoc, <- Hq.
Qed.

(** Trimming keeps a segment of the string. *)
Lemma trim_segment s : exists a b, s = a ++ trim s ++ b.
Proof.
  unfold trim, trim_end, trim_start.
  destruct (trim_front_suffix (length s) white_space s) as [a Ha].
  set (t := trim_front _ _ s) in *.
  destruct (trim_front_suffix (length t) (map (@rev byte) white_space) (rev t)) as [b Hb].
  exists a, (rev b). rewrite <- rev_app_distr, <- Hb, rev_involutive. done.
Qed.

Lemma length_trim s : (length (trim s) <= length s)%nat.
Proof.
  destruct (trim_segment s) as (a & b & E). rewrite E at 2. rewrite !length_app. lia.
Qed.

(** ** Integers: printing and parsing are inverse *)

Lemma digit_val_digit d : 0 <= d < 10 -> digit_val (digit d) = Some d.
Proof.
  intros Hd. unfold digit_val, digit. rewrite bz_zb_small by lia.
  destruct (Z.leb_spec 48 (48 + d)); [|lia].
  destruct (Z.leb_spec (48 + d) 57); [|lia]. cbn. f_equal. lia.
Qed.

Lemma digits_val_cons_digit acc d s :
  0 <= d < 10 -> digits_val acc (digit d :: s) = digits_val (acc * 10 + d) s.
Proof. intros. cbn [digits_val]. by rewrite digit_val_digit. Qed.

Lemma digits_val_show f n acc :
  0 <= n < 2 ^ Z.of_nat f -> (0 < f)%nat ->
  digits_val 0 (show_fuel f n acc) = digits_val n acc.
Proof.
  revert n acc. induction f as [|f IH]; intros n acc Hn Hf; [lia|]. cbn [show_fuel].
  pose proof (Z.mod_pos_bound n 10 ltac:(lia)).
  destruct (Z.ltb_spec n 10).
  - rewrite digits_val_cons_digit by lia. by rewrite Z.mod_small by lia.
  - rewrite Nat2Z.inj_succ, Z.pow_succ_r in Hn by lia.
    assert (n / 10 < 2 ^ Z.of_nat f) by (apply Z.div_lt_upper_bound; lia).
    destruct f as [|f]; [cbn in *; lia|].
    rewrite IH; [|split; [apply Z.div_pos; lia|done]|lia].
    rewrite digits_val_cons_digit by lia. f_equal.
    rewrite (Z.div_mod n 10) at 3 by lia. lia.
Qed.

Lemma show_unsigned_fuel n : 0 <= n -> n < 2 ^ Z.of_nat (S (Z.to_nat (Z.log2 n))).
Proof.
  intros Hn. pose proof (Z.log2_nonneg n).
  rewrite Nat2Z.inj_succ, Z2Nat.id by lia.
  destruct (Z.eq_dec n 0) as [->|]; [done|]. apply Z.log2_spec. lia.
Qed.

Lemma digits_val_show_unsigned n : 0 <= n -> digits_val 0 (show_unsigned n) = Some n.
Proof.
  intros Hn. unfold show_unsigned. rewrite digits_val_show; [done| |lia].
  split; [done|]. by apply show_unsigned_fuel.
Qed.

(** The printed number is not empty and made of digits. *)
Definition is_digit (c : byte) : bool := (48 <=? bz c) && (bz c <=? 57).

Lemma digit_is_digit d : 0 <= d < 10 -> is_digit (digit d) = true.
Proof. intros. unfold is_digit, digit. rewrite bz_zb_small by lia. lia. Qed.

Lemma show_fuel_digits f n acc :
  Forall (fun c => is_digit c = true) acc ->
  Forall (fun c => is_digit c = true) (show_fuel f n acc).
Proof.
  revert n acc. induction f as [|f IH]; intros n acc Hacc; [done|]. cbn [show_fuel].
  pose proof (Z.mod_pos_bound n 10 ltac:(lia)).
  assert (Forall (fun c => is_digit c = true) (digit (n mod 10) :: acc)).
  { constructor; [by apply digit_is_digit|done]. }
  destruct (n <? 10); auto.
Qed.

Lemma show_unsigned_digits n : Forall (fun c => is_digit c = true) (show_unsigned n).
Proof. by apply show_fuel_digits. Qed.

Lemma show_fuel_nonempty f n acc : acc <> [] -> show_fuel f n acc <> [].
Proof.
  revert n acc. induction f as [|f IH]; intros n acc H; [done|]. cbn [show_fuel].
  destruct (n <? 10); [done|]. by apply IH.
Qed.

Lemma show_unsigned_nonempty n : show_unsigned n <> [].
Proof.
  unfold show_unsigned. cbn [show_fuel]. destruct (n <? 10); [done|].
  by apply show_fuel_nonempty.
Qed.

Lemma is_digit_range c : is_digit c = true -> 48 <= bz c <= 57.
Proof. unfold is_digit. lia. Qed.

Lemma is_digit_neq c d : is_digit c = true -> is_digit d = false -> c <> d.
Proof. intros H1 H2 ->. congruence. Qed.

Lemma digits_notin c s :
  Forall (fun x => is_digit x = true) s -> is_digit c = false -> c ∉ s.
Proof.
  intros Hs Hc Hin. rewrite Forall_forall in Hs.
  by rewrite (Hs c Hin) in Hc.
Qed.

Lemma digits_graphic s :
  Forall (fun x => is_digit x = true) s -> Forall (fun x => graphic x = true) s.
Proof.
  intros H. eapply Forall_impl; [exact H|]. intros c Hc%is_digit_range.
  unfold graphic. lia.
Qed.

Lemma parse_unsigned_digits hi s :
  s <> [] -> Forall (fun c => is_digit c = true) s ->
  parse_unsigned hi s = digits_val 0 s ≫= in_bounds 0 hi.
Proof.
  intros Hne Hs. destruct s as [|c s]; [done|]. cbn [parse_unsigned].
  destruct (decide (c = Byte.x2b)) as [->|]; [|done].
  inversion Hs; discriminate.
Qed.

Lemma parse_signed_digits lo hi s :
  s <> [] -> Forall (fun c => is_digit c = true) s ->
  parse_signed lo hi s = digits_val 0 s ≫= in_bounds lo hi.
Proof.
  intros Hne Hs. destruct s as [|c s]; [done|]. cbn [parse_signed].
  destruct (decide (c = Byte.x2b)) as [->|]; [inversion Hs; discriminate|].
  destruct (decide (c = Byte.x2d)) as [->|]; [inversion Hs; discriminate|done].
Qed.

Lemma in_bounds_Some lo hi v w : in_bounds lo hi v = Some w <-> w = v /\ lo <= v <= hi.
Proof. unfold in_bounds. case_one; to_prop; naive_solver lia. Qed.

Lemma in_bounds_intro lo hi v : lo <= v <= hi -> in_bounds lo hi v = Some v.
Proof. intros. by apply in_bounds_Some. Qed.

Lemma parse_show_unsigned hi n :
  0 <= n <= hi -> parse_unsigned hi (show_unsigned n) = Some n.
Proof.
  intros Hn. rewrite parse_unsigned_digits
    by (apply show_unsigned_nonempty || apply show_unsigned_digits).
  rewrite digits_val_show_unsigned by lia. cbn. by apply in_bounds_intro.
Qed.

Lemma parse_signed_show lo hi n :
  0 <= n -> lo <= n <= hi -> parse_signed lo hi (show_unsigned n) = Some n.
Proof.
  intros Hn Hb. rewrite parse_signed_digits
    by (apply show_unsigned_nonempty || apply show_unsigned_digits).
  rewrite digits_val_show_unsigned by lia. cbn. by apply in_bounds_intro.
Qed.

(** Whatever was parsed lies in the type. *)
Lemma parse_unsigned_range hi s n : parse_unsigned hi s = Some n -> 0 <= n <= hi.
Proof.
  unfold parse_unsigned. intros H.
  repeat case_one_in H; simplify_eq/=;
    apply bind_Some in H as (v & _ & [-> ?]%in_bounds_Some); lia.
Qed.

Lemma digits_val_bound s acc v :
  0 <= acc -> digits_val acc s = Some v -> 0 <= v < (acc + 1) * 10 ^ len s.
Proof.
  revert acc. induction s as [|c s IH]; intros acc Ha; cbn [digits_val length].
  - intros [= <-]. change (len (@nil byte)) with 0. lia.
  - destruct (digit_val c) as [d|] eqn:Ed; [|done].
    unfold digit_val in Ed. case_one_in Ed; simplify_eq. to_prop.
    intros Hv%IH; [|lia]. rewrite Nat2Z.inj_succ, Z.pow_succ_r by lia.
    pose proof (Z.pow_pos_nonneg 10 (len s) ltac:(lia) ltac:(lia)). nia.
Qed.

(** A number of [n] bytes is below [10^n]. *)
Lemma parse_signed_bound lo hi s v :
  parse_signed lo hi s = Some v -> - 10 ^ len s < v < 10 ^ len s.
Proof.
  assert (Hmono : forall t c, 10 ^ len t <= 10 ^ len (c :: t : str)).
  { intros. apply Z.pow_le_mono_r; cbn [length]; lia. }
  unfold parse_signed. intros H. destruct s as [|c s]; [done|].
  specialize (Hmono s c).
  assert (Hz : forall acc w, digits_val 0 acc = Some w -> 0 <= w < 10 ^ len acc).
  { intros acc w Hw%digits_val_bound; lia. }
  destruct (decide (c = Byte.x2b)); [|destruct (decide (c = Byte.x2d))].
  - destruct s as [|d s]; [done|].
    apply bind_Some in H as (w & Hw%Hz & [-> ?]%in_bounds_Some). lia.
  - destruct s as [|d s]; [done|].
    apply bind_Some in H as (w & Hw%Hz & [-> ?]%in_bounds_Some). lia.
  - apply bind_Some in H as (w & Hw%Hz & [-> ?]%in_bounds_Some). lia.
Qed.

(** ** Hexadecimal digits *)

Lemma hex_val_hex_digit d : 0 <= d < 16 -> hex_val (hex_digit d) = Some d.
Proof.
  intros Hd. unfold hex_digit, hex_val.
  destruct (Z.ltb_spec d 10); rewrite bz_zb_small by lia;
    repeat case_one; to_prop; f_equal; lia.
Qed.

Lemma hex_val_range c v : hex_val c = Some v -> 0 <= v < 16.
Proof. unfold hex_val. intros H. repeat case_one_in H; simplify_eq; to_prop; lia. Qed.

Lemma length_hex_pad w n : length (hex_pad w n) = w.
Proof. revert n. induction w as [|w IH]; intros n; cbn; [done|]. rewrite length_app, IH. cbn. lia. Qed.

(** ** UTF-8 *)

Lemma utf8_step_inl s n : utf8_step s = Some (inl n) -> (1 <= n <= length s)%nat.
Proof.
  unfold utf8_step. destruct s as [|b0 s1]; [done|]. intros [= H].
  repeat case_one_in H; simplify_eq; cbn [length]; lia.
Qed.

Lemma lossy_fuel_valid f s :
  (length s <= f)%nat -> utf8_fuel f s = true -> lossy_fuel f s = s.
Proof.
  revert s. induction f as [|f IH]; intros s Hf; cbn [lossy_fuel utf8_fuel].
  { by destruct s; [|cbn in Hf; lia]. }
  destruct (utf8_step s) as [[n|n]|] eqn:E; [|done|].
  - apply utf8_step_inl in E. intros H. rewrite IH; [by apply take_drop| |done].
    rewrite length_drop. lia.
  - by destruct s.
Qed.

(** Valid text is unchanged by the lossy conversion. *)
Lemma from_utf8_lossy_valid s : utf8_valid s = true -> from_utf8_lossy s = s.
Proof. by apply lossy_fuel_valid. Qed.

Lemma utf8_step_app s t n : utf8_step s = Some (inl n) -> utf8_step (s ++ t) = Some (inl n).
Proof.
  destruct s as [|b0 s]; [done|]. cbn [app utf8_step]. intros [= H]. do 2 f_equal.
  destruct (lead_width b0) as [|[|[|[|[|w]]]]]; try done;
    (destruct s as [|b1 s]; [done|]); cbn [app]; [done|..];
    (destruct (second_ok b0 b1); [|done]); (destruct s as [|b2 s]; [done|]); cbn [app]; [done|];
    (destruct (cont b2); [|done]); by destruct s.
Qed.

Lemma utf8_fuel_app f g s t :
  (length s <= f)%nat -> utf8_fuel f s = true -> utf8_fuel g t = true ->
  (length t <= g)%nat -> utf8_fuel (f + g) (s ++ t) = true.
Proof.
  intros Hf Hs Ht Hg. revert s Hf Hs. induction f as [|f IH]; intros s Hf Hs.
  - by destruct s; [|cbn in Hf; lia].
  - destruct s as [|b s].
    + cbn [app]. clear -Ht Hg. revert t Ht Hg. generalize (S f) as k.
      induction g as [|g IH]; intros k t Ht Hg.
      { destruct t; [|cbn in Hg; lia]. by destruct k. }
      rewrite Nat.add_succ_r. cbn [utf8_fuel] in *.
      destruct (utf8_step t) as [[n|n]|] eqn:E; try done.
      apply utf8_step_inl in E. apply IH; [done|]. rewrite length_drop. lia.
    + cbn [utf8_fuel Nat.add] in *.
      destruct (utf8_step (b :: s)) as [[n|n]|] eqn:E; [|done|by destruct s].
      rewrite (utf8_step_app _ t _ E). apply utf8_step_inl in E.
      rewrite drop_app_le by lia. apply IH; [rewrite length_drop; cbn in *; lia|done].
Qed.

Lemma utf8_valid_app s t :
  utf8_valid s = true -> utf8_valid t = true -> utf8_valid (s ++ t) = true.
Proof. intros. unfold utf8_valid. rewrite length_app. by apply utf8_fuel_app. Qed.

Definition ascii (c : byte) : bool := bz c <=? 127.

Lemma utf8_fuel_ascii f s : Forall (fun c => ascii c = true) s -> utf8_fuel f s = true.
Proof.
  revert s. induction f as [|f IH]; intros s Hs; cbn [utf8_fuel]; [done|].
  destruct Hs as [|c s Hc Hs]; [done|]. cbn [utf8_step].
  assert (lead_width c = 1%nat) as ->; [|by apply IH].
  unfold lead_width, between, ascii in *. pose proof (bz_range c).
  case_one; to_prop; [done|lia].
Qed.

Lemma utf8_valid_ascii s : Forall (fun c => ascii c = true) s -> utf8_valid s = true.
Proof. apply utf8_fuel_ascii. Qed.

Lemma graphic_ascii s :
  Forall (fun c => graphic c = true) s -> Forall (fun c => ascii c = true) s.
Proof.
  intros H. eapply Forall_impl; [exact H|]. unfold graphic, ascii. intros c Hc. lia.
Qed.

(** ** Lengths of printed integers *)

Lemma length_show_fuel f k n acc :
  0 <= n < 10 ^ Z.of_nat k -> (0 < k)%nat ->
  (length (show_fuel f n acc) <= k + length acc)%nat.
Proof.
  revert k n acc. induction f as [|f IH]; intros k n acc Hn Hk; cbn [show_fuel]; [lia|].
  destruct (Z.ltb_spec n 10); [cbn [length]; lia|].
  destruct k as [|k]; [lia|].
  rewrite Nat2Z.inj_succ, Z.pow_succ_r in Hn by lia.
  destruct k as [|k]; [change (10 ^ Z.of_nat 0) with 1 in Hn; lia|].
  etransitivity; [apply (IH (S k))|cbn [length]; lia]; [|lia].
  split; [apply Z.div_pos; lia|apply Z.div_lt_upper_bound; lia].
Qed.

Lemma length_show_unsigned k n :
  0 <= n < 10 ^ Z.of_nat k -> (0 < k)%nat -> (length (show_unsigned n) <= k)%nat.
Proof.
  intros Hn Hk. unfold show_unsigned.
  pose proof (length_show_fuel (S (Z.to_nat (Z.log2 n))) k n [] Hn Hk) as Hl.
  cbn [length] in Hl. lia.
Qed.

Lemma show_int_nonneg n : 0 <= n -> show_int n = show_unsigned n.
Proof. intros Hn. unfold show_int. destruct (Z.ltb_spec n 0); [lia|done]. Qed.
