(* ===== verification/Net.v ===== *)
(** * Addresses: what the program uses of [std::net]

    [IpAddr] and [SocketAddr] with their classification ([is_private] and the
    like), the IPv4-mapped form, [Display] and the parser behind [FromStr].
    The parser follows the standard library's recursive descent parser: each
    [read_*] function consumes a prefix of the input or fails without
    consuming anything. *)

From stdpp Require Import vector.
From S2P Require Import Prelude RustStr.

(** ** Addresses *)

Inductive IpAddr : Type :=
  | V4 (a b c d : byte)
  | V6 (o : vec byte 16).

#[export] Instance IpAddr_eq_dec : EqDecision IpAddr.
Proof. solve_decision. Defined.

(** [a.octets()] *)
Definition octets (ip : IpAddr) : list byte :=
  match ip with
  | V4 a b c d => [a; b; c; d]
  | V6 o => vec_to_list o
  end.

Definition be16 (hi lo : byte) : Z := bz hi * 256 + bz lo.

Fixpoint be16s (l : list byte) : list Z :=
  match l with
  | hi :: lo :: l' => be16 hi lo :: be16s l'
  | _ => []
  end.

(** [a.segments()] *)
Definition segments (o : vec byte 16) : list Z := be16s (vec_to_list o).

(** The [i]-th segment. *)
Definition segment (i : nat) (o : vec byte 16) : Z := nth i (segments o) 0.

(** [Ipv4Addr::to_ipv6_mapped]: [::ffff:a.b.c.d] *)
Definition to_ipv6_mapped (a b c d : byte) : vec byte 16 :=
  [# Byte.x00; Byte.x00; Byte.x00; Byte.x00; Byte.x00; Byte.x00; Byte.x00; Byte.x00;
     Byte.x00; Byte.x00; Byte.xff; Byte.xff; a; b; c; d ].

(** [Ipv6Addr::to_ipv4_mapped] *)
Definition to_ipv4_mapped (o : vec byte 16) : option IpAddr :=
  match vec_to_list o with
  | [a0; a1; a2; a3; a4; a5; a6; a7; a8; a9; a10; a11; a; b; c; d] =>
      if bool_decide ([a0; a1; a2; a3; a4; a5; a6; a7; a8; a9; a10; a11]
                      = [Byte.x00; Byte.x00; Byte.x00; Byte.x00; Byte.x00; Byte.x00;
                         Byte.x00; Byte.x00; Byte.x00; Byte.x00; Byte.xff; Byte.xff])
      then Some (V4 a b c d) else None
  | _ => None
  end.

(** [IpAddr::to_canonical] *)
Definition to_canonical (ip : IpAddr) : IpAddr :=
  match ip with
  | V4 _ _ _ _ => ip
  | V6 o => match to_ipv4_mapped o with Some v4 => v4 | None => ip end
  end.

Definition is_ipv4 (ip : IpAddr) : bool :=
  match ip with V4 _ _ _ _ => true | V6 _ => false end.

(** [Ipv4Addr::is_loopback], [is_link_local] and [is_private] *)
Definition v4_is_loopback (a b c d : byte) : bool := bz a =? 127.
Definition v4_is_link_local (a b c d : byte) : bool := (bz a =? 169) && (bz b =? 254).
Definition v4_is_private (a b c d : byte) : bool :=
  (bz a =? 10)
  || (bz a =? 172) && (16 <=? bz b) && (bz b <=? 31)
  || (bz a =? 192) && (bz b =? 168).

(** [Ipv6Addr::is_loopback] *)
Definition v6_is_loopback (o : vec byte 16) : bool :=
  bool_decide (segments o = [0; 0; 0; 0; 0; 0; 0; 1]).

(** A socket address; the scope is 0 for IPv4. *)
Record SocketAddr : Type := mkSocketAddr {
  sa_ip : IpAddr;
  sa_port : Z;
  sa_scope : Z
}.

Definition SocketAddr_new (ip : IpAddr) (port : Z) : SocketAddr := mkSocketAddr ip port 0.

Definition Ipv4_UNSPECIFIED : IpAddr := V4 Byte.x00 Byte.x00 Byte.x00 Byte.x00.
Definition Ipv6_UNSPECIFIED : IpAddr := V6 (vreplicate 16 Byte.x00).

(** ** Display *)

Definition dot : byte := Byte.x2e.
Definition colon : byte := Byte.x3a.

Definition show_v4 (a b c d : byte) : str :=
  show_unsigned (bz a) ++ dot :: show_unsigned (bz b) ++ dot ::
  show_unsigned (bz c) ++ dot :: show_unsigned (bz d).

(** The longest run of zero segments, the first one if there are several:
    start and length. *)
Fixpoint longest_zeros (i : nat) (segs : list Z) (cur best : nat * nat) : nat * nat :=
  match segs with
  | [] => best
  | s :: segs' =>
      if s =? 0 then
        let cur' := (if Nat.eqb (snd cur) 0 then i else fst cur, S (snd cur)) in
        longest_zeros (S i) segs' cur' (if Nat.ltb (snd best) (snd cur') then cur' else best)
      else longest_zeros (S i) segs' (0%nat, 0%nat) best
  end.

Fixpoint show_segments (segs : list Z) : str :=
  match segs with
  | [] => []
  | [s] => show_hex s
  | s :: segs' => show_hex s ++ colon :: show_segments segs'
  end.

Definition show_v6 (o : vec byte 16) : str :=
  match to_ipv4_mapped o with
  | Some (V4 a b c d) => !"::ffff:" ++ show_v4 a b c d
  | _ =>
      let segs := segments o in
      let '(start, n) := longest_zeros 0 segs (0%nat, 0%nat) (0%nat, 0%nat) in
      if Nat.ltb 1 n then
        show_segments (take start segs) ++ !"::" ++ show_segments (drop (start + n) segs)
      else show_segments segs
  end.

Definition show_ip (ip : IpAddr) : str :=
  match ip with
  | V4 a b c d => show_v4 a b c d
  | V6 o => show_v6 o
  end.

(** ** Parsing *)

Definition parser (A : Type) : Type := str -> option (A * str).

Definition read_given_char (c : byte) : parser unit := fun s =>
  match s with
  | x :: s' => if decide (x = c) then Some (tt, s') else None
  | [] => None
  end.

Definition digit_of (radix : Z) (c : byte) : option Z :=
  match hex_val c with
  | Some v => if v <? radix then Some v else None
  | None => None
  end.

(** The digits at the front: their value, their number and the rest. *)
Fixpoint read_digits (radix acc : Z) (count : nat) (s : str) : Z * nat * str :=
  match s with
  | c :: s' =>
      match digit_of radix c with
      | Some d => read_digits radix (acc * radix + d) (S count) s'
      | None => (acc, count, s)
      end
  | [] => (acc, count, [])
  end.

(** [read_number]: at most [max_digits] digits when given, a value of the type
    (at most [hi]), no leading zero unless allowed. *)
Definition read_number (radix : Z) (max_digits : option nat) (allow_zero_prefix : bool)
    (hi : Z) : parser Z := fun s =>
  let '(v, count, rest) := read_digits radix 0 0 s in
  let zero := match s with c :: _ => bool_decide (c = Byte.x30) | [] => false end in
  let too_many := match max_digits with Some m => Nat.ltb m count | None => false end in
  if too_many then None
  else if Nat.eqb count 0 then None
  else if negb allow_zero_prefix && zero && Nat.ltb 1 count then None
  else if v <=? hi then Some (v, rest) else None.

Definition read_separator {A} (sep : byte) (i : nat) (inner : parser A) : parser A := fun s =>
  match i with
  | O => inner s
  | S _ => '(_, s1) ← read_given_char sep s; inner s1
  end.

Definition read_octet (i : nat) : parser Z :=
  read_separator dot i (read_number 10 (Some 3%nat) false 255).

Definition read_ipv4_addr : parser IpAddr := fun s =>
  '(a, s1) ← read_octet 0 s;
  '(b, s2) ← read_octet 1 s1;
  '(c, s3) ← read_octet 2 s2;
  '(d, s4) ← read_octet 3 s3;
  Some (V4 (zb a) (zb b) (zb c) (zb d), s4).

(** [read_groups] with [n] slots left of which this is the [i]-th: the groups
    read, whether an embedded IPv4 address ended them, and the rest. *)
Fixpoint read_groups (n i : nat) (s : str) : list Z * bool * str :=
  match n with
  | O => ([], false, s)
  | S m =>
      let ipv4 :=
        match m with
        | O => None
        | S _ => read_separator colon i read_ipv4_addr s
        end in
      match ipv4 with
      | Some (V4 a b c d, s') => ([be16 a b; be16 c d], true, s')
      | _ =>
          match read_separator colon i (read_number 16 (Some 4%nat) true 65535) s with
          | Some (g, s') =>
              let '(gs, v4, r) := read_groups m (S i) s' in (g :: gs, v4, r)
          | None => ([], false, s)
          end
      end
  end.

Definition be_bytes16 (g : Z) : list byte := [zb (g / 256); zb g].

(** The address of eight groups. *)
Definition v6_of_groups (gs : list Z) : option (vec byte 16) :=
  let o := concat (map be_bytes16 gs) in
  match decide (length o = 16%nat) with
  | left H => Some (eq_rect _ (vec byte) (list_to_vec o) _ H)
  | right _ => None
  end.

Definition read_ipv6_addr : parser IpAddr := fun s =>
  let '(head, head_ipv4, s1) := read_groups 8 0 s in
  if Nat.eqb (length head) 8 then
    o ← v6_of_groups head; Some (V6 o, s1)
  else if (head_ipv4 : bool) then None
  else
    '(_, s2) ← read_given_char colon s1;
    '(_, s3) ← read_given_char colon s2;
    let '(tail, _, s4) := read_groups (8 - (length head + 1)) 0 s3 in
    o ← v6_of_groups (head ++ replicate (8 - length head - length tail) 0 ++ tail);
    Some (V6 o, s4).

Definition read_ip_addr : parser IpAddr := fun s =>
  match read_ipv4_addr s with
  | Some r => Some r
  | None => read_ipv6_addr s
  end.

Definition read_port : parser Z := fun s =>
  '(_, s1) ← read_given_char colon s; read_number 10 None true 65535 s1.

Definition read_scope_id : parser Z := fun s =>
  '(_, s1) ← read_given_char Byte.x25 s; read_number 10 None true u32_max s1.

Definition read_socket_addr_v4 : parser SocketAddr := fun s =>
  '(ip, s1) ← read_ipv4_addr s;
  '(port, s2) ← read_port s1;
  Some (SocketAddr_new ip port, s2).

Definition read_socket_addr_v6 : parser SocketAddr := fun s =>
  '(_, s1) ← read_given_char Byte.x5b s;
  '(ip, s2) ← read_ipv6_addr s1;
  let '(scope, s3) := match read_scope_id s2 with Some r => r | None => (0, s2) end in
  '(_, s4) ← read_given_char Byte.x5d s3;
  '(port, s5) ← read_port s4;
  Some (mkSocketAddr ip port scope, s5).

Definition read_socket_addr : parser SocketAddr := fun s =>
  match read_socket_addr_v4 s with
  | Some r => Some r
  | None => read_socket_addr_v6 s
  end.

(** [parse_with]: the whole input must be consumed. *)
Definition parse_with {A} (p : parser A) (s : str) : option A :=
  match p s with
  | Some (a, []) => Some a
  | _ => None
  end.

(** [s.parse::<Ipv4Addr>()], [Ipv6Addr], [IpAddr] and [SocketAddr] *)
Definition parse_ipv4 (s : str) : option IpAddr :=
  if Nat.ltb 15 (length s) then None else parse_with read_ipv4_addr s.
Definition parse_ipv6 : str -> option IpAddr := parse_with read_ipv6_addr.
Definition parse_ip : str -> option IpAddr := parse_with read_ip_addr.
Definition parse_socket_addr : str -> option SocketAddr := parse_with read_socket_addr.
