(* ===== verification/NetFacts.v ===== *)
(** * Addresses are read back from their text

    [Display] and [FromStr] of [Net] are inverse: what a log line, an event or an
    answer of [/ip] says an address is, is that address. *)

From stdpp Require Import vector.
From S2P Require Import Prelude RustStr Net.

(** ** Numbers and IPv4 addresses *)

(** What follows a number does not go on with a digit. *)
Definition stops (rest : str) : Prop :=
  match rest with c :: _ => digit_of 10 c = None | [] => True end.

Lemma digit_of_digit c d : digit_val c = Some d -> digit_of 10 c = Some d.
Proof.
  unfold digit_val, digit_of, hex_val. destruct ((48 <=? bz c) && (bz c <=? 57)) eqn:E; [|done].
  intros [= <-]. to_prop. destruct (Z.ltb_spec (bz c - 48) 10); [done|lia].
Qed.

Lemma read_digits_app s rest : forall acc n v,
  digits_val acc s = Some v -> stops rest ->
  read_digits 10 acc n (s ++ rest) = (v, (n + length s)%nat, rest).
Proof.
  induction s as [|c s IH]; intros acc n v Hv Hr; cbn in *.
  - injection Hv as <-. rewrite Nat.add_0_r. destruct rest as [|c rest]; cbn in *; [done|].
    by rewrite Hr.
  - destruct (digit_val c) as [d|] eqn:Ed; [|done]. rewrite (digit_of_digit c d) by done.
    rewrite (IH _ (S n) v) by done. by rewrite Nat.add_succ_r.
Qed.

Lemma read_number_show max zero_ok hi n rest :
  0 <= n <= hi -> stops rest ->
  match max with Some m => (length (show_unsigned n) <= m)%nat | None => True end ->
  (zero_ok = true \/ forall s, show_unsigned n = Byte.x30 :: s -> s = []) ->
  read_number 10 max zero_ok hi (show_unsigned n ++ rest) = Some (n, rest).
Proof.
  intros Hn Hr Hm Hz. unfold read_number.
  rewrite (read_digits_app _ rest 0 0 n) by (done || apply digits_val_show_unsigned; lia).
  cbn [Nat.add]. pose proof (show_unsigned_nonempty n) as Hne.
  destruct (show_unsigned n) as [|c s] eqn:E; [done|]. cbn [app].
  replace (match max with Some m => Nat.ltb m (length (c :: s)) | None => false end) with false.
  2:{ destruct max as [m|]; [|done]. symmetry. apply Nat.ltb_ge. done. }
  cbn [length Nat.eqb].
  replace (negb zero_ok && bool_decide (c = Byte.x30) && Nat.ltb 1 (S (length s))) with false.
  - destruct (Z.leb_spec n hi); [done|lia].
  - destruct Hz as [->|Hz]; [done|]. case_bool_decide as Hc; [|by rewrite andb_false_r].
    subst c. rewrite (Hz s eq_refl). cbn. by rewrite andb_false_r.
Qed.

Lemma byte_no_leading_zero b s : show_unsigned (bz b) = Byte.x30 :: s -> s = [].
Proof. destruct b; vm_compute; congruence. Qed.

Lemma length_show_byte b : (length (show_unsigned (bz b)) <= 3)%nat.
Proof. destruct b; vm_compute; lia. Qed.

Lemma read_octet_first b rest :
  stops rest -> read_octet 0 (show_unsigned (bz b) ++ rest) = Some (bz b, rest).
Proof.
  intros Hr. pose proof (bz_range b). apply read_number_show; [lia|done|apply length_show_byte|].
  right. apply byte_no_leading_zero.
Qed.

Lemma read_octet_next i b rest :
  stops rest -> read_octet (S i) (dot :: show_unsigned (bz b) ++ rest) = Some (bz b, rest).
Proof.
  intros Hr. unfold read_octet, read_separator, read_given_char. rewrite decide_True by done.
  cbn [mbind option_bind]. by apply read_octet_first.
Qed.

Lemma read_ipv4_show a b c d rest :
  stops rest -> read_ipv4_addr (show_v4 a b c d ++ rest) = Some (V4 a b c d, rest).
Proof.
  intros Hr. unfold read_ipv4_addr, show_v4.
  assert (Hdot : forall r, stops (dot :: r)) by done.
  rewrite <- app_assoc. cbn [app]. rewrite read_octet_first by done. cbn [mbind option_bind].
  rewrite <- app_assoc. cbn [app]. rewrite read_octet_next by done. cbn [mbind option_bind].
  rewrite <- app_assoc. cbn [app]. rewrite read_octet_next by done. cbn [mbind option_bind].
  rewrite read_octet_next by done. cbn [mbind option_bind]. by rewrite !zb_bz.
Qed.

(** ** Hexadecimal groups *)

(** What follows a group does not go on with a digit or a dot. *)
Definition ends_group (rest : str) : Prop :=
  match rest with c :: _ => hex_val c = None /\ c <> dot | [] => True end.

(** Nor with a further group. *)
Definition ends_groups (rest : str) : Prop :=
  ends_group rest /\
  match rest with c :: x :: _ => c = colon -> hex_val x = None | [c] => c <> colon | [] => True end.

Definition hex_text (s : str) : Prop := Forall (fun c => is_some (hex_val c) = true) s.

Lemma digit_of_hex_None radix c : hex_val c = None -> digit_of radix c = None.
Proof. unfold digit_of. by intros ->. Qed.

Lemma read_digits_stop radix acc n rest :
  ends_group rest -> read_digits radix acc n rest = (acc, n, rest).
Proof. destruct rest as [|c rest]; [done|]. intros [Hc _]. cbn. by rewrite digit_of_hex_None. Qed.

Lemma read_digits_hex w : forall g acc n rest,
  0 <= g < 16 ^ Z.of_nat w -> ends_group rest ->
  read_digits 16 acc n (hex_pad w g ++ rest) = (acc * 16 ^ Z.of_nat w + g, (n + w)%nat, rest).
Proof.
  enough (H : forall g acc n rest, 0 <= g < 16 ^ Z.of_nat w ->
    read_digits 16 acc n (hex_pad w g ++ rest) =
    read_digits 16 (acc * 16 ^ Z.of_nat w + g) (n + w) rest).
  { intros g acc n rest Hg Hr. rewrite H by done. by apply read_digits_stop. }
  induction w as [|w IH]; intros g acc n rest Hg.
  - cbn. f_equal; cbn in Hg; lia.
  - rewrite Nat2Z.inj_succ, Z.pow_succ_r in * by lia. cbn [hex_pad]. rewrite <- app_assoc.
    assert (Hd : 0 <= g / 16 < 16 ^ Z.of_nat w)
      by (split; [apply Z.div_pos; lia|apply Z.div_lt_upper_bound; lia]).
    rewrite IH by done. cbn [app read_digits]. pose proof (Z.mod_pos_bound g 16 eq_refl).
    unfold digit_of. rewrite hex_val_hex_digit by done.
    destruct (Z.ltb_spec (g mod 16) 16); [|lia]. f_equal; [|lia].
    pose proof (Z.div_mod g 16 ltac:(lia)). lia.
Qed.

Lemma hex_len_bound g : 0 <= g <= 65535 ->
  (1 <= hex_len 4 g <= 4)%nat /\ g < 16 ^ Z.of_nat (hex_len 4 g).
Proof.
  intros Hg. cbn [hex_len].
  pose proof (Z.div_mod g 16 ltac:(lia)). pose proof (Z.mod_pos_bound g 16 eq_refl).
  pose proof (Z.div_mod (g / 16) 16 ltac:(lia)). pose proof (Z.mod_pos_bound (g / 16) 16 eq_refl).
  pose proof (Z.div_mod (g / 16 / 16) 16 ltac:(lia)).
  pose proof (Z.mod_pos_bound (g / 16 / 16) 16 eq_refl).
  repeat (case_one; [cbn; lia|]); to_prop. lia.
Qed.

Lemma hex_pad_text w g : hex_text (hex_pad w g).
Proof.
  revert g. induction w as [|w IH]; intros g; [constructor|]. apply Forall_app. split; [apply IH|].
  repeat constructor. rewrite hex_val_hex_digit; [done|]. apply Z.mod_pos_bound. lia.
Qed.

Lemma show_hex_text g : hex_text (show_hex g).
Proof. apply hex_pad_text. Qed.

Lemma show_hex_cons g : exists c s, show_hex g = c :: s /\ is_some (hex_val c) = true.
Proof.
  pose proof (show_hex_text g) as H. unfold show_hex in *.
  assert (Hl := length_hex_pad (hex_len 4 g) g).
  destruct H as [|c s Hc _]; [|by exists c, s]. cbn in Hl. cbn [hex_len] in Hl. by destruct (g <? 16).
Qed.

Lemma read_group g rest :
  0 <= g <= 65535 -> ends_group rest ->
  read_number 16 (Some 4%nat) true 65535 (show_hex g ++ rest) = Some (g, rest).
Proof.
  intros Hg Hr. destruct (hex_len_bound g Hg) as [Hl Hb]. unfold read_number, show_hex.
  rewrite read_digits_hex by (done || lia). cbn [Nat.add negb andb].
  destruct (Nat.ltb_spec 4 (hex_len 4 g)); [lia|]. destruct (Nat.eqb_spec (hex_len 4 g) 0); [lia|].
  replace (0 * 16 ^ Z.of_nat (hex_len 4 g) + g) with g by lia. by destruct (Z.leb_spec g 65535); [|lia].
Qed.

(** Hexadecimal digits that no dot follows are not an IPv4 address. *)
Lemma read_digits_text radix s rest : forall acc n v k r,
  hex_text s -> ends_group rest -> read_digits radix acc n (s ++ rest) = (v, k, r) ->
  match r with c :: _ => c <> dot | [] => True end.
Proof.
  intros acc n v k r Hs Hr. revert acc n. induction Hs as [|c s Hc _ IH]; intros acc n E; cbn [app] in E.
  - rewrite read_digits_stop in E by done. injection E as _ _ <-. destruct rest; [done|apply Hr].
  - cbn [read_digits] in E. destruct (digit_of radix c); [by eapply IH|]. injection E as _ _ <-.
    intros ->. done.
Qed.

Lemma read_octet_no_dot i s :
  match s with c :: _ => c <> dot | [] => True end -> read_octet (S i) s = None.
Proof.
  unfold read_octet, read_separator, read_given_char. destruct s as [|c s]; [done|].
  intros Hc. by rewrite decide_False.
Qed.

Lemma read_ipv4_text s rest : hex_text s -> ends_group rest -> read_ipv4_addr (s ++ rest) = None.
Proof.
  intros Hs Hr. unfold read_ipv4_addr. destruct (read_octet 0 (s ++ rest)) as [[a r]|] eqn:E; [|done].
  cbn [mbind option_bind]. rewrite read_octet_no_dot; [done|].
  unfold read_octet, read_separator, read_number in E.
  destruct (read_digits 10 0 0 (s ++ rest)) as [[v k] r'] eqn:Ed.
  apply read_digits_text in Ed; [|done..]. repeat case_one_in E; by simplify_eq/=.
Qed.

(** ** Lists of groups *)

Definition u16 (g : Z) : Prop := 0 <= g <= 65535.

(** The text of groups of which the first is the [i]-th. *)
Definition groups_text (i : nat) (gs : list Z) : str :=
  match i with
  | O => show_segments gs
  | S _ => concat (map (fun g => colon :: show_hex g) gs)
  end.

Definition separator (i : nat) : str := match i with O => [] | S _ => [colon] end.

Lemma groups_text_cons i g gs :
  groups_text i (g :: gs) = separator i ++ show_hex g ++ groups_text 1 gs.
Proof.
  destruct i as [|i]; [|by cbn]. cbn [groups_text separator app].
  revert g. induction gs as [|g' gs IH]; intros g; [by rewrite app_nil_r|].
  change (show_segments (g :: g' :: gs)) with (show_hex g ++ colon :: show_segments (g' :: gs)).
  rewrite IH. done.
Qed.

Lemma groups_text_ends gs rest : ends_groups rest -> ends_group (groups_text 1 gs ++ rest).
Proof. intros [Hr _]. destruct gs as [|g gs]; [done|]. rewrite groups_text_cons. by cbn. Qed.

Lemma read_number_none max zero_ok hi radix rest :
  match rest with c :: _ => hex_val c = None | [] => True end ->
  read_number radix max zero_ok hi rest = None.
Proof.
  intros Hr. unfold read_number.
  assert (E : read_digits radix 0 0 rest = (0, 0%nat, rest))
    by (destruct rest; [done|cbn; by rewrite digit_of_hex_None]).
  rewrite E. by destruct max.
Qed.

Lemma read_separator_none {A} i (p : parser A) rest :
  ends_groups rest ->
  (forall s, match s with c :: _ => hex_val c = None | [] => True end -> p s = None) ->
  read_separator colon i p rest = None.
Proof.
  intros [Hr Hn] Hp. destruct i as [|i]; cbn [read_separator].
  - apply Hp. destruct rest; [done|apply Hr].
  - unfold read_given_char. destruct rest as [|c rest]; [done|].
    destruct (decide (c = colon)) as [->|]; [|done]. apply Hp. destruct rest; [done|by apply Hn].
Qed.

Lemma read_ipv4_none s :
  match s with c :: _ => hex_val c = None | [] => True end -> read_ipv4_addr s = None.
Proof.
  intros Hs. unfold read_ipv4_addr.
  by replace (read_octet 0 s) with (@None (Z * str)) by (symmetry; by apply read_number_none).
Qed.

Lemma read_separator_some {A} i (p : parser A) s :
  read_separator colon i p (separator i ++ s) = p s.
Proof. by destruct i. Qed.

Lemma read_groups_end n i rest : ends_groups rest -> read_groups n i rest = ([], false, rest).
Proof.
  intros Hr. destruct n as [|n]; [done|]. cbn [read_groups].
  rewrite (read_separator_none i read_ipv4_addr) by (done || apply read_ipv4_none).
  rewrite (read_separator_none i (read_number _ _ _ _)) by (done || intros; by apply read_number_none).
  by destruct n.
Qed.

Lemma read_groups_step n i g s :
  u16 g -> ends_group s ->
  read_groups (S n) i (separator i ++ show_hex g ++ s) =
  let '(gs, v4, r) := read_groups n (S i) s in (g :: gs, v4, r).
Proof.
  intros Hg Hs. cbn [read_groups]. rewrite !read_separator_some.
  rewrite read_ipv4_text by (done || apply show_hex_text).
  rewrite read_group by done. by destruct n.
Qed.

Lemma read_groups_text n i gs rest :
  (length gs <= n)%nat -> Forall u16 gs -> ends_groups rest ->
  read_groups n i (groups_text i gs ++ rest) = (gs, false, rest).
Proof.
  intros Hl Hg Hr. revert n i Hl. induction Hg as [|g gs Hg _ IH]; intros n i Hl.
  - replace (groups_text i []) with (@nil byte) by by destruct i. by apply read_groups_end.
  - destruct n as [|n]; [cbn in Hl; lia|]. rewrite groups_text_cons, <- !app_assoc.
    rewrite read_groups_step by (done || by apply groups_text_ends).
    change (groups_text 1 gs) with (groups_text (S i) gs). rewrite IH by (cbn in Hl; lia). done.
Qed.

(** ** The bytes of the groups *)

Lemma be16_range a b : u16 (be16 a b).
Proof. unfold u16, be16. pose proof (bz_range a). pose proof (bz_range b). lia. Qed.

Lemma be_bytes16_be16 a b : be_bytes16 (be16 a b) = [a; b].
Proof.
  unfold be_bytes16, be16. pose proof (bz_range a). pose proof (bz_range b).
  replace ((bz a * 256 + bz b) / 256) with (bz a) by (apply Z.div_unique with (bz b); lia).
  rewrite zb_bz. f_equal. f_equal. rewrite <- (zb_bz b) at 2. unfold zb.
  f_equal. f_equal. rewrite <- Z.add_mod_idemp_l, Z.mul_mod, Z.mod_same, Z.mul_0_r by lia. done.
Qed.

Lemma be16s_spec n l :
  length l = (2 * n)%nat ->
  length (be16s l) = n /\ Forall u16 (be16s l) /\ concat (map be_bytes16 (be16s l)) = l.
Proof.
  revert l. induction n as [|n IH]; intros [|a [|b l]] Hl; try (cbn in Hl; lia); [by cbn|].
  destruct (IH l) as (H1 & H2 & H3); [cbn in Hl; lia|].
  cbn [be16s map concat]. rewrite be_bytes16_be16, H3. cbn. rewrite H1. split_and!; [done| |done].
  constructor; [apply be16_range|done].
Qed.

Lemma segments_spec o :
  length (segments o) = 8%nat /\ Forall u16 (segments o) /\
  concat (map be_bytes16 (segments o)) = vec_to_list o.
Proof. apply (be16s_spec 8). by rewrite length_vec_to_list. Qed.

Lemma vec_to_list_eq_rect {A} n m (v : vec A n) (H : n = m) :
  vec_to_list (eq_rect n (vec A) v m H) = vec_to_list v.
Proof. by destruct H. Qed.

Lemma v6_of_groups_bytes gs o :
  concat (map be_bytes16 gs) = vec_to_list o -> v6_of_groups gs = Some o.
Proof.
  intros E. unfold v6_of_groups. destruct (decide _) as [H|H].
  - f_equal. apply vec_to_list_inj2. by rewrite vec_to_list_eq_rect, vec_to_list_to_vec.
  - exfalso. apply H. by rewrite E, length_vec_to_list.
Qed.

(** ** The longest run of zeros *)

(** [r] is a run of zeros of [segs]. *)
Definition zero_run (segs : list Z) (r : nat * nat) : Prop :=
  exists a b, segs = a ++ replicate (snd r) 0 ++ b /\ (snd r = 0%nat \/ length a = fst r).

(** [r] is a run of zeros at the end of [segs]. *)
Definition last_run (segs : list Z) (r : nat * nat) : Prop :=
  exists a, segs = a ++ replicate (snd r) 0 /\ (snd r = 0%nat \/ length a = fst r).

Lemma zero_run_app segs l r : zero_run segs r -> zero_run (segs ++ l) r.
Proof. intros (a & b & -> & H). exists a, (b ++ l). by rewrite <- !app_assoc. Qed.

Lemma longest_zeros_run segs : forall pre cur best,
  last_run pre cur -> zero_run pre best ->
  zero_run (pre ++ segs) (longest_zeros (length pre) segs cur best).
Proof.
  induction segs as [|s segs IH]; intros pre cur best Hc Hb; cbn [longest_zeros].
  { by rewrite app_nil_r. }
  replace (pre ++ s :: segs) with ((pre ++ [s]) ++ segs) by by rewrite <- app_assoc.
  replace (S (length pre)) with (length (pre ++ [s])) by (rewrite length_app; cbn; lia).
  destruct (Z.eqb_spec s 0) as [->|Hs].
  - set (cur' := (if Nat.eqb (snd cur) 0 then length pre else fst cur, S (snd cur))).
    assert (Hc' : last_run (pre ++ [0]) cur').
    { destruct Hc as (a & Ea & Ha). subst cur'. destruct (Nat.eqb_spec (snd cur) 0) as [E0|E0].
      - exists pre. cbn. rewrite E0. cbn. auto.
      - exists a. cbn [fst snd]. rewrite Ea, <- app_assoc. split.
        + f_equal. by rewrite <- replicate_cons_app.
        + right. by destruct Ha. }
    apply IH; [done|]. destruct (Nat.ltb _ _); [|by apply zero_run_app].
    destruct Hc' as (a & Ea & Ha). exists a, []. by rewrite app_nil_r.
  - apply IH; [|by apply zero_run_app]. exists (pre ++ [s]). cbn. rewrite app_nil_r. auto.
Qed.

Lemma longest_zeros_spec segs start n :
  longest_zeros 0 segs (0, 0)%nat (0, 0)%nat = (start, n) -> (0 < n)%nat ->
  segs = take start segs ++ replicate n 0 ++ drop (start + n) segs /\ (start + n <= length segs)%nat.
Proof.
  intros E Hn. destruct (longest_zeros_run segs [] (0, 0)%nat (0, 0)%nat) as (a & b & Es & Ha).
  { exists []. by split; [|left]. }
  { exists [], []. by split; [|left]. }
  cbn [app length] in Es, Ha. rewrite E in Es, Ha. cbn [fst snd] in Es, Ha.
  destruct Ha as [Ha|Ha]; [lia|]. rewrite Es. split.
  - rewrite <- Ha at 1 2. rewrite take_app_length. f_equal. f_equal.
    rewrite app_assoc. symmetry. apply drop_app_length'. rewrite length_app, length_replicate. lia.
  - rewrite !length_app, length_replicate. lia.
Qed.

(** ** IPv6 addresses *)

(** What follows an address. *)
Definition ends_addr (rest : str) : Prop :=
  match rest with c :: _ => hex_val c = None /\ c <> dot /\ c <> colon | [] => True end.

Lemma ends_addr_groups rest : ends_addr rest -> ends_groups rest.
Proof. destruct rest as [|c [|x rest]]; [done|..]; intros (Hc & Hd & Hn); repeat split; done. Qed.

Lemma ends_addr_stops rest : ends_addr rest -> stops rest.
Proof. destruct rest as [|c rest]; [done|]. intros (Hc & _). by apply digit_of_hex_None. Qed.

Lemma double_colon_ends s : ends_groups (!"::" ++ s).
Proof. done. Qed.

Lemma read_given_char_same c s : read_given_char c (c :: s) = Some (tt, s).
Proof. unfold read_given_char. by rewrite decide_True. Qed.

(** Groups, a double colon, more groups: the text of an address with zeros. *)
Lemma read_ipv6_compressed head gap tail v4 s rest o :
  Forall u16 head -> (length head + gap + length tail = 8)%nat -> (0 < gap)%nat ->
  read_groups (8 - (length head + 1)) 0 s = (tail, v4, rest) ->
  concat (map be_bytes16 (head ++ replicate gap 0 ++ tail)) = vec_to_list o ->
  read_ipv6_addr (show_segments head ++ !"::" ++ s) = Some (V6 o, rest).
Proof.
  intros Hh Hl Hgap Ht Ho. unfold read_ipv6_addr.
  change (show_segments head) with (groups_text 0 head).
  rewrite read_groups_text by (done || lia).
  destruct (Nat.eqb_spec (length head) 8); [lia|].
  change (!"::" ++ s) with (colon :: colon :: s).
  rewrite !read_given_char_same. cbn [mbind option_bind]. rewrite !read_given_char_same.
  cbn [mbind option_bind]. rewrite Ht.
  replace (8 - length head - length tail)%nat with gap by lia.
  by rewrite (v6_of_groups_bytes _ o).
Qed.

Lemma to_ipv4_mapped_bytes o ip :
  to_ipv4_mapped o = Some ip ->
  exists a b c d, ip = V4 a b c d /\
    vec_to_list o = repeat Byte.x00 10 ++ [Byte.xff; Byte.xff; a; b; c; d].
Proof.
  unfold to_ipv4_mapped. destruct (vec_to_list o) as [|a0 l]; [done|].
  do 15 (destruct l as [|? l]; [done|]). destruct l as [|? l]; [|done].
  case_bool_decide as E; [|done]. intros [= <-]. simplify_eq. by eexists _, _, _, _.
Qed.

Lemma read_ipv6_mapped a b c d o rest :
  vec_to_list o = repeat Byte.x00 10 ++ [Byte.xff; Byte.xff; a; b; c; d] -> ends_addr rest ->
  read_ipv6_addr (!"::ffff:" ++ show_v4 a b c d ++ rest) = Some (V6 o, rest).
Proof.
  intros Ho Hr.
  assert (Hs : read_groups 7 0 (!"ffff:" ++ show_v4 a b c d ++ rest) =
               ([65535; be16 a b; be16 c d], true, rest)).
  { assert (E := read_groups_step 6 0 65535 (colon :: show_v4 a b c d ++ rest)).
    cbn [separator app] in E. change (show_hex 65535) with !"ffff" in E.
    change (!"ffff:" ++ show_v4 a b c d ++ rest) with (!"ffff" ++ colon :: show_v4 a b c d ++ rest).
    rewrite E by done. cbn [read_groups read_separator]. rewrite read_given_char_same.
    cbn [mbind option_bind]. by rewrite read_ipv4_show by by apply ends_addr_stops. }
  apply (read_ipv6_compressed [] 5 [65535; be16 a b; be16 c d] true
           (!"ffff:" ++ show_v4 a b c d ++ rest)); [constructor|done|lia|exact Hs|].
  rewrite Ho. cbn [map concat replicate app]. by rewrite !be_bytes16_be16.
Qed.

Lemma read_ipv6_show o rest :
  ends_addr rest -> read_ipv6_addr (show_v6 o ++ rest) = Some (V6 o, rest).
Proof.
  intros Hr. pose proof (segments_spec o) as (Hl & Hg & Hb). unfold show_v6.
  assert (Hplain : read_ipv6_addr (show_segments (segments o) ++ rest) = Some (V6 o, rest)).
  { unfold read_ipv6_addr. change (show_segments (segments o)) with (groups_text 0 (segments o)).
    rewrite read_groups_text by (lia || done || by apply ends_addr_groups).
    rewrite Hl. cbn [Nat.eqb]. by rewrite (v6_of_groups_bytes _ o). }
  destruct (longest_zeros 0 (segments o) (0, 0)%nat (0, 0)%nat) as [start n] eqn:Ez.
  assert (Hz : read_ipv6_addr ((if Nat.ltb 1 n
      then show_segments (take start (segments o)) ++ !"::" ++
           show_segments (drop (start + n) (segments o))
      else show_segments (segments o)) ++ rest) = Some (V6 o, rest)).
  { destruct (Nat.ltb_spec 1 n) as [Hn|]; [|done]. rewrite <- !app_assoc.
    destruct (longest_zeros_spec (segments o) start n Ez) as [Es Hsn]; [lia|].
    apply (read_ipv6_compressed _ n (drop (start + n) (segments o)) false).
    - by apply Forall_take.
    - rewrite length_take, length_drop. lia.
    - lia.
    - apply (read_groups_text _ 0); [rewrite length_drop, length_take; lia|by apply Forall_drop|].
      by apply ends_addr_groups.
    - by rewrite <- Es. }
  destruct (to_ipv4_mapped o) as [[a b c d|]|] eqn:Em; [|done..].
  apply to_ipv4_mapped_bytes in Em as (? & ? & ? & ? & [= <- <- <- <-] & Ho).
  rewrite <- app_assoc. by apply read_ipv6_mapped.
Qed.

(** ** Addresses and socket addresses *)

(** The characters of an address. *)
Definition addr_char (c : byte) : Prop := is_some (hex_val c) = true \/ c = colon \/ c = dot.

Lemma digits_addr_char s : Forall (fun c => is_digit c = true) s -> Forall addr_char s.
Proof. intros Hs. eapply Forall_impl; [exact Hs|]. intros c Hc. left. by destruct c. Qed.

Lemma show_v4_chars a b c d : Forall addr_char (show_v4 a b c d).
Proof.
  assert (Hn : forall n, Forall addr_char (show_unsigned n))
    by (intros; apply digits_addr_char, show_unsigned_digits).
  assert (Hd : addr_char dot) by (right; by right).
  unfold show_v4. repeat (apply Forall_app; split; [apply Hn|]; constructor; [done|]). apply Hn.
Qed.

Lemma show_segments_chars segs : Forall addr_char (show_segments segs).
Proof.
  assert (Hh : forall g, Forall addr_char (show_hex g)).
  { intros g. eapply Forall_impl; [apply show_hex_text|]. by left. }
  induction segs as [|s [|s' segs] IH]; [constructor|apply Hh|].
  apply Forall_app. split; [apply Hh|]. constructor; [right; by left|done].
Qed.

Lemma show_ip_chars ip : Forall addr_char (show_ip ip).
Proof.
  destruct ip as [a b c d|o]; [apply show_v4_chars|]. cbn [show_ip]. unfold show_v6.
  assert (H := show_segments_chars).
  assert (Hc : addr_char colon) by (right; by left).
  destruct (longest_zeros _ _ _ _) as [start n].
  assert (Hz : Forall addr_char
    (if Nat.ltb 1 n then show_segments (take start (segments o)) ++ !"::" ++
       show_segments (drop (start + n) (segments o)) else show_segments (segments o))).
  { destruct (Nat.ltb 1 n); [|apply H]. repeat (apply Forall_app; split); try apply H.
    by repeat constructor. }
  destruct (to_ipv4_mapped o) as [[a b c d|]|]; try done.
  apply Forall_app. split; [|apply show_v4_chars].
  repeat constructor; try exact Hc; by left.
Qed.

Lemma addr_char_graphic c : addr_char c -> graphic c = true.
Proof. intros [Hc|[->| ->]]; [by destruct c|done..]. Qed.

Lemma show_ip_graphic ip : Forall (fun x => graphic x = true) (show_ip ip).
Proof. eapply Forall_impl; [apply show_ip_chars|apply addr_char_graphic]. Qed.

(** The text of an IPv6 address: hexadecimal digits, then a colon. *)
Lemma show_v6_first o : exists h s, show_v6 o = h ++ colon :: s /\ hex_text h.
Proof.
  assert (Hs : forall s segs, (exists h r, show_segments segs ++ !"::" ++ s = h ++ colon :: r /\ hex_text h) /\
    ((2 <= length segs)%nat -> exists h r, show_segments segs = h ++ colon :: r /\ hex_text h)).
  { intros s [|g [|g' segs]]; (split; [|cbn; try lia]).
    - exists [], (colon :: s). split; [done|constructor].
    - exists (show_hex g), (colon :: s). split; [done|apply show_hex_text].
    - exists (show_hex g), (show_segments (g' :: segs) ++ !"::" ++ s).
      split; [|apply show_hex_text]. cbn [show_segments]. by rewrite <- app_assoc.
    - intros _. exists (show_hex g), (show_segments (g' :: segs)). split; [done|apply show_hex_text]. }
  pose proof (segments_spec o) as (Hl & _). unfold show_v6.
  destruct (longest_zeros _ _ _ _) as [start n].
  assert (Hz : exists h r, (if Nat.ltb 1 n then show_segments (take start (segments o)) ++ !"::" ++
       show_segments (drop (start + n) (segments o)) else show_segments (segments o)) = h ++ colon :: r /\ hex_text h).
  { destruct (Nat.ltb 1 n); [apply Hs|]. apply (Hs []). lia. }
  destruct (to_ipv4_mapped o) as [[a b c d|]|]; try done.
  exists [], (!":ffff:" ++ show_v4 a b c d). split; [done|constructor].
Qed.

Lemma read_ipv4_v6 o rest : read_ipv4_addr (show_v6 o ++ rest) = None.
Proof.
  destruct (show_v6_first o) as (h & s & -> & Hh). rewrite <- app_assoc. by apply read_ipv4_text.
Qed.

(** What an address is printed as is read as that address. *)
Lemma parse_show_ip ip : parse_ip (show_ip ip) = Some ip.
Proof.
  unfold parse_ip, parse_with, read_ip_addr. rewrite <- (app_nil_r (show_ip ip)).
  destruct ip as [a b c d|o]; cbn [show_ip]; [by rewrite read_ipv4_show|].
  by rewrite read_ipv4_v6, read_ipv6_show.
Qed.

#[export] Instance show_ip_inj : Inj (=) (=) show_ip.
Proof. intros a b E. apply (f_equal parse_ip) in E. rewrite !parse_show_ip in E. by injection E. Qed.

(** [Display] of a socket address without a scope. *)
Definition show_ip_port (ip : IpAddr) (port : Z) : str :=
  match ip with
  | V4 a b c d => show_v4 a b c d ++ colon :: show_unsigned port
  | V6 o => Byte.x5b :: show_v6 o ++ Byte.x5d :: colon :: show_unsigned port
  end.

Lemma read_port_show port rest :
  0 <= port <= 65535 -> stops rest -> read_port (colon :: show_unsigned port ++ rest) = Some (port, rest).
Proof.
  intros Hp Hr. unfold read_port. rewrite read_given_char_same. cbn [mbind option_bind].
  by apply (read_number_show None true 65535); [..|left].
Qed.

Lemma parse_show_ip_port ip port :
  0 <= port <= 65535 -> parse_socket_addr (show_ip_port ip port) = Some (SocketAddr_new ip port).
Proof.
  intros Hp. pose proof (read_port_show port [] Hp I) as E. rewrite app_nil_r in E.
  unfold parse_socket_addr, parse_with, read_socket_addr, show_ip_port.
  destruct ip as [a b c d|o].
  - unfold read_socket_addr_v4. rewrite read_ipv4_show by done. cbn [mbind option_bind]. by rewrite E.
  - assert (E4 : forall s, read_socket_addr_v4 (Byte.x5b :: s) = None).
    { intros s. unfold read_socket_addr_v4. by rewrite read_ipv4_none. }
    rewrite E4. unfold read_socket_addr_v6. rewrite read_given_char_same. cbn [mbind option_bind].
    rewrite read_ipv6_show by done. cbn [mbind option_bind].
    unfold read_scope_id, read_given_char at 1. rewrite decide_False by done. cbn [mbind option_bind].
    rewrite read_given_char_same. cbn [mbind option_bind]. by rewrite E.
Qed.

Lemma show_ip_port_graphic ip port : Forall (fun x => graphic x = true) (show_ip_port ip port).
Proof.
  assert (Hp : Forall (fun x => graphic x = true) (show_unsigned port))
    by (apply digits_graphic, show_unsigned_digits).
  destruct ip as [a b c d|o]; cbn [show_ip_port].
  - apply Forall_app. split; [apply (show_ip_graphic (V4 a b c d))|]. by constructor.
  - constructor; [done|]. apply Forall_app. split; [apply (show_ip_graphic (V6 o))|].
    by repeat constructor.
Qed.
