(* ===== verification/Crypto.v ===== *)
(** * The interface of the cryptographic crates

    [hmac], [sha1], [sha2] and [base64] are not part of the repository: their
    functions are the fields of [Crypto] and what the program relies on are the
    laws of [CryptoLaws].  Every theorem that needs a law takes an instance of
    [CryptoLaws]; [RefCrypto] gives one, built from the published algorithms. *)

From S2P Require Import Prelude.

(** The characters of the standard base64 alphabet and the padding. *)
Definition b64_char (c : byte) : bool :=
  let v := bz c in
  (65 <=? v) && (v <=? 90) || (97 <=? v) && (v <=? 122) || (48 <=? v) && (v <=? 57)
  || (v =? 43) || (v =? 47) || (v =? 61).

(** The operations: [Hmac<Sha1>] and [Hmac<Sha256>] take a key of any length
    and the concatenation of the updates; [B64] is the [STANDARD] engine. *)
Class Crypto : Type := {
  mac_sha1 : list byte -> list byte -> list byte;
  mac_sha256 : list byte -> list byte -> list byte;
  digest_sha1 : list byte -> list byte;
  B64_encode : list byte -> str;
  B64_decode : str -> option (list byte)
}.

(** The laws: the output sizes of the two MACs, and the codec. *)
Class CryptoLaws `{Crypto} : Prop := {
  length_mac_sha1 : forall k m, length (mac_sha1 k m) = 20%nat;
  length_mac_sha256 : forall k m, length (mac_sha256 k m) = 32%nat;
  B64_decode_encode : forall l, B64_decode (B64_encode l) = Some l;
  B64_encode_chars : forall l, Forall (fun c => b64_char c = true) (B64_encode l)
}.

Section crypto.
Context `{CryptoLaws}.

Lemma B64_encode_inj l k : B64_encode l = B64_encode k -> l = k.
Proof.
  intros E. assert (Some l = Some k) as [=]; [|done].
  by rewrite <- !B64_decode_encode, E.
Qed.

(** A character outside the alphabet does not occur in an encoding: the
    separators of a token are unambiguous. *)
Lemma notin_B64_encode c l : b64_char c = false -> c ∉ B64_encode l.
Proof.
  intros Hc Hin. pose proof (B64_encode_chars l) as Hl.
  rewrite Forall_forall in Hl. specialize (Hl c Hin). congruence.
Qed.
End crypto.
