(* ===== verification/RefCrypto.v ===== *)
(** * A reference instance of the cryptographic interface

    SHA-1 and SHA-256 (FIPS 180-4), HMAC (RFC 2104) and the standard base64
    alphabet (RFC 4648) as executable definitions, with the laws of [Crypto].
    The witnesses of the theorems run the model with this instance, and the
    interoperability vectors of the test suite are checked with it in
    [SourceTests]. *)

From S2P Require Import Prelude Crypto.

(** ** 32-bit words *)

Definition w32 (z : Z) : Z := Z.land z 0xFFFFFFFF.
Definition add32 (a b : Z) : Z := w32 (a + b).
Definition rotl (n x : Z) : Z := Z.lor (w32 (Z.shiftl x n)) (Z.shiftr x (32 - n)).
Definition rotr (n x : Z) : Z := rotl (32 - n) x.
Definition not32 (x : Z) : Z := Z.lxor x 0xFFFFFFFF.

Definition be32 (z : Z) : list byte :=
  [zb (Z.shiftr z 24); zb (Z.shiftr z 16); zb (Z.shiftr z 8); zb z].

Fixpoint words (l : list byte) : list Z :=
  match l with
  | a :: b :: c :: d :: l' =>
      (bz a * 16777216 + bz b * 65536 + bz c * 256 + bz d) :: words l'
  | _ => []
  end.

(** Merkle-Damgard padding and blocks of 64 bytes. *)
Definition pad (l : list byte) : list byte :=
  let n := Z.of_nat (length l) in
  l ++ [Byte.x80] ++ replicate (Z.to_nat ((55 - n) mod 64)) Byte.x00
    ++ be32 (Z.shiftr (8 * n) 32) ++ be32 (8 * n).

Fixpoint blocks (fuel : nat) (l : list byte) : list (list Z) :=
  match fuel, l with
  | O, _ | _, [] => []
  | S f, _ => words (take 64 l) :: blocks f (drop 64 l)
  end.

Definition message (l : list byte) : list (list Z) :=
  let p := pad l in blocks (S (length p / 64)) p.

(** ** SHA-256 *)

Record state256 : Type := mk256 { s0 : Z; s1 : Z; s2 : Z; s3 : Z; s4 : Z; s5 : Z; s6 : Z; s7 : Z }.

(** The constants are the first 32 bits of the fractional parts of the square
    and cube roots of the first primes. *)
Definition is_prime (n : Z) : bool :=
  forallb (fun d => negb (n mod Z.of_nat d =? 0)) (seq 2 (Z.to_nat (Z.sqrt n) - 1)).

Definition primes (limit : nat) : list Z :=
  filter (fun n => is_prime n = true) (map Z.of_nat (seq 2 limit)).

(** The integer cube root of [n], from its bit [b] downwards. *)
Fixpoint cbrt (b : nat) (r n : Z) : Z :=
  match b with
  | O => r
  | S b' =>
      let r' := r + 2 ^ Z.of_nat b' in
      cbrt b' (if r' * r' * r' <=? n then r' else r) n
  end.

Definition k256 : list Z :=
  Eval vm_compute in map (fun p => w32 (cbrt 40 0 (p * 2 ^ 96))) (primes 310).

Definition xor3 (a b c : Z) : Z := Z.lxor a (Z.lxor b c).
Definition ch (x y z : Z) : Z := Z.lxor (Z.land x y) (Z.land (not32 x) z).
Definition maj (x y z : Z) : Z := xor3 (Z.land x y) (Z.land x z) (Z.land y z).

(** The schedule keeps the last sixteen words, the newest first. *)
Definition next256 (w : list Z) : Z :=
  let at_ i := nth i w 0 in
  let sm0 := xor3 (rotr 7 (at_ 14%nat)) (rotr 18 (at_ 14%nat)) (Z.shiftr (at_ 14%nat) 3) in
  let sm1 := xor3 (rotr 17 (at_ 1%nat)) (rotr 19 (at_ 1%nat)) (Z.shiftr (at_ 1%nat) 10) in
  w32 (at_ 15%nat + sm0 + at_ 6%nat + sm1).

Definition round256 (s : state256) (k w : Z) : state256 :=
  let '(mk256 a b c d e f g h) := s in
  let t1 := w32 (h + xor3 (rotr 6 e) (rotr 11 e) (rotr 25 e) + ch e f g + k + w) in
  let t2 := w32 (xor3 (rotr 2 a) (rotr 13 a) (rotr 22 a) + maj a b c) in
  mk256 (add32 t1 t2) a b c (add32 d t1) e f g.

(** [ws]: the words still to come; [last]: the sixteen last ones. *)
Fixpoint rounds256 (ks ws last : list Z) (s : state256) : state256 :=
  match ks with
  | [] => s
  | k :: ks' =>
      let '(w, ws') := match ws with w :: ws' => (w, ws') | [] => (next256 last, []) end in
      rounds256 ks' ws' (w :: take 15 last) (round256 s k w)
  end.

Definition block256 (s : state256) (b : list Z) : state256 :=
  let '(mk256 a b' c d e f g h) := s in
  let '(mk256 a2 b2 c2 d2 e2 f2 g2 h2) := rounds256 k256 b [] s in
  mk256 (add32 a a2) (add32 b' b2) (add32 c c2) (add32 d d2)
        (add32 e e2) (add32 f f2) (add32 g g2) (add32 h h2).

Definition init256 : state256 :=
  Eval vm_compute in
    match map (fun p => w32 (Z.sqrt (p * 2 ^ 64))) (primes 18) with
    | [a; b; c; d; e; f; g; h] => mk256 a b c d e f g h
    | _ => mk256 0 0 0 0 0 0 0 0
    end.

Definition out256 (s : state256) : list byte :=
  let '(mk256 a b c d e f g h) := s in
  be32 a ++ be32 b ++ be32 c ++ be32 d ++ be32 e ++ be32 f ++ be32 g ++ be32 h.

Definition sha256 (l : list byte) : list byte :=
  out256 (foldl block256 init256 (message l)).

(** ** SHA-1 *)

Record state1 : Type := mk1 { a1 : Z; b1 : Z; c1 : Z; d1 : Z; e1 : Z }.

Definition next1 (w : list Z) : Z :=
  let at_ i := nth i w 0 in
  rotl 1 (Z.lxor (Z.lxor (at_ 2%nat) (at_ 7%nat)) (Z.lxor (at_ 13%nat) (at_ 15%nat))).

Definition round1 (t : nat) (s : state1) (w : Z) : state1 :=
  let '(mk1 a b c d e) := s in
  let '(f, k) :=
    if Nat.ltb t 20 then (ch b c d, 0x5a827999)
    else if Nat.ltb t 40 then (xor3 b c d, 0x6ed9eba1)
    else if Nat.ltb t 60 then (maj b c d, 0x8f1bbcdc)
    else (xor3 b c d, 0xca62c1d6) in
  mk1 (w32 (rotl 5 a + f + e + k + w)) a (rotl 30 b) c d.

Fixpoint rounds1 (n t : nat) (ws last : list Z) (s : state1) : state1 :=
  match n with
  | O => s
  | S n' =>
      let '(w, ws') := match ws with w :: ws' => (w, ws') | [] => (next1 last, []) end in
      rounds1 n' (S t) ws' (w :: take 15 last) (round1 t s w)
  end.

Definition block1 (s : state1) (b : list Z) : state1 :=
  let '(mk1 a b' c d e) := s in
  let '(mk1 a2 b2 c2 d2 e2) := rounds1 80 0 b [] s in
  mk1 (add32 a a2) (add32 b' b2) (add32 c c2) (add32 d d2) (add32 e e2).

Definition init1 : state1 := mk1 0x67452301 0xefcdab89 0x98badcfe 0x10325476 0xc3d2e1f0.

Definition out1 (s : state1) : list byte :=
  let '(mk1 a b c d e) := s in be32 a ++ be32 b ++ be32 c ++ be32 d ++ be32 e.

Definition sha1 (l : list byte) : list byte := out1 (foldl block1 init1 (message l)).

(** ** HMAC, with blocks of 64 bytes *)

Definition hmac (h : list byte -> list byte) (key msg : list byte) : list byte :=
  let k := if Nat.ltb 64 (length key) then h key else key in
  let k := k ++ replicate (64 - length k) Byte.x00 in
  let mask m := map (fun c => zb (Z.lxor (bz c) m)) k in
  h (mask 0x5c ++ h (mask 0x36 ++ msg)).

(** ** Base64 *)

Definition alphabet : str :=
  !"ABCDEFGHIJKLMNOPQRSTUVWXYZabcdefghijklmnopqrstuvwxyz0123456789+/".

Definition enc (v : Z) : byte := nth (Z.to_nat v) alphabet Byte.x3d.

Definition dec (c : byte) : option Z :=
  let v := bz c in
  if (65 <=? v) && (v <=? 90) then Some (v - 65)
  else if (97 <=? v) && (v <=? 122) then Some (v - 71)
  else if (48 <=? v) && (v <=? 57) then Some (v + 4)
  else if v =? 43 then Some 62
  else if v =? 47 then Some 63
  else None.

Definition eq_sign : byte := Byte.x3d.

Fixpoint b64_encode (l : list byte) : str :=
  match l with
  | [] => []
  | [a] => [enc (bz a / 4); enc (bz a mod 4 * 16); eq_sign; eq_sign]
  | [a; b] =>
      [enc (bz a / 4); enc (bz a mod 4 * 16 + bz b / 16); enc (bz b mod 16 * 4); eq_sign]
  | a :: b :: c :: l' =>
      enc (bz a / 4) :: enc (bz a mod 4 * 16 + bz b / 16)
        :: enc (bz b mod 16 * 4 + bz c / 64) :: enc (bz c mod 64) :: b64_encode l'
  end.

(** Padding is required and the unused bits must be zero. *)
Fixpoint b64_decode (s : str) : option (list byte) :=
  match s with
  | [] => Some []
  | a :: b :: c :: d :: s' =>
      x ← dec a; y ← dec b;
      if decide (d = eq_sign) then
        if bool_decide (s' = []) then
          if decide (c = eq_sign) then
            if y mod 16 =? 0 then Some [zb (x * 4 + y / 16)] else None
          else
            z ← dec c;
            if z mod 4 =? 0 then Some [zb (x * 4 + y / 16); zb (y mod 16 * 16 + z / 4)]
            else None
        else None
      else
        z ← dec c; w ← dec d; r ← b64_decode s';
        Some (zb (x * 4 + y / 16) :: zb (y mod 16 * 16 + z / 4) :: zb (z mod 4 * 64 + w) :: r)
  | _ => None
  end.

Definition ref_crypto : Crypto := {|
  mac_sha1 := hmac sha1;
  mac_sha256 := hmac sha256;
  digest_sha1 := sha1;
  B64_encode := b64_encode;
  B64_decode := b64_decode
|}.

(** ** The laws *)

Lemma length_sha256 l : length (sha256 l) = 32%nat.
Proof. unfold sha256, out256. by destruct (foldl _ _ _). Qed.

Lemma length_sha1 l : length (sha1 l) = 20%nat.
Proof. unfold sha1, out1. by destruct (foldl _ _ _). Qed.

Definition enc_ok (v : Z) : bool :=
  bool_decide (dec (enc v) = Some v) && b64_char (enc v) && negb (bool_decide (enc v = eq_sign)).

Lemma enc_ok_all v : 0 <= v < 64 -> enc_ok v = true.
Proof.
  intros Hv. assert (H : forallb enc_ok (map Z.of_nat (seq 0 64)) = true)
    by (vm_compute; reflexivity).
  rewrite forallb_forall in H. apply H, in_map_iff.
  exists (Z.to_nat v). split; [lia|]. apply in_seq. lia.
Qed.

Lemma dec_enc v : 0 <= v < 64 -> dec (enc v) = Some v.
Proof. intros H%enc_ok_all. unfold enc_ok in H. by to_prop. Qed.

Lemma enc_char v : 0 <= v < 64 -> b64_char (enc v) = true.
Proof. intros H%enc_ok_all. unfold enc_ok in H. by to_prop. Qed.

Lemma enc_neq v : 0 <= v < 64 -> enc v <> eq_sign.
Proof. intros H%enc_ok_all. unfold enc_ok in H. by to_prop. Qed.

(** Induction by groups of three bytes. *)
Lemma list_ind3 {A} (P : list A -> Prop) :
  P [] -> (forall a, P [a]) -> (forall a b, P [a; b]) ->
  (forall a b c l, P l -> P (a :: b :: c :: l)) -> forall l, P l.
Proof.
  intros H0 H1 H2 H3 l.
  induction l as [l IH] using (well_founded_induction (well_founded_ltof _ length)).
  destruct l as [|a [|b [|c l]]]; auto.
  apply H3, IH. unfold ltof. cbn. lia.
Qed.

(** The sextets of two adjacent bytes are in range. *)
Ltac sextet := byte_bounds; Z.div_mod_to_equations; lia.

Lemma zb_eq z b : z = bz b -> zb z = b.
Proof. intros ->. apply zb_bz. Qed.

Lemma b64_decode_encode l : b64_decode (b64_encode l) = Some l.
Proof.
  induction l as [|a|a b|a b c l IH] using list_ind3; [done|..]; cbn [b64_encode b64_decode].
  - rewrite !dec_enc by sextet. cbn.
    replace (_ =? 0) with true by (symmetry; apply Z.eqb_eq; sextet).
    by rewrite (zb_eq _ a) by sextet.
  - rewrite !dec_enc by sextet. cbn [mbind option_bind].
    rewrite decide_True by done. rewrite bool_decide_eq_true_2 by done.
    rewrite decide_False by (apply enc_neq; sextet).
    replace (_ =? 0) with true by (symmetry; apply Z.eqb_eq; sextet).
    by rewrite (zb_eq _ a), (zb_eq _ b) by sextet.
  - rewrite !dec_enc by sextet. cbn [mbind option_bind].
    rewrite decide_False by (apply enc_neq; sextet). rewrite IH. cbn [option_bind].
    by rewrite (zb_eq _ a), (zb_eq _ b), (zb_eq _ c) by sextet.
Qed.

Lemma b64_encode_chars l : Forall (fun c => b64_char c = true) (b64_encode l).
Proof.
  induction l as [|a|a b|a b c l IH] using list_ind3; cbn [b64_encode];
    repeat (constructor; [first [done | apply enc_char; sextet]|]); auto.
Qed.

Lemma ref_crypto_laws : @CryptoLaws ref_crypto.
Proof.
  split; cbn.
  - intros. apply length_sha1.
  - intros. apply length_sha256.
  - apply b64_decode_encode.
  - apply b64_encode_chars.
Qed.

(** ** A small instance

    The same codec with toy MACs, a checksum of the key followed by the end of
    the message: the witnesses that only need the laws evaluate with it. *)

Definition toy_mac (n : nat) (k m : list byte) : list byte :=
  take n (zb (foldr (fun b acc => bz b + acc) 0 k) :: rev m ++ replicate n Byte.x00).

Definition toy_crypto : Crypto := {|
  mac_sha1 := toy_mac 20;
  mac_sha256 := toy_mac 32;
  digest_sha1 := toy_mac 20 [];
  B64_encode := b64_encode;
  B64_decode := b64_decode
|}.

Lemma length_toy_mac n k m : length (toy_mac n k m) = n.
Proof.
  unfold toy_mac. rewrite length_take. cbn [length]. rewrite length_app, length_replicate. lia.
Qed.

Lemma toy_crypto_laws : @CryptoLaws toy_crypto.
Proof.
  split; intros; [apply length_toy_mac..| |].
  - apply b64_decode_encode.
  - apply b64_encode_chars.
Qed.
