(* ===== verification/Config.v ===== *)
(** * Configuration: [config/constants.rs], [config/mod.rs], [config/parser.rs]

    The protocol constants, the runtime configuration, the secret key file and
    the command line.  The version string comes from the build environment and
    is a field of [Build]; reading a file and the level names of the [log]
    crate are arguments of the functions that use them. *)

From stdpp Require Import vector.
From S2P Require Import Prelude RustStr Net.

(** [env!("RMBTD_VERSION")] and [env!("RMBTD_BRANCH")] *)
Class Build : Type := {
  RMBTD_VERSION : str;
  RMBTD_BRANCH : str
}.

(** ** constants.rs *)

Definition GREETING `{Build} : str := !"RMBTv" ++ RMBTD_VERSION ++ [Byte.x0a].

Definition DEFAULT_TLS_PORT : Z := 443.

Definition HSTS_HEADER : str :=
  !"Strict-Transport-Security: max-age=31536000" ++ [Byte.x0d; Byte.x0a].

Definition CHUNK_SIZE : Z := 4096.
Definition MIN_CHUNK_SIZE : Z := 4096.
Definition MAX_CHUNK_SIZE : Z := 4194304.
Definition MAX_CHUNKS : Z := 300000.
Definition MAX_SECONDS : Z := 30.
Definition MAX_LINE_LENGTH : Z := 1024.
Definition SOCKET_TIMEOUT_SECS : Z := 30.
Definition MAX_ACCEPT_EARLY : Z := 20.
Definition MAX_ACCEPT_LATE : Z := 90.

(** ** mod.rs *)

Record SecretKey : Type := mkKey {
  key : str;
  label : str
}.

#[export] Instance SecretKey_eq_dec : EqDecision SecretKey.
Proof. solve_decision. Defined.

Inductive LevelFilter : Type := Off | ErrorLevel | Warn | Info | Debug | Trace.

Record Config : Type := mkConfig {
  cert_path : option str;
  key_path : option str;
  tls13_only : bool;
  hsts : bool;
  num_workers : Z;
  secret_key_path : str;
  check_token : bool;
  v2_only : bool;
  log_level : LevelFilter;
  syslog_target : option SocketAddr;
  log_full_ip : bool
}.

(** [Config::default] *)
Definition Config_default : Config := {|
  cert_path := None;
  key_path := None;
  tls13_only := false;
  hsts := false;
  num_workers := 200;
  secret_key_path := !"secret.key";
  check_token := true;
  v2_only := false;
  log_level := Off;
  syslog_target := None;
  log_full_ip := false
|}.

(** ** The secret key file *)

(** The body of the loop of [read_secret_keys]: the key of one line, if any. *)
Definition key_of_line (line : str) : option SecretKey :=
  let line := trim line in
  if (len line <? 5) || starts_with !"#" line then None
  else
    match split_once !" " line with
    | Some (k, l) => Some (mkKey k (trim l))
    | None => Some (mkKey line [])
    end.

Inductive key_file_error : Type :=
  | CannotOpen (path : str)
  | NoValidKeys (path : str).

(** [fs] is [std::fs::read_to_string]. *)
Definition read_secret_keys (fs : str -> option str) (path : str)
    : result (list SecretKey) key_file_error :=
  match fs path with
  | None => Err (CannotOpen path)
  | Some content =>
      let keys := omap key_of_line (lines content) in
      match keys with
      | [] => Err (NoValidKeys path)
      | _ => Ok keys
      end
  end.

(** ** Addresses on the command line *)

(** Around the last occurrence of a byte: [s.rfind(c)]. *)
Definition rsplit_once (c : byte) (s : str) : option (str * str) :=
  match split_once [c] (rev s) with
  | Some (a, r) => Some (rev r, rev a)
  | None => None
  end.

Definition parse_port : str -> option Z := parse_unsigned 65535.

(** The [\[IPv6\]:port] form. *)
Definition parse_bracketed (s : str) : option SocketAddr :=
  if starts_with !"[" s then
    '(before, after) ← rsplit_once Byte.x5d s;
    port_str ← strip_prefix !":" after;
    ip ← parse_ipv6 (drop 1 before);
    port ← parse_port port_str;
    Some (SocketAddr_new ip port)
  else None.

(** The [IPv4:port] form. *)
Definition parse_v4_port (s : str) : option SocketAddr :=
  '(ip_s, port_s) ← split_once !":" s;
  ip ← parse_ipv4 ip_s;
  port ← parse_port port_s;
  Some (SocketAddr_new ip port).

Definition parse_addr (s : str) : option SocketAddr :=
  let s := trim s in
  match parse_socket_addr s with
  | Some sa => Some sa
  | None =>
      match parse_bracketed s with
      | Some sa => Some sa
      | None =>
          match parse_v4_port s with
          | Some sa => Some sa
          | None =>
              match parse_port s with
              | Some port => Some (SocketAddr_new Ipv4_UNSPECIFIED port)
              | None => None
              end
          end
      end
  end.

Definition parse_syslog_target (s : str) : option SocketAddr :=
  let s := trim s in
  match parse_socket_addr s with
  | Some sa => Some sa
  | None =>
      match parse_ip s with
      | Some ip => Some (SocketAddr_new ip 514)
      | None => None
      end
  end.

(** ** The command line *)

Record Cli : Type := mkCli {
  config : Config;
  tcp_addrs : list SocketAddr;
  tls_addrs : list SocketAddr
}.

(** What is printed instead of running. *)
Inductive Printout : Type :=
  | HelpPage
  | VersionLine.

(** How [parse_cli] ends: with a configuration, after printing the help or the
    version, with an error, or by exiting the process on an unknown option. *)
Inductive cli_outcome : Type :=
  | Run (c : Cli)
  | Printed (p : Printout)
  | BadArgument (opt arg : str)
  | ExitUnknown (opt : str).

Section setters.
Implicit Types c : Config.
Definition set_cert_path v c := mkConfig (Some v) (key_path c) (tls13_only c) (hsts c)
  (num_workers c) (secret_key_path c) (check_token c) (v2_only c) (log_level c)
  (syslog_target c) (log_full_ip c).
Definition set_key_path v c := mkConfig (cert_path c) (Some v) (tls13_only c) (hsts c)
  (num_workers c) (secret_key_path c) (check_token c) (v2_only c) (log_level c)
  (syslog_target c) (log_full_ip c).
Definition set_tls13_only c := mkConfig (cert_path c) (key_path c) true (hsts c)
  (num_workers c) (secret_key_path c) (check_token c) (v2_only c) (log_level c)
  (syslog_target c) (log_full_ip c).
Definition set_hsts c := mkConfig (cert_path c) (key_path c) (tls13_only c) true
  (num_workers c) (secret_key_path c) (check_token c) (v2_only c) (log_level c)
  (syslog_target c) (log_full_ip c).
Definition set_num_workers v c := mkConfig (cert_path c) (key_path c) (tls13_only c) (hsts c)
  v (secret_key_path c) (check_token c) (v2_only c) (log_level c)
  (syslog_target c) (log_full_ip c).
Definition set_secret_key_path v c := mkConfig (cert_path c) (key_path c) (tls13_only c)
  (hsts c) (num_workers c) v (check_token c) (v2_only c) (log_level c)
  (syslog_target c) (log_full_ip c).
Definition set_no_check_token c := mkConfig (cert_path c) (key_path c) (tls13_only c)
  (hsts c) (num_workers c) (secret_key_path c) false (v2_only c) (log_level c)
  (syslog_target c) (log_full_ip c).
Definition set_v2_only c := mkConfig (cert_path c) (key_path c) (tls13_only c)
  (hsts c) (num_workers c) (secret_key_path c) (check_token c) true (log_level c)
  (syslog_target c) (log_full_ip c).
Definition set_log_level v c := mkConfig (cert_path c) (key_path c) (tls13_only c)
  (hsts c) (num_workers c) (secret_key_path c) (check_token c) (v2_only c) v
  (syslog_target c) (log_full_ip c).
Definition set_syslog_target v c := mkConfig (cert_path c) (key_path c) (tls13_only c)
  (hsts c) (num_workers c) (secret_key_path c) (check_token c) (v2_only c) (log_level c)
  (Some v) (log_full_ip c).
Definition set_log_full_ip c := mkConfig (cert_path c) (key_path c) (tls13_only c)
  (hsts c) (num_workers c) (secret_key_path c) (check_token c) (v2_only c) (log_level c)
  (syslog_target c) true.
End setters.

Section cli.
(** [LevelFilter::from_str] of the [log] crate. *)
Variable parse_level : str -> option LevelFilter.

(** An option with a value: [i += 1; if i < args.len() { ... }]. *)
Definition value_opt (opt : str) : option (str -> Cli -> option Cli) :=
  let on_config (f : str -> Config -> option Config) :=
    Some (fun v c => cfg ← f v (config c); Some (mkCli cfg (tcp_addrs c) (tls_addrs c))) in
  if str_eqb opt !"-l" then
    Some (fun v c => a ← parse_addr v;
                     Some (mkCli (config c) (tcp_addrs c ++ [a]) (tls_addrs c)))
  else if str_eqb opt !"-L" then
    Some (fun v c => a ← parse_addr v;
                     Some (mkCli (config c) (tcp_addrs c) (tls_addrs c ++ [a])))
  else if str_eqb opt !"-c" then on_config (fun v c => Some (set_cert_path v c))
  else if str_eqb opt !"-k" then on_config (fun v c => Some (set_key_path v c))
  else if str_eqb opt !"-S" then on_config (fun v c => Some (set_secret_key_path v c))
  else if str_eqb opt !"-t" then
    on_config (fun v c => n ← parse_unsigned u64_max v; Some (set_num_workers n c))
  else if str_eqb opt !"-log" then
    on_config (fun v c => l ← parse_level v; Some (set_log_level l c))
  else if str_eqb opt !"--syslog" then
    on_config (fun v c => a ← parse_syslog_target v; Some (set_syslog_target a c))
  else None.

(** An option without a value. *)
Definition flag_opt (opt : str) : option (Config -> Config) :=
  if str_eqb opt !"--tls13-only" then Some set_tls13_only
  else if str_eqb opt !"--hsts" then Some set_hsts
  else if str_eqb opt !"-s" then Some (fun c => c)
  else if str_eqb opt !"--no-token-check" then Some set_no_check_token
  else if str_eqb opt !"--v2-only" then Some set_v2_only
  else if str_eqb opt !"--log-full-ip" then Some set_log_full_ip
  else None.

(** An option that prints and returns [None]. *)
Definition print_opt (opt : str) : option Printout :=
  if str_eqb opt !"--help" || str_eqb opt !"-h" then Some HelpPage
  else if str_eqb opt !"-v" || str_eqb opt !"--version" then Some VersionLine
  else None.

(** The default TLS listeners, when no [-L] was given. *)
Definition default_tls (c : Cli) : Cli :=
  match tls_addrs c with
  | [] => mkCli (config c) (tcp_addrs c)
            [SocketAddr_new Ipv6_UNSPECIFIED DEFAULT_TLS_PORT;
             SocketAddr_new Ipv4_UNSPECIFIED DEFAULT_TLS_PORT]
  | _ => c
  end.

(** The [while] loop over the arguments. *)
Fixpoint parse_args (args : list str) (c : Cli) : cli_outcome :=
  match args with
  | [] => Run (default_tls c)
  | opt :: args' =>
      match value_opt opt with
      | Some set =>
          match args' with
          | [] => parse_args args' c
          | v :: args'' =>
              match set v c with
              | Some c' => parse_args args'' c'
              | None => BadArgument opt v
              end
          end
      | None =>
          match flag_opt opt with
          | Some set =>
              parse_args args' (mkCli (set (config c)) (tcp_addrs c) (tls_addrs c))
          | None => match print_opt opt with Some p => Printed p | None => ExitUnknown opt end
          end
      end
  end.

Definition parse_cli (args : list str) : cli_outcome :=
  parse_args args (mkCli Config_default [] []).
End cli.

(** ** What is printed *)

(** A line of the option list, indented with a tab. *)
Definition opt_line (l : str) : str := Byte.x09 :: l.

(** The lines of [print_help]. *)
Definition help_lines : list str :=
  [!"rmbtd — RMBT network measurement server";
   [];
   !"USAGE:";
   opt_line !"rmbtd [OPTIONS]";
   [];
   !"OPTIONS:";
   opt_line !"-l ADDRESS   TCP listen address  (no default; TCP disabled unless specified)";
   opt_line !"-L ADDRESS   TLS listen address  (default: [::]:443 and 0.0.0.0:443)";
   opt_line !"-c PATH      TLS certificate file (PEM)";
   opt_line !"-k PATH      TLS private key file (PEM)";
   opt_line !"--tls13-only Restrict TLS to version 1.3 (reject TLS 1.2)";
   opt_line !"--hsts       Send an HSTS header (Strict-Transport-Security: max-age=31536000) on TLS responses";
   opt_line !"-S PATH      Secret key file (default: secret.key)";
   opt_line !"-t N         Worker thread count  (default: 200)";
   opt_line !"--no-token-check  Accept all measurement tokens without HMAC verification (testing/debugging only; /ip still checks tokens)";
   opt_line !"--v2-only    Accept only v2 tokens (SHA256, IP+time bound); reject legacy v1 tokens";
   opt_line !"-log LEVEL   Log level: info | debug | trace";
   opt_line !"--syslog ADDRESS  Send structured per-connection events as UDP RFC 5424 to ADDRESS (IP or IP:port; port default 514)";
   opt_line !"--log-full-ip  Log the full client IP (default: anonymised, last octet dropped for IPv4, past /48 for IPv6)";
   opt_line !"-h, --help   Show this help";
   opt_line !"-v, --version Print version";
   [];
   !"ADDRESS examples: " ++ [Byte.x22] ++ !"443" ++ [Byte.x22] ++ !", " ++ [Byte.x22] ++ !"0.0.0.0:443" ++ [Byte.x22] ++ !", " ++ [Byte.x22] ++ !"[::]:443" ++ [Byte.x22]].

(** The text of [println!] ends in one more line break. *)
Definition help_page : str := concat (map (fun l => l ++ [Byte.x0a]) help_lines) ++ [Byte.x0a].

Definition printout `{Build} (p : Printout) : str :=
  match p with
  | HelpPage => help_page
  | VersionLine => !"rmbtd " ++ RMBTD_VERSION ++ [Byte.x0a]
  end.
