(* ===== verification/ConfigFacts.v ===== *)
(** * Configuration: what the command line and the key file mean

    Key files and addresses are read back as they are written; checks are only
    weakened by the option that says so. *)

From stdpp Require Import vector.
From S2P Require Import Prelude RustStr Net NetFacts Config.

(** ** Addresses *)

(** A bare number is no socket address. *)
Lemma parse_socket_addr_digits n : parse_socket_addr (show_unsigned n) = None.
Proof.
  unfold parse_socket_addr, parse_with, read_socket_addr.
  pose proof (show_unsigned_digits n) as Hd. pose proof (show_unsigned_nonempty n) as Hne.
  assert (H4 : read_socket_addr_v4 (show_unsigned n) = None).
  { unfold read_socket_addr_v4, read_ipv4_addr, read_octet, read_separator, read_number.
    assert (Hall : forall s acc k, Forall (fun c => is_digit c = true) s ->
      exists v m, read_digits 10 acc k s = (v, m, [])).
    { induction s as [|c s IH]; intros acc k Hs; cbn; [eauto|]. inversion_clear Hs as [|? ? Hc Hs'].
      assert (Hv : digit_of 10 c = Some (bz c - 48)).
      { apply digit_of_digit. unfold digit_val. unfold is_digit in Hc. by rewrite Hc. }
      rewrite Hv. by apply IH. }
    destruct (Hall (show_unsigned n) 0 0%nat Hd) as (v & m & ->).
    repeat case_match; simplify_eq/=; done. }
  rewrite H4. unfold read_socket_addr_v6, read_given_char.
  destruct (show_unsigned n) as [|c s]; [done|]. inversion_clear Hd as [|? ? Hc _].
  rewrite decide_False; [done|]. intros ->. done.
Qed.

(** Nor is an address without a port. *)
Lemma parse_socket_addr_ip ip : parse_socket_addr (show_ip ip) = None.
Proof.
  unfold parse_socket_addr, parse_with, read_socket_addr, read_socket_addr_v4.
  assert (Hb : forall s, match s with c :: _ => c <> Byte.x5b | [] => True end ->
                 read_socket_addr_v6 s = None).
  { intros s Hs. unfold read_socket_addr_v6, read_given_char. destruct s; [done|].
    by rewrite decide_False. }
  destruct ip as [a b c d|o]; cbn [show_ip].
  - rewrite <- (app_nil_r (show_v4 a b c d)). rewrite read_ipv4_show by done. cbn [mbind option_bind].
    rewrite app_nil_r, Hb; [done|]. unfold show_v4.
    pose proof (show_unsigned_digits (bz a)) as Hd. pose proof (show_unsigned_nonempty (bz a)).
    destruct Hd as [|x s Hx _]; [done|]. intros ->. done.
  - rewrite <- (app_nil_r (show_v6 o)), read_ipv4_v6. cbn [mbind option_bind]. rewrite Hb; [done|].
    destruct (show_v6_first o) as (h & s & -> & Hh). destruct Hh as [|x h Hx _]; [done|]. intros ->. done.
Qed.

(** C38: listen addresses mean what they say: the text of an IPv4 or IPv6 address
    and port, [a.b.c.d:port] or [[x:y::z]:port], is that address and port, a bare
    port listens on every IPv4 address, and a syslog target without a port gets
    port 514. *)
Theorem addresses_read_back ip port
    (Hp : 0 <= port <= 65535) :
  parse_addr (show_ip_port ip port) = Some (SocketAddr_new ip port) /\
  parse_addr (show_unsigned port) = Some (SocketAddr_new Ipv4_UNSPECIFIED port) /\
  parse_syslog_target (show_ip_port ip port) = Some (SocketAddr_new ip port) /\
  parse_syslog_target (show_ip ip) = Some (SocketAddr_new ip 514).
Proof.
  unfold parse_addr, parse_syslog_target.
  rewrite (trim_text (show_ip_port ip port)) by apply show_ip_port_graphic.
  rewrite (trim_text (show_ip ip)) by apply show_ip_graphic.
  rewrite (trim_text (show_unsigned port)) by apply digits_graphic, show_unsigned_digits.
  rewrite parse_show_ip_port by done. rewrite parse_socket_addr_digits, parse_socket_addr_ip, parse_show_ip.
  assert (Hnb : starts_with !"[" (show_unsigned port) = false).
  { pose proof (show_unsigned_digits port) as H. destruct H as [|x s Hx _]; [done|].
    unfold starts_with. cbn. rewrite decide_False; [done|]. intros <-. done. }
  assert (Hnc : split_once !":" (show_unsigned port) = None).
  { apply split_once_char_None. apply digits_notin; [apply show_unsigned_digits|done]. }
  unfold parse_bracketed, parse_v4_port, parse_port. rewrite Hnb, Hnc. cbn [mbind option_bind].
  by rewrite parse_show_unsigned by lia.
Qed.

Lemma addresses_read_back_witness :
  let ip := match parse_ip !"2001:db8::7" with Some ip => ip | None => Ipv6_UNSPECIFIED end in
  parse_addr !"[2001:db8::7]:8443" = Some (SocketAddr_new ip 8443) /\
  parse_addr !"8443" = Some (SocketAddr_new Ipv4_UNSPECIFIED 8443) /\
  parse_syslog_target !"[2001:db8::7]:8443" = Some (SocketAddr_new ip 8443) /\
  parse_syslog_target !"2001:db8::7" = Some (SocketAddr_new ip 514).
Proof.
  apply (addresses_read_back match parse_ip !"2001:db8::7" with Some ip => ip | None => Ipv6_UNSPECIFIED end 8443).
  lia.
Defined.

(** ** The command line *)

Section cli.
Variable parse_level : str -> option LevelFilter.

(** A setting that only one option changes. *)
Definition only_set_by {A} (get : Config -> A) (name : str) : Prop :=
  (forall opt set v c c', value_opt parse_level opt = Some set -> set v c = Some c' ->
     get (config c') = get (config c)) /\
  (forall opt set cfg, flag_opt opt = Some set -> opt <> name -> get (set cfg) = get cfg).

Lemma parse_args_unchanged {A} (get : Config -> A) name args c r :
  only_set_by get name -> name ∉ args -> parse_args parse_level args c = Run r ->
  get (config r) = get (config c).
Proof.
  intros [Hv Hf]. enough (forall n args c, (length args <= n)%nat -> name ∉ args ->
    parse_args parse_level args c = Run r -> get (config r) = get (config c)) by eauto.
  clear args c. induction n as [|n IH]; intros [|opt args] c Hl Hin E; cbn [length] in Hl; try lia.
  1,2: cbn in E; injection E as <-; unfold default_tls; by destruct (tls_addrs c).
  cbn [parse_args] in E. destruct (value_opt parse_level opt) as [set|] eqn:Eo.
  - destruct args as [|v args]; [by apply IH in E; [|cbn; lia|set_solver]|].
    destruct (set v c) as [c'|] eqn:Es; [|done]. cbn in Hl.
    apply IH in E; [|lia|set_solver]. by rewrite E, (Hv opt set v c c').
  - destruct (flag_opt opt) as [set|] eqn:Ef; [|by destruct (print_opt opt)].
    apply IH in E; [|lia|set_solver]. rewrite E. cbn. apply (Hf opt); [done|set_solver].
Qed.

Ltac options H :=
  repeat match type of H with
  | (if str_eqb ?o ?n then _ else _) = Some _ => destruct (str_eqb o n) eqn:?
  end.

Ltac only_set :=
  split;
  [ intros opt set v c c' E Hs; unfold value_opt in E; options E; try done;
    injection E as <-; cbn in Hs; repeat case_match; simplify_eq/=; try done;
    repeat (match goal with H : _ ≫= _ = Some _ |- _ => apply bind_Some in H as (? & ? & ?) end;
            simplify_eq/=); done
  | intros opt set cfg E Hne; unfold flag_opt in E; options E; try done; injection E as <-; try done;
    exfalso; apply Hne; by apply str_eqb_true ].

Lemma check_token_only : only_set_by check_token !"--no-token-check".
Proof. only_set. Qed.

Lemma v2_only_only : only_set_by v2_only !"--v2-only".
Proof. only_set. Qed.

Lemma log_full_ip_only : only_set_by log_full_ip !"--log-full-ip".
Proof. only_set. Qed.

Lemma parse_args_tls args c r : parse_args parse_level args c = Run r -> tls_addrs r <> [].
Proof.
  enough (forall n args c, (length args <= n)%nat -> parse_args parse_level args c = Run r ->
            tls_addrs r <> []) by eauto.
  clear args c. induction n as [|n IH]; intros [|opt args] c Hl E; cbn [length] in Hl; try lia.
  1,2: cbn in E; injection E as <-; unfold default_tls; destruct (tls_addrs c) eqn:Et; [done|];
       by rewrite Et.
  cbn [parse_args] in E. destruct (value_opt parse_level opt) as [set|].
  - destruct args as [|v args]; [by apply IH in E; [|cbn; lia]|].
    destruct (set v c) as [c'|]; [|done]. cbn in Hl. apply IH in E; [done|lia].
  - destruct (flag_opt opt) as [set|]; [|by destruct (print_opt opt)]. apply IH in E; [done|lia].
Qed.

(** C37: defaults are safe: whatever the other arguments, a server that starts
    checks measurement tokens unless [--no-token-check] is given, takes v1 tokens
    unless [--v2-only] is given, logs anonymised addresses unless
    [--log-full-ip] is given, and has a TLS address to listen on. *)
Theorem safe_defaults args r
    (Hrun : parse_cli parse_level args = Run r) :
  (!"--no-token-check" ∉ args -> check_token (config r) = true) /\
  (!"--v2-only" ∉ args -> v2_only (config r) = false) /\
  (!"--log-full-ip" ∉ args -> log_full_ip (config r) = false) /\
  tls_addrs r <> [].
Proof.
  unfold parse_cli in Hrun. split_and!.
  - intros Hin. by rewrite (parse_args_unchanged _ _ _ _ _ check_token_only Hin Hrun).
  - intros Hin. by rewrite (parse_args_unchanged _ _ _ _ _ v2_only_only Hin Hrun).
  - intros Hin. by rewrite (parse_args_unchanged _ _ _ _ _ log_full_ip_only Hin Hrun).
  - by eapply parse_args_tls.
Qed.
End cli.

(** [rmbtd -l 5231 --hsts -t 8] *)
Definition sample_args : list str := [!"-l"; !"5231"; !"--hsts"; !"-t"; !"8"].
Definition sample_cli : Cli :=
  mkCli (set_num_workers 8 (set_hsts Config_default)) [SocketAddr_new Ipv4_UNSPECIFIED 5231]
    [SocketAddr_new Ipv6_UNSPECIFIED DEFAULT_TLS_PORT; SocketAddr_new Ipv4_UNSPECIFIED DEFAULT_TLS_PORT].

Lemma safe_defaults_witness :
  check_token (config sample_cli) = true /\ v2_only (config sample_cli) = false /\
  log_full_ip (config sample_cli) = false /\ tls_addrs sample_cli <> [].
Proof.
  destruct (safe_defaults (fun _ => None) sample_args sample_cli) as (H1 & H2 & H3 & H4).
  - vm_compute. reflexivity.
  - split_and!; [apply H1|apply H2|apply H3|done]; by apply (bool_decide_unpack _).
Defined.

(** ** The help page *)

(** Every option that the command line knows is on the help page, except the
    legacy [-s]. *)
Lemma help_lists_options parse_level opt :
  value_opt parse_level opt <> None \/ flag_opt opt <> None \/ print_opt opt <> None ->
  opt = !"-s" \/ exists l, l ∈ help_lines /\ contains opt l = true.
Proof.
  assert (Hin : existsb (contains opt) help_lines = true ->
    opt = !"-s" \/ exists l, l ∈ help_lines /\ contains opt l = true).
  { intros (l & Hl & E)%existsb_exists. right. exists l. split; [by apply list_elem_of_In|done]. }
  unfold value_opt, flag_opt, print_opt. intros H.
  repeat match type of H with
  | context [str_eqb opt ?o] =>
      destruct (str_eqb opt o) eqn:E;
      [apply str_eqb_true in E as ->; (by left) || (apply Hin; vm_compute; reflexivity)|clear E]
  end.
  cbn in H. by destruct H as [|[|]].
Qed.

(** ** The key file *)

(** A key as it can be written to a line: key and label start and end with
    graphic characters, the key has no space, and neither has a line break. *)
Definition writable (k : SecretKey) : Prop :=
  Forall (fun c => graphic c = true) (key k) /\
  (exists c s, key k = c :: s /\ c <> Byte.x23) /\
  (exists c s d, label k = c :: s /\ label k = removelast (label k) ++ [d] /\
     graphic c = true /\ graphic d = true) /\
  (Byte.x0a ∉ label k) /\ 4 <= len (key k) + len (label k).

Definition key_line (k : SecretKey) : str := key k ++ !" " ++ label k.
Definition key_file (ks : list SecretKey) : str := concat (map (fun k => key_line k ++ [Byte.x0a]) ks).

Lemma key_of_line_key k : writable k -> key_of_line (key_line k) = Some k.
Proof.
  intros (Hg & (c & s & Ek & Hc) & (c1 & s1 & d & El1 & El2 & Hc1 & Hd) & _ & Hlen).
  assert (Hgc : graphic c = true) by (rewrite Ek in Hg; by inversion_clear Hg).
  assert (Et : trim (key_line k) = key_line k).
  { unfold key_line. rewrite Ek. cbn [app]. eapply (trim_ends c _ d); [done|done|].
    rewrite El2 at 1. rewrite !app_comm_cons, !app_assoc. reflexivity. }
  unfold key_of_line. rewrite Et.
  assert (E5 : (len (key_line k) <? 5) = false).
  { apply Z.ltb_ge. unfold key_line. rewrite !length_app.
    change (length !" ") with 1%nat. lia. }
  assert (Eh : starts_with !"#" (key_line k) = false).
  { unfold key_line, starts_with. rewrite Ek. cbn. rewrite decide_False by congruence. done. }
  rewrite E5, Eh. cbn [orb]. unfold key_line.
  assert (Es : split_once !" " (key k ++ !" " ++ label k) = Some (key k, label k)).
  { apply (split_once_head Byte.x20 []). intros Hin. rewrite Forall_forall in Hg.
    apply Hg in Hin. done. }
  rewrite Es. replace (trim (label k)) with (label k); [by destruct k|].
  symmetry. rewrite El1. apply (trim_ends c1 s1 d (removelast (label k))); [done|done|].
  by rewrite <- El1.
Qed.

Lemma lines_fuel_cons l r f :
  Byte.x0a ∉ l -> lines_fuel (S f) (l ++ Byte.x0a :: r) = pop_if Byte.x0d l :: lines_fuel f r.
Proof.
  intros Hl. assert (E : split_once [Byte.x0a] (l ++ Byte.x0a :: r) = Some (l, r))
    by (by apply (split_once_head Byte.x0a [])).
  cbn [lines_fuel]. rewrite E. by destruct l.
Qed.

Lemma key_line_facts k :
  writable k -> (Byte.x0a ∉ key_line k) /\ pop_if Byte.x0d (key_line k) = key_line k.
Proof.
  intros (Hg & _ & (c1 & s1 & d & _ & El2 & _ & Hd) & Hn & _). unfold key_line. split.
  - intros [Hin|Hin]%elem_of_app.
    + rewrite Forall_forall in Hg. by apply Hg in Hin.
    + change (!" " ++ label k) with (Byte.x20 :: label k) in Hin.
      apply elem_of_cons in Hin as [Hin|Hin]; done.
  - unfold pop_if. rewrite El2, !app_assoc. unfold ends_with, starts_with.
    rewrite rev_app_distr. cbn. rewrite decide_False; [done|]. intros <-. done.
Qed.

(** A line that starts with [#] gives no key. *)
Lemma trim_keeps_head s :
  trim (Byte.x23 :: s) = [] \/ exists s', trim (Byte.x23 :: s) = Byte.x23 :: s'.
Proof.
  destruct (trim (Byte.x23 :: s)) as [|y t] eqn:E; [by left|]. right. exists t.
  unfold trim in E. rewrite trim_start_graphic in E by done. unfold trim_end in E.
  destruct (trim_front_suffix (length (Byte.x23 :: s)) (map (@rev byte) white_space)
              (rev (Byte.x23 :: s))) as [p Hp].
  apply (f_equal (@rev byte)) in Hp. rewrite rev_involutive, rev_app_distr, E in Hp.
  by injection Hp as <- _.
Qed.

Lemma comment_skipped comment : key_of_line (pop_if Byte.x0d (!"#" ++ comment)) = None.
Proof.
  assert (Hl : exists s, pop_if Byte.x0d (!"#" ++ comment) = Byte.x23 :: s).
  { unfold pop_if. destruct comment as [|x comment]; [by exists []|].
    destruct (ends_with _ _); cbn; eauto. }
  destruct Hl as [s ->]. unfold key_of_line.
  destruct (trim_keeps_head s) as [->|[s' ->]]; [done|].
  replace (starts_with !"#" (Byte.x23 :: s')) with true by done. by rewrite orb_true_r.
Qed.

(** A key file is read back to the keys it was written from, in order, with
    their labels, comment lines (and lines that are too short) being skipped. *)
Theorem key_file_roundtrip ks comment path fs
    (Hks : ks <> []) (Hw : Forall writable ks)
    (Hc : Byte.x0a ∉ comment) (Hfs : fs path = Some (!"#" ++ comment ++ [Byte.x0a] ++ key_file ks)) :
  read_secret_keys fs path = Ok ks.
Proof.
  assert (Hlines : forall f, (length (key_file ks) <= f)%nat ->
    omap key_of_line (lines_fuel f (key_file ks)) = ks).
  { clear Hks Hfs. induction Hw as [|k ks Hk _ IH]; intros f Hf; [by destruct f|].
    destruct (key_line_facts k Hk) as [Hn Hp].
    unfold key_file in *. cbn [map concat] in *. rewrite <- app_assoc in *. cbn [app] in *.
    rewrite length_app in Hf. cbn [length] in Hf. destruct f as [|f]; [lia|].
    rewrite lines_fuel_cons, Hp by done. cbn [omap list_omap].
    rewrite key_of_line_key by done. f_equal. apply IH. lia. }
  unfold read_secret_keys. rewrite Hfs. unfold lines.
  assert (Hcom : Byte.x0a ∉ !"#" ++ comment) by (intros [Hin|Hin]%elem_of_app; [set_solver|done]).
  replace (!"#" ++ comment ++ [Byte.x0a] ++ key_file ks)
    with ((!"#" ++ comment) ++ Byte.x0a :: key_file ks) by (by rewrite <- app_assoc).
  set (total := length _). assert (Ht : exists f, total = S f /\ (length (key_file ks) <= f)%nat).
  { exists (length comment + S (length (key_file ks)))%nat. split; [|lia].
    unfold total. rewrite !length_app. change (length !"#") with 1%nat. cbn [length]. lia. }
  destruct Ht as (f & -> & Hf). rewrite lines_fuel_cons by done. cbn [omap list_omap].
  rewrite comment_skipped, Hlines by done. by destruct ks.
Qed.

Definition sample_keys : list SecretKey := [mkKey !"topsecret" !"Main key"; mkKey !"k2#x" !"Backup"].

Lemma key_file_roundtrip_witness :
  read_secret_keys (fun _ => Some (!"#" ++ !" keys" ++ [Byte.x0a] ++ key_file sample_keys)) !"secret.key"
    = Ok sample_keys.
Proof.
  apply (key_file_roundtrip sample_keys !" keys").
  - done.
  - assert (Hw : forall k, bool_decide (Forall (fun c => graphic c = true) (key k)) = true ->
      bool_decide (Byte.x0a ∉ label k) = true -> (4 <=? len (key k) + len (label k)) = true ->
      (exists c s, key k = c :: s /\ c <> Byte.x23) ->
      (exists c s d, label k = c :: s /\ label k = removelast (label k) ++ [d] /\
         graphic c = true /\ graphic d = true) -> writable k)
      by (intros k H1 H2 H3 ? ?; to_prop; done).
    repeat constructor; apply Hw; try reflexivity; repeat eexists; done.
  - by apply (bool_decide_unpack _).
  - done.
Defined.
