(* ===== verification/Token.v ===== *)
(** * Token validation: [protocol/token.rs]

    A token is [<v1>_#v2#<v2>] or a plain v1 token.  The two readings of the
    system clock made by a validation are arguments ([clk 0], [clk 1]); the log
    lines are left out.  [i64] arithmetic wraps as in the release build. *)

From stdpp Require Import vector.
From S2P Require Import Prelude RustStr Net Crypto Config.

Inductive TokenResult : Type :=
  | Accepted (sleep_secs : Z) (label : str)
  | InvalidHmac
  | InvalidIp
  | TooEarly (reason : str)
  | TooLate (reason : str)
  | ParseError
  | V2Required.

(** ** The clock *)

(** The readings of [SystemTime::now().duration_since(UNIX_EPOCH).as_secs()]
    made one after the other. *)
Abbreviation clock := (nat -> N).

(** [now_secs] at the [i]-th reading. *)
Definition now_secs (clk : clock) (i : nat) : Z := wrap_s 64 (Z.of_N (clk i)).

(** ** Shared helpers *)

Definition seconds_msg (pre : str) (n : Z) (post : str) (limit : Z) : str :=
  pre ++ show_int n ++ post ++ show_int limit ++ !")".

Definition window_check (start_time now : Z) : result Z TokenResult :=
  let seconds_early := wrap_s 64 (start_time - now) in
  let seconds_late := wrap_s 64 (now - start_time) in
  if seconds_early >? MAX_ACCEPT_EARLY then
    Err (TooEarly (seconds_msg !"token not valid yet: client is " seconds_early
                     !"s early (max " MAX_ACCEPT_EARLY))
  else if seconds_late >? MAX_ACCEPT_LATE then
    Err (TooLate (seconds_msg !"token expired: client is " seconds_late
                    !"s late (max " MAX_ACCEPT_LATE))
  else Ok seconds_early.

Definition time_window (start_time now : Z) (label : str) : TokenResult :=
  match window_check start_time now with
  | Ok seconds_early =>
      let sleep_secs := if seconds_early >? 0 then wrap_u 64 seconds_early else 0 in
      Accepted sleep_secs label
  | Err rejected => rejected
  end.

Definition PERIOD : Z := Z.shiftl 1 32.

Definition reconstruct_time (time_u32 now : Z) : Z :=
  let t := Z.lor (Z.land now (Z.lnot 0xFFFFFFFF)) time_u32 in
  if wrap_s 64 (t - now) >? PERIOD / 2 then wrap_s 64 (t - PERIOD)
  else if wrap_s 64 (now - t) >? PERIOD / 2 then wrap_s 64 (t + PERIOD)
  else t.

Definition mapped_ipv6 (ip : IpAddr) : list byte :=
  match ip with
  | V6 o => vec_to_list o
  | V4 a b c d =>
      let m := replicate 16 Byte.x00 in
      let m := <[10%nat := Byte.xff]> m in
      let m := <[11%nat := Byte.xff]> m in
      take 12 m ++ [a; b; c; d]
  end.

(** [{b:02x}] for each byte *)
Definition hex (bytes : list byte) : str := concat (map (fun b => hex_pad 2 (bz b)) bytes).

(** [u32::from_be_bytes] and [to_be_bytes] *)
Definition u32_from_be_bytes (l : list byte) : Z :=
  fold_left (fun acc b => acc * 256 + bz b) l 0.
Definition u32_to_be_bytes (z : Z) : list byte :=
  [zb (z / 16777216); zb (z / 65536); zb (z / 256); zb z].

Section token.
Context `{Crypto}.

Definition hmac_sha256 (key : list byte) (parts : list (list byte)) : list byte :=
  mac_sha256 key (concat parts).

Definition hmac_sha1_b64 (key msg : list byte) : str := B64_encode (mac_sha1 key msg).

(** ** v1: [UUID_TIMESTAMP_HMAC-SHA1] *)

(** [format!("{uuid}_{ts_str}")] *)
Definition v1_message (uuid ts_str : str) : str := uuid ++ !"_" ++ ts_str.

Definition v1_key_matches (message hmac_b64 : str) (k : SecretKey) : bool :=
  str_eqb (hmac_sha1_b64 (key k) message) hmac_b64.

Definition match_v1 (raw_token : str) (keys : list SecretKey)
    : result (str * Z * SecretKey) TokenResult :=
  match splitn 3 !"_" raw_token with
  | [uuid; ts_str; hmac_b64] =>
      if negb (len uuid =? 36) || bool_decide (ts_str = []) || (len ts_str >? 12) then
        Err ParseError
      else
        match parse_signed i64_min i64_max ts_str with
        | None => Err ParseError
        | Some start_time =>
            match find_first (v1_key_matches (v1_message uuid ts_str) hmac_b64) keys with
            | Some k => Ok (uuid, start_time, k)
            | None => Err InvalidHmac
            end
        end
  | _ => Err ParseError
  end.

Definition validate_v1 (clk : clock) (raw_token : str) (keys : list SecretKey) : TokenResult :=
  match match_v1 raw_token keys with
  | Ok (_, start_time, k) => time_window start_time (now_secs clk 0) (label k)
  | Err rejected => rejected
  end.

(** ** v2: time and address *)

Inductive V2Match : Type := TimeMismatch | IpMismatch | V2Ok.

Definition match_v2 (bytes : list byte) (k : SecretKey) (ip16 : list byte) : V2Match :=
  let time_bytes := slice 0 4 bytes in
  let packet_hash := slice 4 12 bytes in
  let ip_hash := slice 12 16 bytes in
  let own_packet := hmac_sha256 (key k) [time_bytes] in
  if negb (bool_decide (take 8 own_packet = packet_hash)) then TimeMismatch
  else
    let own_ip := hmac_sha256 (key k) [time_bytes; ip16] in
    if bool_decide (take 4 own_ip = ip_hash) then V2Ok else IpMismatch.

(** The loop over the keys: [matched_label] and [ip_mismatch] at its end. *)
Fixpoint v2_scan (bytes ip16 : list byte) (keys : list SecretKey) : option str * bool :=
  match keys with
  | [] => (None, false)
  | k :: keys' =>
      match match_v2 bytes k ip16 with
      | TimeMismatch => v2_scan bytes ip16 keys'
      | IpMismatch => (None, true)
      | V2Ok => (Some (label k), false)
      end
  end.

Definition validate_v2 (clk : clock) (raw : str) (keys : list SecretKey)
    (source_ip : option IpAddr) : TokenResult :=
  match B64_decode raw with
  | None => ParseError
  | Some bytes =>
      if negb (len bytes =? 16) then ParseError
      else
        match source_ip with
        | None => InvalidIp
        | Some ip =>
            match v2_scan bytes (mapped_ipv6 ip) keys with
            | (Some label, _) =>
                let time_u32 := u32_from_be_bytes (slice 0 4 bytes) in
                let start_time := reconstruct_time time_u32 (now_secs clk 0) in
                time_window start_time (now_secs clk 1) label
            | (None, ip_mismatch) => if (ip_mismatch : bool) then InvalidIp else InvalidHmac
            end
        end
  end.

(** ** The entry points *)

Definition extract_v2 (raw : str) : option str :=
  match split_once !"#v2#" raw with
  | Some (_, v2) => Some v2
  | None => None
  end.

Definition validate_token (clk : clock) (raw_token : str) (keys : list SecretKey)
    (source_ip : option IpAddr) (v2_only : bool) : TokenResult :=
  match extract_v2 raw_token with
  | Some v2_b64 => validate_v2 clk v2_b64 keys source_ip
  | None => if v2_only then V2Required else validate_v1 clk raw_token keys
  end.

Record IpToken : Type := mkIpToken {
  it_key : SecretKey;
  open_test_uuid : str;
  matching_ip : bool
}.

(** [matches!(match_v2(..), V2Match::Ok)] for a decoded token of 16 bytes *)
Definition v2_matches (v2 : option str) (k : SecretKey) (source_ip : IpAddr) : bool :=
  match v2 with
  | None => false
  | Some b64 =>
      match B64_decode b64 with
      | Some bytes =>
          if len bytes =? 16 then
            match match_v2 bytes k (mapped_ipv6 source_ip) with
            | V2Ok => true
            | _ => false
            end
          else false
      | None => false
      end
  end.

Definition check_ip_token (clk : clock) (raw_token : str) (keys : list SecretKey)
    (source_ip : IpAddr) : result IpToken TokenResult :=
  let '(v1, v2) :=
    match split_once !"_#v2#" raw_token with
    | Some (v1, v2) => (v1, Some v2)
    | None => (raw_token, None)
    end in
  match match_v1 v1 keys with
  | Err rejected => Err rejected
  | Ok (uuid, start_time, k) =>
      match window_check start_time (now_secs clk 0) with
      | Err rejected => Err rejected
      | Ok _ => Ok (mkIpToken k uuid (v2_matches v2 k source_ip))
      end
  end.

(** ** Issuing: [make_test_token], what the control server sends *)

Definition v1_part (key open_test_uuid : str) (start : Z) : str :=
  let data := open_test_uuid ++ !"_" ++ show_int start in
  data ++ !"_" ++ hmac_sha1_b64 key data.

Definition v2_bytes (key : str) (start : Z) (ip : IpAddr) : list byte :=
  let tb := u32_to_be_bytes (wrap_u 32 start) in
  tb ++ take 8 (hmac_sha256 key [tb]) ++ take 4 (hmac_sha256 key [tb; mapped_ipv6 ip]).

Definition make_test_token (key open_test_uuid : str) (start : Z) (ip : IpAddr) : str :=
  v1_part key open_test_uuid start ++ !"_#v2#" ++ B64_encode (v2_bytes key start ip).
End token.
