(* ===== verification/TokenFacts.v ===== *)
(** * Facts about token validation

    What the helpers of [Token] compute (time window, time reconstruction,
    address mapping, the scan over the keys), then the properties: acceptance
    is characterised exactly, tokens issued by the control server are accepted,
    tokens for another address are refused, and the [/ip] check agrees with the
    v1 validation. *)

From stdpp Require Import vector.
From S2P Require Import Prelude RustStr Net Crypto RefCrypto Config Token.

(** ** The time window *)

(** Clock readings stay far from the end of [i64] (before the year 10^11). *)
Definition sane (z : Z) : Prop := - 2 ^ 62 < z < 2 ^ 62.

Definition sane_clock (clk : clock) : Prop := forall i, Z.of_N (clk i) <= 2 ^ 61.

Lemma sane_now clk i : sane_clock clk -> now_secs clk i = Z.of_N (clk i).
Proof.
  intros H. specialize (H i). unfold now_secs. apply wrap_s_small; [lia|].
  change (2 ^ (64 - 1)) with 9223372036854775808.
  change (2 ^ 61) with 2305843009213693952 in H. lia.
Qed.

Lemma sane_diff a b : sane a -> sane b -> wrap_s 64 (a - b) = a - b.
Proof.
  unfold sane. change (2 ^ 62) with 4611686018427387904. intros.
  apply wrap_s_small; [lia|]. change (2 ^ (64 - 1)) with 9223372036854775808. lia.
Qed.

Definition in_window (start now : Z) : Prop :=
  start - now <= MAX_ACCEPT_EARLY /\ now - start <= MAX_ACCEPT_LATE.

#[export] Instance in_window_dec start now : Decision (in_window start now).
Proof. unfold in_window. apply _. Defined.

Lemma window_check_cases start now :
  sane start -> sane now ->
  match window_check start now with
  | Ok s => in_window start now /\ s = start - now
  | Err (TooEarly _) => MAX_ACCEPT_EARLY < start - now
  | Err (TooLate _) => MAX_ACCEPT_LATE < now - start
  | Err _ => False
  end.
Proof.
  intros Hs Hn. unfold window_check, in_window. rewrite !sane_diff by done.
  destruct (start - now >? MAX_ACCEPT_EARLY) eqn:E1; [to_prop; lia|].
  destruct (now - start >? MAX_ACCEPT_LATE) eqn:E2; to_prop; lia.
Qed.

Lemma window_check_Ok start now s :
  sane start -> sane now ->
  window_check start now = Ok s <-> in_window start now /\ s = start - now.
Proof.
  intros Hs Hn. pose proof (window_check_cases start now Hs Hn) as Hc.
  split.
  - intros E. by rewrite E in Hc.
  - intros [[He Hl] ->]. destruct (window_check start now) as [s|[]]; try done; [|lia..].
    by destruct Hc as [_ ->].
Qed.

Lemma time_window_Accepted start now l s l' :
  sane start -> sane now ->
  time_window start now l = Accepted s l' <->
  in_window start now /\ s = Z.max 0 (start - now) /\ l' = l.
Proof.
  intros Hs Hn. unfold time_window.
  pose proof (window_check_cases start now Hs Hn) as Hc.
  destruct (window_check start now) as [d|[]].
  - destruct Hc as [Hw ->]. assert (Hw' := Hw). destruct Hw' as [? ?].
    assert ((if start - now >? 0 then wrap_u 64 (start - now) else 0) = Z.max 0 (start - now))
      as ->.
    { destruct (start - now >? 0) eqn:E; to_prop; [|lia].
      unfold MAX_ACCEPT_EARLY in *. unwrap. lia. }
    naive_solver.
  - done.
  - done.
  - done.
  - split; [done|]. intros [[? ?] ?]. lia.
  - split; [done|]. intros [[? ?] ?]. lia.
  - done.
  - done.
Qed.

(** ** The 32-bit time field *)

Lemma u32_field now u :
  0 <= u < 2 ^ 32 ->
  Z.lor (Z.land now (Z.lnot 0xFFFFFFFF)) u = now / 2 ^ 32 * 2 ^ 32 + u.
Proof.
  intros Hu. change 0xFFFFFFFF with (Z.ones 32).
  rewrite <- Z.ldiff_land, Z.ldiff_ones_r, Z.shiftr_div_pow2, Z.shiftl_mul_pow2 by lia.
  assert (Z.land (now / 2 ^ 32 * 2 ^ 32) u = 0) as H0.
  { rewrite <- (Z.mod_small u (2 ^ 32)), <- Z.land_ones by lia.
    rewrite (Z.land_comm u), Z.land_assoc, Z.land_ones, Z.mod_mul by lia. apply Z.land_0_l. }
  rewrite Z.add_nocarry_lxor by done. symmetry. by apply Z.lxor_lor.
Qed.

(** The reconstructed time has the field as its low 32 bits and lies within half
    a period of the clock. *)
Lemma reconstruct_time_spec u now :
  0 <= u < 2 ^ 32 -> 0 <= now < 2 ^ 62 ->
  reconstruct_time u now mod 2 ^ 32 = u /\
  - 2 ^ 31 <= reconstruct_time u now - now <= 2 ^ 31.
Proof.
  intros Hu Hn. unfold reconstruct_time. rewrite u32_field by done.
  change (PERIOD / 2) with (2 ^ 31). change PERIOD with (2 ^ 32).
  change (2 ^ 32) with 4294967296 in *. change (2 ^ 31) with 2147483648.
  change (2 ^ 62) with 4611686018427387904 in *.
  pose proof (Z.div_mod now 4294967296 ltac:(lia)) as Hd.
  pose proof (Z.mod_pos_bound now 4294967296 ltac:(lia)).
  set (q := now / 4294967296) in *. set (r := now mod 4294967296) in *.
  assert (0 <= q <= 1073741824) by lia.
  unwrap. split.
  - repeat case_one; unwrap.
    + replace (q * 4294967296 + u - 4294967296) with (u + (q - 1) * 4294967296) by lia.
      rewrite Z.mod_add by lia. by apply Z.mod_small.
    + replace (q * 4294967296 + u + 4294967296) with (u + (q + 1) * 4294967296) by lia.
      rewrite Z.mod_add by lia. by apply Z.mod_small.
    + rewrite (Z.add_comm (q * _)), Z.mod_add by lia. by apply Z.mod_small.
  - repeat case_one; to_prop; unwrap; lia.
Qed.

(** Congruent times less than half a period apart are equal. *)
Lemma mod_close a b p :
  0 < p -> a mod p = b mod p -> - p < a - b < p -> a = b.
Proof.
  intros Hp Hm Hd.
  pose proof (Z.div_mod a p ltac:(lia)). pose proof (Z.div_mod b p ltac:(lia)).
  assert (a / p = b / p) by nia. nia.
Qed.

Lemma reconstruct_time_start start now :
  0 <= now < 2 ^ 62 -> Z.abs (start - now) < 2 ^ 31 ->
  reconstruct_time (wrap_u 32 start) now = start.
Proof.
  intros Hn Hd. pose proof (wrap_u_range 32 start ltac:(lia)) as Hu.
  destruct (reconstruct_time_spec _ _ Hu Hn) as [Hm Hc].
  apply (mod_close _ _ (2 ^ 32)); [lia|done|].
  change (2 ^ 31) with 2147483648 in *. change (2 ^ 32) with 4294967296. lia.
Qed.

Lemma u32_bytes z : 0 <= z < 2 ^ 32 -> u32_from_be_bytes (u32_to_be_bytes z) = z.
Proof.
  intros Hz. unfold u32_from_be_bytes, u32_to_be_bytes. cbn [fold_left].
  rewrite !bz_zb. change (2 ^ 32) with 4294967296 in Hz. Z.div_mod_to_equations. lia.
Qed.

Lemma u32_from_be_bytes_range l : length l = 4%nat -> 0 <= u32_from_be_bytes l < 2 ^ 32.
Proof.
  destruct l as [|a [|b [|c [|d [|? ?]]]]]; try done. intros _.
  unfold u32_from_be_bytes. cbn [fold_left]. byte_bounds.
  change (2 ^ 32) with 4294967296. lia.
Qed.

(** ** Addresses *)

Lemma length_mapped_ipv6 ip : length (mapped_ipv6 ip) = 16%nat.
Proof. destruct ip; [done|apply length_vec_to_list]. Qed.

Lemma to_ipv4_mapped_Some o v4 :
  to_ipv4_mapped o = Some v4 <->
  exists a b c d, v4 = V4 a b c d /\ o = to_ipv6_mapped a b c d.
Proof.
  split.
  - intros Hm. inv_all_vec_fin. unfold to_ipv4_mapped in Hm. cbn in Hm.
    case_bool_decide as E; [|done]. injection Hm as <-.
    do 4 eexists. split; [done|]. by simplify_eq/=.
  - by intros (a & b & c & d & -> & ->).
Qed.

(** The token's address bytes only depend on the canonical address. *)
Lemma mapped_ipv6_canonical ip : mapped_ipv6 (to_canonical ip) = mapped_ipv6 ip.
Proof.
  destruct ip as [|o]; [done|]. cbn. destruct (to_ipv4_mapped o) as [v4|] eqn:E; [|done].
  by apply to_ipv4_mapped_Some in E as (a & b & c & d & -> & ->).
Qed.

Lemma mapped_ipv6_inj a b :
  mapped_ipv6 a = mapped_ipv6 b -> to_canonical a = to_canonical b.
Proof.
  assert (Hc : forall a b c d o, mapped_ipv6 (V4 a b c d) = vec_to_list o ->
             to_ipv4_mapped o = Some (V4 a b c d)).
  { intros. apply to_ipv4_mapped_Some. do 4 eexists. split; [done|].
    by apply vec_to_list_inj2. }
  destruct a as [a1 a2 a3 a4|o], b as [b1 b2 b3 b4|o']; intros E.
  - cbn in E. by simplify_eq.
  - cbn. by rewrite (Hc _ _ _ _ o' E).
  - cbn. by rewrite (Hc _ _ _ _ o (eq_sym E)).
  - cbn in E. apply vec_to_list_inj2 in E as ->. done.
Qed.

(** * Acceptance *)

Section acceptance.
Context `{Crypto}.

(** ** The scan over the keys *)

(** The key [k] issued the 16 bytes: its MAC of the time field matches. *)
Definition v2_issued (bytes : list byte) (k : SecretKey) : bool :=
  bool_decide (take 8 (mac_sha256 (key k) (slice 0 4 bytes)) = slice 4 12 bytes).

(** The token is bound by [k] to the address bytes [ip16]. *)
Definition v2_bound (bytes ip16 : list byte) (k : SecretKey) : bool :=
  bool_decide (take 4 (mac_sha256 (key k) (slice 0 4 bytes ++ ip16)) = slice 12 16 bytes).

Lemma match_v2_cases bytes k ip16 :
  match_v2 bytes k ip16 =
    if v2_issued bytes k then if v2_bound bytes ip16 k then V2Ok else IpMismatch
    else TimeMismatch.
Proof.
  unfold match_v2, v2_issued, v2_bound, hmac_sha256. cbn [concat].
  rewrite !app_nil_r. by destruct (bool_decide (take 8 _ = _)).
Qed.

(** The loop stops at the first key that issued the token. *)
Lemma v2_scan_find bytes ip16 keys :
  v2_scan bytes ip16 keys =
    match find_first (v2_issued bytes) keys with
    | Some k => if v2_bound bytes ip16 k then (Some (label k), false) else (None, true)
    | None => (None, false)
    end.
Proof.
  induction keys as [|k keys IH]; cbn [v2_scan find_first]; [done|].
  rewrite match_v2_cases. destruct (v2_issued bytes k); [|done].
  by destruct (v2_bound bytes ip16 k).
Qed.

(** ** The shape of a v1 token *)

(** The three fields of a well-formed v1 token and its start time. *)
Definition v1_fields (raw uuid ts hmac_b64 : str) (start : Z) : Prop :=
  raw = uuid ++ !"_" ++ ts ++ !"_" ++ hmac_b64 /\
  (Byte.x5f ∉ uuid) /\ (Byte.x5f ∉ ts) /\
  len uuid = 36 /\ 0 < len ts <= 12 /\
  parse_signed i64_min i64_max ts = Some start.

Lemma match_v1_Ok raw keys uuid start k :
  match_v1 raw keys = Ok (uuid, start, k) <->
  exists ts hmac_b64, v1_fields raw uuid ts hmac_b64 start /\
    find_first (v1_key_matches (v1_message uuid ts) hmac_b64) keys = Some k.
Proof.
  unfold match_v1. split.
  - destruct (splitn 3 _ raw) as [|u [|t [|m [|]]]] eqn:Es; try done. intros E.
    repeat case_one_in E; simplify_eq. to_prop.
    apply splitn3_inv in Es as (-> & ? & ?). exists t, m. unfold v1_fields.
    destruct t; [done|]. cbn [length] in *. repeat split; eauto; lia.
  - intros (ts & mac & (-> & Hu & Ht & Hlu & Hlt & Hp) & Hf).
    assert (splitn 3 !"_" (uuid ++ !"_" ++ ts ++ !"_" ++ mac) = [uuid; ts; mac]) as ->
      by (by apply (splitn3_fields Byte.x5f)).
    assert (negb (len uuid =? 36) || bool_decide (ts = []) || (len ts >? 12) = false) as ->.
    { rewrite (bool_decide_eq_false_2 (ts = [])) by (by destruct ts; cbn in *; [lia|]). lia. }
    by rewrite Hp, Hf.
Qed.

Lemma v1_fields_sane raw uuid ts m start : v1_fields raw uuid ts m start -> sane start.
Proof.
  intros (_ & _ & _ & _ & Hl & Hp). apply parse_signed_bound in Hp.
  assert (10 ^ len ts <= 10 ^ 12) by (apply Z.pow_le_mono_r; lia).
  unfold sane. change (2 ^ 62) with 4611686018427387904.
  change (10 ^ 12) with 1000000000000 in *. lia.
Qed.

(** ** What validation promises *)

(** The two readings of the clock during one validation are close. *)
Definition steady_clock (clk : clock) : Prop :=
  sane_clock clk /\ Z.abs (Z.of_N (clk 1%nat) - Z.of_N (clk 0%nat)) <= 2 ^ 30.

(** The specification: a token is admitted with [sleep] seconds to wait under
    the label [l].  A v2 part admits when its 16 bytes are issued by a key,
    bound to the source address and stand for a start time of the window; a
    plain v1 token admits when its MAC is that of a key and its timestamp is
    in the window. *)
Inductive admitted (clk : clock) (keys : list SecretKey) (source_ip : option IpAddr)
    (v2_only : bool) (raw : str) : Z -> str -> Prop :=
  | admitted_v2 v2_b64 bytes ip k start :
      extract_v2 raw = Some v2_b64 ->
      B64_decode v2_b64 = Some bytes -> length bytes = 16%nat ->
      source_ip = Some ip ->
      find_first (v2_issued bytes) keys = Some k ->
      v2_bound bytes (mapped_ipv6 ip) k = true ->
      wrap_u 32 start = u32_from_be_bytes (slice 0 4 bytes) ->
      in_window start (Z.of_N (clk 1%nat)) ->
      admitted clk keys source_ip v2_only raw
        (Z.max 0 (start - Z.of_N (clk 1%nat))) (label k)
  | admitted_v1 uuid ts hmac_b64 k start :
      extract_v2 raw = None -> v2_only = false ->
      v1_fields raw uuid ts hmac_b64 start ->
      find_first (v1_key_matches (v1_message uuid ts) hmac_b64) keys = Some k ->
      in_window start (Z.of_N (clk 0%nat)) ->
      admitted clk keys source_ip v2_only raw
        (Z.max 0 (start - Z.of_N (clk 0%nat))) (label k).

Lemma time_field_range (bytes : list byte) :
  length bytes = 16%nat -> 0 <= u32_from_be_bytes (slice 0 4 bytes) < 2 ^ 32.
Proof.
  intros Hl. apply u32_from_be_bytes_range. unfold slice.
  rewrite length_take, length_drop. lia.
Qed.

Lemma sane_clk clk i : sane_clock clk -> 0 <= Z.of_N (clk i) < 2 ^ 62 /\ sane (Z.of_N (clk i)).
Proof.
  intros Hc. specialize (Hc i). unfold sane.
  change (2 ^ 61) with 2305843009213693952 in Hc.
  change (2 ^ 62) with 4611686018427387904. lia.
Qed.

Lemma reconstruct_sane u now :
  0 <= u < 2 ^ 32 -> 0 <= now <= 2 ^ 61 -> sane (reconstruct_time u now).
Proof.
  intros Hu Hn.
  destruct (reconstruct_time_spec u now Hu) as [_ Hr].
  { change (2 ^ 62) with 4611686018427387904. change (2 ^ 61) with 2305843009213693952 in Hn. lia. }
  unfold sane. change (2 ^ 62) with 4611686018427387904.
  change (2 ^ 61) with 2305843009213693952 in Hn. change (2 ^ 31) with 2147483648 in Hr. lia.
Qed.

(** The start time of a v2 token is the one of the window, when there is one. *)
Lemma reconstruct_in_window clk u start :
  steady_clock clk -> 0 <= u < 2 ^ 32 ->
  wrap_u 32 start = u -> in_window start (Z.of_N (clk 1%nat)) ->
  reconstruct_time u (Z.of_N (clk 0%nat)) = start.
Proof.
  intros [Hs Hd] Hu <- [Hw1 Hw2]. apply reconstruct_time_start; [by apply sane_clk|].
  unfold MAX_ACCEPT_EARLY, MAX_ACCEPT_LATE in *.
  change (2 ^ 30) with 1073741824 in Hd. change (2 ^ 31) with 2147483648. lia.
Qed.

Lemma validate_v2_admits clk raw v2_b64 keys source_ip v2_only s l :
  steady_clock clk -> extract_v2 raw = Some v2_b64 ->
  validate_v2 clk v2_b64 keys source_ip = Accepted s l <->
  admitted clk keys source_ip v2_only raw s l.
Proof.
  intros Hst Hx. pose proof Hst as [Hs _].
  pose proof (sane_clk clk 0 Hs) as [H0 _]. pose proof (sane_clk clk 1 Hs) as [_ H1].
  unfold validate_v2. rewrite !sane_now by done. split.
  - destruct (B64_decode v2_b64) as [bytes|] eqn:Ed; [|done].
    destruct (len bytes =? 16) eqn:El; [|done]. cbn [negb].
    destruct source_ip as [ip|]; [|done]. rewrite v2_scan_find.
    destruct (find_first _ keys) as [k|] eqn:Ef; [|done].
    destruct (v2_bound _ _ k) eqn:Eb; [|done]. to_prop.
    assert (Hl : length bytes = 16%nat) by lia.
    pose proof (time_field_range bytes Hl) as Hu.
    rewrite time_window_Accepted; [|apply reconstruct_sane; [done|]; by split; [apply H0|apply Hs]|done].
    intros (Hw & -> & ->). eapply admitted_v2; eauto.
    by apply reconstruct_time_spec.
  - intros Ha. destruct Ha as [b64 bytes ip k start Hx' Hd Hl -> Hf Hb Hm Hw|]; [|congruence].
    rewrite Hx' in Hx. injection Hx as ->. rewrite Hd, Hl. cbn [negb].
    pose proof (time_field_range bytes Hl) as Hu.
    change (Z.of_nat 16 =? 16) with true. cbn [negb].
    rewrite v2_scan_find, Hf, Hb.
    rewrite (reconstruct_in_window clk _ start) by done.
    apply time_window_Accepted; [|done..].
    rewrite <- (reconstruct_in_window clk _ start) by done.
    apply reconstruct_sane; [done|]. by split; [apply H0|apply Hs].
Qed.

Lemma validate_v1_admits clk raw keys source_ip s l :
  sane_clock clk -> extract_v2 raw = None ->
  validate_v1 clk raw keys = Accepted s l <->
  admitted clk keys source_ip false raw s l.
Proof.
  intros Hs Hx. pose proof (sane_clk clk 0 Hs) as [_ H0].
  unfold validate_v1. rewrite sane_now by done. split.
  - destruct (match_v1 raw keys) as [[[u st] k]|e] eqn:Em.
    + apply match_v1_Ok in Em as (ts & m & Hv & Hf).
      rewrite time_window_Accepted by (done || by eapply v1_fields_sane).
      intros (Hw & -> & ->). by eapply admitted_v1.
    + unfold match_v1 in Em. by repeat case_one_in Em; simplify_eq.
  - intros Ha. destruct Ha as [|u ts m k st _ _ Hv Hf Hw]; [congruence|].
    assert (match_v1 raw keys = Ok (u, st, k)) as ->
      by (apply match_v1_Ok; eauto).
    apply time_window_Accepted; [by eapply v1_fields_sane|done..].
Qed.

Lemma validate_admits clk raw keys source_ip v2_only s l :
  steady_clock clk ->
  validate_token clk raw keys source_ip v2_only = Accepted s l <->
  admitted clk keys source_ip v2_only raw s l.
Proof.
  intros Hclk. unfold validate_token. destruct (extract_v2 raw) as [b64|] eqn:Ex.
  - by apply validate_v2_admits.
  - destruct v2_only; [|apply validate_v1_admits; [apply Hclk|done]].
    split; [done|]. intros Ha. destruct Ha; congruence.
Qed.

(** C1: [validate_token] accepts a token, with its waiting time and the label
    of the key, exactly when the specification admits it, for a system clock whose
    two readings during the check are sane and close to each other. *)
Theorem validate_token_admits clk raw keys source_ip v2_only s l
    (Hclk : steady_clock clk) :
  validate_token clk raw keys source_ip v2_only = Accepted s l <->
  admitted clk keys source_ip v2_only raw s l.
Proof. by apply validate_admits. Qed.

(** The client never waits longer than the early limit. *)
Theorem accepted_sleep_bound clk raw keys source_ip v2_only s l
    (Hclk : steady_clock clk)
    (Hacc : validate_token clk raw keys source_ip v2_only = Accepted s l) :
  0 <= s <= MAX_ACCEPT_EARLY.
Proof.
  apply validate_admits in Hacc; [|done].
  destruct Hacc; unfold in_window, MAX_ACCEPT_EARLY in *; lia.
Qed.

(** The v2-only mode only tightens: it admits nothing more, and what it
    admits carries the [#v2#] marker. *)
Theorem v2_only_tightens clk raw keys source_ip s l
    (Hacc : validate_token clk raw keys source_ip true = Accepted s l) :
  validate_token clk raw keys source_ip false = Accepted s l /\
  contains !"#v2#" raw = true.
Proof.
  unfold validate_token, extract_v2, contains in *.
  by destruct (split_once !"#v2#" raw) as [[a b]|].
Qed.

(** ** The [/ip] check *)

(** C32: a token sent to [/ip] passes exactly when its part before [_#v2#] is a
    well-formed v1 token with the MAC of a key, inside the window; the answer
    names the first such key and the UUID. *)
Theorem check_ip_token_spec clk raw v1 v2 keys source_ip t
    (Hclk : sane_clock clk)
    (Hsplit : (v1, v2) = match split_once !"_#v2#" raw with
                         | Some (a, b) => (a, Some b)
                         | None => (raw, None)
                         end) :
  check_ip_token clk raw keys source_ip = Ok t <->
  exists ts hmac_b64 start,
    v1_fields v1 (open_test_uuid t) ts hmac_b64 start /\
    find_first (v1_key_matches (v1_message (open_test_uuid t) ts) hmac_b64) keys
      = Some (it_key t) /\
    in_window start (Z.of_N (clk 0%nat)) /\
    matching_ip t = v2_matches v2 (it_key t) source_ip.
Proof.
  unfold check_ip_token. rewrite <- Hsplit, sane_now by done.
  pose proof (sane_clk clk 0 Hclk) as [_ H0]. split.
  - destruct (match_v1 v1 keys) as [[[u st] k]|e] eqn:Em; [|done].
    destruct (window_check st _) as [d|e] eqn:Ew; [|done]. intros [= <-].
    apply match_v1_Ok in Em as (ts & m & Hv & Hf).
    apply window_check_Ok in Ew as [? _]; [|by eapply v1_fields_sane|done].
    exists ts, m, st. eauto.
  - destruct t as [k u mi]. cbn. intros (ts & m & st & Hv & Hf & Hw & ->).
    assert (match_v1 v1 keys = Ok (u, st, k)) as -> by (apply match_v1_Ok; eauto).
    assert (window_check st (Z.of_N (clk 0%nat)) = Ok (st - Z.of_N (clk 0%nat))) as ->; [|done].
    apply window_check_Ok; [by eapply v1_fields_sane|done..].
Qed.

(** The v2 part never causes a rejection by [/ip] and never changes the
    key: two tokens with the same v1 part get the same answer up to
    [matching_ip]. *)
Theorem check_ip_token_v2_informational clk v1 a b keys source_ip
    (Hv1 : Byte.x23 ∉ v1) :
  match check_ip_token clk (v1 ++ !"_#v2#" ++ a) keys source_ip,
        check_ip_token clk (v1 ++ !"_#v2#" ++ b) keys source_ip with
  | Ok t, Ok u => it_key t = it_key u /\ open_test_uuid t = open_test_uuid u
  | Err e, Err f => e = f
  | _, _ => False
  end.
Proof.
  assert (Hs : forall c, split_once !"_#v2#" (v1 ++ !"_#v2#" ++ c) = Some (v1, c)).
  { intros c. by apply (split_once_second Byte.x5f Byte.x23 !"v2#"). }
  unfold check_ip_token. rewrite !Hs.
  destruct (match_v1 v1 keys) as [[[u st] k]|e]; [|done].
  by destruct (window_check st _).
Qed.
End acceptance.

(** * Tokens issued by the control server *)

Section issuing.
Context `{CryptoLaws}.

(** The canonical text of a UUID as a token carries it. *)
Definition token_uuid (uuid : str) : Prop :=
  len uuid = 36 /\ (Byte.x5f ∉ uuid) /\ (Byte.x23 ∉ uuid).

(** A timestamp with at most twelve digits. *)
Definition token_start (start : Z) : Prop := 0 <= start < 10 ^ 12.

Lemma show_start_chars start c :
  token_start start -> is_digit c = false -> c ∉ show_int start.
Proof.
  intros [Hs _] Hc. rewrite show_int_nonneg by done.
  apply digits_notin; [apply show_unsigned_digits|done].
Qed.

Lemma v1_part_fields key uuid start :
  token_uuid uuid -> token_start start ->
  v1_fields (v1_part key uuid start) uuid (show_int start)
    (hmac_sha1_b64 key (v1_message uuid (show_int start))) start.
Proof.
  intros (Hl & Hu & _) Hs. pose proof Hs as [Hs0 Hs1]. unfold v1_fields, v1_part.
  repeat split; [by rewrite <- !app_assoc|done|by apply show_start_chars|done|..].
  - rewrite show_int_nonneg by done. pose proof (show_unsigned_nonempty start).
    destruct (show_unsigned start); [done|cbn [length]; lia].
  - rewrite show_int_nonneg by done.
    pose proof (length_show_unsigned 12 start ltac:(done) ltac:(lia)). lia.
  - rewrite show_int_nonneg by done. apply parse_signed_show; [done|].
    unfold i64_min, i64_max. change (10 ^ 12) with 1000000000000 in Hs1. lia.
Qed.

(** No part of a v1 token contains the marker's [#]. *)
Lemma v1_part_no_marker key uuid start :
  token_uuid uuid -> token_start start -> Byte.x23 ∉ v1_part key uuid start.
Proof.
  intros (_ & _ & Hu) Hs. unfold v1_part, hmac_sha1_b64.
  rewrite !not_elem_of_app. repeat split; try done.
  - by apply (bool_decide_unpack _).
  - by apply show_start_chars.
  - by apply (bool_decide_unpack _).
  - by apply notin_B64_encode.
Qed.

Lemma extract_v2_issued key uuid start ip :
  token_uuid uuid -> token_start start ->
  extract_v2 (make_test_token key uuid start ip) = Some (B64_encode (v2_bytes key start ip)).
Proof.
  intros Hu Hs. unfold extract_v2, make_test_token.
  assert (split_once !"#v2#"
    (v1_part key uuid start ++ !"_#v2#" ++ B64_encode (v2_bytes key start ip))
    = Some (v1_part key uuid start ++ !"_", B64_encode (v2_bytes key start ip))) as ->; [|done].
  change (!"_#v2#" ++ ?x) with (!"_" ++ (!"#v2#" ++ x)). rewrite app_assoc.
  apply (split_once_head Byte.x23 !"v2#"). apply not_elem_of_app.
  split; [by apply v1_part_no_marker|by apply (bool_decide_unpack _)].
Qed.

Lemma split_issued key uuid start rest :
  token_uuid uuid -> token_start start ->
  split_once !"_#v2#" (v1_part key uuid start ++ !"_#v2#" ++ rest)
  = Some (v1_part key uuid start, rest).
Proof.
  intros. apply (split_once_second Byte.x5f Byte.x23 !"v2#"); [|done].
  by apply v1_part_no_marker.
Qed.

(** ** The 16 bytes of an issued v2 part *)

Lemma length_v2_bytes key start ip : length (v2_bytes key start ip) = 16%nat.
Proof.
  unfold v2_bytes, hmac_sha256. rewrite !length_app, !length_take, !length_mac_sha256. done.
Qed.

Lemma v2_bytes_slices key start ip :
  let tb := u32_to_be_bytes (wrap_u 32 start) in
  slice 0 4 (v2_bytes key start ip) = tb /\
  slice 4 12 (v2_bytes key start ip) = take 8 (mac_sha256 key tb) /\
  slice 12 16 (v2_bytes key start ip) = take 4 (mac_sha256 key (tb ++ mapped_ipv6 ip)).
Proof.
  intros tb. unfold v2_bytes, hmac_sha256, slice. cbn [concat]. rewrite !app_nil_r.
  fold tb. assert (Ht : length tb = 4%nat) by done.
  assert (H8 : length (take 8 (mac_sha256 key tb)) = 8%nat)
    by (rewrite length_take, length_mac_sha256; done).
  assert (H4 : length (take 4 (mac_sha256 key (tb ++ mapped_ipv6 ip))) = 4%nat)
    by (rewrite length_take, length_mac_sha256; done).
  split_and!; [done|..].
  - by rewrite slice_app_r, slice_app_l.
  - rewrite app_assoc, slice_app_r by (rewrite length_app; lia). by rewrite take_ge by lia.
Qed.

Lemma v2_issued_own k start ip : v2_issued (v2_bytes (key k) start ip) k = true.
Proof.
  unfold v2_issued. destruct (v2_bytes_slices (key k) start ip) as (-> & -> & _).
  by apply bool_decide_eq_true.
Qed.

Lemma v2_bound_own k start ip ip' :
  v2_bound (v2_bytes (key k) start ip) (mapped_ipv6 ip') k =
  bool_decide
    (take 4 (mac_sha256 (key k) (u32_to_be_bytes (wrap_u 32 start) ++ mapped_ipv6 ip'))
     = take 4 (mac_sha256 (key k) (u32_to_be_bytes (wrap_u 32 start) ++ mapped_ipv6 ip))).
Proof.
  unfold v2_bound. by destruct (v2_bytes_slices (key k) start ip) as (-> & _ & ->).
Qed.

Lemma find_issuer start ip ks1 k ks2 :
  Forall (fun k' => v2_issued (v2_bytes (key k) start ip) k' = false) ks1 ->
  find_first (v2_issued (v2_bytes (key k) start ip)) (ks1 ++ k :: ks2) = Some k.
Proof. intros Hks. apply find_first_Some. exists ks1, ks2. by rewrite v2_issued_own. Qed.

(** C23: a token issued by one of the control servers for the client's address is
    accepted inside the window, with the label of the key that issued it,
    wherever this key stands in the list, unless an earlier key collides on the
    64 bits of the time hash. *)
Theorem issued_token_accepted clk k uuid start ip ip' ks1 ks2 v2_only
    (Hclk : steady_clock clk)
    (Huuid : token_uuid uuid) (Hstart : token_start start)
    (Hwin : in_window start (Z.of_N (clk 1%nat)))
    (Hip : to_canonical ip' = to_canonical ip)
    (Hcoll : Forall (fun k' => v2_issued (v2_bytes (key k) start ip) k' = false) ks1) :
  validate_token clk (make_test_token (key k) uuid start ip) (ks1 ++ k :: ks2)
    (Some ip') v2_only
  = Accepted (Z.max 0 (start - Z.of_N (clk 1%nat))) (label k).
Proof.
  apply validate_admits; [done|]. eapply admitted_v2.
  - by apply extract_v2_issued.
  - apply B64_decode_encode.
  - apply length_v2_bytes.
  - done.
  - by apply find_issuer.
  - rewrite v2_bound_own, <- (mapped_ipv6_canonical ip'), Hip, mapped_ipv6_canonical.
    by apply bool_decide_eq_true.
  - destruct (v2_bytes_slices (key k) start ip) as (-> & _).
    symmetry. apply u32_bytes, wrap_u_range. lia.
  - done.
Qed.

(** C24: the same token presented from another address is refused as
    [InvalidIp], whatever the time, unless the 32 bits of the address hash
    collide. *)
Theorem issued_token_other_address clk k uuid start ip ip' ks1 ks2 v2_only
    (Huuid : token_uuid uuid) (Hstart : token_start start)
    (Hcoll : Forall (fun k' => v2_issued (v2_bytes (key k) start ip) k' = false) ks1)
    (Hip : take 4 (mac_sha256 (key k)
                     (u32_to_be_bytes (wrap_u 32 start) ++ mapped_ipv6 ip'))
           <> take 4 (mac_sha256 (key k)
                        (u32_to_be_bytes (wrap_u 32 start) ++ mapped_ipv6 ip))) :
  validate_token clk (make_test_token (key k) uuid start ip) (ks1 ++ k :: ks2)
    (Some ip') v2_only = InvalidIp.
Proof.
  unfold validate_token. rewrite extract_v2_issued by done.
  unfold validate_v2. rewrite B64_decode_encode, length_v2_bytes. cbn [negb Z.eqb].
  change (Z.of_nat 16 =? 16) with true. cbn [negb].
  rewrite v2_scan_find, find_issuer by done.
  rewrite v2_bound_own, bool_decide_eq_false_2 by done. done.
Qed.

Lemma check_ip_issued clk k uuid start ip ip' ks1 ks2
    (Hclk : sane_clock clk)
    (Huuid : token_uuid uuid) (Hstart : token_start start)
    (Hwin : in_window start (Z.of_N (clk 0%nat)))
    (Hcoll : Forall (fun k' => v1_key_matches (v1_message uuid (show_int start))
       (hmac_sha1_b64 (key k) (v1_message uuid (show_int start))) k' = false) ks1)
    (Hip : to_canonical ip' <> to_canonical ip ->
       take 4 (mac_sha256 (key k) (u32_to_be_bytes (wrap_u 32 start) ++ mapped_ipv6 ip'))
       <> take 4 (mac_sha256 (key k) (u32_to_be_bytes (wrap_u 32 start) ++ mapped_ipv6 ip))) :
  check_ip_token clk (make_test_token (key k) uuid start ip) (ks1 ++ k :: ks2) ip'
  = Ok (mkIpToken k uuid (bool_decide (to_canonical ip' = to_canonical ip))).
Proof.
  unfold check_ip_token, make_test_token. rewrite split_issued by done.
  assert (match_v1 (v1_part (key k) uuid start) (ks1 ++ k :: ks2) = Ok (uuid, start, k)) as ->.
  { apply match_v1_Ok. do 2 eexists. split; [by apply v1_part_fields|].
    apply find_first_Some. exists ks1, ks2. unfold v1_key_matches. by rewrite str_eqb_refl. }
  rewrite sane_now by done.
  assert (window_check start (Z.of_N (clk 0%nat)) = Ok (start - Z.of_N (clk 0%nat))) as ->.
  { apply window_check_Ok; [|by apply sane_clk|done].
    by eapply v1_fields_sane, (v1_part_fields (key k)). }
  do 2 f_equal. unfold v2_matches. rewrite B64_decode_encode, length_v2_bytes.
  change (Z.of_nat 16 =? 16) with true. cbn [negb].
  rewrite match_v2_cases, v2_issued_own, v2_bound_own.
  case_bool_decide as Hm; case_bool_decide as Hc; try done.
  - exfalso. by apply Hip.
  - exfalso. apply Hm. by rewrite <- (mapped_ipv6_canonical ip'), Hc, mapped_ipv6_canonical.
Qed.

(** [/ip] answers the same token with the key that issued it and the UUID,
    and reports whether the address is the one the token was issued for; the
    key is found although the answer does not depend on the v2 part. *)
Theorem issued_token_ip_check clk k uuid start ip ip' ks1 ks2
    (Hclk : sane_clock clk)
    (Huuid : token_uuid uuid) (Hstart : token_start start)
    (Hwin : in_window start (Z.of_N (clk 0%nat)))
    (Hcoll : Forall (fun k' => v1_key_matches (v1_message uuid (show_int start))
       (hmac_sha1_b64 (key k) (v1_message uuid (show_int start))) k' = false) ks1)
    (Hip : to_canonical ip' <> to_canonical ip ->
       take 4 (mac_sha256 (key k) (u32_to_be_bytes (wrap_u 32 start) ++ mapped_ipv6 ip'))
       <> take 4 (mac_sha256 (key k) (u32_to_be_bytes (wrap_u 32 start) ++ mapped_ipv6 ip))) :
  check_ip_token clk (make_test_token (key k) uuid start ip) (ks1 ++ k :: ks2) ip'
  = Ok (mkIpToken k uuid (bool_decide (to_canonical ip' = to_canonical ip))).
Proof. by apply check_ip_issued. Qed.

(** For a token issued for the client's address, the outcome is decided by
    the start time alone: accepted in the window, [TooEarly] more than 20
    seconds before it, [TooLate] more than 90 seconds after it. *)
Theorem issued_token_window clk k uuid start ip ip' ks1 ks2 v2_only
    (Hclk : steady_clock clk)
    (Huuid : token_uuid uuid) (Hstart : token_start start)
    (Hnear : Z.abs (start - Z.of_N (clk 0%nat)) < 2 ^ 31)
    (Hip : to_canonical ip' = to_canonical ip)
    (Hcoll : Forall (fun k' => v2_issued (v2_bytes (key k) start ip) k' = false) ks1) :
  match validate_token clk (make_test_token (key k) uuid start ip) (ks1 ++ k :: ks2)
          (Some ip') v2_only with
  | Accepted s l => in_window start (Z.of_N (clk 1%nat)) /\ l = label k
  | TooEarly _ => MAX_ACCEPT_EARLY < start - Z.of_N (clk 1%nat)
  | TooLate _ => MAX_ACCEPT_LATE < Z.of_N (clk 1%nat) - start
  | _ => False
  end.
Proof.
  destruct Hclk as [Hs _]. unfold validate_token. rewrite extract_v2_issued by done.
  unfold validate_v2. rewrite B64_decode_encode, length_v2_bytes.
  change (Z.of_nat 16 =? 16) with true. cbn [negb].
  rewrite v2_scan_find, find_issuer by done.
  rewrite v2_bound_own, <- (mapped_ipv6_canonical ip'), Hip, mapped_ipv6_canonical.
  rewrite bool_decide_eq_true_2 by done. rewrite !sane_now by done.
  destruct (v2_bytes_slices (key k) start ip) as (-> & _).
  rewrite u32_bytes by (apply wrap_u_range; lia).
  rewrite reconstruct_time_start by (done || by apply sane_clk).
  assert (sane start).
  { destruct Hstart as [? Ht]. unfold sane. change (10 ^ 12) with 1000000000000 in Ht.
    change (2 ^ 62) with 4611686018427387904. lia. }
  pose proof (window_check_cases start _ ltac:(done) (proj2 (sane_clk clk 1 Hs))) as Hc.
  unfold time_window. destruct (window_check start _) as [d|[]]; try done.
  by destruct Hc.
Qed.
End issuing.

(** ** Helper properties *)

(** The reconstructed start time carries the 32-bit field and is a nearest
    one to the clock among all times that do. *)
Theorem reconstruct_time_nearest u now t
    (Hu : 0 <= u < 2 ^ 32) (Hnow : 0 <= now < 2 ^ 62) (Ht : t mod 2 ^ 32 = u) :
  reconstruct_time u now mod 2 ^ 32 = u /\
  Z.abs (reconstruct_time u now - now) <= Z.abs (t - now).
Proof.
  destruct (reconstruct_time_spec u now Hu Hnow) as [Hm Hc]. split; [done|].
  set (r := reconstruct_time u now) in *.
  destruct (decide (r = t)) as [->|Hne]; [done|].
  assert (~ (- 2 ^ 32 < r - t < 2 ^ 32)).
  { intros Hlt. apply Hne, (mod_close _ _ (2 ^ 32)); [lia|congruence|done]. }
  change (2 ^ 32) with 4294967296 in *. change (2 ^ 31) with 2147483648 in *. lia.
Qed.

(** The address bytes of a token identify the canonical address: an IPv4
    client gives the same bytes whether the listener reports it as IPv4 or as
    IPv4-mapped IPv6, and two different hosts give different bytes. *)
Theorem mapped_ipv6_identifies a b :
  mapped_ipv6 a = mapped_ipv6 b <-> to_canonical a = to_canonical b.
Proof.
  split; [apply mapped_ipv6_inj|]. intros E.
  by rewrite <- (mapped_ipv6_canonical a), E, mapped_ipv6_canonical.
Qed.

(** * Witnesses *)

Definition clk17 : clock := fun _ => 1700000000%N.
Definition uuid_a : str := !"8723358c-2037-4029-a70c-91e5d9d35cf3".
Definition key_a : SecretKey := mkKey !"control-a-secret" !"control-a".
Definition key_b : SecretKey := mkKey !"control-b-secret" !"control-b".
Definition ip_a : IpAddr := V4 Byte.x3e Byte.x01 Byte.x02 Byte.x03.
Definition ip_mapped : IpAddr := V6 (to_ipv6_mapped Byte.x3e Byte.x01 Byte.x02 Byte.x03).
Definition ip_other : IpAddr := V4 Byte.x09 Byte.x09 Byte.x09 Byte.x09.

#[local] Existing Instance toy_crypto.
#[local] Existing Instance toy_crypto_laws.

Lemma clk17_sane : sane_clock clk17.
Proof. intros i. vm_compute. discriminate. Defined.

Lemma clk17_steady : steady_clock clk17.
Proof. split; [exact clk17_sane|]. vm_compute. discriminate. Defined.

Lemma uuid_a_ok : token_uuid uuid_a.
Proof. split_and!; [reflexivity|apply (bool_decide_unpack _); reflexivity..]. Defined.

Lemma start_ok : token_start 1700000007.
Proof. split; vm_compute; [discriminate|reflexivity]. Defined.

Lemma no_collision :
  Forall (fun k' => v2_issued (v2_bytes (key key_b) 1700000007 ip_a) k' = false) [key_a].
Proof. constructor; [vm_compute; reflexivity|constructor]. Defined.

Definition token_b : str := make_test_token (key key_b) uuid_a 1700000007 ip_a.

Lemma validate_token_admits_witness :
  steady_clock clk17 /\
  admitted clk17 [key_a; key_b] (Some ip_mapped) true token_b 7 !"control-b".
Proof.
  split; [exact clk17_steady|]. apply (validate_token_admits clk17); [exact clk17_steady|].
  vm_compute. reflexivity.
Defined.

Lemma accepted_sleep_bound_witness : 0 <= 7 <= MAX_ACCEPT_EARLY.
Proof.
  apply (accepted_sleep_bound clk17 token_b [key_a; key_b] (Some ip_a) true 7 !"control-b").
  - exact clk17_steady.
  - vm_compute. reflexivity.
Defined.

Lemma v2_only_tightens_witness :
  validate_token clk17 token_b [key_b] (Some ip_a) false = Accepted 7 !"control-b" /\
  contains !"#v2#" token_b = true.
Proof. apply v2_only_tightens. vm_compute. reflexivity. Defined.

Lemma check_ip_token_spec_witness :
  exists ts hmac_b64 start,
    v1_fields (v1_part (key key_b) uuid_a 1700000007) uuid_a ts hmac_b64 start /\
    find_first (v1_key_matches (v1_message uuid_a ts) hmac_b64) [key_a; key_b] = Some key_b /\
    in_window start (Z.of_N (clk17 0%nat)) /\
    true = v2_matches (Some (B64_encode (v2_bytes (key key_b) 1700000007 ip_a))) key_b ip_mapped.
Proof.
  apply (check_ip_token_spec clk17 token_b _ _ [key_a; key_b] ip_mapped
           (mkIpToken key_b uuid_a true)); [exact clk17_sane|vm_compute; reflexivity..].
Defined.

Lemma check_ip_token_v2_informational_witness :
  match check_ip_token clk17 (v1_part (key key_b) uuid_a 1700000007 ++ !"_#v2#" ++ !"AAAA")
          [key_a; key_b] ip_a,
        check_ip_token clk17 (v1_part (key key_b) uuid_a 1700000007 ++ !"_#v2#" ++ !"x")
          [key_a; key_b] ip_a with
  | Ok t, Ok u => it_key t = it_key u /\ open_test_uuid t = open_test_uuid u
  | Err e, Err f => e = f
  | _, _ => False
  end.
Proof.
  apply (check_ip_token_v2_informational clk17).
  apply (bool_decide_unpack _). vm_compute. exact I.
Defined.

Lemma issued_token_accepted_witness :
  validate_token clk17 token_b ([key_a] ++ key_b :: []) (Some ip_mapped) true
  = Accepted (Z.max 0 (1700000007 - Z.of_N (clk17 1%nat))) (label key_b).
Proof.
  apply (issued_token_accepted clk17 key_b uuid_a 1700000007 ip_a ip_mapped [key_a] [] true).
  - exact clk17_steady.
  - exact uuid_a_ok.
  - exact start_ok.
  - split; vm_compute; discriminate.
  - vm_compute. reflexivity.
  - exact no_collision.
Defined.

Lemma issued_token_other_address_witness :
  validate_token clk17 token_b ([key_a] ++ key_b :: []) (Some ip_other) false = InvalidIp.
Proof.
  apply (issued_token_other_address clk17 key_b uuid_a 1700000007 ip_a ip_other [key_a] [] false).
  - exact uuid_a_ok.
  - exact start_ok.
  - exact no_collision.
  - vm_compute. discriminate.
Defined.

Lemma issued_token_ip_check_witness :
  check_ip_token clk17 token_b ([key_a] ++ key_b :: []) ip_other
  = Ok (mkIpToken key_b uuid_a (bool_decide (to_canonical ip_other = to_canonical ip_a))).
Proof.
  apply (issued_token_ip_check clk17 key_b uuid_a 1700000007 ip_a ip_other [key_a] []).
  - exact clk17_sane.
  - exact uuid_a_ok.
  - exact start_ok.
  - split; vm_compute; discriminate.
  - constructor; [vm_compute; reflexivity|constructor].
  - intros _. vm_compute. discriminate.
Defined.

Lemma issued_token_window_witness :
  match validate_token (fun _ => 1700000098%N) token_b ([key_a] ++ key_b :: []) (Some ip_a) true with
  | Accepted s l => in_window 1700000007 1700000098 /\ l = label key_b
  | TooEarly _ => MAX_ACCEPT_EARLY < 1700000007 - 1700000098
  | TooLate _ => MAX_ACCEPT_LATE < 1700000098 - 1700000007
  | _ => False
  end.
Proof.
  apply (issued_token_window (fun _ => 1700000098%N) key_b uuid_a 1700000007 ip_a ip_a [key_a] [] true).
  - split; [intros i|]; vm_compute; discriminate.
  - exact uuid_a_ok.
  - exact start_ok.
  - vm_compute. reflexivity.
  - reflexivity.
  - exact no_collision.
Defined.

Lemma reconstruct_time_nearest_witness :
  reconstruct_time 5 (2 ^ 32 - 10) mod 2 ^ 32 = 5 /\
  Z.abs (reconstruct_time 5 (2 ^ 32 - 10) - (2 ^ 32 - 10)) <= Z.abs (5 - (2 ^ 32 - 10)).
Proof.
  apply reconstruct_time_nearest; [split; vm_compute; [discriminate|reflexivity]..|].
  vm_compute. reflexivity.
Defined.
