(* ===== verification/Stats.v ===== *)
(** * Accounting of one connection: [ConnStats] of [events.rs]

    The counters of a connection with the width of their Rust types; additions
    wrap as in the release build. *)

From S2P Require Import Prelude.

Record ConnStats : Type := mkStats {
  download_bytes : Z;   (* u64 *)
  download_ns : Z;      (* u128 *)
  upload_bytes : Z;     (* u64 *)
  upload_ns : Z;        (* u128 *)
  ping_count : Z;       (* u32 *)
  ping_min_ns : Z;      (* u128 *)
  ping_max_ns : Z;      (* u128 *)
  commands : Z          (* u32 *)
}.

(** [ConnStats::new] *)
Definition ConnStats_new : ConnStats := {|
  download_bytes := 0;
  download_ns := 0;
  upload_bytes := 0;
  upload_ns := 0;
  ping_count := 0;
  ping_min_ns := u128_max;
  ping_max_ns := 0;
  commands := 0
|}.

Definition add_download (bytes ns : Z) (s : ConnStats) : ConnStats :=
  mkStats (wrap_u 64 (download_bytes s + bytes)) (wrap_u 128 (download_ns s + ns))
    (upload_bytes s) (upload_ns s) (ping_count s) (ping_min_ns s) (ping_max_ns s) (commands s).

Definition add_upload (bytes ns : Z) (s : ConnStats) : ConnStats :=
  mkStats (download_bytes s) (download_ns s)
    (wrap_u 64 (upload_bytes s + bytes)) (wrap_u 128 (upload_ns s + ns))
    (ping_count s) (ping_min_ns s) (ping_max_ns s) (commands s).

Definition add_ping (ns : Z) (s : ConnStats) : ConnStats :=
  mkStats (download_bytes s) (download_ns s) (upload_bytes s) (upload_ns s)
    (wrap_u 32 (ping_count s + 1))
    (if ns <? ping_min_ns s then ns else ping_min_ns s)
    (if ns >? ping_max_ns s then ns else ping_max_ns s)
    (commands s).

(** [stats.commands += 1] of the command loop *)
Definition count_command (s : ConnStats) : ConnStats :=
  mkStats (download_bytes s) (download_ns s) (upload_bytes s) (upload_ns s)
    (ping_count s) (ping_min_ns s) (ping_max_ns s) (wrap_u 32 (commands s + 1)).

(** ** What the counters hold *)

(** The measurements of a connection, in order. *)
Inductive measurement : Type :=
  | MDownload (bytes ns : Z)
  | MUpload (bytes ns : Z)
  | MPing (ns : Z)
  | MCommand.

Definition record (s : ConnStats) (m : measurement) : ConnStats :=
  match m with
  | MDownload b n => add_download b n s
  | MUpload b n => add_upload b n s
  | MPing n => add_ping n s
  | MCommand => count_command s
  end.

Definition download_of (m : measurement) : Z := match m with MDownload b _ => b | _ => 0 end.
Definition upload_of (m : measurement) : Z := match m with MUpload b _ => b | _ => 0 end.
Definition pings (ms : list measurement) : list Z :=
  omap (fun m => match m with MPing n => Some n | _ => None end) ms.
Definition zsum (l : list Z) : Z := foldr Z.add 0 l.

Definition totals (ms : list measurement) : ConnStats := foldl record ConnStats_new ms.

Lemma zsum_app l k : zsum (l ++ k) = zsum l + zsum k.
Proof. unfold zsum. induction l as [|x l IH]; cbn; lia. Qed.

Lemma zsum_nonneg l : Forall (fun x => 0 <= x) l -> 0 <= zsum l.
Proof. induction 1 as [|x l Hx _ IH]; cbn; [lia|]. fold (zsum l). lia. Qed.

Lemma totals_snoc ms m : totals (ms ++ [m]) = record (totals ms) m.
Proof. unfold totals. by rewrite foldl_snoc. Qed.

Lemma totals_download ms :
  Forall (fun m => 0 <= download_of m) ms -> zsum (map download_of ms) < 2 ^ 64 ->
  download_bytes (totals ms) = zsum (map download_of ms).
Proof.
  induction ms as [|m ms IH] using rev_ind; [done|].
  rewrite Forall_app, map_app, zsum_app. intros [Hms Hm] Hb.
  inversion_clear Hm as [|? ? Hm' _]. cbn [map] in *.
  assert (Hz : zsum [download_of m] = download_of m) by (cbn; lia). rewrite Hz in *.
  assert (0 <= zsum (map download_of ms)) by (apply zsum_nonneg; by apply Forall_map).
  rewrite totals_snoc. destruct m; cbn [record download_of download_bytes add_download
    add_upload add_ping count_command] in *; rewrite IH by (done || lia).
  - rewrite wrap_u_small; [done|]. split; [lia|]. exact Hb.
  - lia.
  - lia.
  - lia.
Qed.

Lemma totals_ping ms :
  Forall (fun n => 0 <= n <= u128_max) (pings ms) -> len (pings ms) < 2 ^ 32 ->
  ping_count (totals ms) = len (pings ms) /\
  (pings ms = [] -> ping_min_ns (totals ms) = u128_max /\ ping_max_ns (totals ms) = 0) /\
  (pings ms <> [] ->
     ping_min_ns (totals ms) ∈ pings ms /\ ping_max_ns (totals ms) ∈ pings ms) /\
  Forall (fun n => ping_min_ns (totals ms) <= n <= ping_max_ns (totals ms)) (pings ms).
Proof.
  induction ms as [|m ms IH] using rev_ind; [done|].
  unfold pings in *. rewrite omap_app. intros Hr Hl.
  apply Forall_app in Hr as [Hr Hm]. rewrite length_app in *.
  destruct (IH Hr ltac:(lia)) as (Hc & Hnil & Hin & Hall). rewrite totals_snoc.
  destruct m as [b n|b n|n|]; cbn [omap list_omap] in *; rewrite ?app_nil_r in *;
    cbn [record ping_count ping_min_ns ping_max_ns add_download add_upload count_command];
    try (by rewrite ?Nat.add_0_r).
  set (l := omap _ ms) in *. inversion_clear Hm as [|? ? Hn _].
  cbn [add_ping ping_count ping_min_ns ping_max_ns length] in *.
  split_and!.
  - rewrite Hc, wrap_u_small; lia.
  - intros E. by destruct l.
  - intros _. destruct (decide (l = [])) as [->|Hne].
    + destruct (Hnil eq_refl) as [-> ->].
      destruct (n <? u128_max) eqn:E1; destruct (n >? 0) eqn:E2; to_prop;
        split; apply list_elem_of_singleton; lia.
    + destruct (Hin Hne). split; case_one; set_solver.
  - apply Forall_app. split; [|apply Forall_singleton].
    + eapply Forall_impl; [exact Hall|]. cbn. intros x Hx.
      destruct (n <? _) eqn:E1; destruct (n >? _) eqn:E2; to_prop; lia.
    + destruct (n <? _) eqn:E1; destruct (n >? _) eqn:E2; to_prop; lia.
Qed.

(** The ping fields of the close event are the number, the minimum and the
    maximum of the round trips measured on the connection. *)
Theorem stats_pings ms
    (Hr : Forall (fun n => 0 <= n <= u128_max) (pings ms))
    (Hl : len (pings ms) < 2 ^ 32) (Hne : pings ms <> []) :
  let s := totals ms in
  ping_count s = len (pings ms) /\
  ping_min_ns s ∈ pings ms /\ ping_max_ns s ∈ pings ms /\
  Forall (fun n => ping_min_ns s <= n <= ping_max_ns s) (pings ms).
Proof. destruct (totals_ping ms Hr Hl) as (? & _ & Hin & ?). naive_solver. Qed.

Lemma stats_pings_witness :
  let s := totals [MCommand; MPing 900; MDownload 4096 5; MPing 300] in
  ping_count s = 2 /\ ping_min_ns s ∈ [900; 300] /\ ping_max_ns s ∈ [900; 300] /\
  Forall (fun n => ping_min_ns s <= n <= ping_max_ns s) [900; 300].
Proof.
  apply (stats_pings [MCommand; MPing 900; MDownload 4096 5; MPing 300]).
  - repeat constructor; vm_compute; discriminate.
  - vm_compute. reflexivity.
  - vm_compute. discriminate.
Defined.
