(* ===== verification/Json.v ===== *)
(** * The JSON object builder and the number formats of [events.rs]

    [Json] builds the body of an event as text; [json_escape] protects the
    strings (the client chooses the UUID).  Numbers of type [f64] are IEEE 754
    binary64 values of [SpecFloat], printed with [{:.3}] as Rust does: the exact
    value rounded to three decimals, ties to even.

    The laws: escaping is inverted by reading a JSON string, and an object that
    was built is read back to the fields it was built from. *)

From Stdlib Require Import Floats.SpecFloat.
From S2P Require Import Prelude RustStr.

(** ** Escaping *)

Definition quote : byte := Byte.x22.
Definition backslash : byte := Byte.x5c.

(** One character; the bytes of a multi-byte character are all above 0x7f and
    are pushed unchanged. *)
Definition escape_char (c : byte) : str :=
  if decide (c = quote) then [backslash; quote]
  else if decide (c = backslash) then [backslash; backslash]
  else if decide (c = Byte.x0a) then !"\n"
  else if decide (c = Byte.x0d) then !"\r"
  else if decide (c = Byte.x09) then !"\t"
  else if bz c <? 32 then !"\u" ++ hex_pad 4 (bz c)
  else [c].

Definition json_escape (s : str) : str := concat (map escape_char s).

(** ** The builder *)

Definition Json_new : str := !"{".

Definition sep (j : str) : str := if ends_with !"{" j then j else j ++ !",".

Definition json_key (k j : str) : str := j ++ [quote] ++ json_escape k ++ [quote] ++ !":".

Definition json_str (k v j : str) : str :=
  json_key k (sep j) ++ [quote] ++ json_escape v ++ [quote].

Definition json_int (k : str) (v : Z) (j : str) : str := json_key k (sep j) ++ show_int v.

Definition json_bool (k : str) (v : bool) (j : str) : str :=
  json_key k (sep j) ++ (if v then !"true" else !"false").

Definition json_done (j : str) : str := j ++ !"}".

(** ** Floating point *)

Definition f64 : Type := spec_float.

(** [n as f64] *)
Definition f64_of_Z (n : Z) : f64 := binary_normalize 53 1024 n 0 false.
Definition f64_div : f64 -> f64 -> f64 := SFdiv 53 1024.
Definition f64_mul : f64 -> f64 -> f64 := SFmul 53 1024.
Definition f64_add : f64 -> f64 -> f64 := SFadd 53 1024.

(** [m * 2 ^ e] times 1000, rounded to the nearest integer, ties to even. *)
Definition thousandths (m e : Z) : Z :=
  if 0 <=? e then 1000 * m * 2 ^ e
  else
    let d := 2 ^ (- e) in
    let q := (1000 * m) / d in
    let r := (1000 * m) mod d in
    if 2 * r <? d then q
    else if d <? 2 * r then q + 1
    else if Z.even q then q else q + 1.

(** [{v:.3}] *)
Definition show_f64_3 (v : f64) : str :=
  let fixed n :=
    show_unsigned (n / 1000) ++ !"." ++
    [digit (n / 100 mod 10); digit (n / 10 mod 10); digit (n mod 10)] in
  match v with
  | S754_zero s => (if s then !"-" else []) ++ fixed 0
  | S754_infinity s => (if s then !"-" else []) ++ !"inf"
  | S754_nan => !"NaN"
  | S754_finite s m e => (if s then !"-" else []) ++ fixed (thousandths (Zpos m) e)
  end.

Definition json_float (k : str) (v : f64) (j : str) : str :=
  json_key k (sep j) ++ show_f64_3 v.

Definition ns_to_ms (ns : Z) : f64 := f64_div (f64_of_Z ns) (f64_of_Z 1000000).

Definition mbps (bytes ns : Z) : f64 :=
  if ns =? 0 then f64_of_Z 0
  else
    f64_div
      (f64_div (f64_mul (f64_of_Z bytes) (f64_of_Z 8))
               (f64_div (f64_of_Z ns) (f64_of_Z 1000000000)))
      (f64_of_Z 1000000).

(** * Laws *)

(** ** Reading a JSON string *)

(** The characters up to the closing quote, with the escapes undone. *)
Fixpoint read_string (s : str) : option (str * str) :=
  match s with
  | [] => None
  | c :: s' =>
      if decide (c = quote) then Some ([], s')
      else if decide (c = backslash) then
        match s' with
        | d :: s1 =>
            if decide (d = Byte.x75) then
              match s1 with
              | h3 :: h2 :: h1 :: h0 :: s2 =>
                  '(a, b, c, d) ← (v3 ← hex_val h3; v2 ← hex_val h2;
                                   v1 ← hex_val h1; v0 ← hex_val h0;
                                   Some (v3, v2, v1, v0));
                  '(t, r) ← read_string s2;
                  Some (zb (((a * 16 + b) * 16 + c) * 16 + d) :: t, r)
              | _ => None
              end
            else
              x ← (if decide (d = Byte.x6e) then Some Byte.x0a
                   else if decide (d = Byte.x72) then Some Byte.x0d
                   else if decide (d = Byte.x74) then Some Byte.x09
                   else if decide (d = quote) then Some quote
                   else if decide (d = backslash) then Some backslash
                   else None);
              '(t, r) ← read_string s1;
              Some (x :: t, r)
        | [] => None
        end
      else if bz c <? 32 then None
      else '(t, r) ← read_string s'; Some (c :: t, r)
  end.

Lemma read_escape_char c s t r :
  read_string s = Some (t, r) -> read_string (escape_char c ++ s) = Some (c :: t, r).
Proof.
  intros Hs. unfold escape_char.
  repeat (destruct (decide (c = _)) as [->|]; [cbn; by rewrite Hs|]).
  destruct (Z.ltb_spec (bz c) 32) as [Hc|Hc].
  - assert (Hz : c = zb (bz c)) by (by rewrite zb_bz).
    pose proof (bz_range c) as [Hr _].
    assert (Hn : exists i : nat, (i < 32)%nat /\ bz c = Z.of_nat i)
      by (exists (Z.to_nat (bz c)); lia).
    destruct Hn as (i & Hn & E). rewrite Hz, E.
    do 32 (destruct i as [|i]; [cbn; by rewrite Hs|]). lia.
  - cbn. rewrite !decide_False by done.
    destruct (Z.ltb_spec (bz c) 32); [lia|]. by rewrite Hs.
Qed.

Lemma read_escape s r : read_string (json_escape s ++ quote :: r) = Some (s, r).
Proof.
  induction s as [|c s IH]; [done|]. unfold json_escape. cbn [map concat].
  rewrite <- app_assoc. by apply read_escape_char.
Qed.

(** ** Reading back an object *)

(** A value: a string, or the text of a number or a boolean. *)
Inductive json_value : Type :=
  | JStr (s : str)
  | JRaw (text : str).

Definition comma : byte := Byte.x2c.
Definition rbrace : byte := Byte.x7d.
Definition delimiter (c : byte) : bool := bool_decide (c = comma) || bool_decide (c = rbrace).

Fixpoint read_raw (s : str) : str * str :=
  match s with
  | c :: s' => if delimiter c then ([], s) else let '(t, r) := read_raw s' in (c :: t, r)
  | [] => ([], [])
  end.

Definition read_value (s : str) : option (json_value * str) :=
  match strip_prefix [quote] s with
  | Some s' => '(t, r) ← read_string s'; Some (JStr t, r)
  | None => let '(t, r) := read_raw s in if decide (t = []) then None else Some (JRaw t, r)
  end.

Definition read_field (s : str) : option (str * json_value * str) :=
  s1 ← strip_prefix [quote] s;
  '(k, s2) ← read_string s1;
  s3 ← strip_prefix !":" s2;
  '(v, r) ← read_value s3;
  Some (k, v, r).

Fixpoint read_fields (fuel : nat) (s : str) : option (list (str * json_value)) :=
  match fuel with
  | O => None
  | S f =>
      '(k, v, r) ← read_field s;
      if str_eqb r [rbrace] then Some [(k, v)]
      else r' ← strip_prefix [comma] r; l ← read_fields f r'; Some ((k, v) :: l)
  end.

(** A flat object with at least one field. *)
Definition read_object (s : str) : option (list (str * json_value)) :=
  s' ← strip_prefix !"{" s; read_fields (length s') s'.

(** What the builder appends for a field. *)
Definition show_value (v : json_value) : str :=
  match v with
  | JStr s => [quote] ++ json_escape s ++ [quote]
  | JRaw t => t
  end.

Definition show_field (f : str * json_value) : str :=
  [quote] ++ json_escape (fst f) ++ [quote] ++ !":" ++ show_value (snd f).

(** The text of a number or a boolean: no quote, no delimiter, no brace. *)
Definition raw_char (c : byte) : bool :=
  (43 <=? bz c) && (bz c <=? 122) && negb (delimiter c) && negb (bz c =? 92).

Definition value_ok (v : json_value) : Prop :=
  match v with
  | JStr _ => True
  | JRaw t => t <> [] /\ Forall (fun c => raw_char c = true) t
  end.

Lemma raw_char_delimiter c : raw_char c = true -> delimiter c = false.
Proof. unfold raw_char. intros H. to_prop. done. Qed.

Lemma raw_char_quote c : raw_char c = true -> c <> quote.
Proof. intros H ->. done. Qed.

Lemma read_raw_app t d r :
  Forall (fun c => raw_char c = true) t -> delimiter d = true ->
  read_raw (t ++ d :: r) = (t, d :: r).
Proof.
  intros Ht Hd. induction Ht as [|c t Hc _ IH]; cbn [app read_raw]; [by rewrite Hd|].
  rewrite raw_char_delimiter by done. by rewrite IH.
Qed.

Lemma read_value_show v d r :
  value_ok v -> delimiter d = true ->
  read_value (show_value v ++ d :: r) = Some (v, d :: r).
Proof.
  intros Hv Hd. unfold read_value. destruct v as [s|t]; cbn [show_value].
  - rewrite <- !app_assoc, strip_prefix_app. cbn [app]. by rewrite read_escape.
  - destruct Hv as [Hne Ht]. destruct (strip_prefix [quote] (t ++ d :: r)) as [s|] eqn:E.
    { apply strip_prefix_Some in E. destruct t as [|c t]; [done|].
      inversion_clear Ht as [|? ? Hc _]. by simplify_list_eq. }
    rewrite read_raw_app by done. by rewrite decide_False.
Qed.

Lemma read_field_show k v d r :
  value_ok v -> delimiter d = true ->
  read_field (show_field (k, v) ++ d :: r) = Some (k, v, d :: r).
Proof.
  intros Hv Hd. unfold read_field, show_field. cbn [fst snd].
  rewrite <- !app_assoc, strip_prefix_app. cbn [mbind option_bind app].
  rewrite read_escape. cbn [mbind option_bind].
  change (Byte.x3a :: ?x) with (!":" ++ x).
  rewrite strip_prefix_app. cbn [mbind option_bind].
  by rewrite read_value_show.
Qed.

Lemma read_fields_show fs fuel :
  fs <> [] -> Forall (fun f => value_ok (snd f)) fs -> (length fs <= fuel)%nat ->
  read_fields fuel (join [comma] (map show_field fs) ++ [rbrace]) = Some fs.
Proof.
  intros Hne Hok. revert fuel. induction Hok as [|[k v] fs Hv Hfs IH]; intros fuel Hl; [done|].
  destruct fuel as [|fuel]; cbn [length] in Hl; [lia|]. cbn [read_fields map].
  destruct fs as [|f fs].
  - cbn [join map]. rewrite read_field_show by done. by cbn.
  - change (join [comma] (show_field (k, v) :: map show_field (f :: fs)))
      with (show_field (k, v) ++ [comma] ++ join [comma] (map show_field (f :: fs))).
    rewrite <- !app_assoc. cbn [app].
    rewrite read_field_show by done. cbn [mbind option_bind].
    rewrite (proj2 (str_eqb_false _ _)) by done.
    change (comma :: ?x) with ([comma] ++ x). rewrite strip_prefix_app. cbn [mbind option_bind].
    rewrite IH by (done || lia). done.
Qed.

Lemma read_object_show fs :
  fs <> [] -> Forall (fun f => value_ok (snd f)) fs ->
  read_object (!"{" ++ join [comma] (map show_field fs) ++ [rbrace]) = Some fs.
Proof.
  intros Hne Hok. unfold read_object. rewrite strip_prefix_app. cbn [mbind option_bind].
  apply read_fields_show; [done..|].
  assert (length fs <= length (join [comma] (map show_field fs)))%nat.
  { clear. induction fs as [|f fs IH]; [done|].
    destruct fs as [|g fs]; cbn [map length join] in *.
    - unfold show_field. rewrite !length_app. cbn. lia.
    - rewrite !length_app in *. unfold show_field in *. rewrite !length_app in *.
      cbn [length] in *. lia. }
  rewrite length_app. lia.
Qed.

(** Text that is not changed by escaping. *)
Definition unescaped (c : byte) : bool :=
  (32 <=? bz c) && negb (bool_decide (c = quote)) && negb (bool_decide (c = backslash)).

Lemma json_escape_same s : Forall (fun c => unescaped c = true) s -> json_escape s = s.
Proof.
  intros Hs. unfold json_escape. induction Hs as [|c s Hc _ IH]; [done|]. cbn [map concat].
  rewrite IH. by destruct c.
Qed.

(** *** The builder appends fields *)

(** An open object that holds the fields [fs]. *)
Definition holds (fs : list (str * json_value)) (j : str) : Prop :=
  j = !"{" ++ join [comma] (map show_field fs) /\ Forall (fun f => value_ok (snd f)) fs.

Lemma Json_new_holds : holds [] Json_new.
Proof. done. Qed.

Lemma join_snoc c fs x : fs <> [] -> join [c] (fs ++ [x]) = join [c] fs ++ [c] ++ x.
Proof.
  induction fs as [|f fs IH]; [done|]. intros _. destruct fs as [|g fs]; [done|].
  change (join [c] ((f :: g :: fs) ++ [x])) with (f ++ [c] ++ join [c] ((g :: fs) ++ [x])).
  rewrite IH by done. by change (join [c] (f :: g :: fs)) with (f ++ [c] ++ join [c] (g :: fs));
    rewrite <- !app_assoc.
Qed.

(** No field ends with an opening brace, so a separator is put before every
    field but the first. *)
Lemma show_field_last f :
  value_ok (snd f) -> exists s c, show_field f = s ++ [c] /\ c <> Byte.x7b.
Proof.
  destruct f as [k [v|t]]; cbn [snd value_ok]; unfold show_field; cbn [fst snd show_value].
  - intros _. eexists _, quote. rewrite !app_assoc. done.
  - intros [Hne Ht]. destruct t as [|c t] using rev_ind; [done|].
    apply Forall_app in Ht as [_ Ht]. inversion_clear Ht as [|? ? Hc _].
    eexists _, c. rewrite !app_assoc. split; [done|]. intros ->. done.
Qed.

Lemma join_last c fs : fs <> [] -> exists s f, f ∈ fs /\ join [c] fs = s ++ f.
Proof.
  destruct fs as [|f fs] using rev_ind; [done|]. intros _.
  destruct (decide (fs = [])) as [->|Hne].
  - exists [], f. split; [set_solver|done].
  - rewrite join_snoc by done. eexists _, f. split; [set_solver|]. by rewrite app_assoc.
Qed.

Lemma ends_with_brace s c : ends_with !"{" (s ++ [c]) = bool_decide (c = Byte.x7b).
Proof.
  unfold ends_with, starts_with. rewrite rev_app_distr. cbn.
  destruct (decide _) as [E|E].
  - rewrite bool_decide_true by done. by rewrite ?E.
  - by rewrite bool_decide_false by congruence.
Qed.

Lemma sep_holds fs j :
  holds fs j -> sep j = j ++ (match fs with [] => [] | _ => [comma] end).
Proof.
  intros [-> Hok]. unfold sep. destruct fs as [|f0 fs0]; [by rewrite app_nil_r|].
  set (fs := f0 :: fs0) in *.
  destruct (join_last comma (map show_field fs)) as (s & x & Hx & E); [done|].
  apply list_elem_of_fmap in Hx as (f & -> & Hf). rewrite Forall_forall in Hok.
  destruct (show_field_last f (Hok f Hf)) as (y & c & Ey & Hc).
  rewrite E, Ey, !app_assoc, ends_with_brace, bool_decide_false by done. done.
Qed.

Lemma add_holds fs j f :
  holds fs j -> value_ok (snd f) -> holds (fs ++ [f]) (sep j ++ show_field f).
Proof.
  intros Hj Hf. rewrite (sep_holds fs) by done. destruct Hj as [-> Hok]. split.
  - rewrite map_app. destruct fs as [|f0 fs0]; [by rewrite !app_nil_r|].
    change (map show_field [f]) with [show_field f]. rewrite join_snoc by done.
    by rewrite <- !app_assoc.
  - apply Forall_app. auto.
Qed.

Lemma json_str_holds fs j k v : holds fs j -> holds (fs ++ [(k, JStr v)]) (json_str k v j).
Proof.
  intros Hj. replace (json_str k v j) with (sep j ++ show_field (k, JStr v)).
  - by apply add_holds.
  - unfold json_str, json_key, show_field. cbn [fst snd show_value]. by rewrite <- ?app_assoc.
Qed.

Lemma raw_holds fs j k t :
  holds fs j -> t <> [] -> Forall (fun c => raw_char c = true) t ->
  holds (fs ++ [(k, JRaw t)]) (json_key k (sep j) ++ t).
Proof.
  intros Hj Hne Ht. replace (json_key k (sep j) ++ t) with (sep j ++ show_field (k, JRaw t)).
  - by apply add_holds.
  - unfold json_key, show_field. cbn [fst snd show_value]. by rewrite <- ?app_assoc.
Qed.

Lemma digits_raw s : Forall (fun c => is_digit c = true) s -> Forall (fun c => raw_char c = true) s.
Proof.
  intros Hs. eapply Forall_impl; [exact Hs|]. intros c Hc. apply is_digit_range in Hc. unfold raw_char, delimiter.
  rewrite !bool_decide_false by (intros ->; cbn in Hc; lia).
  cbn [orb negb]. rewrite !andb_true_iff, negb_true_iff, Z.eqb_neq, !Z.leb_le. lia.
Qed.

Lemma show_int_raw n : show_int n <> [] /\ Forall (fun c => raw_char c = true) (show_int n).
Proof.
  unfold show_int. pose proof (show_unsigned_digits (- n)) as Hn.
  pose proof (show_unsigned_digits n) as Hp. pose proof (show_unsigned_nonempty n).
  case_one; split; auto using digits_raw; try constructor; auto using digits_raw; done.
Qed.

Lemma json_int_holds fs j k v :
  holds fs j -> holds (fs ++ [(k, JRaw (show_int v))]) (json_int k v j).
Proof. intros Hj. destruct (show_int_raw v). by apply raw_holds. Qed.

Definition show_bool (v : bool) : str := if v then !"true" else !"false".

Lemma json_bool_holds fs j k v :
  holds fs j -> holds (fs ++ [(k, JRaw (show_bool v))]) (json_bool k v j).
Proof. intros Hj. apply raw_holds; [done|by destruct v|]. destruct v; by repeat constructor. Qed.

Lemma show_f64_3_raw v :
  show_f64_3 v <> [] /\ Forall (fun c => raw_char c = true) (show_f64_3 v).
Proof.
  assert (Hd : forall n, Forall (fun c => raw_char c = true)
    (show_unsigned (n / 1000) ++ !"." ++
     [digit (n / 100 mod 10); digit (n / 10 mod 10); digit (n mod 10)])).
  { intros n. apply Forall_app. split; [apply digits_raw, show_unsigned_digits|].
    constructor; [done|]. apply digits_raw.
    repeat constructor; apply digit_is_digit; apply Z.mod_pos_bound; lia. }
  assert (Hs : forall s : bool, Forall (fun c => raw_char c = true) (if s then !"-" else []))
    by (intros []; by repeat constructor).
  assert (Hne : forall (s : bool) a b c, (if s then !"-" else []) ++ show_unsigned a ++ b :: c <> []).
  { intros s a b c E. apply app_eq_nil in E as [_ E]. apply app_eq_nil in E as [_ E]. done. }
  destruct v as [s|s| |s m e]; cbn [show_f64_3].
  - split; [apply Hne|]. apply Forall_app. split; [apply Hs|apply (Hd 0)].
  - split; [by destruct s|]. apply Forall_app. split; [apply Hs|by repeat constructor].
  - split; [done|by repeat constructor].
  - split; [apply Hne|]. apply Forall_app. split; [apply Hs|apply Hd].
Qed.

Lemma json_float_holds fs j k v :
  holds fs j -> holds (fs ++ [(k, JRaw (show_f64_3 v))]) (json_float k v j).
Proof. intros Hj. destruct (show_f64_3_raw v). by apply raw_holds. Qed.

(** A finished object is read back to its fields. *)
Lemma json_done_reads fs j : holds fs j -> fs <> [] -> read_object (json_done j) = Some fs.
Proof.
  intros [-> Hok] Hne. unfold json_done. rewrite <- app_assoc. by apply read_object_show.
Qed.

Create HintDb json discriminated.
#[export] Hint Resolve Json_new_holds json_str_holds json_int_holds json_bool_holds
  json_float_holds : json.

(** ** One line *)

Definition no_control (c : byte) : Prop := 32 <= bz c.

Lemma escape_char_no_control c : Forall no_control (escape_char c).
Proof.
  unfold escape_char.
  do 5 (case_decide; [repeat constructor; vm_compute; discriminate|]).
  destruct (Z.ltb_spec (bz c) 32) as [Hc|Hc]; [|by repeat constructor].
  apply Forall_app. split; [repeat constructor; vm_compute; discriminate|].
  pose proof (bz_range c) as [Hr _].
  assert (Hi : exists i : nat, (i < 32)%nat /\ bz c = Z.of_nat i)
    by (exists (Z.to_nat (bz c)); lia).
  destruct Hi as (i & Hi & ->).
  do 32 (destruct i as [|i]; [repeat constructor; vm_compute; discriminate|]). lia.
Qed.

Lemma json_escape_no_control s : Forall no_control (json_escape s).
Proof.
  induction s as [|c s IH]; [constructor|]. unfold json_escape. cbn [map concat].
  apply Forall_app. auto using escape_char_no_control.
Qed.

Lemma raw_no_control t : Forall (fun c => raw_char c = true) t -> Forall no_control t.
Proof.
  intros Ht. eapply Forall_impl; [exact Ht|]. intros c Hc. unfold raw_char in Hc.
  to_prop. unfold no_control. lia.
Qed.

Lemma show_field_no_control f : value_ok (snd f) -> Forall no_control (show_field f).
Proof.
  assert (Hl : forall c, 32 <= bz c -> Forall no_control [c]) by (by repeat constructor).
  destruct f as [k v]. unfold show_field. cbn [fst snd]. intros Hv.
  repeat (apply Forall_app; split); try (apply Hl; vm_compute; discriminate).
  - apply json_escape_no_control.
  - destruct v as [s|t]; cbn [show_value].
    + repeat (apply Forall_app; split); try (apply Hl; vm_compute; discriminate).
      apply json_escape_no_control.
    + by apply raw_no_control, Hv.
Qed.

(** A finished object has no control character, whatever strings it holds. *)
Lemma json_done_no_control fs j : holds fs j -> Forall no_control (json_done j).
Proof.
  intros [-> Hok]. unfold json_done.
  assert (Hl : forall c, 32 <= bz c -> Forall no_control [c]) by (by repeat constructor).
  repeat (apply Forall_app; split); try (apply Hl; vm_compute; discriminate).
  induction Hok as [|f fs Hf _ IH]; [constructor|].
  apply show_field_no_control in Hf. destruct fs as [|g fs]; [done|].
  change (join [comma] (map show_field (f :: g :: fs)))
    with (show_field f ++ [comma] ++ join [comma] (map show_field (g :: fs))).
  rewrite !Forall_app. split_and!; [done|apply Hl; vm_compute; discriminate|done].
Qed.
