(* ===== verification/Io.v ===== *)
(** * Effects of a connection: the socket, the clocks and the error channel

    A handler runs in the monad [M]: it takes the [World] of one connection and
    gives an outcome and the world after it.  The world holds what the
    environment will do (the bytes or frames the client sends, which writes
    fail, what the clocks show: all arbitrary) and what the program did (the
    actions, in order, and the statistics of the connection).

    [?] of the source is [let*]: an error ends the handler, the world keeps what
    was done before it.  A panic and an exhausted loop bound are outcomes of
    their own, so that their absence is a theorem. *)

From S2P Require Import Prelude RustStr Stats.

(** ** Errors: [io::ErrorKind] as far as the program tells kinds apart *)

Inductive ErrorKind : Type :=
  | UnexpectedEof
  | ConnectionReset
  | ConnectionAborted
  | BrokenPipe
  | Interrupted
  | InvalidData
  | PermissionDenied
  | WouldBlock
  | TimedOut
  | AddrNotAvailable
  | OtherKind.

#[export] Instance ErrorKind_eq_dec : EqDecision ErrorKind.
Proof. solve_decision. Defined.

Record io_error : Type := mkErr { e_kind : ErrorKind; e_msg : str }.

(** ** What the environment does *)

(** The bytes of the transport, after TLS, with the errors of [read] between
    them; the end of the list is the end of the stream. *)
Inductive rx_event : Type :=
  | RxByte (b : byte)
  | RxErr (e : io_error).

(** What [tungstenite::WebSocket::read] returns. *)
Inductive Message : Type :=
  | Text (s : str)
  | Binary (b : list byte)
  | Control                (* Ping, Pong, Frame *)
  | Close.

Inductive ws_error : Type :=
  | WsIo (e : io_error)
  | WsOther (msg : str).

Inductive ws_event : Type :=
  | WsMsg (m : Message)
  | WsErr (e : ws_error).

(** How one call of [write_all], [send] or [flush] ends: a failing write has
    written some prefix. *)
Inductive wr_event : Type :=
  | WrOk
  | WrFail (written : nat) (e : io_error).

(** ** What the program does *)

Inductive action : Type :=
  | Sent (b : list byte)          (* bytes on a raw transport *)
  | SentFrame (m : Message)       (* a WebSocket frame *)
  | CloseNotify                   (* TLS close_notify *)
  | Slept (secs : Z)
  | Datagram (b : list byte).     (* an event to the syslog collector *)

Record World : Type := mkWorld {
  w_rx : list rx_event;
  w_ws : list ws_event;
  w_ws_end : ws_error;            (* what [read] gives after the last frame *)
  w_bursts : list nat;            (* how many bytes a non-exact read finds *)
  w_wr : list wr_event;           (* after the list, writes succeed *)
  w_mono : nat -> Z;              (* the monotonic clock, in nanoseconds *)
  w_wall : nat -> N;              (* the system clock, in seconds *)
  w_stamp : nat -> str;           (* the system clock as RFC 3339 text *)
  w_tick : nat;                   (* how many times a clock was read *)
  w_out : list action;
  w_stats : ConnStats
}.

Definition set_rx v w := mkWorld v (w_ws w) (w_ws_end w) (w_bursts w) (w_wr w) (w_mono w)
  (w_wall w) (w_stamp w) (w_tick w) (w_out w) (w_stats w).
Definition set_ws v w := mkWorld (w_rx w) v (w_ws_end w) (w_bursts w) (w_wr w) (w_mono w)
  (w_wall w) (w_stamp w) (w_tick w) (w_out w) (w_stats w).
Definition set_bursts v w := mkWorld (w_rx w) (w_ws w) (w_ws_end w) v (w_wr w) (w_mono w)
  (w_wall w) (w_stamp w) (w_tick w) (w_out w) (w_stats w).
Definition set_wr v w := mkWorld (w_rx w) (w_ws w) (w_ws_end w) (w_bursts w) v (w_mono w)
  (w_wall w) (w_stamp w) (w_tick w) (w_out w) (w_stats w).
Definition set_tick v w := mkWorld (w_rx w) (w_ws w) (w_ws_end w) (w_bursts w) (w_wr w)
  (w_mono w) (w_wall w) (w_stamp w) v (w_out w) (w_stats w).
Definition set_out v w := mkWorld (w_rx w) (w_ws w) (w_ws_end w) (w_bursts w) (w_wr w)
  (w_mono w) (w_wall w) (w_stamp w) (w_tick w) v (w_stats w).
Definition set_stats v w := mkWorld (w_rx w) (w_ws w) (w_ws_end w) (w_bursts w) (w_wr w)
  (w_mono w) (w_wall w) (w_stamp w) (w_tick w) (w_out w) v.

(** ** The monad *)

Inductive outcome (A : Type) : Type :=
  | Done (a : A)
  | Fail (e : io_error)
  | Panicked
  | OutOfFuel.
Arguments Done {A} a.
Arguments Fail {A} e.
Arguments Panicked {A}.
Arguments OutOfFuel {A}.

Definition M (A : Type) : Type := World -> outcome A * World.

Definition ret {A} (a : A) : M A := fun w => (Done a, w).
Definition fail {A} (k : ErrorKind) (msg : str) : M A := fun w => (Fail (mkErr k msg), w).
Definition raise {A} (e : io_error) : M A := fun w => (Fail e, w).
Definition panic {A} : M A := fun w => (Panicked, w).
Definition out_of_fuel {A} : M A := fun w => (OutOfFuel, w).

Definition bind {A B} (m : M A) (k : A -> M B) : M B := fun w =>
  match m w with
  | (Done a, w') => k a w'
  | (Fail e, w') => (Fail e, w')
  | (Panicked, w') => (Panicked, w')
  | (OutOfFuel, w') => (OutOfFuel, w')
  end.

(** The [Result] of a call, for a caller that matches on it. *)
Definition try {A} (m : M A) : M (result A io_error) := fun w =>
  match m w with
  | (Done a, w') => (Done (Ok a), w')
  | (Fail e, w') => (Done (Err e), w')
  | (Panicked, w') => (Panicked, w')
  | (OutOfFuel, w') => (OutOfFuel, w')
  end.

Notation "'let*' x := m 'in' k" := (bind m (fun x => k))
  (at level 10, x name, m at level 100, k at level 200,
   format "'[hv' 'let*'  x  :=  m  'in'  '/' k ']'") : rmbt_scope.
Notation "'do*' m 'in' k" := (bind m (fun _ => k))
  (at level 10, m at level 100, k at level 200,
   format "'[hv' 'do*'  m  'in'  '/' k ']'") : rmbt_scope.

(** [let _ = m;] *)
Definition ignore {A} (m : M A) : M unit := do* try m in ret tt.

(** ** Primitives *)

Definition act (a : action) : M unit := fun w => (Done tt, set_out (w_out w ++ [a]) w).

Definition update_stats (f : ConnStats -> ConnStats) : M unit := fun w =>
  (Done tt, set_stats (f (w_stats w)) w).

(** [Instant::now()] *)
Definition instant_now : M Z := fun w =>
  (Done (w_mono w (w_tick w)), set_tick (S (w_tick w)) w).

(** [start.elapsed().as_nanos()]; [Instant] subtraction saturates at zero. *)
Definition elapsed (start : Z) : M Z :=
  let* now := instant_now in ret (Z.max 0 (now - start)).

(** The two readings of the system clock a token validation may make. *)
Definition wall_clock : M (nat -> N) := fun w =>
  (Done (fun i => w_wall w (w_tick w + i)%nat), set_tick (S (S (w_tick w))) w).

(** [chrono::Utc::now().to_rfc3339_opts(Millis, true)] *)
Definition timestamp : M str := fun w =>
  (Done (w_stamp w (w_tick w)), set_tick (S (w_tick w)) w).

Definition next_write : M wr_event := fun w =>
  match w_wr w with
  | [] => (Done WrOk, w)
  | e :: l => (Done e, set_wr l w)
  end.

(** ** The transport: plain TCP or TLS *)

(** [write_all] *)
Definition transport_write_all (data : list byte) : M unit :=
  let* r := next_write in
  match r with
  | WrOk => act (Sent data)
  | WrFail n e => do* act (Sent (take n data)) in raise e
  end.

Definition transport_flush : M unit :=
  let* r := next_write in
  match r with WrOk => ret tt | WrFail _ e => raise e end.

Definition eof : io_error := mkErr UnexpectedEof !"failed to fill whole buffer".

(** [read_exact] of the standard library: interrupted reads are retried. *)
Fixpoint rx_exact (n : nat) (rx : list rx_event) : outcome (list byte) * list rx_event :=
  match n with
  | O => (Done [], rx)
  | S n' =>
      (fix next (rx : list rx_event) : outcome (list byte) * list rx_event :=
         match rx with
         | [] => (Fail eof, [])
         | RxByte b :: rx' =>
             match rx_exact n' rx' with
             | (Done l, rx'') => (Done (b :: l), rx'')
             | r => r
             end
         | RxErr e :: rx' => if decide (e_kind e = Interrupted) then next rx' else (Fail e, rx')
         end) rx
  end.

(** [take(n).read_until(delim)]: the bytes up to and including the delimiter, or
    [n] bytes, or all there is. *)
Fixpoint rx_until (n : nat) (delim : byte) (rx : list rx_event)
    : outcome (list byte) * list rx_event :=
  match rx with
  | [] => (Done [], [])
  | RxByte b :: rx' =>
      match n with
      | O => (Done [], rx)
      | S n' =>
          if decide (b = delim) then (Done [b], rx')
          else
            match rx_until n' delim rx' with
            | (Done l, rx'') => (Done (b :: l), rx'')
            | r => r
            end
      end
  | RxErr e :: rx' =>
      match n with
      | O => (Done [], rx)
      | S _ => if decide (e_kind e = Interrupted) then rx_until n delim rx' else (Fail e, rx')
      end
  end.

(** [take(n).read_to_end]: [n] bytes or all there is. *)
Fixpoint rx_upto (n : nat) (rx : list rx_event) : outcome (list byte) * list rx_event :=
  match rx with
  | [] => (Done [], [])
  | RxByte b :: rx' =>
      match n with
      | O => (Done [], rx)
      | S n' =>
          match rx_upto n' rx' with
          | (Done l, rx'') => (Done (b :: l), rx'')
          | r => r
          end
      end
  | RxErr e :: rx' =>
      match n with
      | O => (Done [], rx)
      | S _ => if decide (e_kind e = Interrupted) then rx_upto n rx' else (Fail e, rx')
      end
  end.

(** The bytes in front of the next error or of the end, [n] at most. *)
Fixpoint rx_burst (n : nat) (rx : list rx_event) : list byte * list rx_event :=
  match n, rx with
  | S n', RxByte b :: rx' => let '(l, rx'') := rx_burst n' rx' in (b :: l, rx'')
  | _, _ => ([], rx)
  end.

Definition on_rx {A} (f : list rx_event -> outcome A * list rx_event) : M A := fun w =>
  let '(o, rx) := f (w_rx w) in (o, set_rx rx w).

(** A single [read] into a buffer of [n] bytes: at least one byte unless the
    stream ended. *)
Definition transport_read (n : nat) : M (list byte) := fun w =>
  match w_rx w with
  | RxErr e :: rx => (Fail e, set_rx rx w)
  | rx =>
      let found := match w_bursts w with [] => 1%nat | k :: _ => Nat.max 1 k end in
      let '(l, rx') := rx_burst (Nat.min n found) rx in
      (Done l, set_bursts (tail (w_bursts w)) (set_rx rx' w))
  end.

(** ** WebSocket frames, with [tungstenite] as the environment *)

(** The frames are read by the loops of [Stream]. *)
Definition on_ws {A} (f : ws_error -> list ws_event -> outcome A * list ws_event) : M A :=
  fun w => let '(o, l) := f (w_ws_end w) (w_ws w) in (o, set_ws l w).

(** [Err(tungstenite::Error::Io(e)) => Err(e)], and
    [Err(e) => Err(io::Error::other(e.to_string()))] *)
Definition ws_fail {A} (e : ws_error) : outcome A :=
  match e with WsIo e => Fail e | WsOther msg => Fail (mkErr OtherKind msg) end.

(** [send] and [flush]; their errors carry the text of the [tungstenite] error
    and, whatever its kind was, the kind [Other]. *)
Definition ws_send (m : Message) : M unit :=
  let* r := next_write in
  match r with WrOk => act (SentFrame m) | WrFail _ e => fail OtherKind (e_msg e) end.

Definition ws_flush : M unit :=
  let* r := next_write in
  match r with WrOk => ret tt | WrFail _ e => fail OtherKind (e_msg e) end.

(** How much input is left: the bound of the loops that consume input. *)
Definition input_left (w : World) : nat := (length (w_rx w) + length (w_ws w))%nat.

(** * Reasoning about handlers *)

(** [wp m Q w]: the run of [m] from [w] ends in an outcome and a world
    satisfying [Q]. *)
Definition wp {A} (m : M A) (Q : outcome A -> World -> Prop) (w : World) : Prop :=
  Q (fst (m w)) (snd (m w)).

Lemma wp_intro {A} (m : M A) (Q : outcome A -> World -> Prop) w o w' :
  wp m Q w -> m w = (o, w') -> Q o w'.
Proof. unfold wp. intros H E. by rewrite E in H. Qed.

Lemma wp_mono {A} (m : M A) (P Q : outcome A -> World -> Prop) w :
  wp m P w -> (forall o w', P o w' -> Q o w') -> wp m Q w.
Proof. unfold wp. auto. Qed.

Lemma wp_bind {A B} (m : M A) (k : A -> M B) (Q : outcome B -> World -> Prop) w :
  wp m (fun o w' =>
    match o with
    | Done a => wp (k a) Q w'
    | Fail e => Q (Fail e) w'
    | Panicked => Q Panicked w'
    | OutOfFuel => Q OutOfFuel w'
    end) w -> wp (bind m k) Q w.
Proof. cbv [wp bind]. by destruct (m w) as [[] ?]. Qed.

Lemma wp_try {A} (m : M A) (Q : outcome (result A io_error) -> World -> Prop) w :
  wp m (fun o w' =>
    match o with
    | Done a => Q (Done (Ok a)) w'
    | Fail e => Q (Done (Err e)) w'
    | Panicked => Q Panicked w'
    | OutOfFuel => Q OutOfFuel w'
    end) w -> wp (try m) Q w.
Proof. cbv [wp try]. by destruct (m w) as [[] ?]. Qed.

Lemma bind_Done {A B} (m : M A) (k : A -> M B) w a w' :
  m w = (Done a, w') -> bind m k w = k a w'.
Proof. unfold bind. by intros ->. Qed.

Lemma bind_Fail {A B} (m : M A) (k : A -> M B) w e w' :
  m w = (Fail e, w') -> bind m k w = (Fail e, w').
Proof. unfold bind. by intros ->. Qed.

(** The bytes of an action that go to the client. *)
Definition payload (a : action) : list byte :=
  match a with
  | Sent b => b
  | SentFrame (Text s) => s
  | SentFrame (Binary b) => b
  | _ => []
  end.

Lemma set_out_out v w : w_out (set_out v w) = v.
Proof. done. Qed.

(** A sequence that succeeds: both parts did. *)
Lemma bind_Done_inv {A B} (m : M A) (k : A -> M B) w b w' :
  bind m k w = (Done b, w') -> exists a w1, m w = (Done a, w1) /\ k a w1 = (Done b, w').
Proof. unfold bind. destruct (m w) as [[a| | |] w1]; try done. eauto. Qed.
