(* ===== verification/Stream.v ===== *)
(** * Streams: [stream/mod.rs] and [stream/transport.rs]

    A connection as the protocol handlers see it: lines and chunks over a raw
    transport or over WebSocket frames.

    The laws: a raw line is bounded, ends at the first newline and is consumed
    together with its terminator; reading an exact number of bytes does not
    depend on the framing; what is written arrives unchanged. *)

From S2P Require Import Prelude RustStr Net Config Stats Io.

(** ** [Transport] *)

(** The handle of a transport: whether it is TLS, and the peer's address as the
    operating system gives it. *)
Record Transport : Type := mkTransport {
  tr_tls : bool;
  tr_peer : option SocketAddr
}.

Definition transport_peer_addr (t : Transport) : option SocketAddr := tr_peer t.

(** [close]: the [close_notify] is queued, a failing flush is ignored. *)
Definition transport_close (t : Transport) : M unit :=
  if tr_tls t then do* act CloseNotify in ignore transport_flush else ret tt.

(** ** [Stream] *)

Inductive Stream : Type :=
  | Raw (t : Transport)
  | WebSocket (t : Transport).

Definition newline : byte := Byte.x0a.
Definition carriage_return : byte := Byte.x0d.

(** *** [read_line] *)

Definition read_line_raw : M str :=
  let* buf := on_rx (rx_until (Z.to_nat (MAX_LINE_LENGTH + 1)) newline) in
  if bool_decide (buf = []) then fail UnexpectedEof !"connection closed"
  else if len buf >? MAX_LINE_LENGTH then fail InvalidData !"line too long"
  else
    let buf := pop_if newline buf in
    let buf := pop_if carriage_return buf in
    match from_utf8 buf with
    | Some s => ret s
    | None => fail InvalidData !"invalid UTF-8 in line"
    end.

Definition ws_close_error : io_error := mkErr ConnectionReset !"ws close".

Fixpoint ws_read_line (last : ws_error) (l : list ws_event) : outcome str * list ws_event :=
  match l with
  | [] => (ws_fail last, [])
  | WsMsg (Text t) :: l' =>
      (Done (trim_end_matches carriage_return (trim_end_matches newline t)), l')
  | WsMsg (Binary b) :: l' =>
      let s := from_utf8_lossy b in
      let s := pop_if newline s in
      let s := pop_if carriage_return s in
      (Done s, l')
  | WsMsg Close :: l' => (Fail ws_close_error, l')
  | WsMsg Control :: l' => ws_read_line last l'
  | WsErr e :: l' => (ws_fail e, l')
  end.

Definition read_line (s : Stream) : M str :=
  match s with
  | Raw _ => read_line_raw
  | WebSocket _ => on_ws ws_read_line
  end.

(** *** [write_all] and [write_line] *)

Definition ws_message (data : list byte) : Message :=
  if (len data <? 2) || (len data >? CHUNK_SIZE - 3) then Binary data
  else Text (from_utf8_lossy data).

Definition write_all (s : Stream) (data : list byte) : M unit :=
  match s with
  | Raw _ => transport_write_all data
  | WebSocket _ => do* ws_send (ws_message data) in ws_flush
  end.

Definition write_line (s : Stream) (line : str) : M unit := write_all s line.

(** *** [read_exact] *)

(** [need] is [buf.len() - filled]. *)
Fixpoint ws_read_exact (need : nat) (last : ws_error) (l : list ws_event)
    : outcome (list byte) * list ws_event :=
  match need with
  | O => (Done [], l)
  | S _ =>
      let fill b l' :=
        let n := Nat.min (length b) need in
        match ws_read_exact (need - n) last l' with
        | (Done r, l'') => (Done (take n b ++ r), l'')
        | r => r
        end in
      match l with
      | [] => (ws_fail last, [])
      | WsMsg (Binary b) :: l' => fill b l'
      | WsMsg (Text t) :: l' => fill t l'
      | WsMsg Close :: l' => (Fail ws_close_error, l')
      | WsMsg Control :: l' => ws_read_exact need last l'
      | WsErr e :: l' => (ws_fail e, l')
      end
  end.

Definition read_exact (s : Stream) (n : nat) : M (list byte) :=
  match s with
  | Raw _ => on_rx (rx_exact n)
  | WebSocket _ => on_ws (ws_read_exact n)
  end.

(** *** [read] *)

Fixpoint ws_read_some (n : nat) (last : ws_error) (l : list ws_event)
    : outcome (list byte) * list ws_event :=
  match l with
  | [] => (ws_fail last, [])
  | WsMsg (Binary b) :: l' => (Done (take (Nat.min (length b) n) b), l')
  | WsMsg (Text t) :: l' => (Done (take (Nat.min (length t) n) t), l')
  | WsMsg Close :: l' => (Done [], l')
  | WsMsg Control :: l' => ws_read_some n last l'
  | WsErr e :: l' => (ws_fail e, l')
  end.

Definition read (s : Stream) (n : nat) : M (list byte) :=
  match s with
  | Raw _ => transport_read n
  | WebSocket _ => on_ws (ws_read_some n)
  end.

Definition kind_name (s : Stream) : str :=
  match s with Raw _ => !"raw" | WebSocket _ => !"websocket" end.

Definition peer_addr (s : Stream) : option SocketAddr :=
  match s with Raw t | WebSocket t => transport_peer_addr t end.
