(* ===== verification/StreamFacts.v ===== *)
(** * Laws of the stream operations

    Bounds on lines, independence of the framing, faithful delivery, and the
    frame rules the protocol proofs rest on: what an operation leaves alone. *)

From S2P Require Import Prelude RustStr Net Config Stats Io Stream.

(** ** Writing *)

(** A write that succeeds has sent everything. *)
Lemma transport_write_Done data w u w' :
  transport_write_all data w = (Done u, w') ->
  w_out w' = w_out w ++ [Sent data] /\ w_rx w' = w_rx w.
Proof.
  unfold transport_write_all, bind, next_write. destruct (w_wr w) as [|[|n e] wr]; cbn;
    intros E; try done; by injection E as _ <-.
Qed.

Lemma transport_flush_Done w u w' :
  transport_flush w = (Done u, w') -> w_out w' = w_out w /\ w_rx w' = w_rx w.
Proof.
  unfold transport_flush, bind, next_write. destruct (w_wr w) as [|[|n e] wr]; cbn;
    intros E; try done; by injection E as _ <-.
Qed.

(** The action of a successful write. *)
Definition sends (s : Stream) (data : list byte) : action :=
  match s with Raw _ => Sent data | WebSocket _ => SentFrame (ws_message data) end.

(** What a failed write may have left on the wire. *)
Definition cut_off (s : Stream) (data : list byte) (part : list action) : Prop :=
  part = [] \/ part = [sends s data] \/ exists n, part = [Sent (take n data)].

(** A write changes the output and consumes the write oracle, nothing else. *)
Lemma write_all_cases s data w :
  exists o part wr, write_all s data w = (o, set_out (w_out w ++ part) (set_wr wr w)) /\
    match o with
    | Done _ => part = [sends s data]
    | Fail _ => cut_off s data part
    | _ => False
    end.
Proof.
  destruct w as [rx ws we bu wr mo wa sp ti out st]. destruct s as [t|t]; cbn.
  - unfold transport_write_all, bind, next_write. cbn.
    destruct wr as [|[|n e] wr]; cbn.
    + by exists (Done tt), [Sent data], [].
    + by exists (Done tt), [Sent data], wr.
    + exists (Fail e), [Sent (take n data)], wr. split; [done|]. right. right. eauto.
  - unfold ws_send, ws_flush, bind, next_write. cbn.
    destruct wr as [|[|n e] wr]; cbn.
    + by exists (Done tt), [SentFrame (ws_message data)], [].
    + destruct wr as [|[|n e] wr]; cbn.
      * by exists (Done tt), [SentFrame (ws_message data)], [].
      * by exists (Done tt), [SentFrame (ws_message data)], wr.
      * eexists (Fail _), [SentFrame (ws_message data)], wr. split; [done|]. right. by left.
    + eexists (Fail _), [], wr. rewrite app_nil_r. split; [done|]. by left.
Qed.

(** Without write errors to come, a write succeeds. *)
Lemma write_all_ok s data w :
  w_wr w = [] -> write_all s data w = (Done tt, set_out (w_out w ++ [sends s data]) w).
Proof.
  destruct w as [rx ws we bu wr mo wa sp ti out st]. cbn. intros ->. by destruct s.
Qed.

(** ** Reading *)

(** Reads depend on the input only and change nothing else. *)
Definition reads {A} (m : M A) : Prop :=
  forall w, exists o rx ws,
    (length rx <= length (w_rx w))%nat /\ (length ws <= length (w_ws w))%nat /\
    forall w', w_rx w' = w_rx w -> w_ws w' = w_ws w -> w_ws_end w' = w_ws_end w ->
      m w' = (o, set_rx rx (set_ws ws w')).

Lemma reads_on_rx {A} (f : list rx_event -> outcome A * list rx_event) :
  (forall rx, length (snd (f rx)) <= length rx)%nat -> reads (on_rx f).
Proof.
  intros Hf w. specialize (Hf (w_rx w)). destruct (f (w_rx w)) as [o rx] eqn:E.
  exists o, rx, (w_ws w). split_and!; [done|done|]. intros w' Hrx Hws _.
  unfold on_rx. rewrite Hrx, E. destruct w'; cbn in *. by subst.
Qed.

Lemma reads_on_ws {A} (f : ws_error -> list ws_event -> outcome A * list ws_event) :
  (forall e l, length (snd (f e l)) <= length l)%nat -> reads (on_ws f).
Proof.
  intros Hf w. specialize (Hf (w_ws_end w) (w_ws w)).
  destruct (f (w_ws_end w) (w_ws w)) as [o ws] eqn:E.
  exists o, (w_rx w), ws. split_and!; [done|done|]. intros w' Hrx Hws He.
  unfold on_ws. rewrite Hws, He, E. destruct w'; cbn in *. by subst.
Qed.

Lemma reads_then {A B} (m : M A) (k : A -> outcome B) :
  reads m -> reads (let* a := m in fun w => (k a, w)).
Proof.
  intros Hm w. destruct (Hm w) as (o & rx & ws & Hrx & Hws & H).
  exists (match o with Done a => k a | Fail e => Fail e | Panicked => Panicked
          | OutOfFuel => OutOfFuel end), rx, ws.
  split_and!; [done..|]. intros w' H1 H2 H3. unfold bind. rewrite (H w') by done.
  by destruct o.
Qed.

Lemma rx_until_length n d rx : (length (snd (rx_until n d rx)) <= length rx)%nat.
Proof.
  revert n. induction rx as [|[b|e] rx IH]; intros [|n]; cbn; try lia.
  - destruct (decide _); cbn; [lia|]. specialize (IH n).
    destruct (rx_until n d rx) as [[] ?]; cbn in *; lia.
  - destruct (decide _); cbn; [|lia]. specialize (IH (S n)). lia.
Qed.

(** One step of an exact read. *)
Lemma rx_exact_eq n rx :
  rx_exact (S n) rx =
  match rx with
  | [] => (Fail eof, [])
  | RxByte b :: rx' =>
      match rx_exact n rx' with
      | (Done l, rx'') => (Done (b :: l), rx'')
      | r => r
      end
  | RxErr e :: rx' =>
      if decide (e_kind e = Interrupted) then rx_exact (S n) rx' else (Fail e, rx')
  end.
Proof. by destruct rx as [|[]]. Qed.

Lemma rx_exact_length n rx :
  (length (snd (rx_exact n rx)) <= length rx)%nat /\
  forall l rx', rx_exact n rx = (Done l, rx') ->
    length l = n /\ (length rx' + n <= length rx)%nat.
Proof.
  revert rx. induction n as [|n IHn].
  { cbn. split; [lia|]. intros l rx' [= <- <-]. cbn. lia. }
  induction rx as [|[b|e] rx IH]; rewrite rx_exact_eq; cbn [length].
  - split; [cbn; lia|done].
  - destruct (IHn rx) as [H1 H2]. destruct (rx_exact n rx) as [[l'| | |] r] eqn:E; cbn in *.
    + split; [lia|]. intros l rx' [= <- <-]. destruct (H2 _ _ eq_refl). cbn. lia.
    + split; [lia|done].
    + split; [lia|done].
    + split; [lia|done].
  - case_decide.
    + destruct IH as [H1 H2]. split; [lia|]. intros l rx' E. destruct (H2 _ _ E). lia.
    + split; [cbn; lia|done].
Qed.

Lemma ws_read_line_length e l : (length (snd (ws_read_line e l)) <= length l)%nat.
Proof. induction l as [|[[]|] l IH]; cbn; lia. Qed.

Lemma ws_read_exact_length need e l :
  (length (snd (ws_read_exact need e l)) <= length l)%nat /\
  forall r l', ws_read_exact need e l = (Done r, l') -> length r = need.
Proof.
  revert need. induction l as [|ev l IH]; intros [|need]; cbn;
    try (split; [lia|by intros ? ? [= <- <-]]).
  { destruct e; split; [cbn; lia|done|cbn; lia|done]. }
  assert (Hfill : forall b,
    let r := match ws_read_exact (S need - Nat.min (length b) (S need)) e l with
             | (Done r, l'') => (Done (take (Nat.min (length b) (S need)) b ++ r), l'')
             | r => r
             end in
    (length (snd r) <= S (length l))%nat /\
    forall x l', r = (Done x, l') -> length x = S need).
  { intros b. destruct (IH (S need - Nat.min (length b) (S need))%nat) as [H1 H2].
    destruct (ws_read_exact _ e l) as [[r| | |] l2] eqn:E; cbn [snd] in *.
    - split; [lia|]. intros x l' [= <- <-]. rewrite length_app, length_take, (H2 _ _ eq_refl).
      lia.
    - split; [lia|done].
    - split; [lia|done].
    - split; [lia|done]. }
  destruct ev as [[t|b| |]|er]; cbn [snd].
  - apply (Hfill t).
  - apply (Hfill b).
  - destruct (IH (S need)) as [H1 H2]. split; [lia|exact H2].
  - split; [cbn; lia|done].
  - destruct er; split; [cbn; lia|done|cbn; lia|done].
Qed.

Lemma reads_ext {A} (m m' : M A) : (forall w, m w = m' w) -> reads m -> reads m'.
Proof.
  intros E Hm w. destruct (Hm w) as (o & rx & ws & H1 & H2 & H).
  exists o, rx, ws. split_and!; [done..|]. intros w' ? ? ?. rewrite <- E. by apply H.
Qed.

(** The outcome of a raw line from the bytes that were read. *)
Definition line_of (buf : list byte) : outcome str :=
  if bool_decide (buf = []) then Fail (mkErr UnexpectedEof !"connection closed")
  else if len buf >? MAX_LINE_LENGTH then Fail (mkErr InvalidData !"line too long")
  else
    match from_utf8 (pop_if carriage_return (pop_if newline buf)) with
    | Some s => Done s
    | None => Fail (mkErr InvalidData !"invalid UTF-8 in line")
    end.

Lemma read_line_raw_eq w :
  read_line_raw w =
  (let* buf := on_rx (rx_until (Z.to_nat (MAX_LINE_LENGTH + 1)) newline) in
   fun w => (line_of buf, w)) w.
Proof.
  unfold read_line_raw, bind. destruct (on_rx _ w) as [[buf| | |] w']; try done.
  unfold line_of. destruct (bool_decide _); [done|]. destruct (_ >? _); [done|].
  by destruct (from_utf8 _).
Qed.

Lemma reads_read_line s : reads (read_line s).
Proof.
  destruct s as [t|t]; cbn.
  - eapply reads_ext; [intros w; symmetry; apply read_line_raw_eq|].
    apply reads_then, reads_on_rx. apply rx_until_length.
  - apply reads_on_ws, ws_read_line_length.
Qed.

Lemma reads_read_exact s n : reads (read_exact s n).
Proof.
  destruct s as [t|t]; cbn.
  - apply reads_on_rx. intros rx. apply rx_exact_length.
  - apply reads_on_ws. intros e l. apply ws_read_exact_length.
Qed.

Lemma read_exact_size s n w l w' : read_exact s n w = (Done l, w') -> length l = n.
Proof.
  destruct s as [t|t]; cbn; unfold on_rx, on_ws.
  - destruct (rx_exact n (w_rx w)) as [o rx] eqn:E. intros [= -> _].
    by eapply rx_exact_length in E as [? _].
  - destruct (ws_read_exact n (w_ws_end w) (w_ws w)) as [o ws] eqn:E. intros [= -> _].
    by eapply ws_read_exact_length in E.
Qed.

(** ** Progress *)

Lemma rx_until_progress n d rx b l rx' :
  rx_until n d rx = (Done (b :: l), rx') -> (length rx' < length rx)%nat.
Proof.
  revert n b l rx'. induction rx as [|[c|e] rx IH]; intros [|n] b l rx'; cbn; try done.
  - case_decide; [intros [= _ _ <-]; lia|].
    pose proof (rx_until_length n d rx). destruct (rx_until n d rx) as [[] ?]; try done.
    intros [= _ _ <-]. cbn in *. lia.
  - case_decide; [|done]. intros Hx. apply IH in Hx. lia.
Qed.

Lemma ws_read_line_progress e l s l' :
  ws_read_line e l = (Done s, l') -> (length l' < length l)%nat.
Proof.
  induction l as [|[[]|er] l IH]; cbn.
  - by destruct e.
  - intros [= _ <-]. lia.
  - intros [= _ <-]. lia.
  - intros H. apply IH in H. lia.
  - done.
  - by destruct er.
Qed.

Lemma ws_read_exact_progress n e l r l' :
  ws_read_exact (S n) e l = (Done r, l') -> (length l' < length l)%nat.
Proof.
  induction l as [|ev l IH]; cbn; [by destruct e|].
  assert (Hfill : forall b,
    match ws_read_exact (S n - Nat.min (length b) (S n)) e l with
    | (Done r, l'') => (Done (take (Nat.min (length b) (S n)) b ++ r), l'')
    | r => r
    end = (Done r, l') -> (length l' < S (length l))%nat).
  { intros b. pose proof (ws_read_exact_length (S n - Nat.min (length b) (S n)) e l) as [H _].
    destruct (ws_read_exact (S n - _) e l) as [[] ?]; try done. intros [= _ <-]. cbn in H. lia. }
  destruct ev as [[t|b| |]|er]; [apply Hfill|apply Hfill| |done|by destruct er].
  intros H. apply IH in H. lia.
Qed.

(** A line consumes input. *)
Lemma read_line_progress s w l w' :
  read_line s w = (Done l, w') -> (input_left w' < input_left w)%nat.
Proof.
  unfold input_left. destruct s as [t|t]; cbn.
  - rewrite read_line_raw_eq. unfold bind, on_rx.
    destruct (rx_until _ newline (w_rx w)) as [[[|b buf]| | |] rx] eqn:E; try done.
    intros [= _ <-]. apply rx_until_progress in E. destruct w; cbn in *. lia.
  - unfold on_ws. destruct (ws_read_line _ _) as [o ws] eqn:E. intros [= -> <-].
    apply ws_read_line_progress in E. destruct w; cbn in *. lia.
Qed.

(** So does an exact read of at least one byte. *)
Lemma read_exact_progress s n w l w' :
  read_exact s (S n) w = (Done l, w') -> (input_left w' < input_left w)%nat.
Proof.
  unfold input_left. destruct s as [t|t]; cbn [read_exact].
  - unfold on_rx. destruct (rx_exact (S n) (w_rx w)) as [o rx] eqn:E. intros [= -> <-].
    apply rx_exact_length in E. destruct w; cbn in *. lia.
  - unfold on_ws. destruct (ws_read_exact (S n) _ _) as [o ws] eqn:E. intros [= -> <-].
    apply ws_read_exact_progress in E. destruct w; cbn in *. lia.
Qed.

(** ** Delivery *)

(** Text of the protocol and whole chunks arrive as they were written. *)
Definition deliverable (data : list byte) : Prop :=
  utf8_valid data = true \/ len data < 2 \/ CHUNK_SIZE - 3 < len data.

(** The data of a frame that is not [Close]. *)
Definition frame_data (m : Message) : list byte :=
  match m with Text t => t | Binary b => b | _ => [] end.

Lemma ws_message_data data : deliverable data -> frame_data (ws_message data) = data.
Proof.
  intros H. unfold ws_message.
  destruct ((len data <? 2) || (len data >? CHUNK_SIZE - 3)) eqn:E; [done|].
  to_prop. destruct H as [H|H]; [by apply from_utf8_lossy_valid|]. lia.
Qed.

(** What a handler writes reaches the client byte for byte, on raw streams
    and in WebSocket frames, be it a protocol line or a chunk. *)
Theorem written_data_arrives s data (H : deliverable data) : payload (sends s data) = data.
Proof.
  destruct s as [t|t]; [done|]. rewrite <- (ws_message_data data H) at 2. cbn. by destruct (ws_message data).
Qed.

(** ** Bounded lines *)

Definition rx_bytes (rx : list rx_event) : list byte :=
  omap (fun e => match e with RxByte b => Some b | RxErr _ => None end) rx.

Lemma rx_until_spec n d rx :
  exists pre, rx = pre ++ snd (rx_until n d rx) /\ (length (rx_bytes pre) <= n)%nat /\
    forall l, fst (rx_until n d rx) = Done l ->
      l = rx_bytes pre /\
      (d ∉ l \/ exists k, l = k ++ [d] /\ d ∉ k).
Proof.
  revert n. induction rx as [|[b|e] rx IH]; intros n.
  - exists []. cbn. split_and!; [done|lia|]. intros l [= <-]. split; [done|]. left. set_solver.
  - destruct n as [|n]; cbn.
    { exists []. cbn. split_and!; [done|lia|]. intros l [= <-]. split; [done|]. left. set_solver. }
    case_decide as Hb.
    { exists [RxByte b]. cbn. split_and!; [done|lia|]. intros l [= <-]. split; [done|].
      right. exists []. subst. split; [done|]. set_solver. }
    destruct (IH n) as (pre & Hrx & Hn & Hl).
    exists (RxByte b :: pre). destruct (rx_until n d rx) as [[l'| | |] rx'] eqn:E; cbn in *;
      (split_and!; [by rewrite <- Hrx|unfold rx_bytes in *; cbn; lia|]); try done.
    intros l [= <-]. destruct (Hl _ eq_refl) as [-> Hd]. split; [done|].
    destruct Hd as [Hd|(k & Hk & Hd)]; [left; set_solver|].
    right. exists (b :: k). rewrite Hk. split; [done|]. set_solver.
  - destruct n as [|n].
    { exists []. cbn. split_and!; [done|lia|]. intros l [= <-]. split; [done|]. left. set_solver. }
    cbn [rx_until]. case_decide.
    + destruct (IH (S n)) as (pre & Hrx & Hn & Hl). exists (RxErr e :: pre). cbn.
      split_and!; [by rewrite <- Hrx|done|done].
    + exists [RxErr e]. cbn. split_and!; [done|lia|done].
Qed.

Lemma ends_with_snoc c s d : ends_with [c] (s ++ [d]) = bool_decide (c = d).
Proof.
  unfold ends_with, starts_with. rewrite rev_app_distr. cbn.
  destruct (decide (c = d)) as [->|]; [by rewrite bool_decide_true|by rewrite bool_decide_false].
Qed.

Lemma pop_if_same c s : pop_if c (s ++ [c]) = s.
Proof.
  unfold pop_if. rewrite ends_with_snoc, bool_decide_true by done. apply removelast_last.
Qed.

Lemma pop_if_other c s : (forall k, s <> k ++ [c]) -> pop_if c s = s.
Proof.
  intros Hs. unfold pop_if. destruct s as [|d s _] using rev_ind; [done|].
  rewrite ends_with_snoc. rewrite bool_decide_false; [done|]. intros ->. by apply (Hs s).
Qed.

Lemma pop_if_spec c s : pop_if c s = s \/ s = pop_if c s ++ [c].
Proof.
  destruct s as [|d s _] using rev_ind; [by left|].
  destruct (decide (d = c)) as [->|Hd]; [right; by rewrite pop_if_same|left].
  apply pop_if_other. intros k E. apply app_inj_tail in E as [_ E]. done.
Qed.

(** The ways a line may end in the input: at the limit of the stream, with LF,
    or with CR LF; a lone CR before the end of the stream goes too. *)
Definition line_end (term : list byte) : Prop :=
  term ∈ [[]; [newline]; [carriage_return]; [carriage_return; newline]].

Lemma line_of_spec buf l :
  line_of buf = Done l -> (newline ∉ buf \/ exists k, buf = k ++ [newline] /\ newline ∉ k) ->
  buf <> [] /\ len buf <= MAX_LINE_LENGTH /\ (newline ∉ l) /\ utf8_valid l = true /\
  exists term, buf = l ++ term /\ line_end term.
Proof.
  unfold line_of, from_utf8. destruct (bool_decide _) eqn:E1; [done|].
  destruct (_ >? _) eqn:E2; [done|]. destruct (utf8_valid _) eqn:E3; [|done].
  to_prop. intros [= <-] Hn.
  assert (Hs : exists t1, buf = pop_if newline buf ++ t1 /\ (t1 = [] \/ t1 = [newline]) /\
                          newline ∉ pop_if newline buf).
  { destruct Hn as [Hn|(k & -> & Hk)].
    - assert (E : pop_if newline buf = buf)
        by (apply pop_if_other; intros k ->; apply Hn; set_solver).
      rewrite E. exists []. rewrite app_nil_r. auto.
    - rewrite pop_if_same. exists [newline]. auto. }
  destruct Hs as (t1 & Hb & Ht1 & Hn1).
  destruct (pop_if_spec carriage_return (pop_if newline buf)) as [E|E].
  - rewrite E in *. split_and!; [done|lia|done|done|]. exists t1. split; [done|].
    destruct Ht1 as [->| ->]; unfold line_end; set_solver.
  - split_and!; [done|lia|..|done|].
    + rewrite E in Hn1. set_solver.
    + exists ([carriage_return] ++ t1). split; [by rewrite app_assoc, <- E|].
      destruct Ht1 as [->| ->]; unfold line_end; set_solver.
Qed.

(** C30: a client cannot make the server buffer more than 1025 bytes for a line:
    reading a line of a raw stream consumes at most that, whatever its outcome.
    A line that is returned has at most 1024 bytes, no newline, and is valid
    UTF-8; the input consumed is the line and its terminator. *)
Theorem read_line_bounded t w :
  exists pre, w_rx w = pre ++ w_rx (snd (read_line (Raw t) w)) /\
    len (rx_bytes pre) <= MAX_LINE_LENGTH + 1 /\
    forall l, fst (read_line (Raw t) w) = Done l ->
      len l <= MAX_LINE_LENGTH /\ (newline ∉ l) /\ utf8_valid l = true /\
      exists term, rx_bytes pre = l ++ term /\ line_end term.
Proof.
  cbn [read_line]. rewrite read_line_raw_eq. unfold bind, on_rx.
  destruct (rx_until_spec (Z.to_nat (MAX_LINE_LENGTH + 1)) newline (w_rx w)) as (pre & Hp & Hn & Hl).
  exists pre. destruct (rx_until _ newline (w_rx w)) as [o rx]. cbn [fst snd] in *.
  assert (Hb : len (rx_bytes pre) <= MAX_LINE_LENGTH + 1).
  { apply Nat2Z.inj_le in Hn. rewrite Z2Nat.id in Hn; [done|]. unfold MAX_LINE_LENGTH. lia. }
  destruct o as [buf| | |]; cbn [fst snd];
    (split_and!; [by destruct w|done|]); try done.
  intros l Hline. destruct (Hl _ eq_refl) as [-> Hd].
  destruct (line_of_spec _ _ Hline Hd) as (_ & Hlen & ? & ? & term & Ht & Hte).
  split_and!; [|done|done|eauto]. rewrite Ht in Hlen. rewrite length_app in Hlen. lia.
Qed.

(** ** Reading what was written *)

Definition rx_of (l : list byte) : list rx_event := map RxByte l.

Lemma rx_until_line n d k rx :
  d ∉ k -> (length k < n)%nat -> rx_until n d (rx_of (k ++ [d]) ++ rx) = (Done (k ++ [d]), rx).
Proof.
  revert n. induction k as [|b k IH]; intros [|n] Hd Hl; cbn [length] in *; try lia; cbn.
  - by rewrite decide_True.
  - rewrite decide_False by set_solver.
    fold (rx_of (k ++ [d])). rewrite IH by (set_solver || lia). done.
Qed.

(** A line is read back without its terminator. *)
Lemma read_line_line t w line cr rest
    (Hrx : w_rx w = rx_of (line ++ (if cr : bool then [carriage_return] else []) ++ [newline]) ++ rest)
    (Hnl : newline ∉ line) (Hcr : forall k, line <> k ++ [carriage_return])
    (Hutf : utf8_valid line = true) (Hlen : len line + 2 <= MAX_LINE_LENGTH) :
  read_line (Raw t) w = (Done line, set_rx rest w).
Proof.
  cbn [read_line]. rewrite read_line_raw_eq. unfold bind, on_rx. rewrite Hrx, app_assoc.
  set (k := line ++ (if cr then [carriage_return] else [])).
  assert (Hk : newline ∉ k) by (unfold k; destruct cr; set_solver).
  assert (Hl : len k < MAX_LINE_LENGTH)
    by (unfold k; rewrite length_app; destruct cr; cbn [length]; lia).
  rewrite rx_until_line by (done || (unfold MAX_LINE_LENGTH in *; lia)).
  replace (line_of (k ++ [newline])) with (Done line); [done|].
  unfold line_of. rewrite bool_decide_false by (by destruct k).
  rewrite length_app. cbn [length].
  destruct (_ >? _) eqn:E; to_prop; [lia|].
  rewrite pop_if_same. unfold k. destruct cr.
  - rewrite pop_if_same. unfold from_utf8. by rewrite Hutf.
  - rewrite app_nil_r, pop_if_other by done. unfold from_utf8. by rewrite Hutf.
Qed.

(** A line sent with LF or CR LF is read back without its terminator and
    the input after it is untouched. *)
Theorem read_line_roundtrip t w line cr rest
    (Hrx : w_rx w = rx_of (line ++ (if cr : bool then [carriage_return] else []) ++ [newline]) ++ rest)
    (Hnl : newline ∉ line) (Hcr : forall k, line <> k ++ [carriage_return])
    (Hutf : utf8_valid line = true) (Hlen : len line + 2 <= MAX_LINE_LENGTH) :
  read_line (Raw t) w = (Done line, set_rx rest w).
Proof. by apply (read_line_line t w line cr rest). Qed.

(** ** Framing *)

Definition not_close (m : Message) : Prop := m <> Close.

Lemma ws_read_exact_data n e frames :
  Forall not_close frames -> (n <= length (concat (map frame_data frames)))%nat ->
  fst (ws_read_exact n e (map WsMsg frames)) = Done (take n (concat (map frame_data frames))).
Proof.
  intros Hf. revert n. induction Hf as [|m frames Hm _ IH]; intros n Hn.
  - cbn in Hn. by replace n with 0%nat by lia.
  - destruct n as [|n]; [done|]. cbn [map ws_read_exact concat] in *.
    rewrite length_app in Hn.
    assert (Hfill : forall b, frame_data m = b ->
      fst (match ws_read_exact (S n - Nat.min (length b) (S n)) e (map WsMsg frames) with
           | (Done r, l'') => (Done (take (Nat.min (length b) (S n)) b ++ r), l'')
           | r => r
           end) = Done (take (S n) (frame_data m ++ concat (map frame_data frames)))).
    { intros b Hb. rewrite Hb in *.
      specialize (IH (S n - Nat.min (length b) (S n))%nat ltac:(lia)).
      destruct (ws_read_exact _ e (map WsMsg frames)) as [o l]. cbn [fst] in IH. subst o.
      cbn [fst]. f_equal. rewrite take_app. f_equal.
      - destruct (Nat.min_spec (length b) (S n)) as [[? ->]|[? ->]]; [|done].
        by rewrite !take_ge by lia.
      - f_equal. lia. }
    destruct m as [t|b| |]; [by apply Hfill|by apply Hfill| |done].
    cbn [frame_data app] in *. by rewrite IH.
Qed.

Lemma rx_exact_data n l rx :
  (n <= length l)%nat -> rx_exact n (rx_of l ++ rx) = (Done (take n l), rx_of (drop n l) ++ rx).
Proof.
  revert l. induction n as [|n IH]; intros l Hn; [done|].
  destruct l as [|b l]; cbn [length] in Hn; [lia|].
  cbn [rx_of map app]. rewrite rx_exact_eq. fold (rx_of l).
  rewrite IH by lia. done.
Qed.

(** Reading a chunk does not depend on how the client cut the data into
    frames, nor on control frames in between: [n] bytes read from a WebSocket
    stream are the first [n] bytes of the data, as on a raw stream. *)
Theorem read_exact_framing t n frames w
    (Hws : w_ws w = map WsMsg frames) (Hf : Forall not_close frames)
    (Hn : (n <= length (concat (map frame_data frames)))%nat) :
  let data := concat (map frame_data frames) in
  fst (read_exact (WebSocket t) n w) = Done (take n data) /\
  fst (read_exact (Raw t) n (set_rx (rx_of data) w)) = Done (take n data).
Proof.
  cbn. unfold on_ws, on_rx. rewrite Hws. split.
  - pose proof (ws_read_exact_data n (w_ws_end w) frames Hf Hn) as H.
    by destruct (ws_read_exact _ _ _).
  - cbn [set_rx w_rx]. pose proof (rx_exact_data n _ [] Hn) as H. rewrite app_nil_r in H.
    by rewrite H.
Qed.

Definition world_of (rx : list rx_event) (ws : list ws_event) : World :=
  mkWorld rx ws (WsOther !"closed") [] [] (fun t => Z.of_nat t * 1000000)
    (fun _ => 1700000000%N) (fun _ => !"2026-06-21T12:34:56.789Z") 0 [] ConnStats_new.

Definition plain : Transport := mkTransport false None.

Lemma written_data_arrives_witness :
  payload (sends (WebSocket plain) !"PONG") = !"PONG".
Proof. apply written_data_arrives. left. vm_compute. reflexivity. Defined.

Lemma read_line_roundtrip_witness :
  read_line (Raw plain) (world_of (rx_of (!"PING" ++ [carriage_return; newline]) ++ rx_of !"x") [])
  = (Done !"PING", set_rx (rx_of !"x") (world_of (rx_of (!"PING" ++ [carriage_return; newline]) ++ rx_of !"x") [])).
Proof.
  apply (read_line_roundtrip plain _ !"PING" true).
  - reflexivity.
  - apply (bool_decide_unpack (newline ∉ (!"PING" : str))). vm_compute. exact I.
  - intros k E. apply (f_equal last) in E. rewrite last_snoc in E. discriminate E.
  - vm_compute. reflexivity.
  - vm_compute. discriminate.
Defined.

Lemma read_exact_framing_witness :
  let data := !"abcdef" in
  fst (read_exact (WebSocket plain) 5
         (world_of [] (map WsMsg [Text !"ab"; Control; Binary !"cdef"]))) = Done (take 5 data) /\
  fst (read_exact (Raw plain) 5
         (set_rx (rx_of data) (world_of [] (map WsMsg [Text !"ab"; Control; Binary !"cdef"]))))
    = Done (take 5 data).
Proof.
  apply (read_exact_framing plain 5 [Text !"ab"; Control; Binary !"cdef"]).
  - reflexivity.
  - repeat constructor; discriminate.
  - vm_compute. lia.
Defined.
