(* ===== verification/Incoming.v ===== *)
(** * What a client sends, independent of the framing

    A client sends lines and blocks of data. [incoming s i items i'] says that a
    stream [s] with input [i] delivers these items and is left with input [i'];
    it holds for the bytes of a raw stream and for WebSocket frames, however the
    blocks are cut. Properties of handlers are proved against [incoming], and so
    hold for both. *)

From S2P Require Import Prelude RustStr Net Config Stats Io Stream StreamFacts.

(** The input of a connection: the bytes of the transport and the frames. *)
Definition input : Type := list rx_event * list ws_event.

Definition with_input (i : input) (w : World) : World := set_rx i.1 (set_ws i.2 w).
Definition input_at (w : World) : input := (w_rx w, w_ws w).

Inductive item : Type :=
  | Line (l : str)
  | Data (c : list byte).

(** [s] with input [i] delivers this item next. *)
Definition delivers (s : Stream) (i : input) (it : item) (i' : input) : Prop :=
  match it with
  | Line l => forall w, read_line s (with_input i w) = (Done l, with_input i' w)
  | Data c => forall w, read_exact s (length c) (with_input i w) = (Done c, with_input i' w)
  end.

Inductive incoming (s : Stream) : input -> list item -> input -> Prop :=
  | incoming_nil i : incoming s i [] i
  | incoming_cons i it i1 items i2 :
      delivers s i it i1 -> incoming s i1 items i2 -> incoming s i (it :: items) i2.

Lemma with_input_at w : with_input (input_at w) w = w.
Proof. by destruct w. Qed.

Lemma incoming_app s i items1 i1 items2 i2 :
  incoming s i items1 i1 -> incoming s i1 items2 i2 -> incoming s i (items1 ++ items2) i2.
Proof. induction 1; [done|]. intros. cbn. econstructor; eauto. Qed.

Lemma incoming_app_inv s i items1 items2 i2 :
  incoming s i (items1 ++ items2) i2 ->
  exists i1, incoming s i items1 i1 /\ incoming s i1 items2 i2.
Proof.
  revert i. induction items1 as [|it items1 IH]; intros i H; cbn in H.
  - exists i. split; [constructor|done].
  - inversion_clear H as [|? ? i1 ? ? Hd Hr]. destruct (IH _ Hr) as (i' & H1 & H2).
    exists i'. split; [by econstructor|done].
Qed.

Lemma incoming_cons_inv s i it items i2 :
  incoming s i (it :: items) i2 -> exists i1, delivers s i it i1 /\ incoming s i1 items i2.
Proof. intros H. inversion_clear H. eauto. Qed.

(** ** Progress: an item that is not empty consumes input *)

Definition input_size (i : input) : nat := (length i.1 + length i.2)%nat.

Definition nonempty_item (it : item) : Prop :=
  match it with Line _ => True | Data c => c <> [] end.

Lemma delivers_progress s i it i' :
  nonempty_item it -> delivers s i it i' -> (input_size i' < input_size i)%nat.
Proof.
  assert (Hw : exists w : World, True)
    by (by exists (mkWorld [] [] (WsOther []) [] [] (fun _ => 0) (fun _ => 0%N) (fun _ => []) 0 []
                     ConnStats_new)).
  destruct Hw as [w _].
  assert (Hsize : forall j, input_left (with_input j w) = input_size j) by (intros []; by destruct w).
  destruct it as [l|[|b c]]; cbn [nonempty_item delivers]; intros Hne H; [|done|].
  - specialize (H w). apply read_line_progress in H. by rewrite !Hsize in H.
  - specialize (H w). cbn [length] in H. apply read_exact_progress in H. by rewrite !Hsize in H.
Qed.

Lemma incoming_size s i items i' :
  Forall nonempty_item items -> incoming s i items i' ->
  (length items + input_size i' <= input_size i)%nat.
Proof.
  intros Hne H. induction H as [|i it i1 items i2 Hd _ IH]; [cbn; lia|].
  inversion_clear Hne as [|? ? Hit Hits]. specialize (IH Hits).
  apply delivers_progress in Hd; [|done]. cbn [length]. lia.
Qed.

(** ** Raw streams *)

(** Text that a client may send as a line. *)
Definition line_ok (l : str) : Prop :=
  (newline ∉ l) /\ (forall k, l <> k ++ [carriage_return]) /\ utf8_valid l = true /\
  len l + 2 <= MAX_LINE_LENGTH.

Definition item_ok (it : item) : Prop := match it with Line l => line_ok l | Data _ => True end.

Definition item_bytes (it : item) : list byte :=
  match it with Line l => l ++ [newline] | Data c => c end.

Lemma delivers_raw t it rest ws :
  item_ok it -> delivers (Raw t) (rx_of (item_bytes it) ++ rest, ws) it (rest, ws).
Proof.
  destruct it as [l|c]; cbn [item_ok item_bytes delivers].
  - intros (Hnl & Hcr & Hutf & Hlen) w.
    pose proof (read_line_line t (with_input (rx_of (l ++ [newline]) ++ rest, ws) w) l false rest) as H.
    rewrite H by done. by destruct w.
  - intros _ w. cbn. unfold on_rx. cbn. rewrite rx_exact_data by done.
    rewrite take_ge, drop_ge by done. by destruct w.
Qed.

Definition items_bytes (items : list item) : list byte := concat (map item_bytes items).

Lemma incoming_raw t items rest ws :
  Forall item_ok items ->
  incoming (Raw t) (rx_of (items_bytes items) ++ rest, ws) items (rest, ws).
Proof.
  induction 1 as [|it items Hit _ IH]; [constructor|].
  eapply incoming_cons; [|exact IH]. unfold items_bytes, rx_of. cbn [map concat].
  rewrite map_app, <- app_assoc. by apply delivers_raw.
Qed.

(** ** WebSocket streams *)

(** The frames a client may send an item in: a line in one frame, a block cut
    anyhow, control frames before each frame. *)
Inductive framed : item -> list Message -> Prop :=
  | framed_text l : framed (Line l) [Text (l ++ [newline])]
  | framed_binary l : framed (Line l) [Binary (l ++ [newline])]
  | framed_block c : c <> [] -> framed (Data c) [Binary c]
  | framed_cut b c fs : framed (Data c) fs -> framed (Data (b ++ c)) (Binary b :: fs)
  | framed_control it fs : framed it fs -> framed it (Control :: fs).

Lemma trim_end_matches_same c s : trim_end_matches c (s ++ [c]) = trim_end_matches c s.
Proof.
  unfold trim_end_matches. rewrite rev_app_distr, length_app, Nat.add_comm. cbn.
  by rewrite decide_True.
Qed.

Lemma trim_end_matches_other c s : (forall k, s <> k ++ [c]) -> trim_end_matches c s = s.
Proof.
  intros H. destruct s as [|d s _] using rev_ind; [done|].
  unfold trim_end_matches. rewrite rev_app_distr, length_app, Nat.add_comm. cbn.
  rewrite decide_False; [cbn; by rewrite rev_involutive|]. intros <-. by apply (H s).
Qed.

Lemma line_frame l :
  line_ok l ->
  trim_end_matches carriage_return (trim_end_matches newline (l ++ [newline])) = l /\
  pop_if carriage_return (pop_if newline (from_utf8_lossy (l ++ [newline]))) = l.
Proof.
  intros (Hnl & Hcr & Hutf & _). split.
  - rewrite trim_end_matches_same, (trim_end_matches_other newline)
      by (intros k ->; apply Hnl; set_solver).
    by apply trim_end_matches_other.
  - rewrite from_utf8_lossy_valid by by apply utf8_valid_app.
    rewrite pop_if_same. by apply pop_if_other.
Qed.

Lemma framed_nonempty c fs : framed (Data c) fs -> c <> [].
Proof.
  remember (Data c) as it eqn:E. intros H. revert c E.
  induction H as [| |c' Hc|b c' fs _ IH|it fs _ IH]; intros x [= E']; subst; [done| |by apply IH].
  intros E. apply app_eq_nil in E as [_ ->]. by apply (IH [] eq_refl).
Qed.

(** One frame of a block. *)
Lemma ws_read_exact_frame b n e l :
  (0 < n)%nat ->
  ws_read_exact (length b + n) e (WsMsg (Binary b) :: l) =
  match ws_read_exact n e l with
  | (Done r, l') => (Done (b ++ r), l')
  | r => r
  end.
Proof.
  intros Hn. destruct (length b + n)%nat as [|m] eqn:E; [lia|]. cbn [ws_read_exact]. rewrite <- E.
  rewrite Nat.min_l by lia. replace (length b + n - length b)%nat with n by lia.
  by rewrite take_ge.
Qed.

Lemma delivers_framed t it fs : framed it fs -> item_ok it -> forall rx rest,
  delivers (WebSocket t) (rx, map WsMsg fs ++ rest) it (rx, rest).
Proof.
  induction 1 as [l|l|c Hc|b c fs Hfs IH|[l|c] fs Hfs IH]; intros Hok rx rest w.
  - cbn. unfold on_ws. cbn. destruct (line_frame l Hok) as [-> _]. by destruct w.
  - cbn. unfold on_ws. cbn. destruct (line_frame l Hok) as [_ ->]. by destruct w.
  - cbn. unfold on_ws. cbn. destruct c as [|x c]; [done|].
    cbn [length ws_read_exact]. rewrite Nat.min_id, Nat.sub_diag, take_ge by done.
    destruct rest; cbn; rewrite app_nil_r; by destruct w.
  - specialize (IH I rx rest w). apply framed_nonempty in Hfs. cbn [read_exact] in *.
    unfold on_ws in *. cbn [map app w_ws w_ws_end with_input set_ws set_rx fst snd] in *.
    rewrite length_app, ws_read_exact_frame by (destruct c; [done|cbn; lia]).
    destruct (ws_read_exact (length c) _ _) as [o l']. by injection IH as -> ->.
  - exact (IH Hok rx rest w).
  - specialize (IH Hok rx rest w). apply framed_nonempty in Hfs. cbn in *. unfold on_ws in *. cbn in *.
    by destruct c as [|x c].
Qed.

(** What a frame has past the end of a block is lost: the next read continues
    with the next frame. So the two framings only agree for clients that begin a
    frame with each block. *)
Lemma frame_excess_lost t c extra rx rest w :
  c <> [] ->
  read_exact (WebSocket t) (length c)
    (with_input (rx, WsMsg (Binary (c ++ extra)) :: rest) w) = (Done c, with_input (rx, rest) w).
Proof.
  intros Hc. cbn. unfold on_ws. cbn. destruct c as [|x c]; [done|].
  cbn [length ws_read_exact app].
  rewrite Nat.min_r by (cbn; rewrite length_app; lia).
  rewrite Nat.sub_diag. cbn [take]. rewrite take_app_length.
  destruct rest; cbn; rewrite app_nil_r; by destruct w.
Qed.

(** The frames of a sequence of items. *)
Inductive frames_of : list item -> list Message -> Prop :=
  | frames_nil : frames_of [] []
  | frames_cons it items fs fs' :
      framed it fs -> frames_of items fs' -> frames_of (it :: items) (fs ++ fs').

Lemma incoming_framed t items fs rx rest :
  frames_of items fs -> Forall item_ok items ->
  incoming (WebSocket t) (rx, map WsMsg fs ++ rest) items (rx, rest).
Proof.
  induction 1 as [|it items fs fs' Hf _ IH]; intros Hok; [constructor|].
  inversion_clear Hok as [|? ? Hit Hits]. eapply incoming_cons; [|by apply IH].
  rewrite map_app, <- app_assoc. by apply delivers_framed.
Qed.
