(* ===== verification/Events.v ===== *)
(** * Structured events: [EventSink] of [events.rs]

    Each event is one UDP datagram: an RFC 5424 frame around a JSON object.
    Sending is fire and forget, so an event is an action of the world and has
    no result.

    The laws: every body reads back to exactly the intended fields, whatever
    the client put into its UUID, and a frame is one line. *)

From S2P Require Import Prelude RustStr Net Config Stats Json Io.

Definition APP_NAME : str := !"rmbtd".
Definition FACILITY : Z := 16.
Definition SEV_ERR : Z := 3.
Definition SEV_NOTICE : Z := 5.
Definition SEV_INFO : Z := 6.

Record EventSink : Type := mkSink {
  es_hostname : str;
  es_procid : Z
}.

(** [hostname()], [var] being the environment *)
Definition hostname (var : str -> option str) : str :=
  match or_else (var !"HOSTNAME") (fun _ => var !"COMPUTERNAME") with
  | Some h => if bool_decide (h = []) then !"-" else h
  | None => !"-"
  end.

(** The local address [EventSink::new] binds for a target. *)
Definition bind_address (target : SocketAddr) : SocketAddr :=
  if is_ipv4 (sa_ip target) then SocketAddr_new Ipv4_UNSPECIFIED 0
  else SocketAddr_new Ipv6_UNSPECIFIED 0.

(** [EventSink::new]: a socket of the family of the target, connected to it. *)
Definition EventSink_new (udp_bind : SocketAddr -> result unit io_error)
    (udp_connect : SocketAddr -> SocketAddr -> result unit io_error)
    (var : str -> option str) (procid : Z) (target : SocketAddr) : result EventSink io_error :=
  let bind := bind_address target in
  match udp_bind bind with
  | Err e => Err e
  | Ok _ =>
      match udp_connect bind target with
      | Err e => Err e
      | Ok _ => Ok (mkSink (hostname var) procid)
      end
  end.

Definition frame (s : EventSink) (ts : str) (severity : Z) (msgid body : str) : str :=
  let pri := FACILITY * 8 + severity in
  !"<" ++ show_unsigned pri ++ !">1 " ++ ts ++ !" " ++ es_hostname s ++ !" " ++ APP_NAME ++
  !" " ++ show_unsigned (es_procid s) ++ !" " ++ msgid ++ !" - " ++ body.

Definition emit (s : EventSink) (severity : Z) (msgid body : str) : M unit :=
  let* ts := timestamp in act (Datagram (frame s ts severity msgid body)).

(** ** The bodies *)

Notation "j |> f" := (f j) (at level 50, left associativity, only parsing)
  : rmbt_scope.

Definition startup_body `{Build} (workers tcp_listeners tls_listeners : Z) : str :=
  Json_new
  |> json_str !"event" !"startup"
  |> json_str !"version" RMBTD_VERSION
  |> json_int !"workers" (wrap_s 64 workers)
  |> json_int !"tcp_listeners" (wrap_s 64 tcp_listeners)
  |> json_int !"tls_listeners" (wrap_s 64 tls_listeners)
  |> json_done.

Definition connect_body (conn_id : Z) (client : str) (tls : bool) : str :=
  Json_new
  |> json_str !"event" !"connect"
  |> json_int !"conn" (wrap_s 64 conn_id)
  |> json_str !"client" client
  |> json_bool !"tls" tls
  |> json_done.

Definition opt_str (k : str) (v : option str) (j : str) : str :=
  match v with Some l => json_str k l j | None => j end.

Definition auth_body (conn_id : Z) (client uuid token_type result : str)
    (label reason : option str) : str :=
  Json_new
  |> json_str !"event" !"auth"
  |> json_int !"conn" (wrap_s 64 conn_id)
  |> json_str !"client" client
  |> json_str !"uuid" uuid
  |> json_str !"token" token_type
  |> json_str !"result" result
  |> opt_str !"secret" label
  |> opt_str !"reason" reason
  |> json_done.

(** [duration.as_secs_f64()], from the nanoseconds of the duration *)
Definition as_secs_f64 (ns : Z) : f64 :=
  f64_add (f64_of_Z (ns / 1000000000))
          (f64_div (f64_of_Z (ns mod 1000000000)) (f64_of_Z 1000000000)).

Definition download_part (s : ConnStats) (j : str) : str :=
  if download_bytes s >? 0 then
    j |> json_int !"dl_bytes" (wrap_s 64 (download_bytes s))
      |> json_float !"dl_ms" (ns_to_ms (download_ns s))
      |> json_float !"dl_mbps" (mbps (download_bytes s) (download_ns s))
  else j.

Definition upload_part (s : ConnStats) (j : str) : str :=
  if upload_bytes s >? 0 then
    j |> json_int !"ul_bytes" (wrap_s 64 (upload_bytes s))
      |> json_float !"ul_ms" (ns_to_ms (upload_ns s))
      |> json_float !"ul_mbps" (mbps (upload_bytes s) (upload_ns s))
  else j.

Definition ping_part (s : ConnStats) (j : str) : str :=
  if ping_count s >? 0 then
    j |> json_int !"ping_count" (ping_count s)
      |> json_float !"ping_min_ms" (ns_to_ms (ping_min_ns s))
      |> json_float !"ping_max_ms" (ns_to_ms (ping_max_ns s))
  else j.

Definition close_body (conn_id : Z) (uuid token_type secret : str) (tls : bool)
    (duration_ns : Z) (stats : ConnStats) (end_reason : str) : str :=
  Json_new
  |> json_str !"event" !"close"
  |> json_int !"conn" (wrap_s 64 conn_id)
  |> json_str !"uuid" uuid
  |> json_str !"token" token_type
  |> json_str !"secret" secret
  |> json_bool !"tls" tls
  |> json_str !"end" end_reason
  |> json_float !"duration_ms" (f64_mul (as_secs_f64 duration_ns) (f64_of_Z 1000))
  |> json_int !"commands" (commands stats)
  |> download_part stats
  |> upload_part stats
  |> ping_part stats
  |> json_done.

Definition error_event_body (context message : str) : str :=
  Json_new
  |> json_str !"event" !"error"
  |> json_str !"context" context
  |> json_str !"message" message
  |> json_done.

(** ** The events *)

Definition startup `{Build} (s : EventSink) (workers tcp_listeners tls_listeners : Z) : M unit :=
  emit s SEV_INFO !"lifecycle" (startup_body workers tcp_listeners tls_listeners).

Definition connect (s : EventSink) (conn_id : Z) (client : str) (tls : bool) : M unit :=
  emit s SEV_INFO !"connect" (connect_body conn_id client tls).

Definition auth (s : EventSink) (conn_id : Z) (client uuid token_type result : str)
    (label reason : option str) : M unit :=
  let sev := if str_eqb result !"rejected" then SEV_NOTICE else SEV_INFO in
  emit s sev !"auth" (auth_body conn_id client uuid token_type result label reason).

Definition close (s : EventSink) (conn_id : Z) (uuid token_type secret : str) (tls : bool)
    (duration_ns : Z) (stats : ConnStats) (end_reason : str) : M unit :=
  emit s SEV_INFO !"close"
    (close_body conn_id uuid token_type secret tls duration_ns stats end_reason).

Definition error (s : EventSink) (context message : str) : M unit :=
  emit s SEV_ERR !"error" (error_event_body context message).
