(* ===== verification/Greeting.v ===== *)
(** * The greeting: [protocol/greeting.rs]

    Version line, token prompt, token validation and the acknowledgement with
    the chunk size range.  Log lines are left out; the [auth] event is kept. *)

From S2P Require Import Prelude RustStr Net Crypto Config Token Stats Io Stream Events.

Record Greeting : Type := mkGreeting {
  g_uuid : str;
  g_token_type : str;
  g_label : str
}.

Definition lf : str := [Byte.x0a].

Definition reject_reason (r : TokenResult) : str :=
  match r with
  | InvalidHmac => !"invalid_hmac"
  | InvalidIp => !"invalid_ip"
  | TooEarly _ => !"too_early"
  | TooLate _ => !"too_late"
  | ParseError => !"parse_error"
  | V2Required => !"v2_required"
  | Accepted _ _ => !"accepted"
  end.

(** [if let Some(s) = sink { s.auth(..) }] *)
Definition opt_auth (sink : option EventSink) (conn_id : Z) (client uuid token_type result : str)
    (label reason : option str) : M unit :=
  match sink with
  | Some s => auth s conn_id client uuid token_type result label reason
  | None => ret tt
  end.

(** The loop that skips blank lines. *)
Fixpoint first_line (fuel : nat) (s : Stream) : M str :=
  match fuel with
  | O => out_of_fuel
  | S f =>
      let* l := read_line s in
      if bool_decide (trim l = []) then first_line f s else ret l
  end.

Definition greeting_uuid (token_value : str) : str :=
  match split !"_" token_value with u :: _ => u | [] => !"?" end.

Definition greeting_token_type (token_value : str) : str :=
  if contains !"#v2#" token_value then !"v2" else !"v1".

Definition chunksize_line : str :=
  !"CHUNKSIZE " ++ show_unsigned CHUNK_SIZE ++ !" " ++ show_unsigned MIN_CHUNK_SIZE ++ !" " ++
  show_unsigned MAX_CHUNK_SIZE ++ lf.

Section greeting.
Context `{Crypto} `{Build}.

(** The token phase: the label of the key that validated the token. *)
Definition check_greeting_token (s : Stream) (conn_id : Z) (cfg : Config) (keys : list SecretKey)
    (sink : option EventSink) (client uuid token_type token_value : str) : M str :=
  if check_token cfg then
    let source_ip := option_map sa_ip (peer_addr s) in
    let* clk := wall_clock in
    match validate_token clk token_value keys source_ip (v2_only cfg) with
    | Accepted sleep_secs label =>
        do* opt_auth sink conn_id client uuid token_type !"accepted" (Some label) None in
        do* (if sleep_secs >? 0 then act (Slept sleep_secs) else ret tt) in
        ret label
    | rejected =>
        do* opt_auth sink conn_id client uuid token_type !"rejected" None
              (Some (reject_reason rejected)) in
        do* write_line s (!"ERR" ++ lf) in
        fail PermissionDenied !"token rejected"
    end
  else
    do* opt_auth sink conn_id client uuid token_type !"not_checked" None None in
    ret [].

Definition run_greeting (s : Stream) (conn_id : Z) (cfg : Config) (keys : list SecretKey)
    (sink : option EventSink) (client : str) : M Greeting := fun w =>
  (do* write_line s GREETING in
   do* write_line s (!"ACCEPT TOKEN QUIT" ++ lf) in
   let* line := first_line (S (input_left w)) s in
   match strip_prefix !"TOKEN " line with
   | Some rest =>
       let token_value := trim rest in
       let uuid := greeting_uuid token_value in
       let token_type := greeting_token_type token_value in
       let* label :=
         check_greeting_token s conn_id cfg keys sink client uuid token_type token_value in
       do* write_line s (!"OK" ++ lf) in
       do* write_line s chunksize_line in
       ret (mkGreeting uuid token_type label)
   | None =>
       if starts_with !"QUIT" (trim_start line) then
         do* write_line s (!"BYE" ++ lf) in
         fail ConnectionAborted !"client sent QUIT before TOKEN"
       else
         do* write_line s (!"ERR" ++ lf) in
         fail InvalidData !"expected TOKEN line"
   end) w.
End greeting.
