(* ===== verification/Commands.v ===== *)
(** * The command loop: [protocol/commands.rs]

    The measurement handlers and the dispatch loop that runs after the
    greeting.  The random buffer downloads are served from is an argument
    ([random], a byte for every index below [MAX_CHUNK_SIZE]); slicing and
    indexing check their bounds and panic outside.

    Loops that consume input are bounded by the input that is left.  The loop of
    [GETTIME] runs until the clock says so; its bound [clock_fuel] is an
    argument.  [Termination] shows that neither bound is ever the reason a
    handler ends, given a clock that advances. *)

From S2P Require Import Prelude RustStr Net Config Stats Io Stream Greeting.

Definition ACCEPT_LINE : str := !"ACCEPT GETCHUNKS GETTIME PUT PUTNORESULT PING QUIT" ++ lf.
Definition err_line : str := !"ERR" ++ lf.
Definition ok_line : str := !"OK" ++ lf.
Definition bye_line : str := !"BYE" ++ lf.
Definition pong_line : str := !"PONG" ++ lf.
(** [format!("TIME {ns}\n")] *)
Definition time_line (ns : Z) : str := !"TIME " ++ show_unsigned ns ++ lf.
(** [format!("TIME {elapsed_ns} BYTES {total_bytes}\n")], an [i128] and a [u64] *)
Definition report_line (elapsed_ns total_bytes : Z) : str :=
  !"TIME " ++ show_int elapsed_ns ++ !" BYTES " ++ show_unsigned total_bytes ++ lf.

Definition parse_chunk_size (s : str) (max : Z) : option Z :=
  n ← parse_unsigned u64_max s;
  if (n <? MIN_CHUNK_SIZE) || (n >? max) then None else Some n.

(** [*buf.last_mut().unwrap() = b] *)
Definition set_last (b : byte) (buf : list byte) : M (list byte) :=
  match buf with
  | [] => panic
  | _ => ret (removelast buf ++ [b])
  end.

Definition terminal_byte (terminal : bool) : byte := if terminal then Byte.xff else Byte.x00.

Section commands.
Variable random : nat -> byte.
Variable clock_fuel : nat.

(** The buffer, every byte of it filled. *)
Definition RANDOM_CHUNK : list byte :=
  imap (fun i _ => random i) (replicate (Z.to_nat MAX_CHUNK_SIZE) Byte.x00).

(** [RANDOM_CHUNK[..n].to_vec()], without building the whole buffer *)
Definition random_chunk (n : Z) : M (list byte) :=
  if n <=? MAX_CHUNK_SIZE then ret (map random (seq 0 (Z.to_nat n))) else panic.

(** The optional chunk size argument: the new size, or [None] after [ERR]. *)
Definition chunk_arg (s : Stream) (arg : str) (chunk_size max : Z) : M (option Z) :=
  if bool_decide (arg = []) then ret (Some chunk_size)
  else
    match parse_chunk_size arg max with
    | Some cs => ret (Some cs)
    | None => do* write_line s err_line in ret None
    end.

(** The acknowledgement of the client, then the final [TIME] line. *)
Definition acknowledge (s : Stream) (start : Z) : M unit :=
  let* ack := read_line s in
  if negb (str_eqb (trim ack) !"OK") then write_line s err_line
  else
    let* total_ns := elapsed start in
    write_line s (time_line total_ns).

(** ** GETTIME *)

Fixpoint gettime_loop (fuel : nat) (s : Stream) (start max_ns chunk_size : Z)
    (buf : list byte) (bytes_sent : Z) : M Z :=
  match fuel with
  | O => out_of_fuel
  | S f =>
      let* elapsed_ns := elapsed start in
      let terminal := elapsed_ns >=? max_ns in
      let* buf := set_last (terminal_byte terminal) buf in
      do* write_all s buf in
      let bytes_sent := wrap_u 64 (bytes_sent + chunk_size) in
      if terminal then ret bytes_sent
      else gettime_loop f s start max_ns chunk_size buf bytes_sent
  end.

(** The handlers return the chunk size, which the caller keeps. *)
Definition handle_gettime (s : Stream) (arg_secs arg_chunk : str) (chunk_size max : Z) : M Z :=
  let* cs := chunk_arg s arg_chunk chunk_size max in
  match cs with
  | None => ret chunk_size
  | Some chunk_size =>
      match parse_unsigned u32_max arg_secs with
      | Some seconds =>
          if (seconds >? 0) && (seconds <=? MAX_SECONDS) then
            let max_ns := seconds * 1000000000 in
            let* start := instant_now in
            let* buf := random_chunk chunk_size in
            let* bytes_sent := gettime_loop clock_fuel s start max_ns chunk_size buf 0 in
            let* ns := elapsed start in
            do* update_stats (add_download bytes_sent ns) in
            do* acknowledge s start in
            ret chunk_size
          else do* write_line s err_line in ret chunk_size
      | None => do* write_line s err_line in ret chunk_size
      end
  end.

(** ** GETCHUNKS *)

(** [for i in 1..=count], [n] iterations being left. *)
Fixpoint getchunks_loop (n : nat) (s : Stream) (buf : list byte) : M unit :=
  match n with
  | O => ret tt
  | S n' =>
      let* buf := set_last (terminal_byte (Nat.eqb n 1)) buf in
      do* write_all s buf in
      getchunks_loop n' s buf
  end.

Definition handle_getchunks (s : Stream) (arg_count arg_chunk : str) (chunk_size max : Z) : M Z :=
  let* cs := chunk_arg s arg_chunk chunk_size max in
  match cs with
  | None => ret chunk_size
  | Some chunk_size =>
      match parse_unsigned u32_max arg_count with
      | Some count =>
          if (count >? 0) && (count <=? MAX_CHUNKS) then
            let* start := instant_now in
            let* buf := random_chunk chunk_size in
            do* getchunks_loop (Z.to_nat count) s buf in
            let* ns := elapsed start in
            do* update_stats (add_download (wrap_u 64 (count * chunk_size)) ns) in
            do* acknowledge s start in
            ret chunk_size
          else do* write_line s err_line in ret chunk_size
      | None => do* write_line s err_line in ret chunk_size
      end
  end.

(** ** PUT and PUTNORESULT *)

(** [buf[*chunk_size - 1]] *)
Definition last_byte (buf : list byte) (chunk_size : Z) : M byte :=
  match buf !! Z.to_nat (chunk_size - 1) with
  | Some b => if chunk_size - 1 <? 0 then panic else ret b
  | None => panic
  end.

(** [i128::MIN] *)
Definition never_reported : Z := - 2 ^ 127.

Fixpoint put_loop (fuel : nat) (s : Stream) (start chunk_size : Z) (send_intermediate : bool)
    (total_bytes last_report_ns : Z) : M Z :=
  match fuel with
  | O => out_of_fuel
  | S f =>
      let* buf := read_exact s (Z.to_nat chunk_size) in
      let total_bytes := wrap_u 64 (total_bytes + chunk_size) in
      let* b := last_byte buf chunk_size in
      let* last_report_ns :=
        (if send_intermediate then
           let* elapsed_ns := elapsed start in
           if (last_report_ns <? 0) || (elapsed_ns - last_report_ns >=? 1000000) then
             do* write_line s (report_line elapsed_ns total_bytes) in ret elapsed_ns
           else ret last_report_ns
         else ret last_report_ns) in
      if decide (b = Byte.xff) then ret total_bytes
      else put_loop f s start chunk_size send_intermediate total_bytes last_report_ns
  end.

Definition handle_put (s : Stream) (arg_chunk : str) (chunk_size max : Z)
    (send_intermediate : bool) : M Z :=
  let* cs := chunk_arg s arg_chunk chunk_size max in
  match cs with
  | None => ret chunk_size
  | Some chunk_size =>
      do* write_line s ok_line in
      let* start := instant_now in
      let* total_bytes := (fun w =>
        put_loop (S (input_left w)) s start chunk_size send_intermediate 0 never_reported w) in
      let* total_ns := elapsed start in
      do* update_stats (add_upload total_bytes total_ns) in
      do* write_line s (time_line total_ns) in
      ret chunk_size
  end.

(** ** PING *)

Definition handle_ping (s : Stream) : M unit :=
  let* start := instant_now in
  do* write_line s pong_line in
  let* ack := read_line s in
  if negb (str_eqb (trim ack) !"OK") then write_line s err_line
  else
    let* ns := elapsed start in
    do* update_stats (add_ping ns) in
    write_line s (time_line ns).

(** ** The dispatch loop *)

(** The three fields of a command line. *)
Definition command_fields (line : str) : str * str * str :=
  let parts := splitn 3 !" " (trim line) in
  (nth 0 parts [], trim (nth 1 parts []), trim (nth 2 parts [])).

(** One command: [None] after [QUIT], else the chunk size. *)
Definition dispatch (s : Stream) (cmd arg1 arg2 : str) (chunk_size max : Z) : M (option Z) :=
  if str_eqb cmd !"GETTIME" then
    do* update_stats count_command in
    let* cs := handle_gettime s arg1 arg2 chunk_size max in ret (Some cs)
  else if str_eqb cmd !"GETCHUNKS" then
    do* update_stats count_command in
    let* cs := handle_getchunks s arg1 arg2 chunk_size max in ret (Some cs)
  else if str_eqb cmd !"PUT" then
    do* update_stats count_command in
    let* cs := handle_put s arg1 chunk_size max true in ret (Some cs)
  else if str_eqb cmd !"PUTNORESULT" then
    do* update_stats count_command in
    let* cs := handle_put s arg1 chunk_size max false in ret (Some cs)
  else if str_eqb cmd !"PING" then
    do* update_stats count_command in
    do* handle_ping s in ret (Some chunk_size)
  else if str_eqb cmd !"QUIT" then
    do* write_line s bye_line in ret None
  else
    do* write_line s err_line in ret (Some chunk_size).

Fixpoint command_loop (fuel : nat) (s : Stream) (chunk_size max : Z) : M unit :=
  match fuel with
  | O => out_of_fuel
  | S f =>
      do* write_line s ACCEPT_LINE in
      let* line := read_line s in
      let '(cmd, arg1, arg2) := command_fields line in
      let* next := dispatch s cmd arg1 arg2 chunk_size max in
      match next with
      | None => ret tt
      | Some chunk_size => command_loop f s chunk_size max
      end
  end.

Definition run_commands (s : Stream) : M unit := fun w =>
  command_loop (S (input_left w)) s CHUNK_SIZE MAX_CHUNK_SIZE w.
End commands.
