(* ===== verification/Protocol.v ===== *)
(** * The RMBT measurement protocol, and that the command loop follows it

    The protocol as an automaton over what the server sends, independent of the
    handlers: which message may follow which, the shape of chunks and the
    spacing of upload reports.  [conv] relates a handler to the automaton; one
    rule per construct of the monad, then one lemma per handler. *)

From S2P Require Import Prelude RustStr Net Config Stats Io Stream StreamFacts Greeting Commands.

(** ** The automaton *)

Inductive pstate : Type :=
  | Idle                       (* about to send the ACCEPT line *)
  | Prompt                     (* a command is being answered *)
  | Down (cs : Z)              (* a download in chunks of [cs] bytes *)
  | Waiting                    (* the terminal chunk was sent *)
  | Up (last : option Z)       (* an upload, last report after [last] ns *)
  | Ponged                     (* PONG was sent *)
  | Ended.                     (* BYE was sent *)

Definition size_ok (cs : Z) : Prop := MIN_CHUNK_SIZE <= cs <= MAX_CHUNK_SIZE.

(** A chunk: its size is allowed and its last byte tells whether it is the last. *)
Definition chunk (terminal : bool) (cs : Z) (data : list byte) : Prop :=
  size_ok cs /\ len data = cs /\ last data = Some (terminal_byte terminal).

Definition after_chunk (terminal : bool) (cs : Z) : pstate :=
  if terminal then Waiting else Down cs.

Inductive pstep : pstate -> list byte -> pstate -> Prop :=
  | p_accept : pstep Idle ACCEPT_LINE Prompt
  | p_refused : pstep Prompt err_line Idle
  | p_bye : pstep Prompt bye_line Ended
  | p_pong : pstep Prompt pong_line Ponged
  | p_pong_err : pstep Ponged err_line Idle
  | p_pong_time ns : 0 <= ns -> pstep Ponged (time_line ns) Idle
  | p_chunk terminal cs data :
      chunk terminal cs data -> pstep Prompt data (after_chunk terminal cs)
  | p_next_chunk terminal cs data :
      chunk terminal cs data -> pstep (Down cs) data (after_chunk terminal cs)
  | p_waiting_err : pstep Waiting err_line Idle
  | p_waiting_time ns : 0 <= ns -> pstep Waiting (time_line ns) Idle
  | p_upload : pstep Prompt ok_line (Up None)
  | p_report last ns total :
      0 <= ns -> (forall t, last = Some t -> t + 1000000 <= ns) ->
      pstep (Up last) (report_line ns total) (Up (Some ns))
  | p_upload_time last ns : 0 <= ns -> pstep (Up last) (time_line ns) Idle.

Inductive path : pstate -> list (list byte) -> pstate -> Prop :=
  | path_nil st : path st [] st
  | path_cons st data st' ls st'' :
      pstep st data st' -> path st' ls st'' -> path st (data :: ls) st''.

Lemma path_app st ls st' ls' st'' : path st ls st' -> path st' ls' st'' -> path st (ls ++ ls') st''.
Proof. induction 1; [done|]. intros. econstructor; eauto. Qed.

(** ** Handlers that follow the automaton *)

(** From every world, [m] sends a path of the automaton from [st]; when it
    succeeds, the state reached satisfies [Q]; when a write fails, at most a part
    of one further legal message is on the wire; it does not panic. *)
Definition conv {A} (s : Stream) (st : pstate) (m : M A) (Q : A -> pstate -> Prop) : Prop :=
  forall w, exists ls st' part,
    w_out (snd (m w)) = w_out w ++ map (sends s) ls ++ part /\ path st ls st' /\
    match fst (m w) with
    | Done a => part = [] /\ Q a st'
    | Fail _ => part = [] \/ exists data st'', pstep st' data st'' /\ cut_off s data part
    | Panicked => False
    | OutOfFuel => part = []
    end.

(** A computation that sends nothing. *)
Definition silent {A} (m : M A) (Q : A -> Prop) : Prop :=
  forall w, w_out (snd (m w)) = w_out w /\
    match fst (m w) with Done a => Q a | Fail _ => True | Panicked => False | OutOfFuel => True end.

Section conv.
Context {s : Stream}.

Lemma conv_silent {A} st (m : M A) (P : A -> Prop) (Q : A -> pstate -> Prop) :
  silent m P -> (forall a, P a -> Q a st) -> conv s st m Q.
Proof.
  intros Hm HQ w. destruct (Hm w) as [Ho H]. exists [], st, [].
  rewrite app_nil_r, Ho. split_and!; [done|constructor|]. destruct (fst (m w)); auto.
Qed.

Lemma conv_ret {A} st (a : A) (Q : A -> pstate -> Prop) : Q a st -> conv s st (ret a) Q.
Proof. intros HQ. by apply (conv_silent _ _ (eq a)); [|intros ? <-]. Qed.

Lemma conv_bind {A B} st (m : M A) (k : A -> M B) (P : A -> pstate -> Prop) Q :
  conv s st m P -> (forall a st', P a st' -> conv s st' (k a) Q) -> conv s st (bind m k) Q.
Proof.
  intros Hm Hk w. destruct (Hm w) as (ls & st' & part & Ho & Hp & H). unfold bind.
  destruct (m w) as [[a|e| |] w'] eqn:E; cbn [fst snd] in *.
  - destruct H as [-> HP]. rewrite app_nil_r in Ho.
    destruct (Hk a st' HP w') as (ls' & st'' & part' & Ho' & Hp' & H').
    exists (ls ++ ls'), st'', part'. split_and!; [|by eapply path_app|done].
    by rewrite Ho', Ho, map_app, <- !app_assoc.
  - exists ls, st', part. auto.
  - done.
  - exists ls, st', part. auto.
Qed.

Lemma conv_mono {A} st (m : M A) (P Q : A -> pstate -> Prop) :
  conv s st m P -> (forall a st', P a st' -> Q a st') -> conv s st m Q.
Proof.
  intros Hm HPQ w. destruct (Hm w) as (ls & st' & part & Ho & Hp & H).
  exists ls, st', part. split_and!; [done..|]. destruct (fst (m w)); naive_solver.
Qed.

Lemma conv_write st data st' : pstep st data st' -> conv s st (write_all s data) (fun _ st'' => st'' = st').
Proof.
  intros Hstep w. destruct (write_all_cases s data w) as (o & part & wr & -> & H).
  cbn [fst snd w_out set_out]. destruct o as [u|e| |]; try done.
  - subst part. exists [data], st', []. split_and!; [done| |done|done].
    econstructor; [done|constructor].
  - exists [], st, part. split_and!; [done|constructor|]. right. eauto.
Qed.

(** Writing a message and going on. *)
Lemma conv_write_then {A} st data st' (k : unit -> M A) Q :
  pstep st data st' -> conv s st' (k tt) Q -> conv s st (bind (write_all s data) k) Q.
Proof.
  intros Hstep Hk. eapply conv_bind; [by apply conv_write|]. by intros [] ? ->.
Qed.

Lemma conv_write_ret {A} st data st' (a : A) (Q : A -> pstate -> Prop) :
  pstep st data st' -> Q a st' -> conv s st (bind (write_all s data) (fun _ => ret a)) Q.
Proof. intros. eapply conv_write_then; [done|]. by apply conv_ret. Qed.

Lemma conv_silent_then {A B} st (m : M A) (k : A -> M B) (P : A -> Prop) Q :
  silent m P -> (forall a, P a -> conv s st (k a) Q) -> conv s st (bind m k) Q.
Proof.
  intros Hm Hk. eapply conv_bind; [by apply (conv_silent _ _ P (fun a st' => P a /\ st' = st))|].
  intros a st' [? ->]. auto.
Qed.

Lemma conv_out_of_fuel {A} st (Q : A -> pstate -> Prop) : conv s st out_of_fuel Q.
Proof. intros w. exists [], st, []. rewrite app_nil_r. split_and!; [done|constructor|done]. Qed.
End conv.

(** ** What is silent *)

Lemma silent_reads {A} (m : M A) : reads m -> (forall w, fst (m w) <> Panicked) -> silent m (fun _ => True).
Proof.
  intros Hm Hp w. specialize (Hp w). destruct (Hm w) as (o & rx & ws & _ & _ & H).
  rewrite (H w) in * by done. split; [done|]. by destruct o.
Qed.

Lemma silent_now : silent instant_now (fun _ => True).
Proof. done. Qed.

Lemma silent_elapsed start : silent (elapsed start) (fun ns => 0 <= ns).
Proof. intros w. split; [done|]. cbn. lia. Qed.

Lemma silent_stats f : silent (update_stats f) (fun _ => True).
Proof. done. Qed.

#[export] Hint Resolve silent_now silent_elapsed silent_stats : rmbt.

Lemma rx_exact_no_panic n rx : fst (rx_exact n rx) <> Panicked.
Proof.
  revert rx. induction n as [|n IHn]; [done|].
  induction rx as [|[b|e] rx IH]; rewrite rx_exact_eq; [done| |by case_decide].
  specialize (IHn rx). by destruct (rx_exact n rx) as [[] ?].
Qed.

Lemma rx_until_no_panic n d rx : fst (rx_until n d rx) <> Panicked.
Proof.
  revert n. induction rx as [|[b|e] rx IH]; intros [|n]; try done; cbn; case_decide; try done.
  specialize (IH n). by destruct (rx_until n d rx) as [[] ?].
Qed.

Lemma ws_read_line_no_panic e l : fst (ws_read_line e l) <> Panicked.
Proof. induction l as [|[[]|[]] l IH]; cbn; try done. by destruct e. Qed.

Lemma ws_read_exact_no_panic n e l : fst (ws_read_exact n e l) <> Panicked.
Proof.
  revert n. induction l as [|ev l IH]; intros [|n]; cbn; try done; [by destruct e|].
  destruct ev as [[t|b| |]|er]; try done; try apply IH; try by destruct er.
  all: match goal with |- context [ws_read_exact ?k ?x ?y] =>
         pose proof (IH k); by destruct (ws_read_exact k x y) as [[] ?] end.
Qed.

Lemma silent_read_line s : silent (read_line s) (fun _ => True).
Proof.
  apply silent_reads; [apply reads_read_line|]. intros w. destruct s as [t|t]; cbn.
  - rewrite read_line_raw_eq. unfold bind, on_rx.
    pose proof (rx_until_no_panic (Z.to_nat (MAX_LINE_LENGTH + 1)) newline (w_rx w)) as H.
    destruct (rx_until _ _ _) as [[buf| | |] rx]; try done. cbn. unfold line_of.
    repeat case_one; done.
  - unfold on_ws. pose proof (ws_read_line_no_panic (w_ws_end w) (w_ws w)) as H.
    by destruct (ws_read_line _ _).
Qed.

Lemma silent_read_exact s n : silent (read_exact s n) (fun l => length l = n).
Proof.
  intros w. split.
  - destruct (reads_read_exact s n w) as (o & rx & ws & _ & _ & H). by rewrite (H w).
  - destruct (fst (read_exact s n w)) as [l| | |] eqn:E; try done.
    + eapply (read_exact_size s n w l (snd (read_exact s n w))). by rewrite <- E, <- surjective_pairing.
    + revert E. destruct s as [t|t]; cbn; unfold on_rx, on_ws.
      * pose proof (rx_exact_no_panic n (w_rx w)). by destruct (rx_exact _ _).
      * pose proof (ws_read_exact_no_panic n (w_ws_end w) (w_ws w)). by destruct (ws_read_exact _ _ _).
Qed.

#[export] Hint Resolve silent_read_line silent_read_exact : rmbt.

(** ** The handlers *)

Lemma parse_chunk_size_ok arg n : parse_chunk_size arg MAX_CHUNK_SIZE = Some n -> size_ok n.
Proof.
  unfold parse_chunk_size. destruct (parse_unsigned _ _) as [m|]; cbn; [|done].
  destruct (_ || _) eqn:E; [done|]. intros [= ->]. to_prop. unfold size_ok. lia.
Qed.

Section handlers.
Context (random : nat -> byte) (clock_fuel : nat) (s : Stream).

Lemma conv_chunk_arg arg cs :
  size_ok cs ->
  conv s Prompt (chunk_arg s arg cs MAX_CHUNK_SIZE) (fun r st =>
    match r with Some cs' => size_ok cs' /\ st = Prompt | None => st = Idle end).
Proof.
  intros Hcs. unfold chunk_arg. case_bool_decide; [by apply conv_ret|].
  destruct (parse_chunk_size arg MAX_CHUNK_SIZE) as [n|] eqn:E.
  - apply conv_ret. split; [by eapply parse_chunk_size_ok|done].
  - eapply conv_write_ret; [constructor|done].
Qed.

(** A buffer of the chunk size. *)
Definition buffer (cs : Z) (buf : list byte) : Prop := size_ok cs /\ len buf = cs.

Lemma silent_random_chunk cs : size_ok cs -> silent (random_chunk random cs) (buffer cs).
Proof.
  intros Hcs w. unfold random_chunk. unfold size_ok, MIN_CHUNK_SIZE in Hcs.
  destruct (Z.leb_spec cs MAX_CHUNK_SIZE); [|lia].
  split; [done|]. cbn. unfold buffer. rewrite length_map, length_seq.
  unfold size_ok, MIN_CHUNK_SIZE. lia.
Qed.

Lemma buffer_cons cs buf : buffer cs buf -> exists k b, buf = k ++ [b].
Proof.
  intros [Hcs Hl]. destruct buf as [|b k _] using rev_ind; [|eauto].
  unfold size_ok, MIN_CHUNK_SIZE in Hcs. cbn in Hl. lia.
Qed.

Lemma set_last_snoc b k c w : set_last b (k ++ [c]) w = (Done (k ++ [b]), w).
Proof. unfold set_last. rewrite removelast_last. by destruct k. Qed.

Lemma silent_set_last terminal cs buf :
  buffer cs buf ->
  silent (set_last (terminal_byte terminal) buf) (fun data => chunk terminal cs data).
Proof.
  intros Hb w. destruct (buffer_cons cs buf Hb) as (k & c & ->). rewrite set_last_snoc.
  destruct Hb as [Hcs Hl]. split; [done|]. cbn. unfold chunk.
  rewrite length_app in *. cbn [length] in *. split_and!; [done|done|by rewrite last_snoc].
Qed.

Lemma chunk_buffer terminal cs data : chunk terminal cs data -> buffer cs data.
Proof. by intros (? & ? & _). Qed.

(** The states in which a chunk of [cs] bytes may be sent. *)
Definition sending (cs : Z) (st : pstate) : Prop := st = Prompt \/ st = Down cs.

Lemma pstep_chunk cs st terminal data :
  sending cs st -> chunk terminal cs data -> pstep st data (after_chunk terminal cs).
Proof. intros [-> | ->] ?; by constructor. Qed.

Lemma conv_gettime_loop fuel start max_ns cs buf n st :
  sending cs st -> buffer cs buf ->
  conv s st (gettime_loop fuel s start max_ns cs buf n) (fun _ st' => st' = Waiting).
Proof.
  revert buf n st. induction fuel as [|fuel IH]; intros buf n st Hst Hb;
    [apply conv_out_of_fuel|]. cbn [gettime_loop].
  eapply conv_silent_then; [apply silent_elapsed|]. intros ns _.
  eapply conv_silent_then; [by apply silent_set_last|]. intros data Hc.
  eapply conv_write_then; [by eapply pstep_chunk|].
  destruct (ns >=? max_ns); [by apply conv_ret|].
  apply IH; [by right|by eapply chunk_buffer].
Qed.

Lemma conv_getchunks_loop n cs buf st :
  sending cs st -> buffer cs buf -> (0 < n)%nat ->
  conv s st (getchunks_loop n s buf) (fun _ st' => st' = Waiting).
Proof.
  revert buf st. induction n as [|n IH]; intros buf st Hst Hb Hn; [lia|]. cbn [getchunks_loop].
  eapply conv_silent_then; [by apply silent_set_last|]. intros data Hc.
  eapply conv_write_then; [by eapply pstep_chunk|].
  destruct n as [|n]; [by apply conv_ret|].
  apply IH; [by right|by eapply chunk_buffer|lia].
Qed.

Lemma conv_acknowledge start : conv s Waiting (acknowledge s start) (fun _ st => st = Idle).
Proof.
  unfold acknowledge. eapply conv_silent_then; [apply silent_read_line|]. intros ack _.
  destruct (negb _); [apply conv_write; constructor|].
  eapply conv_silent_then; [apply silent_elapsed|]. intros ns Hns.
  apply conv_write. by constructor.
Qed.

(** The end of both downloads: statistics and acknowledgement. *)
Lemma conv_finish start cs f :
  size_ok cs ->
  conv s Waiting
    (let* ns := elapsed start in
     do* update_stats (f ns) in
     do* acknowledge s start in
     ret cs) (fun cs' st => size_ok cs' /\ st = Idle).
Proof.
  intros Hcs. eapply conv_silent_then; [apply silent_elapsed|]. intros ns _.
  eapply conv_silent_then; [apply silent_stats|]. intros [] _.
  eapply conv_bind; [apply conv_acknowledge|]. intros [] ? ->. by apply conv_ret.
Qed.

(** Refusing a command. *)
Lemma conv_refuse cs :
  size_ok cs ->
  conv s Prompt (do* write_line s err_line in ret cs) (fun cs' st => size_ok cs' /\ st = Idle).
Proof. intros Hcs. eapply conv_write_ret; [constructor|done]. Qed.

Lemma conv_handle_gettime secs arg cs :
  size_ok cs ->
  conv s Prompt (handle_gettime random clock_fuel s secs arg cs MAX_CHUNK_SIZE)
    (fun cs' st => size_ok cs' /\ st = Idle).
Proof.
  intros Hcs. unfold handle_gettime. eapply conv_bind; [by apply conv_chunk_arg|].
  intros [cs'|] st; [intros [Hcs' ->]|intros ->; by apply conv_ret].
  destruct (parse_unsigned _ _) as [sec|]; [|by apply conv_refuse].
  destruct (_ && _); [|by apply conv_refuse].
  eapply conv_silent_then; [apply silent_now|]. intros start _.
  eapply conv_silent_then; [by apply silent_random_chunk|]. intros buf Hb.
  eapply conv_bind; [by apply conv_gettime_loop; [left|]|]. intros n ? ->.
  by apply (conv_finish start cs' (add_download n)).
Qed.

Lemma conv_handle_getchunks count arg cs :
  size_ok cs ->
  conv s Prompt (handle_getchunks random s count arg cs MAX_CHUNK_SIZE)
    (fun cs' st => size_ok cs' /\ st = Idle).
Proof.
  intros Hcs. unfold handle_getchunks. eapply conv_bind; [by apply conv_chunk_arg|].
  intros [cs'|] st; [intros [Hcs' ->]|intros ->; by apply conv_ret].
  destruct (parse_unsigned _ _) as [n|]; [|by apply conv_refuse].
  destruct (_ && _) eqn:E; [|by apply conv_refuse]. to_prop.
  eapply conv_silent_then; [apply silent_now|]. intros start _.
  eapply conv_silent_then; [by apply silent_random_chunk|]. intros buf Hb.
  eapply conv_bind; [apply (conv_getchunks_loop _ cs'); [by left|done|lia]|]. intros [] ? ->.
  by apply (conv_finish start cs' (add_download _)).
Qed.

Lemma silent_last_byte cs buf : buffer cs buf -> silent (last_byte buf cs) (fun _ => True).
Proof.
  intros [Hcs Hl] w. unfold last_byte. unfold size_ok, MIN_CHUNK_SIZE in Hcs.
  destruct (lookup_lt_is_Some_2 buf (Z.to_nat (cs - 1))) as [b ->]; [lia|].
  destruct (Z.ltb_spec (cs - 1) 0); [lia|done].
Qed.

(** The report variable and the automaton: a negative value means that there was
    no report yet. *)
Definition reported (last_ns : Z) (st : pstate) : Prop :=
  (last_ns < 0 /\ st = Up None) \/ (0 <= last_ns /\ st = Up (Some last_ns)).

Lemma conv_put_loop fuel start cs send total last_ns st :
  reported last_ns st -> size_ok cs ->
  conv s st (put_loop fuel s start cs send total last_ns) (fun _ st' => exists l, st' = Up l).
Proof.
  revert total last_ns st. induction fuel as [|fuel IH]; intros total last_ns st Hst Hcs;
    [apply conv_out_of_fuel|]. cbn [put_loop].
  eapply conv_silent_then; [apply silent_read_exact|]. intros buf Hbuf.
  assert (Hb : buffer cs buf)
      by (cbn in Hbuf; split; [done|]; unfold size_ok, MIN_CHUNK_SIZE in Hcs; lia).
  eapply conv_silent_then; [by apply (silent_last_byte cs)|]. intros b _.
  eapply (conv_bind _ _ _ reported).
  - destruct send; [|by apply conv_ret].
    eapply conv_silent_then; [apply silent_elapsed|]. intros ns Hns.
    destruct (_ || _) eqn:E; [|by apply conv_ret].
    destruct Hst as [[Hneg ->]|[Hpos ->]].
    + eapply conv_write_ret; [by constructor|by right].
    + eapply conv_write_ret; [constructor; [done|]|by right].
      intros t [= <-]. to_prop. destruct E as [E|E]; to_prop; lia.
  - intros last' st' Hst'. case_decide; [|by apply IH].
    apply conv_ret. destruct Hst' as [[_ ->]|[_ ->]]; eauto.
Qed.

Lemma conv_world {A} st (m : World -> M A) (Q : A -> pstate -> Prop) :
  (forall w, conv s st (m w) Q) -> conv s st (fun w => m w w) Q.
Proof. intros Hm w. apply (Hm w w). Qed.

Lemma conv_handle_put arg cs send :
  size_ok cs ->
  conv s Prompt (handle_put s arg cs MAX_CHUNK_SIZE send)
    (fun cs' st => size_ok cs' /\ st = Idle).
Proof.
  intros Hcs. unfold handle_put. eapply conv_bind; [by apply conv_chunk_arg|].
  intros [cs'|] st; [intros [Hcs' ->]|intros ->; by apply conv_ret].
  eapply conv_write_then; [apply p_upload|].
  eapply conv_silent_then; [apply silent_now|]. intros start _.
  eapply conv_bind.
  { apply (conv_world _ (fun w => put_loop (S (input_left w)) s start cs' send 0 never_reported)).
    intros w. apply conv_put_loop; [|done]. left. split; [|done]. unfold never_reported. lia. }
  intros total st' [l ->].
  eapply conv_silent_then; [apply silent_elapsed|]. intros ns Hns.
  eapply conv_silent_then; [apply silent_stats|]. intros [] _.
  eapply conv_write_ret; [by constructor|done].
Qed.

Lemma conv_handle_ping : conv s Prompt (handle_ping s) (fun _ st => st = Idle).
Proof.
  unfold handle_ping. eapply conv_silent_then; [apply silent_now|]. intros start _.
  eapply conv_write_then; [constructor|].
  eapply conv_silent_then; [apply silent_read_line|]. intros ack _.
  destruct (negb _); [apply conv_write; constructor|].
  eapply conv_silent_then; [apply silent_elapsed|]. intros ns Hns.
  eapply conv_silent_then; [apply silent_stats|]. intros [] _.
  apply conv_write. by constructor.
Qed.

(** A handler that is counted and returns the chunk size. *)
Lemma conv_counted (m : M Z) :
  conv s Prompt m (fun cs st => size_ok cs /\ st = Idle) ->
  conv s Prompt (do* update_stats count_command in let* cs := m in ret (Some cs))
    (fun r st => exists cs, r = Some cs /\ size_ok cs /\ st = Idle).
Proof.
  intros Hm. eapply conv_silent_then; [apply silent_stats|]. intros [] _.
  eapply conv_bind; [exact Hm|]. intros cs st [? ->]. apply conv_ret. eauto.
Qed.

Lemma conv_dispatch cmd arg1 arg2 cs :
  size_ok cs ->
  conv s Prompt (dispatch random clock_fuel s cmd arg1 arg2 cs MAX_CHUNK_SIZE) (fun r st =>
    match r with Some cs' => size_ok cs' /\ st = Idle | None => st = Ended end).
Proof.
  intros Hcs. unfold dispatch.
  assert (Hc : forall m, conv s Prompt m (fun cs st => size_ok cs /\ st = Idle) ->
    conv s Prompt (do* update_stats count_command in let* cs := m in ret (Some cs)) (fun r st =>
      match r with Some cs' => size_ok cs' /\ st = Idle | None => st = Ended end)).
  { intros m Hm. eapply conv_mono; [by apply conv_counted|]. by intros r st (? & -> & ?). }
  repeat (case_one; [first [apply Hc; auto using conv_handle_gettime, conv_handle_getchunks,
                              conv_handle_put|shelve]|]).
  { eapply conv_write_ret; [constructor|done]. }
  Unshelve.
  - eapply conv_silent_then; [apply silent_stats|]. intros [] _.
    eapply conv_bind; [apply conv_handle_ping|]. intros [] st ->. by apply conv_ret.
  - eapply conv_write_ret; [constructor|done].
Qed.

Lemma conv_command_loop fuel cs :
  size_ok cs ->
  conv s Idle (command_loop random clock_fuel fuel s cs MAX_CHUNK_SIZE) (fun _ st => st = Ended).
Proof.
  revert cs. induction fuel as [|fuel IH]; intros cs Hcs; [apply conv_out_of_fuel|].
  cbn [command_loop]. eapply conv_write_then; [constructor|].
  eapply conv_silent_then; [apply silent_read_line|]. intros line _.
  destruct (command_fields line) as [[cmd arg1] arg2].
  eapply conv_bind; [by apply conv_dispatch|].
  intros [cs'|] st; [intros [Hcs' ->]; by apply IH|intros ->; by apply conv_ret].
Qed.

Lemma conv_run_commands : conv s Idle (run_commands random clock_fuel s) (fun _ st => st = Ended).
Proof.
  apply (conv_world _ (fun w =>
    command_loop random clock_fuel (S (input_left w)) s CHUNK_SIZE MAX_CHUNK_SIZE)).
  intros w. apply conv_command_loop. unfold size_ok, CHUNK_SIZE, MIN_CHUNK_SIZE, MAX_CHUNK_SIZE. lia.
Qed.
End handlers.

(** C5: whatever the client sends, whichever writes fail and whatever the clock
    shows, the command loop sends a path of the protocol automaton: every
    message is one the protocol allows at that point, every chunk has an allowed
    size and the right terminal byte, upload reports are at least a millisecond
    apart. It does not panic; it returns normally only after BYE; after a failed
    write at most a part of one more legal message is on the wire. *)
Theorem commands_follow_protocol random clock_fuel s w :
  exists ls st part,
    w_out (snd (run_commands random clock_fuel s w)) = w_out w ++ map (sends s) ls ++ part /\
    path Idle ls st /\
    match fst (run_commands random clock_fuel s w) with
    | Done _ => part = [] /\ st = Ended
    | Fail _ => part = [] \/ exists data st', pstep st data st' /\ cut_off s data part
    | Panicked => False
    | OutOfFuel => part = []
    end.
Proof. apply conv_run_commands. Qed.
