(* ===== verification/Termination.v ===== *)
(** * The command loop ends

    Every loop of the handlers consumes input or waits for the clock.  [ends]
    follows the input that is left through a handler; with a clock that reaches
    every [GETTIME] deadline within [clock_fuel] readings, no loop bound of the
    model is ever exhausted. *)

From S2P Require Import Prelude RustStr Net Config Stats Io Stream StreamFacts Greeting Commands Protocol.

(** From any reading on, the clock shows [MAX_SECONDS] more within [fuel]
    readings. *)
Definition clock_advances (fuel : nat) (mono : nat -> Z) : Prop :=
  forall t, exists i, (i < fuel)%nat /\ mono t + MAX_SECONDS * 1000000000 <= mono (t + 1 + i)%nat.

(** [m] does not exhaust a loop bound from [w], keeps the clock, and consumes at
    least [d] of the input when it succeeds. *)
Definition ends {A} (d : nat) (m : M A) (w : World) : Prop :=
  fst (m w) <> OutOfFuel /\ w_mono (snd (m w)) = w_mono w /\
  (input_left (snd (m w)) <= input_left w)%nat /\
  forall a, fst (m w) = Done a -> (input_left (snd (m w)) + d <= input_left w)%nat.

Lemma ends_ret {A} (a : A) w : ends 0 (ret a) w.
Proof. unfold ends. cbn. split_and!; try done; lia. Qed.

Lemma ends_bind {A B} d1 d2 (m : M A) (k : A -> M B) w :
  ends d1 m w ->
  (forall a w', m w = (Done a, w') -> w_mono w' = w_mono w ->
     (input_left w' + d1 <= input_left w)%nat -> ends d2 (k a) w') ->
  ends (d1 + d2) (bind m k) w.
Proof.
  unfold ends. intros (Hf & Hm & Hi & Hd) Hk. unfold bind.
  destruct (m w) as [[a|e| |] w'] eqn:E; cbn [fst snd] in *.
  - specialize (Hd a eq_refl). destruct (Hk a w' eq_refl Hm Hd) as (Hf' & Hm' & Hi' & Hd').
    split_and!; [done|congruence|lia|]. intros b Hb. specialize (Hd' b Hb). lia.
  - split_and!; [done|done|lia|done].
  - split_and!; [done|done|lia|done].
  - done.
Qed.

(** Sequencing where the first part's consumption does not matter. *)
Lemma ends_then {A B} d (m : M A) (k : A -> M B) w :
  ends 0 m w -> (forall a w', m w = (Done a, w') -> w_mono w' = w_mono w ->
     (input_left w' <= input_left w)%nat -> ends d (k a) w') -> ends d (bind m k) w.
Proof.
  intros Hm Hk. apply (ends_bind 0 d); [done|]. intros a w' E Hmo Hi. apply Hk; [done..|lia].
Qed.

Lemma ends_weaken {A} d (m : M A) w : ends d m w -> ends 0 m w.
Proof.
  intros (Hf & Hm & Hi & Hd). split_and!; try done. intros a Ha. specialize (Hd a Ha). lia.
Qed.

Lemma ends_write s data w : ends 0 (write_all s data) w.
Proof.
  destruct (write_all_cases s data w) as (o & part & wr & E & H). unfold ends. rewrite E.
  cbn. destruct o; try done; split_and!; try done; unfold input_left; cbn; lia.
Qed.

Lemma ends_reads {A} (m : M A) w :
  reads m -> fst (m w) <> OutOfFuel -> ends 0 m w.
Proof.
  intros Hm Hf. destruct (Hm w) as (o & rx & ws & Hrx & Hws & H). unfold ends.
  rewrite (H w) in * by done. cbn in *. unfold input_left. cbn. split_and!; try done; lia.
Qed.

Lemma ends_now w : ends 0 instant_now w.
Proof. unfold ends, input_left. cbn. split_and!; try done; lia. Qed.

Lemma ends_elapsed start w : ends 0 (elapsed start) w.
Proof. unfold ends, input_left. cbn. split_and!; try done; lia. Qed.

Lemma ends_stats f w : ends 0 (update_stats f) w.
Proof. unfold ends, input_left. cbn. split_and!; try done; lia. Qed.

Lemma rx_exact_no_fuel n rx : fst (rx_exact n rx) <> OutOfFuel.
Proof.
  revert rx. induction n as [|n IHn]; [done|].
  induction rx as [|[b|e] rx IH]; rewrite rx_exact_eq; [done| |by case_decide].
  specialize (IHn rx). by destruct (rx_exact n rx) as [[] ?].
Qed.

Lemma rx_until_no_fuel n d rx : fst (rx_until n d rx) <> OutOfFuel.
Proof.
  revert n. induction rx as [|[b|e] rx IH]; intros [|n]; try done; cbn; case_decide; try done.
  specialize (IH n). by destruct (rx_until n d rx) as [[] ?].
Qed.

Lemma ws_read_line_no_fuel e l : fst (ws_read_line e l) <> OutOfFuel.
Proof. induction l as [|[[]|[]] l IH]; cbn; try done. by destruct e. Qed.

Lemma ws_read_exact_no_fuel n e l : fst (ws_read_exact n e l) <> OutOfFuel.
Proof.
  revert n. induction l as [|ev l IH]; intros [|n]; cbn; try done; [by destruct e|].
  destruct ev as [[t|b| |]|er]; try done; try apply IH; try by destruct er.
  all: match goal with |- context [ws_read_exact ?k ?x ?y] =>
         pose proof (IH k); by destruct (ws_read_exact k x y) as [[] ?] end.
Qed.

Lemma ends_read_line s w : ends 1 (read_line s) w.
Proof.
  assert (H0 : ends 0 (read_line s) w).
  { apply ends_reads; [apply reads_read_line|]. destruct s as [t|t]; cbn.
    - rewrite read_line_raw_eq. unfold bind, on_rx.
      pose proof (rx_until_no_fuel (Z.to_nat (MAX_LINE_LENGTH + 1)) newline (w_rx w)) as H.
      destruct (rx_until _ _ _) as [[buf| | |] rx]; try done. cbn. unfold line_of.
      repeat case_one; done.
    - unfold on_ws. pose proof (ws_read_line_no_fuel (w_ws_end w) (w_ws w)) as H.
      by destruct (ws_read_line _ _). }
  destruct H0 as (Hf & Hm & Hi & _). split_and!; try done. intros l Hl.
  enough (input_left (snd (read_line s w)) < input_left w)%nat by lia.
  apply (read_line_progress s w l). by rewrite <- Hl, <- surjective_pairing.
Qed.

Lemma ends_read_exact s n w : ends 1 (read_exact s (S n)) w.
Proof.
  assert (H0 : ends 0 (read_exact s (S n)) w).
  { apply ends_reads; [apply reads_read_exact|].
    destruct s as [t|t]; cbn [read_exact]; unfold on_rx, on_ws.
    - pose proof (rx_exact_no_fuel (S n) (w_rx w)). by destruct (rx_exact _ _).
    - pose proof (ws_read_exact_no_fuel (S n) (w_ws_end w) (w_ws w)).
      by destruct (ws_read_exact _ _ _). }
  destruct H0 as (Hf & Hm & Hi & _). split_and!; try done. intros l Hl.
  enough (input_left (snd (read_exact s (S n) w)) < input_left w)%nat by lia.
  apply (read_exact_progress s n w l). by rewrite <- Hl, <- surjective_pairing.
Qed.

Lemma ends_write_then {A} d s data (k : M A) w :
  (forall w', w_mono w' = w_mono w -> (input_left w' <= input_left w)%nat -> ends d k w') ->
  ends d (bind (write_all s data) (fun _ => k)) w.
Proof. intros Hk. apply ends_then; [apply ends_write|]. auto. Qed.

Lemma ends_read_line_then {A} d s (k : str -> M A) w :
  (forall l w', w_mono w' = w_mono w -> (input_left w' < input_left w)%nat -> ends d (k l) w') ->
  ends d (bind (read_line s) k) w.
Proof.
  intros Hk. assert (H : ends (1 + d) (bind (read_line s) k) w).
  { apply ends_bind; [apply ends_read_line|]. intros l w' _ Hm Hi. apply Hk; [done|lia]. }
  destruct H as (? & ? & ? & Hd). split_and!; try done. intros a Ha. specialize (Hd a Ha). lia.
Qed.

(** A value that is computed without touching the world, or a panic. *)
Lemma ends_pure {A} (m : M A) w : (exists o, m w = (o, w) /\ o <> OutOfFuel) -> ends 0 m w.
Proof. intros (o & E & H). unfold ends. rewrite E. cbn. split_and!; try done; lia. Qed.

Lemma ends_world {A} d (m : World -> M A) w : ends d (m w) w -> ends d (fun w => m w w) w.
Proof. done. Qed.

Section handlers.
Context (random : nat -> byte) (clock_fuel : nat) (s : Stream).

Ltac step_then :=
  first [apply ends_write_then | apply ends_read_line_then
        | apply ends_then; [first [apply ends_now | apply ends_elapsed | apply ends_stats]|]].

Lemma ends_set_last b buf w : ends 0 (set_last b buf) w.
Proof. apply ends_pure. destruct buf; eauto. Qed.

Lemma ends_random_chunk n w : ends 0 (random_chunk random n) w.
Proof. apply ends_pure. unfold random_chunk. case_one; eauto. Qed.

Lemma ends_last_byte buf n w : ends 0 (last_byte buf n) w.
Proof. apply ends_pure. unfold last_byte. destruct (_ !! _); [case_one|]; eauto. Qed.

Lemma ends_chunk_arg arg cs max w : ends 0 (chunk_arg s arg cs max) w.
Proof.
  unfold chunk_arg. case_bool_decide; [apply ends_ret|].
  destruct (parse_chunk_size _ _); [apply ends_ret|]. step_then. intros. apply ends_ret.
Qed.

Lemma ends_acknowledge start w : ends 0 (acknowledge s start) w.
Proof.
  unfold acknowledge. step_then. intros ack w' _ _.
  destruct (negb _); [apply ends_write|]. step_then. intros. apply ends_write.
Qed.

Lemma ends_finish start (cs : Z) f w :
  ends 0 (let* ns := elapsed start in do* update_stats (f ns) in
          do* acknowledge s start in ret cs) w.
Proof.
  do 2 (step_then; intros). apply ends_then; [apply ends_acknowledge|]. intros. apply ends_ret.
Qed.

(** The download by time: the loop ends at the first reading past the deadline. *)
Lemma ends_gettime_loop fuel start max_ns cs buf n w i :
  (i < fuel)%nat -> max_ns <= w_mono w (w_tick w + i)%nat - start ->
  ends 0 (gettime_loop fuel s start max_ns cs buf n) w.
Proof.
  revert fuel buf n w. induction i as [|i IH]; intros [|fuel] buf n w Hi Hmax; try lia;
    cbn [gettime_loop]; (apply ends_then; [apply ends_elapsed|]); intros ns w1 E1 Hm1 Hi1;
    injection E1 as <- <-; (apply ends_then; [apply ends_set_last|]);
    intros buf' w2 E2 Hm2 Hi2;
    assert (w2 = set_tick (S (w_tick w)) w) as ->
      by (unfold set_last in E2; destruct buf; by inversion E2).
  - apply ends_write_then. intros w3 _ _. rewrite Nat.add_0_r in Hmax.
    destruct (Z.geb_spec (Z.max 0 (w_mono w (w_tick w) - start)) max_ns); [apply ends_ret|lia].
  - destruct (write_all_cases s buf' (set_tick (S (w_tick w)) w)) as (o & part & wr & E & H).
    apply ends_then; [apply ends_write|]. intros [] w3 E3 Hm3 Hi3.
    destruct (_ >=? _); [apply ends_ret|]. rewrite E in E3. injection E3 as -> <-.
    apply IH; [lia|]. cbn. cbn in Hmax. by rewrite Nat.add_succ_r in Hmax.
Qed.

Lemma ends_handle_gettime secs arg cs w :
  clock_advances clock_fuel (w_mono w) ->
  ends 0 (handle_gettime random clock_fuel s secs arg cs MAX_CHUNK_SIZE) w.
Proof.
  intros Hc. unfold handle_gettime. apply ends_then; [apply ends_chunk_arg|].
  intros [cs'|] w1 _ Hm1 _; [|apply ends_ret].
  assert (Hr : ends 0 (do* write_line s err_line in ret cs') w1)
    by (apply ends_write_then; intros; apply ends_ret).
  destruct (parse_unsigned _ _) as [sec|]; [|done]. destruct (_ && _) eqn:Es; [|done]. to_prop.
  apply ends_then; [apply ends_now|]. intros start w2 E2 _ _. injection E2 as <- <-.
  apply ends_then; [apply ends_random_chunk|]. intros buf w3 E3 Hm3 _.
  assert (w3 = set_tick (S (w_tick w1)) w1) as ->
    by (unfold random_chunk in E3; destruct (_ <=? _); by inversion E3).
  apply ends_then; [|intros; apply (ends_finish _ cs' (add_download _))].
  rewrite <- Hm1 in Hc. destruct (Hc (w_tick w1)) as (i & Hi & Hmono).
  apply (ends_gettime_loop _ _ _ _ _ _ _ i); [done|]. cbn in *.
  replace (S (w_tick w1 + i)) with (w_tick w1 + 1 + i)%nat by lia.
  unfold MAX_SECONDS in *. lia.
Qed.

Lemma ends_getchunks_loop n buf w : ends 0 (getchunks_loop n s buf) w.
Proof.
  revert buf w. induction n as [|n IH]; intros buf w; cbn [getchunks_loop]; [apply ends_ret|].
  apply ends_then; [apply ends_set_last|]. intros buf' w1 _ _ _.
  apply ends_write_then. intros. apply IH.
Qed.

Lemma ends_handle_getchunks count arg cs w :
  ends 0 (handle_getchunks random s count arg cs MAX_CHUNK_SIZE) w.
Proof.
  unfold handle_getchunks. apply ends_then; [apply ends_chunk_arg|].
  intros [cs'|] w1 _ _ _; [|apply ends_ret].
  assert (Hr : ends 0 (do* write_line s err_line in ret cs') w1)
    by (apply ends_write_then; intros; apply ends_ret).
  destruct (parse_unsigned _ _) as [n|]; [|done]. destruct (_ && _); [|done].
  step_then. intros start w2 _ _ _.
  apply ends_then; [apply ends_random_chunk|]. intros buf w3 _ _ _.
  apply ends_then; [apply ends_getchunks_loop|].
  intros [] w4 _ _ _. apply (ends_finish _ cs' (add_download _)).
Qed.

Lemma ends_put_loop fuel start cs send total last_ns w :
  0 < cs -> (input_left w < fuel)%nat ->
  ends 0 (put_loop fuel s start cs send total last_ns) w.
Proof.
  intros Hcs. revert total last_ns w.
  induction fuel as [|fuel IH]; intros total last_ns w Hf; [lia|]. cbn [put_loop].
  replace (Z.to_nat cs) with (S (Z.to_nat (cs - 1))) by lia.
  eapply (ends_weaken (1 + 0)), ends_bind; [apply ends_read_exact|].
  intros buf w1 _ _ Hi1. apply ends_then; [apply ends_last_byte|].
  intros b w2 _ _ Hi2. apply ends_then.
  - destruct send; [|apply ends_ret]. step_then. intros ns w3 _ _ _.
    destruct (_ || _); [|apply ends_ret]. step_then. intros. apply ends_ret.
  - intros last' w3 _ _ Hi3. case_decide; [apply ends_ret|]. apply IH. lia.
Qed.

Lemma ends_handle_put arg cs send w :
  size_ok cs -> ends 0 (handle_put s arg cs MAX_CHUNK_SIZE send) w.
Proof.
  intros Hcs. unfold handle_put. apply ends_then; [apply ends_chunk_arg|].
  intros r w1 E1 _ _. destruct (conv_chunk_arg s arg cs Hcs w) as (ls & st & part & _ & _ & H).
  rewrite E1 in H. cbn [fst] in H. destruct H as [_ H].
  destruct r as [cs'|]; [|apply ends_ret]. destruct H as [[Hcs' _] _].
  do 2 (step_then; intros). apply ends_then.
  - apply (ends_world 0 (fun w => put_loop (S (input_left w)) s _ cs' send 0 never_reported)).
    apply ends_put_loop; [|lia]. unfold size_ok, MIN_CHUNK_SIZE in Hcs'. lia.
  - intros. do 2 (step_then; intros). step_then. intros. apply ends_ret.
Qed.

Lemma ends_handle_ping w : ends 0 (handle_ping s) w.
Proof.
  unfold handle_ping. do 3 (step_then; intros).
  destruct (negb _); [apply ends_write|]. do 2 (step_then; intros). apply ends_write.
Qed.

Lemma ends_dispatch cmd arg1 arg2 cs w :
  size_ok cs -> clock_advances clock_fuel (w_mono w) ->
  ends 0 (dispatch random clock_fuel s cmd arg1 arg2 cs MAX_CHUNK_SIZE) w.
Proof.
  intros Hcs Hc. unfold dispatch.
  repeat (case_one;
    [first [apply ends_then; [apply ends_stats|]; intros [] w1 _ Hm1 _;
            (apply ends_then; [|intros; apply ends_ret]);
            first [apply ends_handle_gettime; by rewrite Hm1 | apply ends_handle_getchunks
                  |by apply ends_handle_put|apply ends_handle_ping]
           |step_then; intros; apply ends_ret]|]).
  step_then. intros. apply ends_ret.
Qed.

Lemma ends_command_loop fuel cs w :
  size_ok cs -> clock_advances clock_fuel (w_mono w) -> (input_left w < fuel)%nat ->
  ends 0 (command_loop random clock_fuel fuel s cs MAX_CHUNK_SIZE) w.
Proof.
  revert cs w. induction fuel as [|fuel IH]; intros cs w Hcs Hc Hf; [lia|]. cbn [command_loop].
  step_then. intros w1 Hm1 Hi1. step_then. intros line w2 Hm2 Hi2.
  destruct (command_fields line) as [[cmd arg1] arg2].
  assert (Hc2 : clock_advances clock_fuel (w_mono w2)) by (by rewrite Hm2, Hm1).
  apply ends_then; [by apply ends_dispatch|]. intros r w3 E3 Hm3 Hi3.
  destruct (conv_dispatch random clock_fuel s cmd arg1 arg2 cs Hcs w2) as (? & ? & ? & _ & _ & H).
  rewrite E3 in H. cbn [fst] in H. destruct H as [_ H].
  destruct r as [cs'|]; [|apply ends_ret]. destruct H as [Hcs' _].
  apply IH; [done|by rewrite Hm3|lia].
Qed.
End handlers.

(** C16: the command loop ends, whatever the client does: each command consumes
    input, an upload consumes a chunk per round, and a timed download ends at
    its deadline. The clock is only assumed to show 30 more seconds within some
    number of readings. *)
Theorem commands_terminate random clock_fuel s w
    (Hclock : clock_advances clock_fuel (w_mono w)) :
  fst (run_commands random clock_fuel s w) <> OutOfFuel.
Proof.
  apply (ends_command_loop random clock_fuel s (S (input_left w)) CHUNK_SIZE w); [|done|lia].
  unfold size_ok, CHUNK_SIZE, MIN_CHUNK_SIZE, MAX_CHUNK_SIZE. lia.
Qed.

(** A clock that shows ten seconds more at each reading. *)
Definition slow_clock : nat -> Z := fun t => Z.of_nat t * 10000000000.

Lemma slow_clock_advances : clock_advances 3 slow_clock.
Proof. intros t. exists 2%nat. unfold slow_clock, MAX_SECONDS. lia. Qed.

Definition timed_world (mono : nat -> Z) (rx : list rx_event) : World :=
  mkWorld rx [] (WsOther !"closed") [] [] mono (fun _ => 1700000000%N)
    (fun _ => !"2026-06-21T12:34:56.789Z") 0 [] ConnStats_new.

Lemma commands_terminate_witness :
  fst (run_commands (fun _ => Byte.x2a) 3 (Raw plain)
         (timed_world slow_clock (rx_of (!"GETTIME 20" ++ lf ++ !"OK" ++ lf ++ !"QUIT" ++ lf))))
  <> OutOfFuel.
Proof. apply commands_terminate. exact slow_clock_advances. Defined.
