(* ===== verification/CommandFacts.v ===== *)
(** * What each command does

    The full effect of the handlers when the connection holds: the chunks that
    are sent, what is read, what is recorded and what the client is told. *)

From S2P Require Import Prelude RustStr Net Config Stats Io Stream StreamFacts Incoming Greeting Commands Protocol.

(** ** Running in a world without write errors *)

(** The world after sending [ls] with the clock at [tick]. *)
Definition after (s : Stream) (ls : list (list byte)) (tick : nat) (w : World) : World :=
  set_tick tick (set_out (w_out w ++ map (sends s) ls) w).

Lemma write_line_after s ls tick data w :
  w_wr w = [] ->
  write_all s data (after s ls tick w) = (Done tt, after s (ls ++ [data]) tick w).
Proof.
  intros Hw. rewrite write_all_ok by done. unfold after. destruct w; cbn in *.
  by rewrite map_app, <- app_assoc.
Qed.

Lemma elapsed_after s ls tick start w :
  elapsed start (after s ls tick w) =
  (Done (Z.max 0 (w_mono w tick - start)), after s ls (S tick) w).
Proof. by destruct w. Qed.

Lemma now_after s ls tick w :
  instant_now (after s ls tick w) = (Done (w_mono w tick), after s ls (S tick) w).
Proof. by destruct w. Qed.

Lemma now_start s w :
  instant_now w = (Done (w_mono w (w_tick w)), after s [] (S (w_tick w)) w).
Proof. unfold after. cbn. rewrite app_nil_r. by destruct w. Qed.

(** The world after a line was read. *)
Definition input_of (w0 w : World) : World := set_rx (w_rx w0) (set_ws (w_ws w0) w).

Lemma read_line_after s ls tick w ack w0 f :
  read_line s w = (Done ack, w0) ->
  read_line s (set_stats f (after s ls tick w)) =
  (Done ack, set_stats f (after s ls tick (input_of w0 w))).
Proof.
  intros E. destruct (reads_read_line s w) as (o & rx & ws & _ & _ & H).
  rewrite (H w) in E by done. injection E as -> <-.
  rewrite (H (set_stats f (after s ls tick w))) by done. by destruct w.
Qed.

(** Elapsed time between two readings of the clock. *)
Definition elapsed_between (w : World) (i j : nat) : Z := Z.max 0 (w_mono w j - w_mono w i).

(** The reply to the acknowledgement. *)
Definition ack_reply (ack : str) (ns : Z) : str :=
  if str_eqb (trim ack) !"OK" then time_line ns else err_line.

Section commands.
Context (random : nat -> byte).

(** A chunk as it is sent. *)
Definition chunk_data (terminal : bool) (cs : Z) : list byte :=
  map random (seq 0 (Z.to_nat (cs - 1))) ++ [terminal_byte terminal].

Definition chunks_of (n : nat) (cs : Z) : list (list byte) :=
  replicate n (chunk_data false cs) ++ [chunk_data true cs].

Lemma set_last_chunk terminal cs buf w :
  removelast buf = map random (seq 0 (Z.to_nat (cs - 1))) -> buf <> [] ->
  set_last (terminal_byte terminal) buf w = (Done (chunk_data terminal cs), w).
Proof. intros E Hne. unfold set_last. rewrite E. by destruct buf. Qed.

Lemma removelast_chunk terminal cs :
  removelast (chunk_data terminal cs) = map random (seq 0 (Z.to_nat (cs - 1))).
Proof. apply removelast_last. Qed.

Lemma chunk_data_nonempty terminal cs : chunk_data terminal cs <> [].
Proof. unfold chunk_data. by destruct (map _ _). Qed.

Lemma removelast_random cs :
  0 < cs -> removelast (map random (seq 0 (Z.to_nat cs))) = map random (seq 0 (Z.to_nat (cs - 1))).
Proof.
  intros Hcs. replace (Z.to_nat cs) with (Z.to_nat (cs - 1) + 1)%nat by lia.
  rewrite seq_app, map_app. cbn [seq map]. apply removelast_last.
Qed.

Lemma random_nonempty cs : 0 < cs -> map random (seq 0 (Z.to_nat cs)) <> [].
Proof. intros Hcs. by replace (Z.to_nat cs) with (S (Z.to_nat (cs - 1))) by lia. Qed.

(** [random_chunk] is a slice of the buffer. *)
Lemma random_chunk_slice n w :
  random_chunk random n w =
  if n <=? MAX_CHUNK_SIZE then (Done (take (Z.to_nat n) (RANDOM_CHUNK random)), w) else (Panicked, w).
Proof.
  unfold random_chunk. destruct (Z.leb_spec n MAX_CHUNK_SIZE) as [Hn|]; [|done].
  unfold ret. do 2 f_equal. apply list_eq. intros i. unfold RANDOM_CHUNK.
  rewrite list_lookup_fmap. destruct (decide (i < Z.to_nat n)%nat) as [Hi|Hi].
  - rewrite lookup_seq_lt, lookup_take_lt, list_lookup_imap, lookup_replicate_2 by lia. done.
  - rewrite lookup_seq_ge, lookup_take_ge by lia. done.
Qed.

Lemma random_chunk_run cs w :
  size_ok cs -> random_chunk random cs w = (Done (map random (seq 0 (Z.to_nat cs))), w).
Proof.
  unfold random_chunk, size_ok. intros [_ H]. destruct (Z.leb_spec cs MAX_CHUNK_SIZE); [done|lia].
Qed.

Lemma getchunks_loop_run s ls tick cs n buf w :
  w_wr w = [] -> buf <> [] -> removelast buf = map random (seq 0 (Z.to_nat (cs - 1))) ->
  getchunks_loop (S n) s buf (after s ls tick w) =
  (Done tt, after s (ls ++ chunks_of n cs) tick w).
Proof.
  intros Hw. revert ls buf. induction n as [|n IH]; intros ls buf Hne Hb.
  - cbn [getchunks_loop]. erewrite bind_Done by by apply set_last_chunk.
    erewrite bind_Done by by apply write_line_after. done.
  - remember (S n) as m. cbn [getchunks_loop]. subst m.
    erewrite bind_Done by by apply (set_last_chunk (Nat.eqb (S (S n)) 1) cs).
    erewrite bind_Done by by apply write_line_after.
    rewrite IH by (apply chunk_data_nonempty || apply removelast_chunk).
    unfold chunks_of. cbn [replicate app]. by rewrite <- app_assoc.
Qed.

(** The size a command runs with: the argument, or the current one. *)
Definition requested (arg : str) (cs cs' : Z) : Prop :=
  (arg = [] /\ cs' = cs) \/ (arg <> [] /\ parse_chunk_size arg MAX_CHUNK_SIZE = Some cs').

Lemma requested_ok arg cs cs' : size_ok cs -> requested arg cs cs' -> size_ok cs'.
Proof. intros Hcs [[_ ->]|[_ H]]; [done|by eapply parse_chunk_size_ok]. Qed.

Lemma chunk_arg_run s arg cs cs' w :
  requested arg cs cs' -> chunk_arg s arg cs MAX_CHUNK_SIZE w = (Done (Some cs'), w).
Proof.
  unfold chunk_arg. intros [[-> ->]|[Hne ->]]; [by rewrite bool_decide_true|].
  by rewrite bool_decide_false.
Qed.

(** The common end of a download. *)
Lemma finish_run s ls tick start (cs : Z) f w ack w0 :
  w_wr w = [] -> read_line s w = (Done ack, w0) ->
  (let* ns := elapsed start in do* update_stats (f ns) in do* acknowledge s start in ret cs)
    (after s ls tick w) =
  (Done cs,
   set_stats (f (Z.max 0 (w_mono w tick - start)) (w_stats w))
     (after s (ls ++ [ack_reply ack (Z.max 0 (w_mono w (S tick) - start))])
        (if str_eqb (trim ack) !"OK" then S (S tick) else S tick) (input_of w0 w))).
Proof.
  intros Hw Hack. erewrite bind_Done by apply elapsed_after.
  erewrite bind_Done by reflexivity. unfold acknowledge.
  set (st := f _ _). change (w_stats (after s ls (S tick) w)) with (w_stats w) in st.
  erewrite bind_Done; [reflexivity|]. erewrite bind_Done by by apply read_line_after.
  unfold ack_reply. destruct (str_eqb (trim ack) !"OK"); cbn [negb].
  - rewrite (bind_Done _ _ _ (Z.max 0 (w_mono w (S tick) - start))
      (set_stats st (after s ls (S (S tick)) (input_of w0 w)))) by (by destruct w).
    unfold write_line. rewrite write_all_ok by (by destruct w). destruct w; cbn in *.
    unfold after, input_of. cbn. by rewrite map_app, <- app_assoc.
  - unfold write_line. rewrite write_all_ok by (by destruct w). destruct w; cbn in *.
    unfold after, input_of. cbn. by rewrite map_app, <- app_assoc.
Qed.

Lemma length_chunk_data terminal cs : 0 < cs -> len (chunk_data terminal cs) = cs.
Proof. intros. unfold chunk_data. rewrite length_app, length_map, length_seq. cbn. lia. Qed.

(** ** GETCHUNKS *)

(** The whole effect of GETCHUNKS. *)
Lemma handle_getchunks_run s arg_count arg cs cs' n w ack w0 :
  w_wr w = [] -> size_ok cs -> requested arg cs cs' ->
  parse_unsigned u32_max arg_count = Some n -> 0 < n <= MAX_CHUNKS ->
  read_line s w = (Done ack, w0) ->
  let t := w_tick w in
  handle_getchunks random s arg_count arg cs MAX_CHUNK_SIZE w =
  (Done cs',
   set_stats (add_download (n * cs') (elapsed_between w t (t + 1)) (w_stats w))
     (after s (chunks_of (Z.to_nat n - 1) cs' ++ [ack_reply ack (elapsed_between w t (t + 2))])
        (if str_eqb (trim ack) !"OK" then t + 3 else t + 2)%nat (input_of w0 w))).
Proof.
  intros Hw Hcs Harg Hn Hr Hack t.
  assert (Hcs' : size_ok cs') by (by eapply requested_ok). pose proof Hcs' as Hb.
  unfold size_ok, MIN_CHUNK_SIZE, MAX_CHUNK_SIZE, MAX_CHUNKS in Hb, Hr.
  unfold handle_getchunks. rewrite (bind_Done _ _ _ _ _ (chunk_arg_run s arg cs cs' w Harg)), Hn.
  replace ((n >? 0) && (n <=? MAX_CHUNKS)) with true by (unfold MAX_CHUNKS; lia).
  rewrite (bind_Done _ _ _ _ _ (now_start s w)).
  erewrite bind_Done by by apply random_chunk_run.
  remember (Z.to_nat n - 1)%nat as m eqn:Em. replace (Z.to_nat n) with (S m) by lia.
  erewrite bind_Done
    by (apply getchunks_loop_run; [done|apply random_nonempty; lia|apply removelast_random; lia]).
  rewrite (finish_run s _ _ _ cs' (add_download (wrap_u 64 (n * cs'))) w ack w0) by done.
  rewrite wrap_u_small by (change (2 ^ 64) with 18446744073709551616; nia).
  unfold elapsed_between. fold t. rewrite !Nat.add_succ_r, Nat.add_0_r. done.
Qed.

(** C14: [GETCHUNKS n size] sends exactly [n] chunks of the requested size, of
    which the last and only the last is marked terminal; it then reads one line
    and answers it with the elapsed time (or ERR if it is not OK); [n * size]
    bytes are added to the download statistics, nothing else is. *)
Theorem getchunks_sends s arg_count arg cs cs' n w ack w0
    (Hw : w_wr w = []) (Hcs : size_ok cs) (Harg : requested arg cs cs')
    (Hn : parse_unsigned u32_max arg_count = Some n) (Hr : 0 < n <= MAX_CHUNKS)
    (Hack : read_line s w = (Done ack, w0)) :
  exists w',
    handle_getchunks random s arg_count arg cs MAX_CHUNK_SIZE w = (Done cs', w') /\
    w_out w' = w_out w ++ map (sends s)
      (chunks_of (Z.to_nat n - 1) cs' ++
       [ack_reply ack (elapsed_between w (w_tick w) (w_tick w + 2))]) /\
    w_stats w' =
      add_download (n * cs') (elapsed_between w (w_tick w) (w_tick w + 1)) (w_stats w) /\
    w_rx w' = w_rx w0 /\ w_ws w' = w_ws w0.
Proof.
  eexists. split; [by apply (handle_getchunks_run s arg_count arg cs cs' n w ack w0)|].
  by destruct w.
Qed.

(** ** GETTIME *)

Lemma gettime_loop_run s start max_ns cs k : forall fuel ls tick buf n w,
  w_wr w = [] -> buf <> [] -> removelast buf = map random (seq 0 (Z.to_nat (cs - 1))) ->
  (k < fuel)%nat -> max_ns <= Z.max 0 (w_mono w (tick + k)%nat - start) ->
  (forall j, (j < k)%nat -> Z.max 0 (w_mono w (tick + j)%nat - start) < max_ns) ->
  gettime_loop fuel s start max_ns cs buf n (after s ls tick w) =
  (Done (wrap_u 64 (n + (Z.of_nat k + 1) * cs)),
   after s (ls ++ chunks_of k cs) (S (tick + k)) w).
Proof.
  induction k as [|k IH]; intros [|fuel] ls tick buf n w Hw Hne Hb Hf Hge Hlt; try lia;
    cbn [gettime_loop]; (erewrite bind_Done by apply elapsed_after);
    (erewrite bind_Done by by apply (set_last_chunk _ cs));
    (erewrite bind_Done by by apply write_line_after).
  - rewrite Nat.add_0_r in *. replace (_ >=? max_ns) with true by lia.
    unfold ret. by rewrite Z.mul_1_l.
  - specialize (Hlt 0%nat ltac:(lia)) as H0. rewrite Nat.add_0_r in H0.
    replace (_ >=? max_ns) with false by lia.
    rewrite IH; [|done|apply chunk_data_nonempty|apply removelast_chunk|lia| |].
    + f_equal.
      * f_equal. unfold wrap_u. rewrite Zplus_mod_idemp_l. f_equal. lia.
      * unfold chunks_of. cbn [replicate app]. rewrite <- app_assoc. f_equal. lia.
    + by replace (S tick + k)%nat with (tick + S k)%nat by lia.
    + intros j Hj. replace (S tick + j)%nat with (tick + S j)%nat by lia. apply Hlt. lia.
Qed.

(** The whole effect of GETTIME. *)
Lemma handle_gettime_run clock_fuel s arg_secs arg cs cs' secs k w ack w0 :
  w_wr w = [] -> size_ok cs -> requested arg cs cs' ->
  parse_unsigned u32_max arg_secs = Some secs -> 0 < secs <= MAX_SECONDS ->
  secs * 1000000000 <= elapsed_between w (w_tick w) (w_tick w + 1 + k) ->
  (forall j, (j < k)%nat ->
     elapsed_between w (w_tick w) (w_tick w + 1 + j) < secs * 1000000000) ->
  (k < clock_fuel)%nat ->
  read_line s w = (Done ack, w0) ->
  let t := w_tick w in
  handle_gettime random clock_fuel s arg_secs arg cs MAX_CHUNK_SIZE w =
  (Done cs',
   set_stats (add_download (wrap_u 64 ((Z.of_nat k + 1) * cs')) (elapsed_between w t (t + k + 2))
                (w_stats w))
     (after s (chunks_of k cs' ++ [ack_reply ack (elapsed_between w t (t + k + 3))])
        (if str_eqb (trim ack) !"OK" then t + k + 4 else t + k + 3)%nat (input_of w0 w))).
Proof.
  intros Hw Hcs Harg Hs Hr Hge Hlt Hk Hack t.
  assert (Hcs' : size_ok cs') by (by eapply requested_ok). pose proof Hcs' as Hb.
  unfold size_ok, MIN_CHUNK_SIZE, MAX_CHUNK_SIZE in Hb.
  unfold handle_gettime. rewrite (bind_Done _ _ _ _ _ (chunk_arg_run s arg cs cs' w Harg)), Hs.
  replace ((secs >? 0) && (secs <=? MAX_SECONDS)) with true by lia.
  rewrite (bind_Done _ _ _ _ _ (now_start s w)).
  erewrite bind_Done by by apply random_chunk_run.
  unfold elapsed_between in *.
  erewrite bind_Done.
  2:{ apply (gettime_loop_run s _ _ cs' k); [done|apply random_nonempty; lia
        |apply removelast_random; lia|done| |].
      - by replace (S (w_tick w) + k)%nat with (w_tick w + 1 + k)%nat by lia.
      - intros j Hj. replace (S (w_tick w) + j)%nat with (w_tick w + 1 + j)%nat by lia. auto. }
  rewrite (finish_run s _ _ _ cs' (add_download (wrap_u 64 (0 + (Z.of_nat k + 1) * cs'))) w ack w0)
    by done.
  fold t. replace (S (S t + k)) with (t + k + 2)%nat by lia.
  replace (S (t + k + 2)) with (t + k + 3)%nat by lia.
  by replace (S (t + k + 3)) with (t + k + 4)%nat by lia.
Qed.

(** C15: [GETTIME t size] sends chunks until the first reading of the clock that
    is [t] seconds past the start: [k] ordinary chunks while the time is not
    over, then one terminal chunk; the bytes of all [k + 1] chunks are added to
    the download statistics and the acknowledgement is answered. *)
Theorem gettime_sends clock_fuel s arg_secs arg cs cs' secs k w ack w0
    (Hw : w_wr w = []) (Hcs : size_ok cs) (Harg : requested arg cs cs')
    (Hs : parse_unsigned u32_max arg_secs = Some secs) (Hr : 0 < secs <= MAX_SECONDS)
    (Hge : secs * 1000000000 <= elapsed_between w (w_tick w) (w_tick w + 1 + k))
    (Hlt : forall j, (j < k)%nat ->
       elapsed_between w (w_tick w) (w_tick w + 1 + j) < secs * 1000000000)
    (Hk : (k < clock_fuel)%nat)
    (Hack : read_line s w = (Done ack, w0)) :
  exists w',
    handle_gettime random clock_fuel s arg_secs arg cs MAX_CHUNK_SIZE w = (Done cs', w') /\
    w_out w' = w_out w ++ map (sends s)
      (chunks_of k cs' ++ [ack_reply ack (elapsed_between w (w_tick w) (w_tick w + k + 3))]) /\
    w_stats w' =
      add_download (wrap_u 64 ((Z.of_nat k + 1) * cs'))
        (elapsed_between w (w_tick w) (w_tick w + k + 2)) (w_stats w) /\
    w_rx w' = w_rx w0 /\ w_ws w' = w_ws w0.
Proof.
  eexists. split; [by apply (handle_gettime_run clock_fuel s arg_secs arg cs cs' secs k w ack w0)|].
  by destruct w.
Qed.
End commands.

(** ** PUT and PUTNORESULT *)

(** A chunk of an upload: the terminal one ends with 0xFF, the others do not. *)
Definition upload_chunk (terminal : bool) (cs : Z) (c : list byte) : Prop :=
  len c = cs /\ (last c = Some Byte.xff <-> terminal = true).

(** A report on the state after [i] of the chunks. *)
Definition report_on (total cs : Z) (n : nat) (r : str) : Prop :=
  exists ns i, 0 <= ns /\ 1 <= i <= Z.of_nat n /\ r = report_line ns (wrap_u 64 (total + i * cs)).

Lemma after_with_input s ls tick i w :
  after s ls tick (with_input i w) = with_input i (after s ls tick w).
Proof. by destruct w. Qed.

Lemma last_byte_run terminal cs c w :
  0 < cs -> upload_chunk terminal cs c ->
  exists b, last_byte c cs w = (Done b, w) /\ (b = Byte.xff <-> terminal = true).
Proof.
  intros Hcs [Hl Ht]. unfold last_byte. rewrite last_lookup in Ht.
  replace (pred (length c)) with (Z.to_nat (cs - 1)) in Ht by lia.
  destruct (lookup_lt_is_Some_2 c (Z.to_nat (cs - 1))) as [b Hb]; [lia|].
  rewrite Hb in Ht |- *. exists b. destruct (Z.ltb_spec (cs - 1) 0); [lia|].
  split; [done|]. rewrite <- Ht. split; [by intros ->|by intros [= ->]].
Qed.

Lemma report_on_later total cs n r :
  report_on (wrap_u 64 (total + cs)) cs n r -> report_on total cs (S n) r.
Proof.
  intros (ns & i & Hns & Hi & ->). exists ns, (i + 1). split_and!; [done|lia|lia|].
  f_equal. unfold wrap_u. rewrite Zplus_mod_idemp_l. f_equal. lia.
Qed.

(** Whether a report is due at [ns], the last one having been made at [last_ns]. *)
Definition report_due (send : bool) (ns last_ns : Z) : bool :=
  send && ((last_ns <? 0) || (ns - last_ns >=? 1000000)).

(** The reports of an upload of [n] chunks: one clock reading per chunk. *)
Fixpoint put_reports (mono : nat -> Z) (start cs : Z) (send : bool) (n : nat) (tick : nat)
    (total last_ns : Z) : list str :=
  match n with
  | O => []
  | S n' =>
      let total := wrap_u 64 (total + cs) in
      let ns := Z.max 0 (mono tick - start) in
      if report_due send ns last_ns
      then report_line ns total :: put_reports mono start cs send n' (S tick) total ns
      else put_reports mono start cs send n' (S tick) total last_ns
  end.

Lemma put_reports_S mono start cs send n tick total last_ns :
  put_reports mono start cs send (S n) tick total last_ns =
  let total := wrap_u 64 (total + cs) in
  let ns := Z.max 0 (mono tick - start) in
  if report_due send ns last_ns
  then report_line ns total :: put_reports mono start cs send n (S tick) total ns
  else put_reports mono start cs send n (S tick) total last_ns.
Proof. done. Qed.

Lemma put_reports_silent mono start cs n : forall tick total last_ns,
  put_reports mono start cs false n tick total last_ns = [].
Proof. induction n as [|n IH]; intros; [done|apply IH]. Qed.

Lemma put_reports_on mono start cs send n : forall tick total last_ns,
  Forall (report_on total cs n) (put_reports mono start cs send n tick total last_ns).
Proof.
  induction n as [|n IH]; intros tick total last_ns; [constructor|]. cbn [put_reports].
  assert (Hrest : forall last', Forall (report_on total cs (S n))
    (put_reports mono start cs send n (S tick) (wrap_u 64 (total + cs)) last')).
  { intros last'. eapply Forall_impl; [apply IH|]. intros r. apply report_on_later. }
  destruct (report_due _ _ _); [|apply Hrest]. constructor; [|apply Hrest].
  eexists _, 1. rewrite Z.mul_1_l. split_and!; [|lia|lia|reflexivity]. lia.
Qed.

(** One round: the chunk is read, a report is sent if it is due. *)
Lemma put_loop_round s start cs send f ls tick total last_ns i i1 w c terminal :
  w_wr w = [] -> 0 < cs -> upload_chunk terminal cs c -> delivers s i (Data c) i1 ->
  let ns := Z.max 0 (w_mono w tick - start) in
  put_loop (S f) s start cs send total last_ns (after s ls tick (with_input i w)) =
  (if terminal then ret (wrap_u 64 (total + cs))
   else put_loop f s start cs send (wrap_u 64 (total + cs))
          (if report_due send ns last_ns then ns else last_ns))
    (after s (ls ++ (if report_due send ns last_ns then [report_line ns (wrap_u 64 (total + cs))] else []))
       (if send then S tick else tick) (with_input i1 w)).
Proof.
  intros Hw Hcs Hc Hd ns. cbn [put_loop].
  replace (Z.to_nat cs) with (length c) by (destruct Hc; lia).
  rewrite !after_with_input, (bind_Done _ _ _ _ _ (Hd _)), <- !after_with_input.
  set (w1 := with_input i1 w). assert (Hw1 : w_wr w1 = []) by (by destruct w).
  destruct (last_byte_run terminal cs c (after s ls tick w1) Hcs Hc) as (b & E & Hb).
  rewrite (bind_Done _ _ _ _ _ E). clear E.
  assert (Hdec : forall (x y : M Z), (if decide (b = Byte.xff) then x else y) =
                                     (if terminal then x else y)).
  { intros x y. case_decide; destruct terminal; naive_solver. }
  set (tot := wrap_u 64 (total + cs)). unfold report_due.
  destruct send; cbn [andb].
  - pose proof (elapsed_after s ls tick start w1) as El. change (w_mono w1) with (w_mono w) in El.
    fold ns in El. destruct ((last_ns <? 0) || (ns - last_ns >=? 1000000)) eqn:Eq.
    + rewrite (bind_Done _ _ _ ns (after s (ls ++ [report_line ns tot]) (S tick) w1)).
      * rewrite Hdec. by destruct terminal.
      * rewrite (bind_Done _ _ _ _ _ El), Eq.
        by rewrite (bind_Done _ _ _ _ _ (write_line_after _ _ _ _ _ Hw1)).
    + rewrite (bind_Done _ _ _ last_ns (after s ls (S tick) w1)).
      * rewrite Hdec, app_nil_r. by destruct terminal.
      * by rewrite (bind_Done _ _ _ _ _ El), Eq.
  - rewrite (bind_Done _ _ _ last_ns (after s ls tick w1)) by done.
    rewrite Hdec, app_nil_r. by destruct terminal.
Qed.

(** The chunks of an upload: any number of ordinary ones, then the terminal. *)
Definition upload (cs : Z) (body : list (list byte)) (final : list byte) : Prop :=
  Forall (upload_chunk false cs) body /\ upload_chunk true cs final.

Lemma upload_nonempty cs body final :
  0 < cs -> upload cs body final -> Forall (fun c => c <> []) (body ++ [final]).
Proof.
  assert (Hc : forall b c, 0 < cs -> upload_chunk b cs c -> c <> [])
    by (intros b [|] ? [Hl _]; [cbn in Hl; lia|done]).
  intros Hcs [Hb Hf]. apply Forall_app. split; [|repeat constructor; by eapply Hc].
  eapply Forall_impl; [exact Hb|]. intros c. by apply Hc.
Qed.

(** The loop over a whole upload. *)
Lemma put_loop_run s start cs send final i' w : w_wr w = [] -> 0 < cs ->
  forall body fuel ls tick total last_ns i,
  upload cs body final -> incoming s i (map Data (body ++ [final])) i' ->
  (length body < fuel)%nat ->
  put_loop fuel s start cs send total last_ns (after s ls tick (with_input i w)) =
  (Done (wrap_u 64 (total + (len body + 1) * cs)),
   after s (ls ++ put_reports (w_mono w) start cs send (S (length body)) tick total last_ns)
     (if send then tick + length body + 1 else tick)%nat (with_input i' w)).
Proof.
  intros Hw Hcs. induction body as [|c body IH];
    intros [|fuel] ls tick total last_ns i [Hb Hfin] Hin Hf; cbn [length] in Hf; try lia;
    apply incoming_cons_inv in Hin as (i1 & Hd & Hin).
  - rewrite (put_loop_round s start cs send fuel ls tick total last_ns i i1 w final true) by done.
    inversion_clear Hin. unfold ret. cbn [length put_reports].
    rewrite Z.mul_1_l. f_equal. rewrite Nat.add_0_r, Nat.add_1_r.
    by destruct (report_due _ _ _).
  - inversion_clear Hb as [|? ? Hc Hbody].
    rewrite (put_loop_round s start cs send fuel ls tick total last_ns i i1 w c false) by done.
    rewrite (IH fuel _ _ _ _ i1) by (done || lia). cbn [length].
    rewrite (put_reports_S _ _ _ _ (S (length body))).
    f_equal; [f_equal; unfold wrap_u; rewrite Zplus_mod_idemp_l; f_equal; lia|].
    rewrite <- app_assoc. f_equal.
    + f_equal. cbv zeta. destruct send.
      { destruct (report_due true _ _); reflexivity. }
      cbn [report_due andb app]. by rewrite !put_reports_silent.
    + destruct send; lia.
Qed.

(** A whole PUT or PUTNORESULT. *)
Lemma handle_put_run s arg cs cs' (send : bool) body final i' w :
  w_wr w = [] -> size_ok cs -> requested arg cs cs' -> upload cs' body final ->
  incoming s (input_at w) (map Data (body ++ [final])) i' ->
  let n := S (length body) in
  let start := w_mono w (w_tick w) in
  let tick := (if send then w_tick w + 1 + n else w_tick w + 1)%nat in
  let ns := elapsed_between w (w_tick w) tick in
  handle_put s arg cs MAX_CHUNK_SIZE send w =
  (Done cs',
   set_stats (add_upload (wrap_u 64 (Z.of_nat n * cs')) ns (w_stats w))
     (after s ([ok_line] ++ put_reports (w_mono w) start cs' send n (w_tick w + 1) 0 never_reported
                 ++ [time_line ns]) (S tick) (with_input i' w))).
Proof.
  intros Hw Hcs Harg Hup Hin n start tick ns.
  assert (Hcs' : size_ok cs') by (by eapply requested_ok).
  unfold size_ok, MIN_CHUNK_SIZE, MAX_CHUNK_SIZE in Hcs'.
  unfold handle_put. rewrite (bind_Done _ _ _ _ _ (chunk_arg_run s arg cs cs' w Harg)).
  assert (Es : write_line s ok_line w = (Done tt, after s [ok_line] (w_tick w) w)).
  { unfold write_line. rewrite write_all_ok by done. by destruct w. }
  rewrite (bind_Done _ _ _ _ _ Es), (bind_Done _ _ _ _ _ (now_after _ _ _ _)). fold start.
  set (fuel := S (input_left (after s [ok_line] (S (w_tick w)) w))).
  assert (Hf : (length body < fuel)%nat).
  { assert (Hne : Forall nonempty_item (map Data (body ++ [final])))
      by (apply Forall_map; eapply upload_nonempty; [|exact Hup]; lia).
    apply incoming_size in Hin; [|done]. rewrite length_map, length_app in Hin.
    unfold fuel, input_left. unfold input_size, input_at in Hin. cbn in *. lia. }
  pose proof (put_loop_run s start cs' send final i' w Hw ltac:(lia) body fuel [ok_line]
    (S (w_tick w)) 0 never_reported (input_at w) Hup Hin Hf) as E.
  rewrite with_input_at in E. erewrite bind_Done by exact E.
  rewrite (bind_Done _ _ _ _ _ (elapsed_after _ _ _ _ _)).
  replace (if send then S (w_tick w) + length body + 1 else S (w_tick w))%nat with tick
    by (unfold tick, n; destruct send; lia).
  change (w_mono (with_input i' w)) with (w_mono w).
  fold start. replace (Z.max 0 (w_mono w tick - start)) with ns by done.
  erewrite bind_Done by reflexivity. unfold write_line.
  erewrite bind_Done by (apply write_all_ok; exact Hw). unfold ret. f_equal.
  rewrite Nat.add_1_r. replace (0 + (len body + 1) * cs') with (Z.of_nat n * cs') by lia.
  destruct w. unfold after. cbn. rewrite !map_app. cbn. by rewrite <- !app_assoc.
Qed.

(** C13: [PUT size] and [PUTNORESULT size] on a raw stream on which no write fails:
    the server says OK, reads the clock, consumes the upload up to and including
    the first chunk whose last byte is 0xFF and not a byte more, adds exactly the
    received bytes to the upload statistics and closes with the total time, from
    that reading to the one after the last chunk; the same time is recorded.
    PUTNORESULT sends no report and reads no clock in between; PUT reads it once
    for each chunk and reports on the first chunk and whenever a millisecond has
    passed since the last report, each report with its reading and the bytes of
    the whole chunks received so far. *)
Theorem upload_accounted t arg cs cs' (send : bool) body final rest w
    (Hw : w_wr w = []) (Hcs : size_ok cs) (Harg : requested arg cs cs')
    (Hup : upload cs' body final) (Hrx : w_rx w = rx_of (concat body ++ final) ++ rest) :
  let n := S (length body) in
  let start := w_tick w in
  let finish := (if send then start + 1 + n else start + 1)%nat in
  let ns := elapsed_between w start finish in
  let rs := put_reports (w_mono w) (w_mono w start) cs' send n (start + 1) 0 never_reported in
  exists w',
    handle_put (Raw t) arg cs MAX_CHUNK_SIZE send w = (Done cs', w') /\
    w_out w' = w_out w ++ map (sends (Raw t)) ([ok_line] ++ rs ++ [time_line ns]) /\
    w_rx w' = rest /\ w_tick w' = S finish /\
    w_stats w' = add_upload (wrap_u 64 ((len body + 1) * cs')) ns (w_stats w) /\
    Forall (report_on 0 cs' n) rs /\
    (send = false -> rs = []) /\
    (send = true -> exists rs', rs = report_line (elapsed_between w start (start + 1)) cs' :: rs').
Proof.
  intros n start finish ns rs.
  assert (Hin : incoming (Raw t) (input_at w) (map Data (body ++ [final])) (rest, w_ws w)).
  { unfold input_at. rewrite Hrx.
    replace (concat body ++ final) with (items_bytes (map Data (body ++ [final]))).
    - apply incoming_raw, Forall_map, Forall_forall. done.
    - unfold items_bytes. rewrite map_map, map_id, concat_app. cbn. by rewrite app_nil_r. }
  pose proof (handle_put_run (Raw t) arg cs cs' send body final _ w Hw Hcs Harg Hup Hin) as E.
  assert (Hcs' : size_ok cs') by (by eapply requested_ok).
  unfold size_ok, MIN_CHUNK_SIZE, MAX_CHUNK_SIZE in Hcs'.
  eexists. split; [exact E|]. split_and!.
  - by destruct w.
  - by destruct w.
  - by destruct w.
  - cbn [w_stats set_stats]. by replace (len body + 1) with (Z.of_nat (S (length body))) by lia.
  - apply put_reports_on.
  - subst rs. intros ->. apply put_reports_silent.
  - subst rs n. intros ->. cbn [put_reports]. unfold report_due, never_reported.
    change (- 2 ^ 127 <? 0) with true. cbn [orb andb].
    rewrite wrap_u_small by (change (2 ^ 64) with 18446744073709551616; lia).
    eexists. reflexivity.
Qed.

(** ** PING *)

(** The whole effect of PING. *)
Lemma handle_ping_run s w ack w0 :
  w_wr w = [] -> read_line s w = (Done ack, w0) ->
  let t := w_tick w in
  let ns := elapsed_between w t (t + 1) in
  handle_ping s w =
  (Done tt,
   set_stats (if str_eqb (trim ack) !"OK" then add_ping ns (w_stats w) else w_stats w)
     (after s [pong_line; ack_reply ack ns]
        (if str_eqb (trim ack) !"OK" then t + 2 else t + 1)%nat (input_of w0 w))).
Proof.
  intros Hw Hack t ns. unfold handle_ping. rewrite (bind_Done _ _ _ _ _ (now_start s w)).
  erewrite bind_Done by by apply write_line_after. cbn [app].
  set (w1 := after s [pong_line] (S (w_tick w)) w).
  pose proof (read_line_after s [pong_line] (S (w_tick w)) w ack w0 (w_stats w) Hack) as Hl.
  replace (set_stats (w_stats w) _) with w1 in Hl by (by destruct w).
  rewrite (bind_Done _ _ _ _ _ Hl). unfold ack_reply.
  unfold elapsed_between in ns. destruct (str_eqb (trim ack) !"OK"); cbn [negb].
  - rewrite (bind_Done _ _ _ ns (after s [pong_line] (S (S (w_tick w))) (input_of w0 w)))
      by (subst ns t; clear; rewrite Nat.add_1_r; by destruct w).
    erewrite bind_Done by reflexivity. unfold write_line.
    rewrite write_all_ok by exact Hw. subst t. rewrite !Nat.add_succ_r, Nat.add_0_r.
    destruct w. unfold after. cbn. by rewrite <- app_assoc.
  - unfold write_line. rewrite write_all_ok by exact Hw. subst t. rewrite Nat.add_succ_r, Nat.add_0_r.
    destruct w. unfold after. cbn. by rewrite <- app_assoc.
Qed.

(** C27: [PING] answers PONG at once, reads one line and, if it is OK, tells the
    client the very round trip that it adds to the ping statistics; any other
    answer gets ERR and is not recorded. *)
Theorem ping_measured s w ack w0
    (Hw : w_wr w = []) (Hack : read_line s w = (Done ack, w0)) :
  let ns := elapsed_between w (w_tick w) (w_tick w + 1) in
  exists w',
    handle_ping s w = (Done tt, w') /\
    w_out w' = w_out w ++ map (sends s) [pong_line; ack_reply ack ns] /\
    w_stats w' = (if str_eqb (trim ack) !"OK" then add_ping ns (w_stats w) else w_stats w) /\
    w_rx w' = w_rx w0 /\ w_ws w' = w_ws w0.
Proof.
  intros ns. eexists. split; [by apply (handle_ping_run s w ack w0)|]. by destruct w.
Qed.

(** ** Refusals *)

(** A count or a duration that is not a number of the type, or out of range. *)
Definition bad_number (max : Z) (arg : str) : Prop :=
  forall n, parse_unsigned u32_max arg = Some n -> ~ 0 < n <= max.

Lemma bad_number_above max arg n :
  parse_unsigned u32_max arg = Some n -> max < n -> bad_number max arg.
Proof. intros E H m E'. rewrite E in E'. injection E' as <-. lia. Qed.

Definition bad_size (arg : str) : Prop :=
  arg <> [] /\ parse_chunk_size arg MAX_CHUNK_SIZE = None.

(** The world after ERR was sent, all else unchanged. *)
Definition refused (s : Stream) (w : World) : World := set_out (w_out w ++ [sends s err_line]) w.

Lemma chunk_arg_refuses s arg cs w :
  w_wr w = [] -> bad_size arg -> chunk_arg s arg cs MAX_CHUNK_SIZE w = (Done None, refused s w).
Proof.
  intros Hw [Hne E]. unfold chunk_arg. rewrite bool_decide_false, E by done.
  unfold write_line. by rewrite (bind_Done _ _ _ _ _ (write_all_ok s err_line w Hw)).
Qed.

Lemma bad_number_refuses {A} s max arg cs (m : Z -> M A) w (r : A) :
  w_wr w = [] -> bad_number max arg ->
  match parse_unsigned u32_max arg with
  | Some n => if (n >? 0) && (n <=? max) then m n else do* write_line s err_line in ret cs
  | None => do* write_line s err_line in ret cs
  end w = (Done cs, refused s w).
Proof.
  intros Hw Hbad. unfold write_line.
  destruct (parse_unsigned u32_max arg) as [n|] eqn:E.
  - specialize (Hbad n E). replace ((n >? 0) && (n <=? max)) with false by lia.
    by rewrite (bind_Done _ _ _ _ _ (write_all_ok s err_line w Hw)).
  - by rewrite (bind_Done _ _ _ _ _ (write_all_ok s err_line w Hw)).
Qed.

(** A command with a bad chunk size gets ERR and nothing else happens: no
    input is read, nothing is recorded, the chunk size stays. *)
Theorem bad_size_refused random clock_fuel s num size send cs w
    (Hw : w_wr w = []) (Hbad : bad_size size) :
  handle_gettime random clock_fuel s num size cs MAX_CHUNK_SIZE w = (Done cs, refused s w) /\
  handle_getchunks random s num size cs MAX_CHUNK_SIZE w = (Done cs, refused s w) /\
  handle_put s size cs MAX_CHUNK_SIZE send w = (Done cs, refused s w).
Proof.
  unfold handle_gettime, handle_getchunks, handle_put.
  by rewrite !(bind_Done _ _ _ _ _ (chunk_arg_refuses s size cs w Hw Hbad)).
Qed.

(** A download with a count or a duration that is no number, zero, or above
    the limit gets ERR and nothing is sent or recorded; a chunk size given with
    it is in force from then on. *)
Theorem bad_number_refused random clock_fuel s num size cs cs' w
    (Hw : w_wr w = []) (Hreq : requested size cs cs')
    (Hsecs : bad_number MAX_SECONDS num) (Hcount : bad_number MAX_CHUNKS num) :
  handle_gettime random clock_fuel s num size cs MAX_CHUNK_SIZE w = (Done cs', refused s w) /\
  handle_getchunks random s num size cs MAX_CHUNK_SIZE w = (Done cs', refused s w).
Proof.
  unfold handle_gettime, handle_getchunks.
  rewrite !(bind_Done _ _ _ _ _ (chunk_arg_run s size cs cs' w Hreq)).
  split; by apply bad_number_refuses.
Qed.

(** A size argument is refused, and nothing changes, or it is in force. *)
Lemma size_cases arg cs :
  let cs' := default cs (parse_chunk_size arg MAX_CHUNK_SIZE) in
  (bad_size arg /\ cs' = cs) \/ requested arg cs cs'.
Proof.
  unfold bad_size, requested. destruct (decide (arg = [])) as [->|Hne]; [right; by left|].
  destruct (parse_chunk_size arg MAX_CHUNK_SIZE); [right; by right|by left].
Qed.

(** Either argument can be the reason that a download is refused. *)
Lemma gettime_refused random clock_fuel s num size cs w :
  w_wr w = [] -> bad_number MAX_SECONDS num \/ bad_size size ->
  handle_gettime random clock_fuel s num size cs MAX_CHUNK_SIZE w =
  (Done (default cs (parse_chunk_size size MAX_CHUNK_SIZE)), refused s w).
Proof.
  intros Hw Hbad. unfold handle_gettime. destruct (size_cases size cs) as [[Hb ->]|Hr].
  - by rewrite (bind_Done _ _ _ _ _ (chunk_arg_refuses s size cs w Hw Hb)).
  - rewrite (bind_Done _ _ _ _ _ (chunk_arg_run s size cs _ w Hr)).
    destruct Hbad as [Hn|[Hne Hp]]; [by apply bad_number_refuses|].
    destruct Hr as [[? _]|[_ Hr]]; [done|by rewrite Hp in Hr].
Qed.

Lemma getchunks_refused random s num size cs w :
  w_wr w = [] -> bad_number MAX_CHUNKS num \/ bad_size size ->
  handle_getchunks random s num size cs MAX_CHUNK_SIZE w =
  (Done (default cs (parse_chunk_size size MAX_CHUNK_SIZE)), refused s w).
Proof.
  intros Hw Hbad. unfold handle_getchunks. destruct (size_cases size cs) as [[Hb ->]|Hr].
  - by rewrite (bind_Done _ _ _ _ _ (chunk_arg_refuses s size cs w Hw Hb)).
  - rewrite (bind_Done _ _ _ _ _ (chunk_arg_run s size cs _ w Hr)).
    destruct Hbad as [Hn|[Hne Hp]]; [by apply bad_number_refuses|].
    destruct Hr as [[? _]|[_ Hr]]; [done|by rewrite Hp in Hr].
Qed.

Lemma put_refused s size send cs w :
  w_wr w = [] -> bad_size size ->
  handle_put s size cs MAX_CHUNK_SIZE send w = (Done cs, refused s w).
Proof.
  intros Hw Hb. unfold handle_put.
  by rewrite (bind_Done _ _ _ _ _ (chunk_arg_refuses s size cs w Hw Hb)).
Qed.

(** ** Dispatch *)

Definition command_names : list str :=
  [!"GETTIME"; !"GETCHUNKS"; !"PUT"; !"PUTNORESULT"; !"PING"; !"QUIT"].

Lemma dispatch_unknown random clock_fuel s cmd arg1 arg2 cs max :
  cmd ∉ command_names ->
  dispatch random clock_fuel s cmd arg1 arg2 cs max = do* write_line s err_line in ret (Some cs).
Proof.
  intros Hcmd. unfold dispatch, command_names in *.
  by rewrite !(proj2 (str_eqb_false cmd _)) by (intros ->; apply Hcmd; set_solver).
Qed.

(** An unknown command gets ERR and is not counted; the chunk size stays.
    QUIT gets BYE and ends the loop. *)
Theorem unknown_and_quit random clock_fuel s cmd arg1 arg2 cs max w
    (Hw : w_wr w = []) :
  (cmd ∉ command_names ->
     dispatch random clock_fuel s cmd arg1 arg2 cs max w = (Done (Some cs), refused s w)) /\
  dispatch random clock_fuel s !"QUIT" arg1 arg2 cs max w =
    (Done None, set_out (w_out w ++ [sends s bye_line]) w).
Proof.
  split.
  - intros Hcmd. rewrite dispatch_unknown by done. unfold write_line.
    by rewrite (bind_Done _ _ _ _ _ (write_all_ok s err_line w Hw)).
  - change ((do* write_all s bye_line in ret (@None Z)) w
            = (Done None, set_out (w_out w ++ [sends s bye_line]) w)).
    by rewrite (bind_Done _ _ _ _ _ (write_all_ok s bye_line w Hw)).
Qed.

(** ** Concrete runs *)

Definition ok_world : World := world_of (rx_of (!"OK" ++ lf ++ !"PING" ++ lf)) [].
Definition byte42 : nat -> byte := fun _ => Byte.x2a.

Lemma ok_read : read_line (Raw plain) ok_world = (Done !"OK", snd (read_line (Raw plain) ok_world)).
Proof. vm_compute. reflexivity. Defined.

Lemma size_4096 : size_ok 4096.
Proof. split; vm_compute; discriminate. Defined.

Lemma getchunks_sends_witness :
  exists w',
    handle_getchunks byte42 (Raw plain) !"3" !"8192" 4096 MAX_CHUNK_SIZE ok_world
      = (Done 8192, w') /\
    w_out w' = w_out ok_world ++ map (sends (Raw plain))
      (chunks_of byte42 (Z.to_nat 3 - 1) 8192 ++
       [ack_reply !"OK" (elapsed_between ok_world (w_tick ok_world) (w_tick ok_world + 2))]) /\
    w_stats w' =
      add_download (3 * 8192) (elapsed_between ok_world (w_tick ok_world) (w_tick ok_world + 1))
        (w_stats ok_world) /\
    w_rx w' = w_rx (snd (read_line (Raw plain) ok_world)) /\
    w_ws w' = w_ws (snd (read_line (Raw plain) ok_world)).
Proof.
  apply getchunks_sends.
  - reflexivity.
  - exact size_4096.
  - right. split; [discriminate|]. vm_compute. reflexivity.
  - vm_compute. reflexivity.
  - split; [lia|]. vm_compute. discriminate.
  - exact ok_read.
Defined.

(** A clock that shows ten seconds more at each reading: a download of twenty
    seconds is two ordinary chunks and the terminal one. *)
Definition slow_world : World :=
  mkWorld (rx_of (!"OK" ++ lf)) [] (WsOther !"closed") [] [] (fun t => Z.of_nat t * 10000000000)
    (fun _ => 1700000000%N) (fun _ => !"-") 0 [] ConnStats_new.

Lemma gettime_sends_witness :
  exists w',
    handle_gettime byte42 3 (Raw plain) !"20" [] 4096 MAX_CHUNK_SIZE slow_world = (Done 4096, w') /\
    w_out w' = w_out slow_world ++ map (sends (Raw plain))
      (chunks_of byte42 1 4096 ++
       [ack_reply !"OK" (elapsed_between slow_world (w_tick slow_world) (w_tick slow_world + 1 + 3))]) /\
    w_stats w' =
      add_download (wrap_u 64 ((Z.of_nat 1 + 1) * 4096))
        (elapsed_between slow_world (w_tick slow_world) (w_tick slow_world + 1 + 2))
        (w_stats slow_world) /\
    w_rx w' = w_rx (snd (read_line (Raw plain) slow_world)) /\
    w_ws w' = w_ws (snd (read_line (Raw plain) slow_world)).
Proof.
  apply (gettime_sends byte42 3 (Raw plain) !"20" [] 4096 4096 20 1 slow_world).
  - reflexivity.
  - exact size_4096.
  - left. split; reflexivity.
  - vm_compute. reflexivity.
  - split; [lia|]. vm_compute. discriminate.
  - vm_compute. discriminate.
  - intros j Hj. assert (j = 0%nat) as -> by lia. vm_compute. reflexivity.
  - lia.
  - vm_compute. reflexivity.
Defined.

Definition up_chunk (terminal : bool) : list byte :=
  repeat Byte.x2a 4095 ++ [terminal_byte terminal].

Lemma upload_accounted_witness :
  let w := world_of (rx_of (concat [up_chunk false] ++ up_chunk true) ++ rx_of !"QUIT") [] in
  let ns := elapsed_between w 0 3 in
  let rs := put_reports (w_mono w) (w_mono w 0) 4096 true 2 1 0 never_reported in
  exists w',
    handle_put (Raw plain) [] 4096 MAX_CHUNK_SIZE true w = (Done 4096, w') /\
    w_out w' = [] ++ map (sends (Raw plain)) ([ok_line] ++ rs ++ [time_line ns]) /\
    w_rx w' = rx_of !"QUIT" /\ w_tick w' = 4%nat /\
    w_stats w' = add_upload (wrap_u 64 ((len [up_chunk false] + 1) * 4096)) ns ConnStats_new /\
    Forall (report_on 0 4096 2) rs /\
    (true = false -> rs = []) /\
    (true = true -> exists rs', rs = report_line (elapsed_between w 0 1) 4096 :: rs').
Proof.
  apply (upload_accounted plain [] 4096 4096 true [up_chunk false] (up_chunk true) (rx_of !"QUIT")
    (world_of (rx_of (concat [up_chunk false] ++ up_chunk true) ++ rx_of !"QUIT") [])).
  - reflexivity.
  - exact size_4096.
  - left. split; reflexivity.
  - split; [constructor; [|constructor]|].
    + split; [vm_compute; reflexivity|]. vm_compute. split; discriminate.
    + split; [vm_compute; reflexivity|]. vm_compute. split; reflexivity.
  - reflexivity.
Defined.

Lemma ping_measured_witness :
  let ns := elapsed_between ok_world (w_tick ok_world) (w_tick ok_world + 1) in
  exists w',
    handle_ping (Raw plain) ok_world = (Done tt, w') /\
    w_out w' = w_out ok_world ++ map (sends (Raw plain)) [pong_line; ack_reply !"OK" ns] /\
    w_stats w' = (if str_eqb (trim !"OK") !"OK" then add_ping ns (w_stats ok_world)
                  else w_stats ok_world) /\
    w_rx w' = w_rx (snd (read_line (Raw plain) ok_world)) /\
    w_ws w' = w_ws (snd (read_line (Raw plain) ok_world)).
Proof. apply ping_measured; [reflexivity|exact ok_read]. Defined.

Lemma bad_size_refused_witness :
  handle_gettime byte42 3 (Raw plain) !"5" !"100" 4096 MAX_CHUNK_SIZE ok_world
    = (Done 4096, refused (Raw plain) ok_world) /\
  handle_getchunks byte42 (Raw plain) !"5" !"100" 4096 MAX_CHUNK_SIZE ok_world
    = (Done 4096, refused (Raw plain) ok_world) /\
  handle_put (Raw plain) !"100" 4096 MAX_CHUNK_SIZE true ok_world
    = (Done 4096, refused (Raw plain) ok_world).
Proof.
  apply bad_size_refused; [reflexivity|]. split; [discriminate|]. vm_compute. reflexivity.
Defined.

Lemma bad_number_refused_witness :
  handle_gettime byte42 3 (Raw plain) !"300001" !"8192" 4096 MAX_CHUNK_SIZE ok_world
    = (Done 8192, refused (Raw plain) ok_world) /\
  handle_getchunks byte42 (Raw plain) !"300001" !"8192" 4096 MAX_CHUNK_SIZE ok_world
    = (Done 8192, refused (Raw plain) ok_world).
Proof.
  apply bad_number_refused.
  - reflexivity.
  - right. split; [discriminate|]. vm_compute. reflexivity.
  - apply (bad_number_above _ _ 300001); vm_compute; reflexivity.
  - apply (bad_number_above _ _ 300001); vm_compute; reflexivity.
Defined.

Lemma unknown_and_quit_witness :
  (!"GETTIME2" ∉ command_names ->
     dispatch byte42 3 (Raw plain) !"GETTIME2" [] [] 4096 MAX_CHUNK_SIZE ok_world
       = (Done (Some 4096), refused (Raw plain) ok_world)) /\
  dispatch byte42 3 (Raw plain) !"QUIT" [] [] 4096 MAX_CHUNK_SIZE ok_world =
    (Done None, set_out (w_out ok_world ++ [sends (Raw plain) bye_line]) ok_world).
Proof. apply unknown_and_quit. reflexivity. Defined.

(** A whole session: ping, an unknown command, quit. *)
Example session_run :
  let w := world_of (rx_of (!"PING" ++ lf ++ !"OK" ++ lf ++ !"FOO" ++ lf ++ !"QUIT" ++ lf)) [] in
  let r := run_commands byte42 3 (Raw plain) w in
  fst r = Done tt /\
  w_out (snd r) = map Sent [ACCEPT_LINE; pong_line; time_line 1000000; ACCEPT_LINE; err_line;
                            ACCEPT_LINE; bye_line].
Proof. by vm_compute. Qed.
