(* ===== verification/Session.v ===== *)
(** * A whole measurement session

    The abstract specification of the command loop: a session is a list of
    requests, and [session_spec] computes what the server says, from the clock
    readings alone. There are no streams, no bytes to parse and no errors in it.
    [SessionFacts] shows that the command loop implements it, over raw streams
    and over WebSocket frames. *)

From S2P Require Import Prelude RustStr Net Config Stats Io Stream StreamFacts Incoming Greeting Commands Protocol Termination CommandFacts.

(** ** Requests *)

(** A size of [None] keeps the chunk size of the connection; [ack] is the line
    the client answers a download or a ping with. [ReqRefused] is the line of a
    command whose arguments the server does not accept, [ReqUnknown] one that does
    not begin with a command. *)
Inductive request : Type :=
  | ReqGetchunks (count : Z) (size : option Z) (ack : str)
  | ReqGettime (secs : Z) (size : option Z) (ack : str)
  | ReqPut (reports : bool) (size : option Z) (body : list (list byte)) (final : list byte)
  | ReqPing (ack : str)
  | ReqRefused (line : str)
  | ReqUnknown (line : str).

Definition size_arg (size : option Z) : str :=
  match size with Some n => !" " ++ show_unsigned n | None => [] end.

(** The command line of a request. *)
Definition request_line (r : request) : str :=
  match r with
  | ReqGetchunks count size _ => !"GETCHUNKS" ++ !" " ++ show_unsigned count ++ size_arg size
  | ReqGettime secs size _ => !"GETTIME" ++ !" " ++ show_unsigned secs ++ size_arg size
  | ReqPut true size _ _ => !"PUT" ++ size_arg size
  | ReqPut false size _ _ => !"PUTNORESULT" ++ size_arg size
  | ReqPing _ => !"PING"
  | ReqRefused line | ReqUnknown line => line
  end.

(** What the client sends after the command line. *)
Definition request_data (r : request) : list item :=
  match r with
  | ReqGetchunks _ _ ack | ReqGettime _ _ ack | ReqPing ack => [Line ack]
  | ReqPut _ _ body final => map Data (body ++ [final])
  | ReqRefused _ | ReqUnknown _ => []
  end.

Definition session_items (rs : list request) : list item :=
  concat (map (fun r => Line (request_line r) :: request_data r) rs) ++ [Line !"QUIT"].

Definition size_valid (size : option Z) : Prop :=
  match size with Some n => size_ok n | None => True end.

(** The lines that get ERR for their arguments: a count or duration that is no
    number or out of range, a chunk size that is no number or out of range. *)
Definition line_refused (line : str) : Prop :=
  let '(cmd, arg1, arg2) := command_fields line in
  (cmd = !"GETCHUNKS" /\ (bad_number MAX_CHUNKS arg1 \/ bad_size arg2)) \/
  (cmd = !"GETTIME" /\ (bad_number MAX_SECONDS arg1 \/ bad_size arg2)) \/
  ((cmd = !"PUT" \/ cmd = !"PUTNORESULT") /\ bad_size arg1).

(** The chunk size after such a line: a good size is in force although the count
    was refused. *)
Definition size_refused (cs : Z) (line : str) : Z :=
  let '(cmd, _, arg2) := command_fields line in
  if str_eqb cmd !"PUT" || str_eqb cmd !"PUTNORESULT" then cs
  else default cs (parse_chunk_size arg2 MAX_CHUNK_SIZE).

(** The requests of the protocol; an upload is made of chunks of the size in
    force. *)
Definition request_valid (cs : Z) (r : request) : Prop :=
  match r with
  | ReqGetchunks count size _ => 0 < count <= MAX_CHUNKS /\ size_valid size
  | ReqGettime secs size _ => 0 < secs <= MAX_SECONDS /\ size_valid size
  | ReqPut _ size body final => size_valid size /\ upload (default cs size) body final
  | ReqPing _ => True
  | ReqRefused line => line_refused line
  | ReqUnknown line => (command_fields line).1.1 ∉ command_names
  end.

Definition size_after (cs : Z) (r : request) : Z :=
  match r with
  | ReqGetchunks _ size _ | ReqGettime _ size _ | ReqPut _ size _ _ => default cs size
  | ReqRefused line => size_refused cs line
  | ReqPing _ | ReqUnknown _ => cs
  end.

Fixpoint session_valid (cs : Z) (rs : list request) : Prop :=
  match rs with
  | [] => True
  | r :: rs' => request_valid cs r /\ session_valid (size_after cs r) rs'
  end.

(** ** The replies *)

(** The chunk size, the clock readings made and the statistics. *)
Record session_state : Type := mkSession {
  ss_size : Z;
  ss_tick : nat;
  ss_stats : ConnStats
}.

(** The first index from [j] on that satisfies [p], within [fuel]. *)
Fixpoint first_from (fuel : nat) (p : nat -> bool) (j : nat) : nat :=
  match fuel with
  | O => j
  | S f => if p j then j else first_from f p (S j)
  end.

Section spec.
Context (random : nat -> byte) (clock_fuel : nat) (mono : nat -> Z).

Definition el (i j : nat) : Z := Z.max 0 (mono j - mono i).

(** How many chunks are sent before the deadline of [secs] seconds. *)
Definition before_deadline (t : nat) (secs : Z) : nat :=
  first_from clock_fuel (fun j => secs * 1000000000 <=? el t (t + 1 + j)) 0.

(** The reply to one request, and the state after it. *)
Definition serve (st : session_state) (r : request) : list (list byte) * session_state :=
  let t := ss_tick st in
  let counted := count_command (ss_stats st) in
  let cs := size_after (ss_size st) r in
  match r with
  | ReqGetchunks count _ ack =>
      (chunks_of random (Z.to_nat count - 1) cs ++ [ack_reply ack (el t (t + 2))],
       mkSession cs (if str_eqb (trim ack) !"OK" then t + 3 else t + 2)%nat
         (add_download (count * cs) (el t (t + 1)) counted))
  | ReqGettime secs _ ack =>
      let k := before_deadline t secs in
      (chunks_of random k cs ++ [ack_reply ack (el t (t + k + 3))],
       mkSession cs (if str_eqb (trim ack) !"OK" then t + k + 4 else t + k + 3)%nat
         (add_download (wrap_u 64 ((Z.of_nat k + 1) * cs)) (el t (t + k + 2)) counted))
  | ReqPut reports _ body final =>
      let n := S (length body) in
      let t' := (if reports then t + 1 + n else t + 1)%nat in
      ([ok_line] ++ put_reports mono (mono t) cs reports n (t + 1) 0 never_reported
         ++ [time_line (el t t')],
       mkSession cs (S t') (add_upload (wrap_u 64 (Z.of_nat n * cs)) (el t t') counted))
  | ReqPing ack =>
      let ns := el t (t + 1) in
      ([pong_line; ack_reply ack ns],
       mkSession cs (if str_eqb (trim ack) !"OK" then t + 2 else t + 1)%nat
         (if str_eqb (trim ack) !"OK" then add_ping ns counted else counted))
  | ReqRefused _ => ([err_line], mkSession cs t counted)
  | ReqUnknown _ => ([err_line], mkSession cs t (ss_stats st))
  end.

(** The whole session, up to the reply to QUIT. *)
Fixpoint session_spec (st : session_state) (rs : list request)
    : list (list byte) * session_state :=
  match rs with
  | [] => ([ACCEPT_LINE; bye_line], st)
  | r :: rs' =>
      let '(replies, st1) := serve st r in
      let '(rest, st2) := session_spec st1 rs' in
      (ACCEPT_LINE :: replies ++ rest, st2)
  end.
End spec.
