(* ===== verification/SessionFacts.v ===== *)
(** * The command loop implements the session specification

    Over raw streams and over WebSocket frames, however the client cuts each
    chunk of an upload into frames. *)

From S2P Require Import Prelude RustStr Net Config Stats Io Stream StreamFacts Incoming Greeting Commands Protocol Termination CommandFacts Session.

(** ** Command lines *)

(** A field of a command line. *)
Definition word (x : str) : Prop := x <> [] /\ Forall (fun c => graphic c = true) x.

Lemma word_no_space x : word x -> Byte.x20 ∉ x.
Proof. intros [_ Hg] Hin. rewrite Forall_forall in Hg. by apply Hg in Hin. Qed.

Lemma word_show n : word (show_unsigned n).
Proof. split; [apply show_unsigned_nonempty|apply digits_graphic, show_unsigned_digits]. Qed.

Lemma trim_words x m y : word x -> word y -> trim (x ++ m ++ y) = x ++ m ++ y.
Proof.
  intros [Hx Hgx] [Hy Hgy]. destruct x as [|c x]; [done|].
  destruct (exists_last Hy) as (l & d & ->). apply Forall_app in Hgy as [_ Hgd].
  cbn [app]. apply (trim_ends c _ d (c :: x ++ m ++ l)).
  - by inversion_clear Hgx.
  - by inversion_clear Hgd.
  - cbn. by rewrite <- !app_assoc.
Qed.

Lemma fields_1 x : word x -> command_fields x = (x, [], []).
Proof.
  intros Hw. pose proof (word_no_space x Hw). destruct Hw as [Hx Hg]. unfold command_fields.
  rewrite trim_graphic by done. change !" " with [Byte.x20]. cbn [splitn].
  by rewrite (proj2 (split_once_char_None Byte.x20 x)).
Qed.

Lemma fields_2 x y : word x -> word y -> command_fields (x ++ !" " ++ y) = (x, y, []).
Proof.
  intros Hx Hy. unfold command_fields. rewrite trim_words by done. change !" " with [Byte.x20]. cbn [splitn app].
  rewrite (proj2 (split_once_char_Some Byte.x20 _ x y)) by (split; [done|by apply word_no_space]).
  rewrite (proj2 (split_once_char_None Byte.x20 y)) by by apply word_no_space.
  cbn [nth]. by rewrite trim_graphic by apply Hy.
Qed.

Lemma fields_3 x y z :
  word x -> word y -> word z -> command_fields (x ++ !" " ++ y ++ !" " ++ z) = (x, y, z).
Proof.
  intros Hx Hy Hz. unfold command_fields.
  replace (x ++ !" " ++ y ++ !" " ++ z) with (x ++ (!" " ++ y ++ !" ") ++ z)
    by (by rewrite <- !app_assoc).
  rewrite trim_words by done. rewrite <- !app_assoc.
  assert (E : splitn 3 !" " (x ++ !" " ++ y ++ !" " ++ z) = [x; y; z])
    by (apply splitn3_fields; by apply word_no_space).
  rewrite E. cbn [nth]. rewrite !trim_graphic by (apply Hy || apply Hz). done.
Qed.

(** The size argument of a request. *)
Definition size_text (size : option Z) : str :=
  match size with Some n => show_unsigned n | None => [] end.

Lemma fields_command x size : word x -> command_fields (x ++ size_arg size) = (x, size_text size, []).
Proof.
  intros Hx. destruct size as [n|]; cbn [size_arg size_text].
  - apply fields_2; [done|apply word_show].
  - rewrite app_nil_r. by apply fields_1.
Qed.

Lemma fields_number x n size :
  word x ->
  command_fields (x ++ !" " ++ show_unsigned n ++ size_arg size)
  = (x, show_unsigned n, size_text size).
Proof.
  intros Hx. destruct size as [k|]; cbn [size_arg size_text].
  - apply fields_3; [done|apply word_show..].
  - rewrite app_nil_r. apply fields_2; [done|apply word_show].
Qed.

Lemma parse_chunk_size_show n : size_ok n -> parse_chunk_size (show_unsigned n) MAX_CHUNK_SIZE = Some n.
Proof.
  unfold size_ok, parse_chunk_size. intros Hn. unfold MIN_CHUNK_SIZE, MAX_CHUNK_SIZE in *.
  rewrite parse_show_unsigned by (unfold u64_max; lia). cbn [mbind option_bind].
  by replace ((n <? 4096) || (n >? 4194304)) with false by lia.
Qed.

Lemma requested_size size cs : size_valid size -> requested (size_text size) cs (default cs size).
Proof.
  destruct size as [n|]; cbn; [|by left]. intros Hn. right.
  split; [apply show_unsigned_nonempty|by apply parse_chunk_size_show].
Qed.

Lemma first_from_spec fuel p : forall j k,
  (j <= k < j + fuel)%nat -> p k = true ->
  let m := first_from fuel p j in
  (j <= m <= k)%nat /\ p m = true /\ forall i, (j <= i < m)%nat -> p i = false.
Proof.
  induction fuel as [|fuel IH]; intros j k Hk Hp; [lia|]. cbn [first_from].
  destruct (p j) eqn:Ej.
  - cbv zeta. split_and!; [lia|lia|done|]. intros i Hi. lia.
  - assert (k <> j) by congruence.
    destruct (IH (S j) k ltac:(lia) Hp) as (H1 & H2 & H3). cbv zeta.
    split_and!; [lia|lia|done|]. intros i Hi.
    destruct (decide (i = j)) as [->|]; [done|]. apply H3. lia.
Qed.

(** ** One request *)

Section session.
Context (random : nat -> byte) (clock_fuel : nat).

(** The world of a running session: [ls] sent, input [i] left. *)
Definition live (s : Stream) (ls : list (list byte)) (st : session_state) (i : input) (w : World)
    : World :=
  set_stats (ss_stats st) (after s ls (ss_tick st) (with_input i w)).

Lemma write_live s ls st i w data :
  w_wr w = [] -> write_line s data (live s ls st i w) = (Done tt, live s (ls ++ [data]) st i w).
Proof.
  intros Hw. unfold write_line. rewrite write_all_ok by exact Hw. unfold live, after.
  destruct w; cbn. by rewrite map_app, <- app_assoc.
Qed.

Lemma read_live s ls st i w l i' :
  delivers s i (Line l) i' -> read_line s (live s ls st i w) = (Done l, live s ls st i' w).
Proof.
  intros Hd. specialize (Hd (live s ls st i w)). by destruct w.
Qed.

(** A command that the dispatcher counts. *)
Definition counted (st : session_state) : session_state :=
  mkSession (ss_size st) (ss_tick st) (count_command (ss_stats st)).

Lemma counted_run {A} s ls st i w (m : M A) (k : A -> Z) a w' :
  m (live s ls (counted st) i w) = (Done a, w') ->
  (do* update_stats count_command in let* x := m in ret (Some (k x))) (live s ls st i w) =
  (Done (Some (k a)), w').
Proof.
  intros E. rewrite (bind_Done _ _ _ tt (live s ls (counted st) i w)) by (by destruct w).
  by rewrite (bind_Done _ _ _ _ _ E).
Qed.

Context (s : Stream) (ls : list (list byte)) (st : session_state) (w : World).
Context (Hw : w_wr w = []) (Hsize : size_ok (ss_size st)).

Lemma live_wr i : w_wr (live s ls (counted st) i w) = [].
Proof. by destruct w. Qed.

(** The world after a handler that ran from a live one. *)
Lemma live_done replies st' i i' :
  set_stats (ss_stats st')
    (after s replies (ss_tick st')
       (input_of (live s ls (counted st) i' w) (live s ls (counted st) i w)))
  = live s (ls ++ replies) st' i' w.
Proof. unfold live, after. destruct w; cbn. by rewrite map_app, <- app_assoc. Qed.

Let serves (r : request) := serve random clock_fuel (w_mono w) st r.

Lemma getchunks_live count size ack i i' :
  request_valid (ss_size st) (ReqGetchunks count size ack) -> delivers s i (Line ack) i' ->
  handle_getchunks random s (show_unsigned count) (size_text size) (ss_size st) MAX_CHUNK_SIZE
    (live s ls (counted st) i w) =
  (Done (default (ss_size st) size),
   live s (ls ++ (serves (ReqGetchunks count size ack)).1) (serves (ReqGetchunks count size ack)).2 i' w).
Proof.
  intros [Hcount Hsv] Hd.
  erewrite handle_getchunks_run;
    [|apply live_wr|done|by apply requested_size
     |apply parse_show_unsigned; unfold MAX_CHUNKS, u32_max in *; lia|done|by apply read_live].
  f_equal. rewrite <- (live_done _ _ i i'). reflexivity.
Qed.

Lemma gettime_live secs size ack i i' :
  clock_advances clock_fuel (w_mono w) ->
  request_valid (ss_size st) (ReqGettime secs size ack) -> delivers s i (Line ack) i' ->
  handle_gettime random clock_fuel s (show_unsigned secs) (size_text size) (ss_size st) MAX_CHUNK_SIZE
    (live s ls (counted st) i w) =
  (Done (default (ss_size st) size),
   live s (ls ++ (serves (ReqGettime secs size ack)).1) (serves (ReqGettime secs size ack)).2 i' w).
Proof.
  intros Hclk [Hsecs Hsv] Hd. unfold MAX_SECONDS in Hsecs.
  destruct (Hclk (ss_tick st)) as (k & Hk & Hge). unfold MAX_SECONDS in Hge.
  destruct (first_from_spec clock_fuel
    (fun j => secs * 1000000000 <=? el (w_mono w) (ss_tick st) (ss_tick st + 1 + j)) 0 k)
    as (Hm & Hp & Hlt); [lia|unfold el; lia|].
  fold (before_deadline clock_fuel (w_mono w) (ss_tick st) secs) in *.
  set (m := before_deadline _ _ _ _) in *.
  erewrite (handle_gettime_run random clock_fuel s _ _ _ _ secs m);
    [|apply live_wr|done|by apply requested_size
     |apply parse_show_unsigned; unfold u32_max; lia|done| | |lia|by apply read_live].
  - f_equal. rewrite <- (live_done _ _ i i'). reflexivity.
  - apply Z.leb_le in Hp. exact Hp.
  - intros j Hj. specialize (Hlt j ltac:(lia)). apply Z.leb_gt in Hlt. exact Hlt.
Qed.

Lemma put_live reports size body final i i' :
  request_valid (ss_size st) (ReqPut reports size body final) ->
  incoming s i (map Data (body ++ [final])) i' ->
  handle_put s (size_text size) (ss_size st) MAX_CHUNK_SIZE reports (live s ls (counted st) i w) =
  (Done (default (ss_size st) size),
   live s (ls ++ (serves (ReqPut reports size body final)).1)
     (serves (ReqPut reports size body final)).2 i' w).
Proof.
  intros [Hsv Hup] Hin.
  erewrite (handle_put_run s _ _ _ reports body final i');
    [|apply live_wr|done|by apply requested_size|done|].
  - f_equal. rewrite <- (live_done _ _ i i'). reflexivity.
  - replace (input_at (live s ls (counted st) i w)) with i by (by destruct i, w). exact Hin.
Qed.

Lemma ping_live ack i i' :
  delivers s i (Line ack) i' ->
  handle_ping s (live s ls (counted st) i w) =
  (Done tt, live s (ls ++ (serves (ReqPing ack)).1) (serves (ReqPing ack)).2 i' w).
Proof.
  intros Hd. erewrite handle_ping_run; [|apply live_wr|by apply read_live].
  f_equal. rewrite <- (live_done _ _ i i'). reflexivity.
Qed.

(** A refused command sends ERR, and the chunk size is the one of [size_refused]
    from then on. *)
Lemma refused_live i : refused s (live s ls (counted st) i w) = live s (ls ++ [err_line]) (counted st) i w.
Proof. unfold refused, live, after. destruct w; cbn. by rewrite map_app, <- app_assoc. Qed.

Lemma dispatch_refuses i line :
  line_refused line ->
  let '(cmd, arg1, arg2) := command_fields line in
  dispatch random clock_fuel s cmd arg1 arg2 (ss_size st) MAX_CHUNK_SIZE (live s ls st i w) =
  (Done (Some (size_refused (ss_size st) line)),
   live s (ls ++ [err_line]) (counted st) i w).
Proof.
  unfold line_refused, size_refused. destruct (command_fields line) as [[cmd a1] a2].
  rewrite <- refused_live.
  intros [[-> Hb]|[[-> Hb]|[[-> | ->] Hb]]];
    apply (counted_run s ls st i w _ id _ _); unfold id.
  - by apply getchunks_refused; [apply live_wr|].
  - by apply gettime_refused; [apply live_wr|].
  - by apply put_refused; [apply live_wr|].
  - by apply put_refused; [apply live_wr|].
Qed.

(** The dispatcher runs the handler of the request and answers as specified. *)
Lemma dispatch_serves i i' r :
  clock_advances clock_fuel (w_mono w) ->
  request_valid (ss_size st) r -> incoming s i (request_data r) i' ->
  let '(cmd, arg1, arg2) := command_fields (request_line r) in
  dispatch random clock_fuel s cmd arg1 arg2 (ss_size st) MAX_CHUNK_SIZE (live s ls st i w) =
  (Done (Some (ss_size (serves r).2)), live s (ls ++ (serves r).1) (serves r).2 i' w).
Proof.
  intros Hclk Hvalid Hin.
  destruct r as [count size ack|secs size ack|[] size body final|ack|line|line];
    cbn [request_data request_line] in *.
  - apply incoming_cons_inv in Hin as (i1 & Hd & Hin). inversion Hin; subst.
    rewrite fields_number by by apply (bool_decide_unpack _).
    by apply (counted_run s ls st i w _ id (default (ss_size st) size)), getchunks_live.
  - apply incoming_cons_inv in Hin as (i1 & Hd & Hin). inversion Hin; subst.
    rewrite fields_number by by apply (bool_decide_unpack _).
    by apply (counted_run s ls st i w _ id (default (ss_size st) size)), gettime_live.
  - rewrite fields_command by by apply (bool_decide_unpack _).
    by apply (counted_run s ls st i w _ id (default (ss_size st) size)), put_live.
  - rewrite fields_command by by apply (bool_decide_unpack _).
    by apply (counted_run s ls st i w _ id (default (ss_size st) size)), put_live.
  - apply incoming_cons_inv in Hin as (i1 & Hd & Hin). inversion Hin; subst.
    rewrite fields_1 by by apply (bool_decide_unpack _).
    by apply (counted_run s ls st i w _ (fun _ => ss_size st) tt), ping_live.
  - inversion Hin; subst. cbn [request_valid] in Hvalid. by apply dispatch_refuses.
  - inversion Hin; subst. cbn [request_valid] in Hvalid.
    destruct (command_fields line) as [[cmd a1] a2]. cbn [fst] in Hvalid.
    rewrite dispatch_unknown by done.
    rewrite (bind_Done _ _ _ tt (live s (ls ++ [err_line]) st i' w)) by by apply write_live.
    by destruct st.
Qed.

Lemma serves_size r : ss_size (serves r).2 = size_after (ss_size st) r.
Proof. by destruct r. Qed.
End session.

Lemma size_after_ok cs r : size_ok cs -> request_valid cs r -> size_ok (size_after cs r).
Proof.
  intros Hcs Hv. destruct r as [? size ?|? size ?|? size ? ?|?|line|?];
    cbn [size_after request_valid] in *; try done; try (destruct size; cbn in *; tauto).
  unfold size_refused. destruct (command_fields line) as [[cmd a1] a2].
  destruct (str_eqb _ _ || _); [done|].
  destruct (parse_chunk_size a2 MAX_CHUNK_SIZE) eqn:E; [by eapply parse_chunk_size_ok|done].
Qed.

(** ** The whole session *)

Section whole.
Context (random : nat -> byte) (clock_fuel : nat) (s : Stream) (w : World).
Context (Hw : w_wr w = []) (Hclk : clock_advances clock_fuel (w_mono w)).

Let spec := session_spec random clock_fuel (w_mono w).

Lemma command_loop_spec rs i' : forall fuel ls st i,
  size_ok (ss_size st) -> session_valid (ss_size st) rs ->
  incoming s i (session_items rs) i' -> (length rs < fuel)%nat ->
  command_loop random clock_fuel fuel s (ss_size st) MAX_CHUNK_SIZE (live s ls st i w) =
  (Done tt, live s (ls ++ (spec st rs).1) (spec st rs).2 i' w).
Proof.
  induction rs as [|r rs IH]; intros [|fuel] ls st i Hsize Hvalid Hin Hf; cbn [length] in Hf;
    try lia; cbn [command_loop]; rewrite (bind_Done _ _ _ _ _ (write_live _ _ _ _ _ _ Hw)).
  - apply incoming_cons_inv in Hin as (i1 & Hd & Hin). inversion Hin; subst.
    rewrite (bind_Done _ _ _ _ _ (read_live _ _ _ _ _ _ _ Hd)).
    rewrite fields_1 by by apply (bool_decide_unpack _).
    change (dispatch random clock_fuel s !"QUIT" [] [] (ss_size st) MAX_CHUNK_SIZE) with
      (do* write_line s bye_line in ret (@None Z)).
    rewrite (bind_Done _ _ _ None (live s ((ls ++ [ACCEPT_LINE]) ++ [bye_line]) st i' w))
      by (by rewrite (bind_Done _ _ _ _ _ (write_live _ _ _ _ _ _ Hw))).
    by rewrite <- app_assoc.
  - destruct Hvalid as [Hr Hvalid]. unfold session_items in Hin. cbn [map concat] in Hin.
    rewrite <- app_assoc in Hin. cbn [app] in Hin.
    apply incoming_cons_inv in Hin as (i1 & Hd & Hin).
    apply incoming_app_inv in Hin as (i2 & Hdata & Hin).
    rewrite (bind_Done _ _ _ _ _ (read_live _ _ _ _ _ _ _ Hd)).
    pose proof (dispatch_serves random clock_fuel s (ls ++ [ACCEPT_LINE]) st w Hw Hsize i1 i2 r
                  Hclk Hr Hdata) as E.
    destruct (command_fields (request_line r)) as [[cmd a1] a2].
    rewrite (bind_Done _ _ _ _ _ E). unfold spec in *. cbn [session_spec].
    pose proof (serves_size random clock_fuel st w r) as Es.
    destruct (serve random clock_fuel (w_mono w) st r) as [replies st1]. cbn [fst snd] in *.
    rewrite (IH fuel _ st1 i2); [|rewrite Es; by apply size_after_ok|by rewrite Es|done|lia].
    destruct (session_spec _ _ _ st1 rs) as [rest st2]. cbn [fst snd].
    by rewrite <- !app_assoc.
Qed.

Lemma session_items_length rs i' :
  incoming s (input_at w) (session_items rs) i' -> Forall nonempty_item (session_items rs) ->
  (length rs < S (input_left w))%nat.
Proof.
  intros Hin Hne. apply incoming_size in Hin; [|done].
  unfold input_left, input_size, input_at in *. cbn in Hin.
  assert (length rs <= length (session_items rs))%nat; [|lia].
  unfold session_items. rewrite length_app. clear. induction rs as [|r rs IH]; [cbn; lia|].
  cbn [map concat length app] in *. rewrite length_app. lia.
Qed.

Lemma session_items_nonempty rs cs :
  size_ok cs -> session_valid cs rs -> Forall nonempty_item (session_items rs).
Proof.
  intros Hcs Hv. unfold session_items. apply Forall_app. split; [|by repeat constructor].
  revert cs Hcs Hv. induction rs as [|r rs IH]; intros cs Hcs Hv; [constructor|].
  destruct Hv as [Hr Hv]. cbn [map concat]. apply Forall_app. split.
  - constructor; [done|]. destruct r as [| |reports size body final| | |]; try by repeat constructor.
    destruct Hr as [Hsv Hup]. cbn [request_data].
    assert (Hcs' : size_ok (default cs size)) by (by destruct size).
    apply Forall_map. eapply upload_nonempty; [|exact Hup].
    unfold size_ok, MIN_CHUNK_SIZE in Hcs'. lia.
  - eapply IH; [|exact Hv]. by apply size_after_ok.
Qed.

Lemma run_commands_spec rs i' :
  session_valid CHUNK_SIZE rs -> incoming s (input_at w) (session_items rs) i' ->
  let r := spec (mkSession CHUNK_SIZE (w_tick w) (w_stats w)) rs in
  run_commands random clock_fuel s w = (Done tt, live s r.1 r.2 i' w).
Proof.
  intros Hv Hin. assert (Hcs : size_ok CHUNK_SIZE) by (split; vm_compute; discriminate).
  set (st := mkSession CHUNK_SIZE (w_tick w) (w_stats w)).
  assert (E : live s [] st (input_at w) w = w)
    by (unfold live, after; destruct w; cbn; by rewrite app_nil_r).
  unfold run_commands. rewrite <- E at 2.
  apply (command_loop_spec rs i' _ [] st); [done|done|done|].
  eapply session_items_length; [done|]. by eapply session_items_nonempty.
Qed.
End whole.

(** ** The bytes of a session *)

(** What the client chooses freely has to fit on a line. *)
Definition request_text_ok (r : request) : Prop :=
  match r with
  | ReqGetchunks _ _ ack | ReqGettime _ _ ack | ReqPing ack => line_ok ack
  | ReqPut _ _ _ _ => True
  | ReqRefused line | ReqUnknown line => line_ok line
  end.

Definition printable (c : byte) : bool := (32 <=? bz c) && (bz c <=? 126).

Lemma printable_line_ok l :
  Forall (fun c => printable c = true) l -> len l + 2 <= MAX_LINE_LENGTH -> line_ok l.
Proof.
  intros Hp Hl. rewrite Forall_forall in Hp.
  assert (Hno : forall c, printable c = false -> c ∉ l)
    by (intros c Hc Hin; apply Hp in Hin; congruence).
  split_and!; [by apply Hno| | |done].
  - intros k ->. apply (Hno carriage_return); [done|]. set_solver.
  - apply utf8_valid_ascii, Forall_forall. intros c Hin. apply Hp in Hin.
    unfold printable, ascii in *. lia.
Qed.

Lemma printable_show n : Forall (fun c => printable c = true) (show_unsigned n).
Proof.
  eapply Forall_impl; [apply show_unsigned_digits|]. unfold is_digit, printable. intros c. lia.
Qed.

Lemma printable_size_arg size : Forall (fun c => printable c = true) (size_arg size).
Proof. destruct size; [|constructor]. apply Forall_app. split; [by repeat constructor|apply printable_show]. Qed.

Lemma length_size_arg size : size_valid size -> len (size_arg size) <= 8.
Proof.
  destruct size as [n|]; cbn [size_arg size_valid]; [|cbn; lia].
  unfold size_ok, MIN_CHUNK_SIZE, MAX_CHUNK_SIZE. intros Hn.
  pose proof (length_show_unsigned 7 n ltac:(lia) ltac:(lia)) as Hl.
  rewrite length_app. change (length !" ") with 1%nat. lia.
Qed.

Lemma request_line_ok cs r : request_valid cs r -> request_text_ok r -> line_ok (request_line r).
Proof.
  assert (Hpre : forall p l, Forall (fun c => printable c = true) p -> len p <= 16 ->
    Forall (fun c => printable c = true) l -> len l <= 32 -> line_ok (p ++ l)).
  { intros p l Hp Hpl Hl Hll. apply printable_line_ok; [by apply Forall_app|].
    rewrite length_app. unfold MAX_LINE_LENGTH. lia. }
  assert (Hnum : forall n size, 0 < n <= MAX_CHUNKS -> size_valid size ->
    len (show_unsigned n ++ size_arg size) <= 32).
  { intros n size Hn Hs. unfold MAX_CHUNKS in Hn. apply length_size_arg in Hs.
    pose proof (length_show_unsigned 7 n ltac:(lia) ltac:(lia)). rewrite length_app. lia. }
  destruct r as [n size ack|n size ack|[] size body final|ack|line|line]; cbn [request_valid request_line].
  - intros [Hn Hs] _. rewrite app_assoc. apply Hpre; [by repeat constructor|by vm_compute| |by apply Hnum].
    apply Forall_app. split; [apply printable_show|apply printable_size_arg].
  - intros [Hn Hs] _. rewrite app_assoc. unfold MAX_SECONDS in Hn.
    apply Hpre; [by repeat constructor|by vm_compute| |apply Hnum; [unfold MAX_CHUNKS; lia|done]].
    apply Forall_app. split; [apply printable_show|apply printable_size_arg].
  - intros [Hs%length_size_arg _] _.
    apply Hpre; [by repeat constructor|by vm_compute|apply printable_size_arg|lia].
  - intros [Hs%length_size_arg _] _.
    apply Hpre; [by repeat constructor|by vm_compute|apply printable_size_arg|lia].
  - intros _ _. apply printable_line_ok; [by repeat constructor|by vm_compute].
  - done.
  - done.
Qed.

Lemma session_items_ok rs : forall cs,
  session_valid cs rs -> Forall request_text_ok rs -> Forall item_ok (session_items rs).
Proof.
  unfold session_items. intros cs Hv Ht. apply Forall_app. split.
  2:{ constructor; [|done]. apply printable_line_ok; [by repeat constructor|by vm_compute]. }
  revert cs Hv. induction Ht as [|r rs Hr _ IH]; intros cs Hv; [constructor|].
  destruct Hv as [Hr' Hv]. cbn [map concat]. apply Forall_app. split; [|by eapply IH].
  constructor; [by eapply request_line_ok|].
  destruct r; cbn [request_data request_text_ok] in *;
    first [by constructor|apply Forall_map, Forall_forall; done].
Qed.

(** ** Everything the server says can be delivered in frames *)

Lemma ascii_deliverable l : Forall (fun c => ascii c = true) l -> deliverable l.
Proof. intros. left. by apply utf8_valid_ascii. Qed.

Lemma ascii_show n : Forall (fun c => ascii c = true) (show_unsigned n).
Proof. apply graphic_ascii, digits_graphic, show_unsigned_digits. Qed.

Lemma time_line_deliverable ns : deliverable (time_line ns).
Proof.
  apply ascii_deliverable. unfold time_line. apply Forall_app. split; [by repeat constructor|].
  apply Forall_app. split; [apply ascii_show|by repeat constructor].
Qed.

Lemma ack_reply_deliverable ack ns : deliverable (ack_reply ack ns).
Proof. unfold ack_reply. destruct (str_eqb _ _); [apply time_line_deliverable|by left]. Qed.

Lemma report_line_deliverable ns total : 0 <= ns -> deliverable (report_line ns total).
Proof.
  intros Hns. apply ascii_deliverable. unfold report_line. rewrite show_int_nonneg by done.
  repeat (apply Forall_app; split); first [apply ascii_show | by repeat constructor].
Qed.

Lemma chunks_deliverable random n cs : size_ok cs -> Forall deliverable (chunks_of random n cs).
Proof.
  unfold size_ok, MIN_CHUNK_SIZE. intros Hcs.
  assert (Hc : forall b, deliverable (chunk_data random b cs)).
  { intros b. right. right. rewrite length_chunk_data by lia. unfold CHUNK_SIZE. lia. }
  apply Forall_app. split; [by apply Forall_replicate|by apply Forall_singleton].
Qed.

Lemma serve_deliverable random clock_fuel mono st r :
  size_ok (ss_size st) -> request_valid (ss_size st) r ->
  Forall deliverable (serve random clock_fuel mono st r).1.
Proof.
  intros Hs Hv. pose proof (size_after_ok _ _ Hs Hv) as Hs'.
  destruct r as [n size ack|n size ack|reports size body final|ack|line|line]; cbn [serve fst].
  - apply Forall_app. split; [by apply chunks_deliverable|]. apply Forall_singleton, ack_reply_deliverable.
  - apply Forall_app. split; [by apply chunks_deliverable|]. apply Forall_singleton, ack_reply_deliverable.
  - constructor; [by left|]. apply Forall_app. split.
    + eapply Forall_impl; [apply put_reports_on|]. intros x (ns & i & Hns & _ & ->).
      by apply report_line_deliverable.
    + apply Forall_singleton, time_line_deliverable.
  - constructor; [by left|]. apply Forall_singleton, ack_reply_deliverable.
  - constructor; [by left|constructor].
  - constructor; [by left|constructor].
Qed.

Lemma session_deliverable random clock_fuel mono rs : forall st,
  size_ok (ss_size st) -> session_valid (ss_size st) rs ->
  Forall deliverable (session_spec random clock_fuel mono st rs).1.
Proof.
  induction rs as [|r rs IH]; intros st Hs Hv; cbn [session_spec].
  - constructor; [by left|]. apply Forall_singleton. by left.
  - destruct Hv as [Hr Hv]. pose proof (serve_deliverable random clock_fuel mono st r Hs Hr) as Hd.
    assert (Es : ss_size (serve random clock_fuel mono st r).2 = size_after (ss_size st) r)
      by (by destruct r).
    destruct (serve random clock_fuel mono st r) as [replies st1]. cbn [fst snd] in *.
    specialize (IH st1). rewrite Es in IH. specialize (IH ltac:(by apply size_after_ok) Hv).
    destruct (session_spec random clock_fuel mono st1 rs) as [rest st2]. cbn [fst] in *.
    constructor; [by left|]. by apply Forall_app.
Qed.

(** ** The theorems *)

Section theorems.
Context (random : nat -> byte) (clock_fuel : nat).

(** C4: the command loop implements the session specification. On a raw stream on
    which no write fails, with a clock that advances and shows anything else, and
    for any list of well-formed requests ([session_valid], [request_text_ok]:
    downloads within the limits, uploads of whole chunks of the size in force,
    pings, lines whose arguments are refused, lines that are no command, each
    short enough for a line), the server consumes exactly the bytes of the
    session, says exactly what the specification computes from the clock readings
    (ERR for a refused or unknown line), records exactly its statistics, and ends
    with BYE. *)
Theorem session_refines t rs rest w
    (Hw : w_wr w = []) (Hclk : clock_advances clock_fuel (w_mono w))
    (Hvalid : session_valid CHUNK_SIZE rs) (Htext : Forall request_text_ok rs)
    (Hrx : w_rx w = rx_of (items_bytes (session_items rs)) ++ rest) :
  let spec := session_spec random clock_fuel (w_mono w)
                (mkSession CHUNK_SIZE (w_tick w) (w_stats w)) rs in
  exists w',
    run_commands random clock_fuel (Raw t) w = (Done tt, w') /\
    w_out w' = w_out w ++ map Sent spec.1 /\ w_stats w' = ss_stats spec.2 /\ w_rx w' = rest.
Proof.
  intros spec.
  assert (Hin : incoming (Raw t) (input_at w) (session_items rs) (rest, w_ws w)).
  { unfold input_at. rewrite Hrx. by eapply incoming_raw, session_items_ok. }
  eexists. split; [by apply (run_commands_spec random clock_fuel (Raw t) w Hw Hclk rs _ Hvalid Hin)|].
  by destruct w.
Qed.

(** C6: a session does not depend on the framing, for a client that begins a frame
    with each line and with each upload chunk: its well-formed requests over
    WebSocket frames -- a line in one frame, a chunk cut into frames anyhow, control
    frames in between -- get the same data in the same order at the same clock
    readings, and record the same statistics, as over a raw stream; the clock
    advances and no write fails. (A frame with the end of one chunk and the
    beginning of the next is not covered: its excess is lost,
    [Incoming.frame_excess_lost].) *)
Theorem session_framing t t' rs fs rest w
    (Hw : w_wr w = []) (Hclk : clock_advances clock_fuel (w_mono w))
    (Hvalid : session_valid CHUNK_SIZE rs) (Htext : Forall request_text_ok rs)
    (Hframes : frames_of (session_items rs) fs) :
  let raw := run_commands random clock_fuel (Raw t)
               (with_input (rx_of (items_bytes (session_items rs)), w_ws w) w) in
  let ws := run_commands random clock_fuel (WebSocket t')
              (with_input (w_rx w, map WsMsg fs ++ rest) w) in
  exists said frames,
    fst raw = Done tt /\ fst ws = Done tt /\
    w_out (snd raw) = w_out w ++ map Sent said /\
    w_out (snd ws) = w_out w ++ map SentFrame frames /\ map frame_data frames = said /\
    w_stats (snd raw) = w_stats (snd ws) /\ w_ws (snd ws) = rest.
Proof.
  assert (Hok : Forall item_ok (session_items rs)) by (by eapply session_items_ok).
  pose proof (session_deliverable random clock_fuel (w_mono w) rs
    (mkSession CHUNK_SIZE (w_tick w) (w_stats w)) ltac:(split; vm_compute; discriminate) Hvalid) as Hdel.
  set (said := (session_spec _ _ _ _ rs).1) in Hdel.
  intros raw ws. exists said, (map ws_message said).
  pose proof (incoming_raw t _ [] (w_ws w) Hok) as H1. rewrite app_nil_r in H1.
  pose proof (incoming_framed t' _ _ (w_rx w) rest Hframes Hok) as H2.
  set (w1 := with_input _ w) in raw. set (w2 := with_input _ w) in ws.
  assert (E1 : input_at w1 = (rx_of (items_bytes (session_items rs)), w_ws w)) by done.
  assert (E2 : input_at w2 = (w_rx w, map WsMsg fs ++ rest)) by done.
  rewrite <- E1 in H1. rewrite <- E2 in H2.
  pose proof (run_commands_spec random clock_fuel (Raw t) w1 Hw Hclk rs _ Hvalid H1) as R1.
  pose proof (run_commands_spec random clock_fuel (WebSocket t') w2 Hw Hclk rs _ Hvalid H2) as R2.
  unfold raw, ws. rewrite R1, R2. split_and!; try done.
  - cbn. by rewrite map_map.
  - rewrite map_map. clear -Hdel. induction Hdel as [|d l Hd _ IH]; [done|]. cbn. rewrite IH. f_equal.
    by apply ws_message_data.
Qed.
End theorems.

(** ** A concrete session *)

Definition session_a : list request :=
  [ReqPing !"OK"; ReqUnknown !"FOO"; ReqPut true None [up_chunk false] (up_chunk true);
   ReqRefused !"GETCHUNKS 0 8192"; ReqRefused !"PUT 12";
   ReqGetchunks 2 (Some 8192) !"OK"; ReqGettime 20 None !"ERR"].

Lemma up_chunk_ok terminal : upload_chunk terminal 4096 (up_chunk terminal).
Proof. split; [by destruct terminal|]. destruct terminal; split; done. Defined.

Lemma line_refused_a : line_refused !"GETCHUNKS 0 8192".
Proof.
  assert (E : command_fields !"GETCHUNKS 0 8192" = (!"GETCHUNKS", !"0", !"8192")) by (vm_compute; reflexivity).
  unfold line_refused. rewrite E. left. split; [reflexivity|left]. intros n Hn.
  assert (E0 : parse_unsigned u32_max !"0" = Some 0) by (vm_compute; reflexivity).
  rewrite E0 in Hn. injection Hn as <-. lia.
Defined.

Lemma line_refused_b : line_refused !"PUT 12".
Proof.
  assert (E : command_fields !"PUT 12" = (!"PUT", !"12", [])) by (vm_compute; reflexivity).
  unfold line_refused. rewrite E. right. right. split; [by left|]. split; [done|vm_compute; reflexivity].
Defined.

Lemma session_a_valid : session_valid CHUNK_SIZE session_a.
Proof.
  unfold session_a. cbn [session_valid request_valid size_after default size_valid].
  split; [done|]. split; [apply (bool_decide_unpack _); vm_compute; exact I|].
  split; [split; [done|split; [by apply Forall_singleton, up_chunk_ok|apply up_chunk_ok]]|].
  split; [exact line_refused_a|]. split; [exact line_refused_b|].
  split; [by apply (bool_decide_unpack _)|]. split; [by apply (bool_decide_unpack _)|done].
Defined.

Lemma session_a_text : Forall request_text_ok session_a.
Proof.
  repeat (apply Forall_cons; split); [..|apply Forall_nil; done]; cbn; try done;
    (apply printable_line_ok; [by repeat constructor|by vm_compute]).
Defined.

Definition session_world_a : World :=
  timed_world slow_clock (rx_of (items_bytes (session_items session_a)) ++ rx_of !"x").

Lemma session_refines_witness :
  let spec := session_spec byte42 3 slow_clock (mkSession CHUNK_SIZE 0 ConnStats_new) session_a in
  exists w',
    run_commands byte42 3 (Raw plain) session_world_a = (Done tt, w') /\
    w_out w' = [] ++ map Sent spec.1 /\ w_stats w' = ss_stats spec.2 /\ w_rx w' = rx_of !"x".
Proof.
  apply (session_refines byte42 3 plain session_a (rx_of !"x") session_world_a).
  - reflexivity.
  - exact slow_clock_advances.
  - exact session_a_valid.
  - exact session_a_text.
  - reflexivity.
Defined.

(** The upload in three frames, with a control frame in between. *)
Definition session_b : list request := [ReqPut false None [] (up_chunk true)].
Definition frames_b : list Message :=
  [Text (!"PUTNORESULT" ++ lf)] ++
  (Binary (repeat Byte.x2a 4000) :: Control :: [Binary (repeat Byte.x2a 95 ++ [Byte.xff])]) ++
  [Binary (!"QUIT" ++ lf)].

Lemma frames_b_ok : frames_of (session_items session_b) frames_b.
Proof.
  apply (frames_cons _ _ [_]); [apply (framed_text !"PUTNORESULT")|].
  apply (frames_cons _ _ [_; _; _]).
  - apply (framed_cut (repeat Byte.x2a 4000) (repeat Byte.x2a 95 ++ [Byte.xff])).
    apply framed_control, framed_block. done.
  - apply (frames_cons _ _ [_] []); [apply (framed_binary !"QUIT")|apply frames_nil].
Defined.

Lemma session_framing_witness :
  let w := timed_world slow_clock [] in
  let raw := run_commands byte42 3 (Raw plain)
               (with_input (rx_of (items_bytes (session_items session_b)), []) w) in
  let ws := run_commands byte42 3 (WebSocket plain)
              (with_input ([], map WsMsg frames_b ++ []) w) in
  exists said frames,
    fst raw = Done tt /\ fst ws = Done tt /\
    w_out (snd raw) = [] ++ map Sent said /\
    w_out (snd ws) = [] ++ map SentFrame frames /\ map frame_data frames = said /\
    w_stats (snd raw) = w_stats (snd ws) /\ w_ws (snd ws) = [].
Proof.
  apply (session_framing byte42 3 plain plain session_b frames_b [] (timed_world slow_clock [])).
  - reflexivity.
  - exact slow_clock_advances.
  - split; [|done]. split; [done|]. split; [by apply Forall_nil|apply up_chunk_ok].
  - apply Forall_singleton. exact I.
  - exact frames_b_ok.
Defined.
