(* ===== verification/GreetingFacts.v ===== *)
(** * What the greeting guarantees

    A connection passes the greeting only with a token that validates for its
    own address (unless checking is off), after the wait the token asks for; a
    rejected token gets ERR and the reason is logged. *)

From stdpp Require Import vector.
From S2P Require Import Prelude RustStr Net Crypto RefCrypto Config Token TokenFacts Stats Io Json Stream StreamFacts Events Greeting Commands.

Section greeting.
Context `{Crypto} `{Build}.

(** The clock a validation sees. *)
Definition clock_from (w : World) (tick : nat) : clock := fun i => w_wall w (tick + i)%nat.

(** The source address of the stream. *)
Definition source_ip (s : Stream) : option IpAddr := option_map sa_ip (peer_addr s).

Definition token_prompt : str := !"ACCEPT TOKEN QUIT" ++ lf.

(** The events an auth result gives at clock reading [tick]. *)
Definition auth_out (sink : option EventSink) (w : World) (tick : nat) (conn_id : Z)
    (client token result : str) (label reason : option str) : list action :=
  match sink with
  | Some k =>
      let sev := if str_eqb result !"rejected" then SEV_NOTICE else SEV_INFO in
      [Datagram (frame k (w_stamp w tick) sev !"auth"
         (auth_body conn_id client (greeting_uuid token) (greeting_token_type token) result
            label reason))]
  | None => []
  end.

Definition wait_out (secs : Z) : list action := if secs >? 0 then [Slept secs] else [].

(** *** Success needs a token *)

Lemma check_greeting_token_Done s conn_id cfg keys sink client uuid tt_ tok w label w' :
  check_greeting_token s conn_id cfg keys sink client uuid tt_ tok w = (Done label, w') ->
  check_token cfg = true ->
  exists secs,
    validate_token (clock_from w (w_tick w)) tok keys (source_ip s) (v2_only cfg)
      = Accepted secs label /\
    (0 < secs -> exists l l', w_out w' = l ++ Slept secs :: l').
Proof.
  unfold check_greeting_token. intros E Hc. rewrite Hc in E.
  apply bind_Done_inv in E as (clk & w1 & E1 & E). injection E1 as <- <-.
  fold (clock_from w (w_tick w)) in E. fold (source_ip s) in E.
  destruct (validate_token _ _ _ _ _) as [secs lab| | | | | |].
  2-7: apply bind_Done_inv in E as (? & ? & _ & E); apply bind_Done_inv in E as (? & ? & _ & E);
       discriminate E.
  apply bind_Done_inv in E as ([] & w2 & _ & E).
  apply bind_Done_inv in E as ([] & w3 & E3 & E). injection E as -> <-.
  exists secs. split; [done|]. intros Hpos. destruct (Z.gtb_spec secs 0); [|lia].
  injection E3 as <-. exists (w_out w2), []. done.
Qed.

Lemma first_line_nonblank fuel s w line w' :
  first_line fuel s w = (Done line, w') -> trim line <> [] /\ w_wall w' = w_wall w.
Proof.
  revert w. induction fuel as [|fuel IH]; intros w; [done|]. cbn [first_line].
  intros E. apply bind_Done_inv in E as (l & w1 & E1 & E).
  assert (Hw : w_wall w1 = w_wall w).
  { destruct (reads_read_line s w) as (o & rx & ws & _ & _ & Hr). rewrite (Hr w) in E1 by done.
    by injection E1 as _ <-. }
  case_bool_decide; [rewrite <- Hw; by apply IH|]. by injection E as -> <-.
Qed.

(** The first line depends on the input only. *)
Lemma first_line_input f s : forall w w',
  w_rx w' = w_rx w -> w_ws w' = w_ws w -> w_ws_end w' = w_ws_end w ->
  fst (first_line f s w') = fst (first_line f s w).
Proof.
  induction f as [|f IH]; intros w w' Hrx Hws He; [done|]. cbn [first_line].
  destruct (reads_read_line s w) as (o & rx & ws & _ & _ & Hr). unfold bind.
  rewrite (Hr w), (Hr w') by done. destruct o; try done. case_bool_decide; [by apply IH|done].
Qed.

Lemma write_line_effect s data w x w' :
  write_line s data w = (Done x, w') ->
  w' = set_out (w_out w ++ [sends s data]) (set_wr (w_wr w') w).
Proof.
  unfold write_line. destruct (write_all_cases s data w) as (o & part & wr & -> & Hp).
  intros [= -> <-]. by rewrite Hp.
Qed.

(** C2: with token checking on, a connection passes the greeting only if the
    first line that the client sent (after blank ones) is a TOKEN line whose
    token [validate_token] accepts at that time for the address of the peer. The
    label, the UUID and the token type the connection carries on are those of
    this token, and an early client has waited before OK is sent. No failing
    write, no input and no clock gets a connection past the check. *)
Theorem greeting_requires_token s conn_id cfg keys sink client w g w'
    (Hrun : run_greeting s conn_id cfg keys sink client w = (Done g, w'))
    (Hcheck : check_token cfg = true) :
  exists rest tick secs l,
    fst (first_line (S (input_left w)) s w) = Done (!"TOKEN " ++ rest) /\
    validate_token (clock_from w tick) (trim rest) keys (source_ip s) (v2_only cfg)
      = Accepted secs (g_label g) /\
    g_uuid g = greeting_uuid (trim rest) /\ g_token_type g = greeting_token_type (trim rest) /\
    w_out w' = l ++ map (sends s) [ok_line; chunksize_line] /\ (0 < secs -> Slept secs ∈ l).
Proof.
  unfold run_greeting in Hrun.
  apply bind_Done_inv in Hrun as ([] & w1 & E1 & Hrun).
  apply bind_Done_inv in Hrun as ([] & w2 & E2 & Hrun).
  apply bind_Done_inv in Hrun as (line & w3 & E3 & Hrun).
  apply write_line_effect in E1, E2.
  assert (Hin : fst (first_line (S (input_left w)) s w) = Done line).
  { rewrite <- (first_line_input _ s w w2) by (by rewrite E2, E1). by rewrite E3. }
  assert (Hwall : w_wall w3 = w_wall w).
  { apply first_line_nonblank in E3 as [_ ->]. by rewrite E2, E1. }
  destruct (strip_prefix !"TOKEN " line) as [rest|] eqn:Erest.
  2:{ destruct (starts_with _ _); apply bind_Done_inv in Hrun as (? & ? & _ & Hrun); done. }
  apply bind_Done_inv in Hrun as (label & w4 & E4 & Hrun).
  apply bind_Done_inv in Hrun as ([] & w5 & E5 & Hrun).
  apply bind_Done_inv in Hrun as ([] & w6 & E6 & Hrun). injection Hrun as <- <-.
  apply check_greeting_token_Done in E4 as (secs & Hv & Hs); [|done].
  apply strip_prefix_Some in Erest as ->. apply write_line_effect in E5, E6.
  exists rest, (w_tick w3), secs, (w_out w4). split_and!; try done.
  - unfold clock_from in *. by rewrite <- Hwall.
  - rewrite E6, E5. cbn [w_out set_out set_wr map]. by rewrite <- app_assoc.
  - intros Hpos. destruct (Hs Hpos) as (l & l' & ->). set_solver.
Qed.

(** *** The dialogue when the connection holds *)

(** The world after [l] was appended to the output, at another clock reading. *)
Definition done_out (l : list action) (tick : nat) (w : World) : World :=
  set_tick tick (set_out (w_out w ++ l) w).

Lemma write_line_done s data l tick w :
  w_wr w = [] ->
  write_line s data (done_out l tick w) = (Done tt, done_out (l ++ [sends s data]) tick w).
Proof.
  intros Hw. unfold write_line. rewrite write_all_ok by done. unfold done_out. cbn.
  by rewrite <- app_assoc.
Qed.

(** How often an event reads the clock. *)
Definition event_ticks (sink : option EventSink) : nat :=
  match sink with Some _ => 1 | None => 0 end.

Lemma opt_auth_done sink conn_id client tok result label reason l tick w :
  opt_auth sink conn_id client (greeting_uuid tok) (greeting_token_type tok) result
    label reason (done_out l tick w) =
  (Done tt, done_out (l ++ auth_out sink w tick conn_id client tok result label reason)
              (event_ticks sink + tick) w).
Proof.
  destruct sink as [k|]; cbn [opt_auth auth_out].
  - unfold auth, emit, bind, timestamp, act, done_out. cbn. by rewrite <- app_assoc.
  - by rewrite app_nil_r.
Qed.

Lemma first_line_done fuel s w line w0 l :
  first_line fuel s w = (Done line, w0) ->
  first_line fuel s (done_out l (w_tick w) w) =
  (Done line, done_out l (w_tick w) (set_rx (w_rx w0) (set_ws (w_ws w0) w))).
Proof.
  revert w. induction fuel as [|fuel IH]; intros w; [done|]. cbn [first_line].
  intros E. apply bind_Done_inv in E as (x & w1 & E1 & E).
  destruct (reads_read_line s w) as (o & rx & ws & _ & _ & Hr).
  rewrite (Hr w) in E1 by done. injection E1 as -> <-.
  rewrite (bind_Done _ _ _ _ _ (Hr (done_out l (w_tick w) w) eq_refl eq_refl eq_refl)).
  case_bool_decide; [|injection E as -> <-; by destruct w].
  apply IH in E. destruct w; cbn in *. exact E.
Qed.

Section dialogue.
Context (s : Stream) (conn_id : Z) (cfg : Config) (keys : list SecretKey)
  (sink : option EventSink) (client line rest : str) (w w0 : World).
Hypothesis (Hwr : w_wr w = []).
Hypothesis (Hline : first_line (S (input_left w)) s w = (Done line, w0)).

(** What has been sent when the token line is read. *)
Definition opening : list action := map (sends s) [GREETING; token_prompt].

Lemma greeting_opening {A} (k : str -> M A) :
  (do* write_line s GREETING in do* write_line s token_prompt in
   let* line := first_line (S (input_left w)) s in k line) w =
  k line (done_out opening (w_tick w) (set_rx (w_rx w0) (set_ws (w_ws w0) w))).
Proof.
  replace (write_line s GREETING) with (write_line s GREETING) by done.
  assert (E1 : write_line s GREETING w = (Done tt, done_out [sends s GREETING] (w_tick w) w)).
  { unfold write_line. rewrite write_all_ok by done. by destruct w. }
  rewrite (bind_Done _ _ _ _ _ E1), (bind_Done _ _ _ _ _ (write_line_done s _ _ _ w Hwr)).
  by rewrite (bind_Done _ _ _ _ _ (first_line_done _ s w line w0 _ Hline)).
Qed.

Hypothesis (Htoken : line = !"TOKEN " ++ rest).
Hypothesis (Hcheck : check_token cfg = true).

Let verdict := validate_token (clock_from w (w_tick w)) (trim rest) keys (source_ip s) (v2_only cfg).

(** The run of the greeting of an accepted client. *)
Lemma greeting_accepts_run secs label :
  verdict = Accepted secs label ->
  run_greeting s conn_id cfg keys sink client w =
    (Done (mkGreeting (greeting_uuid (trim rest)) (greeting_token_type (trim rest)) label),
     done_out (opening ++
       auth_out sink w (S (S (w_tick w))) conn_id client (trim rest) !"accepted" (Some label) None ++
       wait_out secs ++ map (sends s) [ok_line; chunksize_line])
       (event_ticks sink + S (S (w_tick w))) (set_rx (w_rx w0) (set_ws (w_ws w0) w))).
Proof.
  intros Hv. unfold run_greeting.
  rewrite greeting_opening, Htoken, strip_prefix_app. cbv zeta.
  set (w1 := set_rx _ _). assert (Hw1 : w_wr w1 = []) by (by destruct w).
  unfold check_greeting_token. rewrite Hcheck. fold (source_ip s).
  pose proof (opt_auth_done sink conn_id client (trim rest) !"accepted" (Some label) None opening
              (S (S (w_tick w))) w1) as Ha.
  set (tick := (event_ticks sink + _)%nat) in *.
  erewrite bind_Done.
  2:{ erewrite bind_Done by reflexivity. unfold verdict in Hv. unfold clock_from in Hv.
      change (w_wall (done_out opening (w_tick w) w1)) with (w_wall w).
      change (w_tick (done_out opening (w_tick w) w1)) with (w_tick w). rewrite Hv.
      change (set_tick _ (done_out opening (w_tick w) w1))
        with (done_out opening (S (S (w_tick w))) w1).
      rewrite (bind_Done _ _ _ _ _ Ha).
      rewrite (bind_Done _ _ _ tt (done_out ((opening ++ auth_out sink w1 (S (S (w_tick w))) conn_id
        client (trim rest) !"accepted" (Some label) None) ++ wait_out secs) tick w1)); [reflexivity|].
      unfold wait_out. destruct (secs >? 0); [|by rewrite app_nil_r].
      unfold act, done_out. cbn. by rewrite <- app_assoc. }
  rewrite (bind_Done _ _ _ _ _ (write_line_done s _ _ _ w1 Hw1)).
  rewrite (bind_Done _ _ _ _ _ (write_line_done s _ _ _ w1 Hw1)).
  unfold ret, auth_out. cbn [map]. repeat rewrite <- app_assoc. reflexivity.
Qed.

(** The dialogue of an accepted client: version, prompt, the [auth] event
    with the label of the key, the wait if the client is early, and only then OK
    and the chunk size range. *)
Theorem greeting_accepts secs label :
  verdict = Accepted secs label ->
  exists w',
    run_greeting s conn_id cfg keys sink client w =
      (Done (mkGreeting (greeting_uuid (trim rest)) (greeting_token_type (trim rest)) label), w') /\
    w_out w' = w_out w ++ opening ++
      auth_out sink w (S (S (w_tick w))) conn_id client (trim rest) !"accepted" (Some label) None ++
      wait_out secs ++ map (sends s) [ok_line; chunksize_line].
Proof.
  intros Hv%greeting_accepts_run. rewrite Hv. eexists. split; [reflexivity|].
  by destruct w.
Qed.

(** C26: the dialogue of a rejected client: version, prompt, the [auth] event with
    the reason, ERR; the connection ends with PermissionDenied and OK is never
    sent. *)
Theorem greeting_rejects :
  (forall secs label, verdict <> Accepted secs label) ->
  exists w',
    run_greeting s conn_id cfg keys sink client w =
      (Fail (mkErr PermissionDenied !"token rejected"), w') /\
    w_out w' = w_out w ++ opening ++
      auth_out sink w (S (S (w_tick w))) conn_id client (trim rest) !"rejected" None
        (Some (reject_reason verdict)) ++ [sends s err_line].
Proof.
  intros Hv. unfold run_greeting.
  rewrite greeting_opening, Htoken, strip_prefix_app. cbv zeta.
  set (w1 := set_rx _ _). assert (Hw1 : w_wr w1 = []) by (by destruct w).
  unfold check_greeting_token. rewrite Hcheck. fold (source_ip s).
  pose proof (opt_auth_done sink conn_id client (trim rest) !"rejected" None
    (Some (reject_reason verdict)) opening (S (S (w_tick w))) w1) as Ha.
  set (tick := (event_ticks sink + _)%nat) in *.
  rewrite (bind_Fail _ _ _ (mkErr PermissionDenied !"token rejected")
    (done_out ((opening ++ auth_out sink w1 (S (S (w_tick w))) conn_id client (trim rest)
       !"rejected" None (Some (reject_reason verdict))) ++ [sends s err_line]) tick w1)).
  2:{ erewrite bind_Done by reflexivity. unfold verdict, clock_from in *.
      change (w_wall (done_out opening (w_tick w) w1)) with (w_wall w).
      change (w_tick (done_out opening (w_tick w) w1)) with (w_tick w).
      change (set_tick _ (done_out opening (w_tick w) w1))
        with (done_out opening (S (S (w_tick w))) w1).
      destruct (validate_token _ _ _ _ _) as [secs lab| | | | | |]; [by destruct (Hv secs lab)|..];
        rewrite (bind_Done _ _ _ _ _ Ha), (bind_Done _ _ _ _ _ (write_line_done s _ _ _ w1 Hw1));
        reflexivity. }
  eexists. split; [reflexivity|]. unfold done_out. cbn [w_out set_tick set_out].
  change (w_out w1) with (w_out w). by rewrite <- !app_assoc.
Qed.
End dialogue.
End greeting.

(** ** Concrete runs *)

#[local] Existing Instance toy_crypto.

#[local] Instance build_1_9 : Build := {| RMBTD_VERSION := !"1.9.0"; RMBTD_BRANCH := !"main" |}.

Definition peer_a : Transport := mkTransport false (Some (SocketAddr_new ip_a 40000)).
Definition token_world : World := world_of (rx_of (lf ++ !"TOKEN " ++ token_b ++ lf)) [].
Definition forged_world : World :=
  world_of (rx_of (!"TOKEN " ++ make_test_token !"forged" uuid_a 1700000007 ip_a ++ lf)) [].
Definition sink_a : EventSink := mkSink !"host" 4242.

Lemma greeting_requires_token_witness :
  let r := run_greeting (Raw peer_a) 5 Config_default [key_a; key_b] None !"62.1.2.*" token_world in
  exists rest tick secs l,
    fst (first_line (S (input_left token_world)) (Raw peer_a) token_world)
      = Done (!"TOKEN " ++ rest) /\
    validate_token (clock_from token_world tick) (trim rest) [key_a; key_b]
      (source_ip (Raw peer_a)) false = Accepted secs !"control-b" /\
    uuid_a = greeting_uuid (trim rest) /\ !"v2" = greeting_token_type (trim rest) /\
    w_out (snd r) = l ++ map (sends (Raw peer_a)) [ok_line; chunksize_line] /\
    (0 < secs -> Slept secs ∈ l).
Proof.
  apply (greeting_requires_token (Raw peer_a) 5 Config_default [key_a; key_b] None !"62.1.2.*"
    token_world (mkGreeting uuid_a !"v2" !"control-b")).
  - vm_compute. reflexivity.
  - reflexivity.
Defined.

Lemma greeting_accepts_witness :
  exists w',
    run_greeting (Raw peer_a) 5 Config_default [key_a; key_b] (Some sink_a) !"62.1.2.*" token_world =
      (Done (mkGreeting (greeting_uuid (trim token_b)) (greeting_token_type (trim token_b))
               !"control-b"), w') /\
    w_out w' = w_out token_world ++ opening (Raw peer_a) ++
      auth_out (Some sink_a) token_world 2 5 !"62.1.2.*" (trim token_b) !"accepted"
        (Some !"control-b") None ++
      wait_out 7 ++ map (sends (Raw peer_a)) [ok_line; chunksize_line].
Proof.
  apply (greeting_accepts (Raw peer_a) 5 Config_default [key_a; key_b] (Some sink_a) !"62.1.2.*"
    (!"TOKEN " ++ token_b) token_b token_world
    (snd (first_line (S (input_left token_world)) (Raw peer_a) token_world))).
  - reflexivity.
  - vm_compute. reflexivity.
  - reflexivity.
  - reflexivity.
  - vm_compute. reflexivity.
Defined.

Lemma greeting_rejects_witness :
  let tok := make_test_token !"forged" uuid_a 1700000007 ip_a in
  exists w',
    run_greeting (Raw peer_a) 5 Config_default [key_a; key_b] (Some sink_a) !"62.1.2.*" forged_world =
      (Fail (mkErr PermissionDenied !"token rejected"), w') /\
    w_out w' = w_out forged_world ++ opening (Raw peer_a) ++
      auth_out (Some sink_a) forged_world 2 5 !"62.1.2.*" (trim tok) !"rejected" None
        (Some (reject_reason
          (validate_token (clock_from forged_world 0) (trim tok) [key_a; key_b]
             (source_ip (Raw peer_a)) false))) ++ [sends (Raw peer_a) err_line].
Proof.
  intros tok.
  apply (greeting_rejects (Raw peer_a) 5 Config_default [key_a; key_b] (Some sink_a) !"62.1.2.*"
    (!"TOKEN " ++ tok) tok forged_world
    (snd (first_line (S (input_left forged_world)) (Raw peer_a) forged_world))).
  - reflexivity.
  - vm_compute. reflexivity.
  - reflexivity.
  - reflexivity.
  - vm_compute. discriminate.
Defined.
