(* ===== verification/EventFacts.v ===== *)
(** * What the collector reads

    Every event body is a JSON object that reads back to exactly its fields,
    whatever strings the client chose; a frame is one line of text. *)

From stdpp Require Import vector.
From S2P Require Import Prelude RustStr Net Config Stats Json Io Events.

Abbreviation field := (str * json_value)%type.

(** The optional parts of a body as fields. *)
Definition opt_field (k : str) (v : option str) : list field :=
  match v with Some l => [(k, JStr l)] | None => [] end.

Definition int_value (v : Z) : json_value := JRaw (show_int v).
Definition bool_value (v : bool) : json_value := JRaw (show_bool v).
Definition float_value (v : f64) : json_value := JRaw (show_f64_3 v).

Lemma opt_str_holds fs j k v : holds fs j -> holds (fs ++ opt_field k v) (opt_str k v j).
Proof. intros Hj. destruct v; cbn; [by apply json_str_holds|by rewrite app_nil_r]. Qed.

(** Follow a chain of builder calls from the inside out. *)
Ltac build :=
  repeat first
    [ apply Json_new_holds
    | apply json_str_holds | apply json_int_holds | apply json_bool_holds
    | apply json_float_holds | apply opt_str_holds ].

Definition connect_fields (conn_id : Z) (client : str) (tls : bool) : list field :=
  [(!"event", JStr !"connect"); (!"conn", int_value (wrap_s 64 conn_id));
   (!"client", JStr client); (!"tls", bool_value tls)].

Definition auth_fields (conn_id : Z) (client uuid token_type result : str)
    (label reason : option str) : list field :=
  [(!"event", JStr !"auth"); (!"conn", int_value (wrap_s 64 conn_id)); (!"client", JStr client);
   (!"uuid", JStr uuid); (!"token", JStr token_type); (!"result", JStr result)] ++
  opt_field !"secret" label ++ opt_field !"reason" reason.

(** The measurements of a connection: a direction that carried data, or pings. *)
Definition download_fields (s : ConnStats) : list field :=
  if download_bytes s >? 0 then
    [(!"dl_bytes", int_value (wrap_s 64 (download_bytes s)));
     (!"dl_ms", float_value (ns_to_ms (download_ns s)));
     (!"dl_mbps", float_value (mbps (download_bytes s) (download_ns s)))]
  else [].

Definition upload_fields (s : ConnStats) : list field :=
  if upload_bytes s >? 0 then
    [(!"ul_bytes", int_value (wrap_s 64 (upload_bytes s)));
     (!"ul_ms", float_value (ns_to_ms (upload_ns s)));
     (!"ul_mbps", float_value (mbps (upload_bytes s) (upload_ns s)))]
  else [].

Definition ping_fields (s : ConnStats) : list field :=
  if ping_count s >? 0 then
    [(!"ping_count", int_value (ping_count s));
     (!"ping_min_ms", float_value (ns_to_ms (ping_min_ns s)));
     (!"ping_max_ms", float_value (ns_to_ms (ping_max_ns s)))]
  else [].

Definition close_fields (conn_id : Z) (uuid token_type secret : str) (tls : bool)
    (duration_ns : Z) (s : ConnStats) (end_reason : str) : list field :=
  [(!"event", JStr !"close"); (!"conn", int_value (wrap_s 64 conn_id)); (!"uuid", JStr uuid);
   (!"token", JStr token_type); (!"secret", JStr secret); (!"tls", bool_value tls);
   (!"end", JStr end_reason);
   (!"duration_ms", float_value (f64_mul (as_secs_f64 duration_ns) (f64_of_Z 1000)));
   (!"commands", int_value (commands s))] ++
  download_fields s ++ upload_fields s ++ ping_fields s.

(** An open object with [a ++ b] fields, from one with [a]. *)
Lemma holds_app a b j : holds (a ++ b) j -> forall c, c = a ++ b -> holds c j.
Proof. intros Hj c ->. done. Qed.

Lemma download_part_holds fs j s : holds fs j -> holds (fs ++ download_fields s) (download_part s j).
Proof.
  intros Hj. unfold download_part, download_fields.
  destruct (download_bytes s >? 0); [|by rewrite app_nil_r].
  eapply holds_app; [build; exact Hj|]. by rewrite <- !app_assoc.
Qed.

Lemma upload_part_holds fs j s : holds fs j -> holds (fs ++ upload_fields s) (upload_part s j).
Proof.
  intros Hj. unfold upload_part, upload_fields.
  destruct (upload_bytes s >? 0); [|by rewrite app_nil_r].
  eapply holds_app; [build; exact Hj|]. by rewrite <- !app_assoc.
Qed.

Lemma ping_part_holds fs j s : holds fs j -> holds (fs ++ ping_fields s) (ping_part s j).
Proof.
  intros Hj. unfold ping_part, ping_fields.
  destruct (ping_count s >? 0); [|by rewrite app_nil_r].
  eapply holds_app; [build; exact Hj|]. by rewrite <- !app_assoc.
Qed.

Lemma auth_holds conn_id client uuid tt_ result label reason :
  exists j, holds (auth_fields conn_id client uuid tt_ result label reason) j /\
    auth_body conn_id client uuid tt_ result label reason = json_done j.
Proof.
  eexists. split; [|reflexivity]. eapply holds_app; [build|].
  unfold auth_fields. by rewrite <- !app_assoc.
Qed.

Lemma connect_holds conn_id client tls :
  exists j, holds (connect_fields conn_id client tls) j /\
    connect_body conn_id client tls = json_done j.
Proof. eexists. split; [|reflexivity]. eapply holds_app; [build|]. done. Qed.

Lemma close_holds conn_id uuid tt_ secret tls ns s end_reason :
  exists j, holds (close_fields conn_id uuid tt_ secret tls ns s end_reason) j /\
    close_body conn_id uuid tt_ secret tls ns s end_reason = json_done j.
Proof.
  eexists. split; [|reflexivity]. eapply holds_app.
  - apply ping_part_holds, upload_part_holds, download_part_holds. build.
  - unfold close_fields. by rewrite <- !app_assoc.
Qed.

(** C31: the events of a connection cannot be forged through the token: whatever
    UUID, address text or secret label they carry, the bodies of the connect,
    auth and close events are JSON objects that read back to exactly the
    intended fields, in order, with the strings unchanged. *)
Theorem events_read_back conn_id client uuid tt_ result label reason secret tls ns s end_reason :
  read_object (connect_body conn_id client tls) = Some (connect_fields conn_id client tls) /\
  read_object (auth_body conn_id client uuid tt_ result label reason) =
    Some (auth_fields conn_id client uuid tt_ result label reason) /\
  read_object (close_body conn_id uuid tt_ secret tls ns s end_reason) =
    Some (close_fields conn_id uuid tt_ secret tls ns s end_reason).
Proof.
  destruct (connect_holds conn_id client tls) as (j1 & H1 & ->).
  destruct (auth_holds conn_id client uuid tt_ result label reason) as (j2 & H2 & ->).
  destruct (close_holds conn_id uuid tt_ secret tls ns s end_reason) as (j3 & H3 & ->).
  split_and!; by apply json_done_reads.
Qed.

(** ** One event, one line *)

Definition one_line (s : str) : Prop := Forall no_control s.

Lemma show_unsigned_no_control n : one_line (show_unsigned n).
Proof. apply raw_no_control, digits_raw, show_unsigned_digits. Qed.

Lemma frame_one_line k ts sev msgid body :
  one_line (es_hostname k) -> one_line ts -> one_line msgid -> one_line body ->
  one_line (frame k ts sev msgid body).
Proof.
  intros Hh Ht Hm Hb. unfold frame, one_line. rewrite !Forall_app.
  pose proof (show_unsigned_no_control (FACILITY * 8 + sev)).
  pose proof (show_unsigned_no_control (es_procid k)).
  split_and!; try done; repeat constructor; vm_compute; discriminate.
Qed.

(** An event is a single line, so a client cannot make one datagram look
    like several log records: if the host name and the time stamp have no
    control characters, the auth and close frames have none. *)
Theorem event_frames_one_line k ts conn_id client uuid tt_ result label reason secret tls ns s
    end_reason sev
    (Hh : one_line (es_hostname k)) (Ht : one_line ts) :
  one_line (frame k ts sev !"auth" (auth_body conn_id client uuid tt_ result label reason)) /\
  one_line (frame k ts sev !"close" (close_body conn_id uuid tt_ secret tls ns s end_reason)).
Proof.
  destruct (auth_holds conn_id client uuid tt_ result label reason) as (j2 & H2 & ->).
  destruct (close_holds conn_id uuid tt_ secret tls ns s end_reason) as (j3 & H3 & ->).
  split; apply frame_one_line; try done; try (by eapply json_done_no_control);
    repeat constructor; vm_compute; discriminate.
Qed.

Lemma event_frames_one_line_witness :
  let k := mkSink !"host" 4242 in
  let evil : str := [Byte.x0a; Byte.x22] ++ !"x" in
  one_line (frame k !"2026-06-21T12:34:56.789Z" SEV_INFO !"auth"
              (auth_body 7 evil evil !"v2" !"rejected" None (Some evil))) /\
  one_line (frame k !"2026-06-21T12:34:56.789Z" SEV_INFO !"close"
              (close_body 7 evil !"v2" evil true 1500000 ConnStats_new !"quit")).
Proof.
  intros k evil. apply (event_frames_one_line k); repeat constructor; vm_compute; discriminate.
Defined.

(** An auth event with a hostile UUID, as it is sent. *)
Example auth_event_text :
  auth_body 7 !"1.2.3.*" ([Byte.x22; Byte.x0a] ++ !"{") !"v2" !"rejected" None (Some !"invalid_ip") =
  !"{" ++ [quote] ++ !"event" ++ [quote] ++ !":" ++ [quote] ++ !"auth" ++ [quote] ++ !"," ++
  [quote] ++ !"conn" ++ [quote] ++ !":7," ++
  [quote] ++ !"client" ++ [quote] ++ !":" ++ [quote] ++ !"1.2.3.*" ++ [quote] ++ !"," ++
  [quote] ++ !"uuid" ++ [quote] ++ !":" ++ [quote] ++ [backslash] ++ [quote] ++ !"\n{" ++ [quote] ++
  !"," ++ [quote] ++ !"token" ++ [quote] ++ !":" ++ [quote] ++ !"v2" ++ [quote] ++ !"," ++
  [quote] ++ !"result" ++ [quote] ++ !":" ++ [quote] ++ !"rejected" ++ [quote] ++ !"," ++
  [quote] ++ !"reason" ++ [quote] ++ !":" ++ [quote] ++ !"invalid_ip" ++ [quote] ++ !"}".
Proof. by vm_compute. Qed.

(** Number formats: 1 MB in a second is 8.000 Mbit/s, and 1.5 ms. *)
Example numbers :
  show_f64_3 (mbps 1000000 1000000000) = !"8.000" /\
  show_f64_3 (ns_to_ms 1500000) = !"1.500" /\
  show_f64_3 (f64_mul (as_secs_f64 2500000000) (f64_of_Z 1000)) = !"2500.000".
Proof. by vm_compute. Qed.
