(* ===== verification/Version.v ===== *)
(** * The version: [version.rs] and the build script [build.rs]

    The build script resolves the version and the branch from the environment,
    from git and from the package; the endpoint [/version] reports them. *)

From S2P Require Import Prelude RustStr Net Config Stats Io Stream.

Definition crlf : str := [Byte.x0d; Byte.x0a].
Definition dquote : str := [Byte.x22].

(** ** build.rs *)

(** [env_override], [var] being [std::env::var(..).ok()] *)
Definition env_override (var : str -> option str) (name : str) : option str :=
  v ← var name;
  let v := trim v in
  if bool_decide (v = []) then None else Some v.

(** The output of a git command that succeeded: [None] when git is missing or
    fails. *)
Definition git_describe (stdout : option (list byte)) : option str :=
  out ← stdout;
  v ← from_utf8 out;
  let v := trim v in
  if bool_decide (v = []) then None else Some v.

Definition git_branch (stdout : option (list byte)) : option str :=
  out ← stdout;
  b ← from_utf8 out;
  let b := trim b in
  if negb (bool_decide (b = [])) && negb (str_eqb b !"HEAD") then Some b else None.

(** The two variables [main] of the build script sets. *)
Definition build_main (var : str -> option str) (describe branch : option (list byte))
    (CARGO_PKG_VERSION : str) : Build :=
  let version :=
    match or_else (env_override var !"RMBTD_VERSION") (fun _ => git_describe describe) with
    | Some v => v
    | None => CARGO_PKG_VERSION
    end in
  let version := match strip_prefix !"v" version with Some v => v | None => version end in
  let branch :=
    match or_else (env_override var !"RMBTD_BRANCH") (fun _ => git_branch branch) with
    | Some b => b
    | None => []
    end in
  {| RMBTD_VERSION := version; RMBTD_BRANCH := branch |}.

(** ** version.rs *)

Definition version_matches (target : str) : bool :=
  str_eqb target !"/version" || starts_with !"/version?" target.

Section version.
Context `{Build}.

Definition version : str :=
  let branch := RMBTD_BRANCH in
  if bool_decide (branch = []) then !"v" ++ RMBTD_VERSION
  else !"v" ++ RMBTD_VERSION ++ !"(" ++ branch ++ !")".

Definition version_body : str :=
  !"{" ++ dquote ++ !"version" ++ dquote ++ !":" ++ dquote ++ version ++ dquote ++ !"}".

(** [split(' ').next()] of the request line *)
Definition request_method (request_line : str) : str :=
  match split !" " request_line with m :: _ => m | [] => [] end.

Definition is_origin (line : str) : bool :=
  match split_once !":" line with
  | Some (k, _) => eq_ignore_ascii_case (trim k) !"origin"
  | None => false
  end.

Definition cors_header (origin : bool) : str :=
  if origin then !"Access-Control-Allow-Origin: *" ++ crlf else [].

Definition version_answer (method : str) : str * str * str :=
  if str_eqb method !"GET" then
    (!"200 OK", !"Content-Type: application/json" ++ crlf, version_body)
  else (!"405 Method Not Allowed", !"Allow: GET" ++ crlf, []).

Definition version_response (hsts_line cors status extra body : str) : str :=
  !"HTTP/1.1 " ++ status ++ crlf ++
  !"Connection: close" ++ crlf ++
  hsts_line ++ cors ++ extra ++
  !"Content-Length: " ++ show_unsigned (len body) ++ crlf ++
  crlf ++ body.

Definition version_handle (head hsts_line : str) : M str :=
  let lines := split crlf head in
  let method := request_method (nth 0 lines []) in
  let cors := cors_header (existsb is_origin (tail lines)) in
  let '(status, extra, body) := version_answer method in
  do* transport_write_all (version_response hsts_line cors status extra body) in
  do* transport_flush in
  ret (method ++ !" /version -> " ++ take 3 status).
End version.
