(* ===== verification/VersionFacts.v ===== *)
(** * What the version endpoint and the build script guarantee

    Every request to [/version] gets one complete, well framed answer; the
    version it reports is the release tag, however the build found it. *)

From S2P Require Import Prelude RustStr Net Config Stats Json Io Stream Version.

(** ** Framing of an answer *)

(** No line break of the text is followed by another one, nor by its end. *)
Fixpoint no_blank_line (s : str) : bool :=
  match s with
  | [] => true
  | c :: s' =>
      (negb (bool_decide (c = Byte.x0d)) ||
       match s' with
       | y :: x :: _ => negb (bool_decide (y = Byte.x0a) && bool_decide (x = Byte.x0d))
       | _ => false
       end)
      && no_blank_line s'
  end.

Lemma split_once_no_blank s r :
  no_blank_line s = true ->
  split_once (crlf ++ crlf) (s ++ crlf ++ crlf ++ r) = Some (s, r).
Proof.
  induction s as [|c s IH]; intros H; [done|]. cbn [no_blank_line] in H.
  apply andb_true_iff in H as [Hc Hs]. cbn [app split_once].
  assert (E : strip_prefix (crlf ++ crlf) (c :: s ++ crlf ++ crlf ++ r) = None).
  { cbn. destruct (decide (Byte.x0d = c)) as [<-|]; [|done].
    rewrite bool_decide_true in Hc by done. cbn in Hc. destruct s as [|y [|x s]]; [done|done|].
    cbn. destruct (decide (Byte.x0a = y)) as [<-|]; [|done].
    destruct (decide (Byte.x0d = x)) as [<-|]; [|done]. by rewrite !bool_decide_true in Hc. }
  rewrite E. by rewrite IH.
Qed.

Lemma no_blank_app s t :
  no_blank_line s = true -> no_blank_line t = true -> no_blank_line (s ++ t) = true.
Proof.
  intros Hs Ht. induction s as [|c s IH]; [done|]. cbn [app no_blank_line] in *.
  apply andb_true_iff in Hs as [Hc Hs]. rewrite IH by done. rewrite andb_true_r.
  apply orb_true_iff in Hc as [->|Hc]; [done|]. apply orb_true_iff. right.
  by destruct s as [|y [|x s]].
Qed.

Lemma digits_no_blank s : Forall (fun c => is_digit c = true) s -> no_blank_line s = true.
Proof.
  induction 1 as [|c s Hc _ IH]; [done|]. cbn [no_blank_line]. rewrite IH, andb_true_r.
  rewrite bool_decide_false; [done|]. intros ->. done.
Qed.

(** Text without a line break, in front of a line break. *)
Lemma no_blank_line_end v t :
  contains crlf v = false -> no_blank_line (crlf ++ t) = true ->
  no_blank_line (v ++ crlf ++ t) = true.
Proof.
  intros Hv Ht. induction v as [|c v IH]; [done|].
  assert (Hv' : contains crlf v = false).
  { apply not_true_iff_false. intros (a & r & ->)%contains_true.
    assert (E : contains crlf ((c :: a) ++ crlf ++ r) = true) by apply contains_app. cbn in E, Hv. congruence. }
  cbn [app no_blank_line]. rewrite IH, andb_true_r by done. apply orb_true_iff.
  destruct (decide (c = Byte.x0d)) as [->|]; [right|left; by rewrite bool_decide_false].
  destruct v as [|y [|x v]].
  - done.
  - cbn. by rewrite andb_false_r || (destruct (decide (y = Byte.x0a)) as [->|]; [done|by rewrite bool_decide_false]).
  - cbn. destruct (decide (y = Byte.x0a)) as [->|]; [|by rewrite bool_decide_false].
    assert (E : contains crlf ([] ++ crlf ++ (x :: v)) = true) by apply contains_app. cbn in E, Hv. congruence.
Qed.

(** ** The endpoint *)

Section endpoint.
Context `{Build}.

(** The header block of the answer. *)
Definition answer_head (hsts origin get : bool) (n : Z) : str :=
  !"HTTP/1.1 " ++ (if get then !"200 OK" else !"405 Method Not Allowed") ++ crlf ++
  !"Connection: close" ++ crlf ++
  (if hsts then HSTS_HEADER else []) ++
  (if origin then !"Access-Control-Allow-Origin: *" ++ crlf else []) ++
  (if get then !"Content-Type: application/json" else !"Allow: GET") ++ crlf ++
  !"Content-Length: " ++ show_unsigned n.

Lemma answer_head_framed hsts origin get n : no_blank_line (answer_head hsts origin get n) = true.
Proof.
  unfold answer_head.
  assert (Hd := digits_no_blank _ (show_unsigned_digits n)).
  assert (E : forall a b c d e f g h i,
    (a ++ b ++ c ++ d ++ e ++ f ++ g ++ h ++ i ++ !"Content-Length: " ++ show_unsigned n : str) =
    (a ++ b ++ c ++ d ++ e ++ f ++ g ++ h ++ i ++ !"Content-Length: ") ++ show_unsigned n)
    by (intros; by rewrite <- !app_assoc).
  rewrite E. apply no_blank_app; [|done]. by destruct hsts, origin, get.
Qed.

(** Every request to [/version] gets exactly one answer, written and flushed
    as a whole: a client that splits it at the first blank line finds the header
    block and the body, whose length the header block announces. A GET request
    gets the version, any other method a 405 and no body; a cross-origin request
    is allowed exactly when it names its origin. *)
Theorem version_endpoint hsts head w
    (Hw : w_wr w = []) :
  let meth := request_method (nth 0 (split crlf head) []) in
  let get := str_eqb meth !"GET" in
  let body := if get then version_body else [] in
  let h := answer_head hsts (existsb is_origin (tail (split crlf head))) get (len body) in
  let resp := h ++ crlf ++ crlf ++ body in
  version_handle head (if hsts then HSTS_HEADER else []) w =
    (Done (meth ++ !" /version -> " ++ (if get then !"200" else !"405")),
     set_out (w_out w ++ [Sent resp]) w) /\
  split_once (crlf ++ crlf) resp = Some (h, body).
Proof.
  intros meth get body h resp. split; [|apply split_once_no_blank, answer_head_framed].
  unfold version_handle, version_answer. fold meth. fold get.
  assert (E : forall status extra,
    (do* transport_write_all (version_response (if hsts then HSTS_HEADER else [])
           (cors_header (existsb is_origin (tail (split crlf head)))) status extra body) in
     do* transport_flush in ret (meth ++ !" /version -> " ++ take 3 status)) w =
    (Done (meth ++ !" /version -> " ++ take 3 status),
     set_out (w_out w ++ [Sent (version_response (if hsts then HSTS_HEADER else [])
       (cors_header (existsb is_origin (tail (split crlf head)))) status extra body)]) w)).
  { intros status extra. cbv [transport_write_all transport_flush bind next_write act ret].
    rewrite Hw. cbn. by rewrite Hw. }
  subst resp h. unfold answer_head.
  destruct get; cbn [fst snd]; rewrite E; unfold version_response, cors_header;
    by rewrite <- !app_assoc.
Qed.
End endpoint.

(** ** The build script *)

(** A line end after graphic text is trimmed. *)
Lemma trim_line_end s :
  s <> [] -> Forall (fun c => graphic c = true) s -> trim (s ++ [Byte.x0a]) = s.
Proof.
  intros Hne Hs. destruct s as [|c s]; [done|]. unfold trim. cbn [app].
  rewrite trim_start_graphic by (by inversion_clear Hs). rewrite app_comm_cons.
  destruct (exists_last Hne) as (l & d & El).
  assert (Hd : graphic d = true).
  { rewrite El in Hs. apply Forall_app in Hs as [_ Hs]. by inversion_clear Hs. }
  rewrite El. unfold trim_end. rewrite rev_app_distr, length_app. cbn [rev app length Nat.add].
  rewrite Nat.add_comm. cbn [Nat.add trim_front].
  assert (E : strip_any (map (@rev byte) white_space) (Byte.x0a :: rev (l ++ [d])) =
              Some (rev (l ++ [d]))).
  { rewrite rev_app_distr. cbn. reflexivity. }
  rewrite E.
  pose proof (trim_end_graphic d l Hd) as Ht. unfold trim_end in Ht. exact Ht.
Qed.

Lemma found_ascii tag v :
  Forall (fun c => graphic c = true) tag ->
  v ∈ [tag; !"v" ++ tag; tag ++ [Byte.x0a]; !"v" ++ tag ++ [Byte.x0a]] ->
  Forall (fun c => ascii c = true) v.
Proof.
  intros Hg Hin. assert (Ha := graphic_ascii _ Hg).
  rewrite !elem_of_cons, elem_of_nil in Hin.
  destruct Hin as [->|[->|[->|[->|[]]]]]; rewrite ?Forall_app; split_and?; by repeat constructor.
Qed.

(** A tag [vX.Y.Z] is reported as [X.Y.Z]: wherever the build finds the
    tag, in the environment or from git with its line end, with or without the
    [v]; the environment wins over git, and git over the package version. So the
    greeting never says [RMBTvv]. *)
Theorem version_resolution var describe branch pkg tag
    (Hgraphic : Forall (fun c => graphic c = true) tag) (Hne : tag <> [])
    (Hv : starts_with !"v" tag = false) :
  let build := build_main var describe branch pkg in
  let found t := t ∈ [tag; !"v" ++ tag; tag ++ [Byte.x0a]; !"v" ++ tag ++ [Byte.x0a]] in
  (match var !"RMBTD_VERSION", describe with
   | Some v, _ => found v
   | None, Some out => found out
   | None, None => pkg = tag \/ pkg = !"v" ++ tag
   end) ->
  @RMBTD_VERSION build = tag /\ @GREETING build = !"RMBTv" ++ tag ++ [Byte.x0a].
Proof.
  intros build found Hfound.
  enough (E : @RMBTD_VERSION build = tag) by (split; [done|]; unfold GREETING; by rewrite E).
  assert (Hvv : Forall (fun c => graphic c = true) (!"v" ++ tag)) by (by constructor).
  assert (Hstrip : forall v, v = tag \/ v = !"v" ++ tag ->
    match strip_prefix !"v" v with Some v => v | None => v end = tag).
  { intros v [->| ->]; [|by rewrite strip_prefix_app].
    unfold starts_with in Hv. by destruct (strip_prefix _ tag). }
  assert (Htrim : forall v, found v -> trim v = tag \/ trim v = !"v" ++ tag).
  { intros v Hin. unfold found in Hin. rewrite !elem_of_cons, elem_of_nil in Hin.
    destruct Hin as [->|[->|[->|[->|[]]]]].
    - left. by apply trim_graphic.
    - right. by apply trim_graphic.
    - left. by apply trim_line_end.
    - right. rewrite app_assoc. by apply trim_line_end. }
  assert (Hnb : forall v, found v -> bool_decide (trim v = []) = false)
    by (intros v Hin; apply bool_decide_eq_false; by destruct (Htrim v Hin) as [->| ->]).
  unfold build, build_main, env_override, git_describe, from_utf8. cbn [RMBTD_VERSION].
  destruct (var !"RMBTD_VERSION") as [v|]; cbn [mbind option_bind or_else].
  { rewrite Hnb by done. by apply Hstrip, Htrim. }
  destruct describe as [out|]; cbn [mbind option_bind or_else]; [|by apply Hstrip].
  rewrite utf8_valid_ascii by (by apply (found_ascii tag)). cbn [mbind option_bind].
  rewrite Hnb by done. by apply Hstrip, Htrim.
Qed.

(** ** The version that is served *)

Lemma version_body_read `{Build} :
  Forall (fun c => unescaped c = true) version ->
  read_object version_body = Some [(!"version", JStr version)].
Proof.
  intros Hv. rewrite <- (read_object_show [(!"version", JStr version)]); [|done|by repeat constructor].
  f_equal. unfold version_body. cbn [map join]. unfold show_field. cbn [fst snd show_value].
  rewrite (json_escape_same version) by done. do 2 (cbn; rewrite <- ?app_assoc). done.
Qed.

(** The JSON text is not escaped, so a branch with a double quote, which git
    allows, makes it unreadable. *)
Lemma version_quote_unreadable :
  let build := {| RMBTD_VERSION := !"1.9.0"; RMBTD_BRANCH := !"fix-" ++ dquote ++ !"x" |} in
  read_object (@version_body build) = None.
Proof. by vm_compute. Qed.

(** The version with its branch. *)
Definition version_text (tag br : str) : str :=
  !"v" ++ tag ++ (if bool_decide (br = []) then [] else !"(" ++ br ++ !")").

Lemma branch_resolution var describe branch pkg br :
  Forall (fun c => graphic c = true) br ->
  match var !"RMBTD_BRANCH", branch with
  | Some v, _ => v = br /\ br <> []
  | None, Some out => out = br ++ [Byte.x0a] /\ br <> [] /\ br <> !"HEAD"
  | None, None => br = []
  end -> @RMBTD_BRANCH (build_main var describe branch pkg) = br.
Proof.
  intros Hg Hbr. unfold build_main, env_override, git_branch, from_utf8. cbn [RMBTD_BRANCH].
  destruct (var !"RMBTD_BRANCH") as [v|]; cbn [mbind option_bind or_else].
  { destruct Hbr as [-> Hne]. by rewrite trim_graphic, bool_decide_false. }
  destruct branch as [out|]; cbn [mbind option_bind or_else]; [|done].
  destruct Hbr as (-> & Hne & Hh).
  rewrite utf8_valid_ascii
    by (apply Forall_app; split; [by apply graphic_ascii|by repeat constructor]).
  cbn [mbind option_bind]. rewrite trim_line_end, bool_decide_false by done.
  by rewrite (proj2 (str_eqb_false br !"HEAD")).
Qed.

(** C39: what was released is what is served: from the tag and the branch that
    the build finds in the environment or from git, a GET request to [/version]
    gets one well framed answer whose body is a JSON object with exactly the
    version [vX.Y.Z(branch)], the branch left out where there is none; tag and
    branch must not need escaping in JSON. *)
Theorem version_served (hsts : bool) head w var describe branch pkg tag br
    (Hw : w_wr w = []) (Hget : request_method (nth 0 (split crlf head) []) = !"GET")
    (Htag : Forall (fun c => graphic c = true) tag) (Hne : tag <> [])
    (Hv : starts_with !"v" tag = false) (Hbr : Forall (fun c => graphic c = true) br)
    (Hplain : Forall (fun c => unescaped c = true) (tag ++ br)) :
  let build := build_main var describe branch pkg in
  let found t := t ∈ [tag; !"v" ++ tag; tag ++ [Byte.x0a]; !"v" ++ tag ++ [Byte.x0a]] in
  (match var !"RMBTD_VERSION", describe with
   | Some v, _ => found v
   | None, Some out => found out
   | None, None => pkg = tag \/ pkg = !"v" ++ tag
   end) ->
  (match var !"RMBTD_BRANCH", branch with
   | Some v, _ => v = br /\ br <> []
   | None, Some out => out = br ++ [Byte.x0a] /\ br <> [] /\ br <> !"HEAD"
   | None, None => br = []
   end) ->
  exists h body,
    version_handle head (if hsts then HSTS_HEADER else []) w =
      (Done !"GET /version -> 200", set_out (w_out w ++ [Sent (h ++ crlf ++ crlf ++ body)]) w) /\
    split_once (crlf ++ crlf) (h ++ crlf ++ crlf ++ body) = Some (h, body) /\
    read_object body = Some [(!"version", JStr (version_text tag br))].
Proof.
  intros build found Hfound Hbranch.
  destruct (version_resolution var describe branch pkg tag Htag Hne Hv Hfound) as [Ev _].
  pose proof (branch_resolution var describe branch pkg br Hbr Hbranch) as Eb.
  fold build in Ev, Eb.
  destruct (@version_endpoint build hsts head w Hw) as [E1 E2]. rewrite Hget in E1, E2.
  eexists _, _. split; [exact E1|]. split; [exact E2|].
  assert (Et : @version build = version_text tag br).
  { unfold version, version_text. rewrite Ev, Eb. case_bool_decide; [by rewrite app_nil_r|done]. }
  change (if str_eqb !"GET" !"GET" then version_body else []) with (@version_body build).
  rewrite (@version_body_read build), Et; [done|]. rewrite Et. unfold version_text.
  apply Forall_app in Hplain as [Ht Hb].
  repeat (apply Forall_app; split); try done; [by repeat constructor|].
  case_bool_decide; [constructor|]. repeat (apply Forall_app; split); try done; by repeat constructor.
Qed.

#[local] Instance sample_build : Build := {| RMBTD_VERSION := !"1.9.0"; RMBTD_BRANCH := !"dev" |}.

Definition sample_world : World :=
  mkWorld [] [] (WsOther []) [] [] (fun _ => 0) (fun _ => 0%N) (fun _ => []) 0 [] ConnStats_new.

Lemma version_endpoint_witness :
  let head := !"GET /version HTTP/1.1" ++ crlf ++ !"Origin: https://example.org" in
  let body := version_body in
  let h := answer_head true true true (len body) in
  let resp := h ++ crlf ++ crlf ++ body in
  version_handle head HSTS_HEADER sample_world =
    (Done !"GET /version -> 200", set_out [Sent resp] sample_world) /\
  split_once (crlf ++ crlf) resp = Some (h, body).
Proof.
  apply (version_endpoint true (!"GET /version HTTP/1.1" ++ crlf ++ !"Origin: https://example.org")
           sample_world).
  reflexivity.
Defined.

Lemma version_resolution_witness :
  let build := build_main (fun _ => None) (Some (!"v1.9.0-1-g0601658" ++ [Byte.x0a])) None !"0.0.0-dev" in
  @RMBTD_VERSION build = !"1.9.0-1-g0601658" /\
  @GREETING build = !"RMBTv1.9.0-1-g0601658" ++ [Byte.x0a].
Proof.
  apply (version_resolution (fun _ => None) (Some (!"v1.9.0-1-g0601658" ++ [Byte.x0a])) None
           !"0.0.0-dev" !"1.9.0-1-g0601658").
  - apply (bool_decide_unpack _). reflexivity.
  - done.
  - reflexivity.
  - apply (bool_decide_unpack _). reflexivity.
Defined.

Lemma version_served_witness :
  let head := !"GET /version HTTP/1.1" ++ crlf ++ !"Host: example.org" in
  let tag := !"1.9.0-1-g0601658" in
  exists h body,
    @version_handle (build_main (fun _ => None) (Some (!"v" ++ tag ++ [Byte.x0a]))
        (Some (!"dev" ++ [Byte.x0a])) !"0.0.0-dev") head HSTS_HEADER sample_world =
      (Done !"GET /version -> 200", set_out [Sent (h ++ crlf ++ crlf ++ body)] sample_world) /\
    split_once (crlf ++ crlf) (h ++ crlf ++ crlf ++ body) = Some (h, body) /\
    read_object body = Some [(!"version", JStr !"v1.9.0-1-g0601658(dev)")].
Proof.
  apply (version_served true (!"GET /version HTTP/1.1" ++ crlf ++ !"Host: example.org") sample_world
    (fun _ => None) (Some (!"v" ++ !"1.9.0-1-g0601658" ++ [Byte.x0a])) (Some (!"dev" ++ [Byte.x0a]))
    !"0.0.0-dev" !"1.9.0-1-g0601658" !"dev").
  1-2: reflexivity.
  all: try (by apply (bool_decide_unpack _)); done.
Defined.
