(* ===== verification/IpCheck.v ===== *)
(** * The IP check: [ip_check.rs]

    [POST /ip] tells a client its address, its NAT type and, for a client with
    a valid token, a signature of the address.  [serde_json] is not part of the
    repository: its parser and printer are the fields of [Serde]. *)

From stdpp Require Import vector.
From S2P Require Import Prelude RustStr Net Crypto Config Token Stats Io Stream Version.

#[local] Set Warnings "-register-all".

(** ** [serde_json] *)

(** [serde_json::Value]; a number is its text. *)
Inductive Value : Type :=
  | VNull
  | VBool (b : bool)
  | VNumber (text : str)
  | VString (s : str)
  | VArray (l : list Value)
  | VObject (m : list (str * Value)).

(** [from_slice] with the text of its error, and [Value::to_string]. *)
Class Serde : Type := {
  from_slice : list byte -> result Value str;
  value_to_string : Value -> str
}.

(** [obj.get(k)] *)
Fixpoint obj_get (m : list (str * Value)) (k : str) : option Value :=
  match m with
  | [] => None
  | (k', v) :: m' => if str_eqb k' k then Some v else obj_get m' k
  end.

(** ** Constants and routing *)

Definition MAX_BODY : Z := 8192.
Definition MAX_DRAIN : Z := 64 * 1024.

Definition ip_matches (target : str) : bool :=
  str_eqb target !"/ip" || starts_with !"/ip?" target.

Definition is_json (content_type : str) : bool :=
  match split !";" content_type with
  | t :: _ => eq_ignore_ascii_case (trim t) !"application/json"
  | [] => false
  end.

(** ** NAT classification *)

(** [Ipv6Addr::segments()[0] & 0xffc0] *)
Definition v6_prefix10 (o : vec byte 16) : Z := Z.land (segment 0 o) 0xffc0.

Definition is_ip_local (ip : IpAddr) : bool :=
  match ip with
  | V4 a b c d => v4_is_loopback a b c d || v4_is_link_local a b c d || v4_is_private a b c d
  | V6 o =>
      let prefix := v6_prefix10 o in
      v6_is_loopback o || (prefix =? 0xfe80) || (prefix =? 0xfec0)
  end.

Definition ip_version (ip : IpAddr) : str := if is_ipv4 ip then !"ipv4" else !"ipv6".
Definition ip_scope (ip : IpAddr) : str := if is_ip_local ip then !"local" else !"public".

Definition nat_type (local : option IpAddr) (public : IpAddr) : str :=
  match local with
  | None => !"is_" ++ ip_version public
  | Some local =>
      if bool_decide (local = public) then !"no_nat_" ++ ip_version public
      else if Bool.eqb (is_ipv4 local) (is_ipv4 public) then
        !"nat_" ++ ip_scope local ++ !"_to_" ++ ip_scope public ++ !"_" ++ ip_version public
      else
        !"nat_" ++ ip_version local ++ !"_to_" ++ ip_scope public ++ !"_" ++ ip_version public
  end.

(** ** UUIDs and the signature *)

(** [hex.chunks(2)], each read by [u8::from_str_radix(.., 16)]; a leading plus
    sign cannot occur, the characters being hex digits. *)
Fixpoint hex_pairs (hex : str) : option (list byte) :=
  match hex with
  | h :: l :: hex' =>
      hi ← hex_val h; lo ← hex_val l; r ← hex_pairs hex'; Some (zb (hi * 16 + lo) :: r)
  | [] => Some []
  | _ => None
  end.

Definition parse_uuid (s : str) : option (list byte) :=
  if negb (len s =? 36)
     || existsb (fun i => negb (bool_decide (s !! i = Some Byte.x2d))) [8; 13; 18; 23]%nat
  then None
  else
    let hex := filter (fun c => c <> Byte.x2d) s in
    if negb (len hex =? 32) || negb (forallb is_ascii_hexdigit hex) then None
    else hex_pairs hex.

Definition ip16 (ip : IpAddr) : list byte :=
  match ip with
  | V4 a b c d => vec_to_list (to_ipv6_mapped a b c d)
  | V6 o => vec_to_list o
  end.

Definition token_error (rejected : TokenResult) : str :=
  match rejected with
  | TooEarly reason | TooLate reason => !"invalid token: " ++ reason
  | ParseError => !"invalid token: malformed"
  | _ => !"invalid token"
  end.

Record IpAnswer : Type := mkIpAnswer { ia_json : str; ia_note : str }.

Definition IpError : Type := (str * str)%type.
Definition bad_request (msg : str) : IpError := (!"400 Bad Request", msg).
Definition forbidden (msg : str) : IpError := (!"403 Forbidden", msg).

Section ip_check.
Context `{Crypto} `{Serde}.

Definition ip_signature (key : list byte) (ip : IpAddr) (open_test_uuid : list byte) : list byte :=
  mac_sha256 key (ip16 ip ++ open_test_uuid).

Definition error_body (msg : str) : str :=
  value_to_string (VObject [(!"error", VArray [VString msg])]).

(** ** The answer to a request body *)

(** [client_ip_local] as a string. *)
Definition local_field (obj : list (str * Value)) : result (option str) IpError :=
  match obj_get obj !"client_ip_local" with
  | None | Some VNull => Ok None
  | Some (VString s) => if bool_decide (trim s = []) then Ok None else Ok (Some s)
  | Some (VNumber _ as v) | Some (VBool _ as v) => Ok (Some (value_to_string v))
  | Some _ => Err (bad_request !"Invalid request format: client_ip_local must be a string")
  end.

Definition local_addr (local : option str) : result (option IpAddr) IpError :=
  match local with
  | None => Ok None
  | Some s =>
      match parse_ip s with
      | Some ip => Ok (Some (to_canonical ip))
      | None => Err (bad_request !"client_ip_local must be valid IP address")
      end
  end.

Definition token_field (obj : list (str * Value)) : result (option str) IpError :=
  match obj_get obj !"token" with
  | Some (VString s) => if bool_decide (trim s = []) then Ok None else Ok (Some s)
  | None | Some VNull => Ok None
  | Some _ => Err (bad_request !"Invalid request format: token must be a string")
  end.

Definition quoted (s : str) : str := dquote ++ s ++ dquote.
Definition show_matching (b : bool) : str := if b then !"true" else !"false".

(** The members every answer has. *)
Definition answer_head (public : IpAddr) (nat : str) : str :=
  !"{" ++ quoted !"v" ++ !":" ++ quoted (if is_ipv4 public then !"4" else !"6") ++ !"," ++
  quoted !"ip" ++ !":" ++ quoted (show_ip public) ++ !"," ++
  quoted !"nat_type" ++ !":" ++ quoted nat.

(** The members a token adds. *)
Definition answer_signature (matching : bool) (signature : list byte) : str :=
  !"," ++ quoted !"matching_ip" ++ !":" ++ show_matching matching ++ !"," ++
  quoted !"signature" ++ !":" ++ quoted (B64_encode signature).

Definition signed_part (clk : clock) (token : str) (keys : list SecretKey) (public : IpAddr)
    : result (str * str) IpError :=
  match check_ip_token clk token keys public with
  | Err rejected => Err (forbidden (token_error rejected))
  | Ok checked =>
      match parse_uuid (open_test_uuid checked) with
      | None => Err (forbidden !"invalid token: malformed open test UUID")
      | Some uuid =>
          let signature := ip_signature (key (it_key checked)) public uuid in
          Ok (answer_signature (matching_ip checked) signature,
              !", key '" ++ label (it_key checked) ++ !"', matching_ip=" ++
              show_matching (matching_ip checked) ++ !", signed")
      end
  end.

Definition ip_response (clk : clock) (body : list byte) (public : IpAddr) (keys : list SecretKey)
    : result IpAnswer IpError :=
  if bool_decide (body = []) then Err (bad_request !"Required request body is missing")
  else
    match from_slice body with
    | Err e => Err (bad_request (!"Invalid request format: " ++ e))
    | Ok (VObject obj) =>
        match local_field obj with
        | Err e => Err e
        | Ok local =>
            match local_addr local with
            | Err e => Err e
            | Ok local =>
                match token_field obj with
                | Err e => Err e
                | Ok token =>
                    let public := to_canonical public in
                    let nat := nat_type local public in
                    let json := answer_head public nat in
                    match token with
                    | None => Ok (mkIpAnswer (json ++ !"}") (nat ++ !", no token, unsigned"))
                    | Some token =>
                        match signed_part clk token keys public with
                        | Err e => Err e
                        | Ok (members, note) =>
                            Ok (mkIpAnswer (json ++ members ++ !"}") (nat ++ note))
                        end
                    end
                end
            end
        end
    | Ok _ => Err (bad_request !"Invalid request format: expected a JSON object")
    end.

(** ** The request *)

Record Head : Type := mkHead {
  content_length : Z;
  content_type : str;
  chunked : bool;
  origin : bool;
  request_headers : str
}.

Definition Head_empty : Head := mkHead 0 [] false false [].

(** One header line; [None] for a bad Content-Length. *)
Definition scan_header (line : str) (h : Head) : option Head :=
  match split_once !":" line with
  | None => Some h
  | Some (name, value) =>
      let value := trim value in
      let name := to_ascii_lowercase (trim name) in
      if str_eqb name !"content-length" then
        n ← parse_unsigned u64_max value;
        Some (mkHead n (content_type h) (chunked h) (origin h) (request_headers h))
      else if str_eqb name !"content-type" then
        Some (mkHead (content_length h) value (chunked h) (origin h) (request_headers h))
      else if str_eqb name !"transfer-encoding" then
        Some (mkHead (content_length h) (content_type h)
                (contains !"chunked" (to_ascii_lowercase value)) (origin h) (request_headers h))
      else if str_eqb name !"origin" then
        Some (mkHead (content_length h) (content_type h) (chunked h) true (request_headers h))
      else if str_eqb name !"access-control-request-headers" then
        Some (mkHead (content_length h) (content_type h) (chunked h) (origin h) value)
      else Some h
  end.

Fixpoint scan_headers (lines : list str) (h : Head) : option Head :=
  match lines with
  | [] => Some h
  | l :: ls => h' ← scan_header l h; scan_headers ls h'
  end.

(** The answer of the handler: status, extra headers, body and the note. *)
Record Answer : Type := mkAnswer {
  an_status : str;
  an_extra : str;
  an_body : str;
  an_note : option str
}.

Definition post_body (t : Transport) (h : Head) (keys : list SecretKey) : M Answer :=
  let* buf := on_rx (rx_upto (Z.to_nat (content_length h))) in
  if len buf <? content_length h then fail UnexpectedEof !"request body truncated"
  else
    match transport_peer_addr t with
    | None => fail OtherKind !"peer address unavailable"
    | Some sa =>
        if negb (is_json (content_type h)) then
          ret (mkAnswer !"415 Unsupported Media Type" (!"Accept: application/json" ++ crlf)
                 (error_body !"Content-Type must be application/json") None)
        else
          let* clk := wall_clock in
          match ip_response clk buf (sa_ip sa) keys with
          | Ok answer => ret (mkAnswer !"200 OK" [] (ia_json answer) (Some (ia_note answer)))
          | Err (status, msg) => ret (mkAnswer status [] (error_body msg) None)
          end
    end.

Definition ip_answer (t : Transport) (method : str) (h : Head) (keys : list SecretKey) : M Answer :=
  if str_eqb method !"OPTIONS" then
    ret (mkAnswer !"200 OK"
           (!"Access-Control-Allow-Methods: POST, OPTIONS" ++ crlf ++
            !"Access-Control-Allow-Headers: " ++ request_headers h ++ crlf ++
            !"Access-Control-Max-Age: 1800" ++ crlf) [] None)
  else if str_eqb method !"POST" then
    if chunked h then
      ret (mkAnswer !"411 Length Required" [] (error_body !"Content-Length required") None)
    else if content_length h >? MAX_BODY then
      do* on_rx (rx_upto (Z.to_nat (Z.min (content_length h) MAX_DRAIN))) in
      ret (mkAnswer !"413 Content Too Large" [] (error_body !"request body too large") None)
    else post_body t h keys
  else ret (mkAnswer !"405 Method Not Allowed" (!"Allow: POST, OPTIONS" ++ crlf) [] None).

Definition ip_http (hsts_line cors : str) (a : Answer) : str :=
  let content_type :=
    if bool_decide (an_body a = []) then [] else !"Content-Type: application/json" ++ crlf in
  !"HTTP/1.1 " ++ an_status a ++ crlf ++
  !"Connection: close" ++ crlf ++
  hsts_line ++ cors ++ an_extra a ++ content_type ++
  !"Cache-Control: no-cache, no-store, max-age=0, must-revalidate" ++ crlf ++
  !"Content-Length: " ++ show_unsigned (len (an_body a)) ++ crlf ++
  crlf ++ an_body a.

Definition ip_handle (t : Transport) (head hsts_line : str) (keys : list SecretKey) : M str :=
  let lines := split crlf head in
  let method := request_method (nth 0 lines []) in
  match scan_headers (tail lines) Head_empty with
  | None => fail InvalidData !"bad Content-Length"
  | Some h =>
      let* a := ip_answer t method h keys in
      do* transport_write_all (ip_http hsts_line (cors_header (origin h)) a) in
      do* transport_flush in
      let code := take 3 (an_status a) in
      ret (match an_note a with
           | Some note => method ++ !" /ip -> " ++ code ++ !" (" ++ note ++ !")"
           | None => method ++ !" /ip -> " ++ code
           end)
  end.
End ip_check.
