(* ===== verification/RefSerde.v ===== *)
(** * A concrete instance of the JSON interface

    A reader of JSON texts, strings being read with the reader of [Json], and a
    printer in compact form. The fuel is the length of the text, and every call
    is for a shorter rest. *)

From S2P Require Import Prelude RustStr Json IpCheck.

(** White space between tokens. *)
Fixpoint skip_ws (s : str) : str :=
  match s with
  | c :: s' =>
      if bool_decide (c ∈ [Byte.x20; Byte.x0a; Byte.x0d; Byte.x09]) then skip_ws s' else s
  | [] => []
  end.

Definition number_char (c : byte) : bool :=
  is_digit c || bool_decide (c ∈ !"+-.eE").

Fixpoint take_number (s : str) : str * str :=
  match s with
  | c :: s' => if number_char c then let '(t, r) := take_number s' in (c :: t, r) else ([], s)
  | [] => ([], [])
  end.

(** A word or a number. *)
Definition read_word (s : str) : option (Value * str) :=
  match strip_prefix !"null" s with
  | Some r => Some (VNull, r)
  | None =>
      match strip_prefix !"true" s with
      | Some r => Some (VBool true, r)
      | None =>
          match strip_prefix !"false" s with
          | Some r => Some (VBool false, r)
          | None =>
              let '(t, r) := take_number s in
              if existsb is_digit t then Some (VNumber t, r) else None
          end
      end
  end.

(** A value at the front of the text, white space in front of it skipped. The
    members of an object and the elements of an array are read with the opening
    bracket or the comma in front of them. *)
Fixpoint read_json (fuel : nat) (s : str) : option (Value * str) :=
  match fuel with
  | O => None
  | S f =>
      match skip_ws s with
      | Byte.x22 :: s1 => '(t, r) ← read_string s1; Some (VString t, r)
      | Byte.x7b :: s1 =>
          match skip_ws s1 with
          | Byte.x7d :: r => Some (VObject [], r)
          | _ => '(m, r) ← read_members f s1; Some (VObject m, r)
          end
      | Byte.x5b :: s1 =>
          match skip_ws s1 with
          | Byte.x5d :: r => Some (VArray [], r)
          | _ => '(l, r) ← read_elements f s1; Some (VArray l, r)
          end
      | s1 => read_word s1
      end
  end
with read_members (fuel : nat) (s : str) : option (list (str * Value) * str) :=
  match fuel with
  | O => None
  | S f =>
      s1 ← strip_prefix [quote] (skip_ws s);
      '(k, s2) ← read_string s1;
      s3 ← strip_prefix !":" (skip_ws s2);
      '(v, s4) ← read_json f s3;
      match skip_ws s4 with
      | Byte.x2c :: s5 => '(m, r) ← read_members f s5; Some ((k, v) :: m, r)
      | Byte.x7d :: r => Some ([(k, v)], r)
      | _ => None
      end
  end
with read_elements (fuel : nat) (s : str) : option (list Value * str) :=
  match fuel with
  | O => None
  | S f =>
      '(v, s1) ← read_json f s;
      match skip_ws s1 with
      | Byte.x2c :: s2 => '(l, r) ← read_elements f s2; Some (v :: l, r)
      | Byte.x5d :: r => Some ([v], r)
      | _ => None
      end
  end.

(** Of members with the same name the last one counts. *)
Definition last_members (m : list (str * Value)) : list (str * Value) :=
  fold_right (fun f acc => if existsb (fun g => str_eqb (fst g) (fst f)) acc then acc else f :: acc) [] m.

Fixpoint normalise (fuel : nat) (v : Value) : Value :=
  match fuel with
  | O => v
  | S f =>
      match v with
      | VObject m => VObject (last_members (map (fun x => (fst x, normalise f (snd x))) m))
      | VArray l => VArray (map (normalise f) l)
      | v => v
      end
  end.

Definition ref_from_slice (body : list byte) : result Value str :=
  match read_json (S (length body)) body with
  | Some (v, r) =>
      match skip_ws r with
      | [] => Ok (normalise (length body) v)
      | _ => Err !"trailing characters"
      end
  | None => Err !"invalid JSON"
  end.

Fixpoint print_value (v : Value) : str :=
  match v with
  | VNull => !"null"
  | VBool b => if b then !"true" else !"false"
  | VNumber t => t
  | VString s => [quote] ++ json_escape s ++ [quote]
  | VArray l => !"[" ++ join !"," (map print_value l) ++ !"]"
  | VObject m =>
      !"{" ++ join !"," (map (fun f => [quote] ++ json_escape (fst f) ++ [quote] ++ !":" ++
                                       print_value (snd f)) m) ++ !"}"
  end.

Definition ref_serde : Serde :=
  {| from_slice := ref_from_slice; value_to_string := print_value |}.

Example error_body_text :
  error_body (H0 := ref_serde) !"request body too large" =
  !"{" ++ [quote] ++ !"error" ++ [quote] ++ !":[" ++ [quote] ++ !"request body too large" ++
  [quote] ++ !"]}".
Proof. by vm_compute. Qed.
