(* ===== verification/IpFacts.v ===== *)
(** * What the IP check guarantees

    A signed answer is given exactly for a valid token and binds the client's
    address and the test; the classification of the NAT is unambiguous; the
    request body is bounded. *)

From stdpp Require Import vector.
From S2P Require Import Prelude RustStr Net NetFacts Crypto RefCrypto Config Token TokenFacts Stats Io Json Stream StreamFacts Version IpCheck RefSerde.

(** ** UUIDs *)

(** The canonical text of 16 bytes. *)
Definition format_uuid (u : list byte) : str :=
  hex (slice 0 4 u) ++ !"-" ++ hex (slice 4 6 u) ++ !"-" ++ hex (slice 6 8 u) ++ !"-" ++
  hex (slice 8 10 u) ++ !"-" ++ hex (slice 10 16 u).

Definition dash : byte := Byte.x2d.

(** The two digits of a byte. *)
Lemma hex_pad_2 b : hex_pad 2 (bz b) = [hex_digit (bz b / 16); hex_digit (bz b mod 16)].
Proof.
  cbn. pose proof (bz_range b). rewrite (Z.mod_small (bz b / 16)); [done|].
  split; [apply Z.div_pos; lia|apply Z.div_lt_upper_bound; lia].
Qed.

Lemma byte_digits b : 0 <= bz b / 16 < 16 /\ 0 <= bz b mod 16 < 16.
Proof.
  pose proof (bz_range b). split; [|apply Z.mod_pos_bound; lia].
  split; [apply Z.div_pos; lia|apply Z.div_lt_upper_bound; lia].
Qed.

(** A hexadecimal digit is a hex digit, graphic and no separator. *)
Lemma hex_digit_facts d :
  0 <= d < 16 -> is_ascii_hexdigit (hex_digit d) = true /\ graphic (hex_digit d) = true /\
    hex_digit d <> dash /\ hex_digit d <> Byte.x5f /\ hex_digit d <> Byte.x23.
Proof.
  intros Hd. assert (Hi : exists i : nat, (i < 16)%nat /\ d = Z.of_nat i) by (exists (Z.to_nat d); lia).
  destruct Hi as (i & Hi & ->).
  do 16 (destruct i as [|i]; [split_and!; by vm_compute|]). lia.
Qed.

Lemma hex_facts l :
  Forall (fun c => is_ascii_hexdigit c = true /\ graphic c = true /\ c <> dash /\ c <> Byte.x5f /\
                   c <> Byte.x23) (hex l).
Proof.
  induction l as [|b l IH]; [constructor|]. unfold hex. cbn [map concat]. rewrite hex_pad_2.
  destruct (byte_digits b). apply Forall_app. split; [|done].
  repeat constructor; try by apply hex_digit_facts.
Qed.

Lemma hex_app l k : hex (l ++ k) = hex l ++ hex k.
Proof. unfold hex. by rewrite map_app, concat_app. Qed.

Lemma length_hex l : length (hex l) = (2 * length l)%nat.
Proof.
  induction l as [|b l IH]; [done|]. unfold hex in *. cbn [map concat].
  rewrite length_app, IH, hex_pad_2. cbn. lia.
Qed.

Lemma hex_pairs_hex l : hex_pairs (hex l) = Some l.
Proof.
  induction l as [|b l IH]; [done|]. unfold hex in *. cbn [map concat]. rewrite hex_pad_2.
  destruct (byte_digits b) as [H1 H2]. cbn [app hex_pairs].
  rewrite !hex_val_hex_digit by done. cbn [mbind option_bind]. rewrite IH.
  cbn [mbind option_bind]. do 2 f_equal.
  replace (bz b / 16 * 16 + bz b mod 16) with (bz b) by (rewrite (Z.div_mod (bz b) 16) at 1; lia).
  apply zb_bz.
Qed.

Lemma filter_hex l k : filter (fun c => c <> dash) (hex l ++ k) = hex l ++ filter (fun c => c <> dash) k.
Proof.
  rewrite filter_app. f_equal. pose proof (hex_facts l) as H.
  induction H as [|c x (_ & _ & Hc & _) _ IH]; [done|]. by rewrite filter_cons_True, IH.
Qed.

Lemma filter_dash k : filter (fun c => c <> dash) (!"-" ++ k) = filter (fun c => c <> dash) k.
Proof.
  change (!"-" ++ k) with (dash :: k). rewrite filter_cons_False; [done|].
  intros Hn. by apply Hn.
Qed.

Lemma slices_uuid (u : list byte) :
  length u = 16%nat ->
  u = slice 0 4 u ++ slice 4 6 u ++ slice 6 8 u ++ slice 8 10 u ++ slice 10 16 u /\
  length (slice 0 4 u) = 4%nat /\ length (slice 4 6 u) = 2%nat /\ length (slice 6 8 u) = 2%nat /\
  length (slice 8 10 u) = 2%nat /\ length (slice 10 16 u) = 6%nat.
Proof.
  intros Hu. do 17 (destruct u as [|? u]; cbn in Hu; try lia). by split_and!.
Qed.

Lemma hexdigits_hex l : forallb is_ascii_hexdigit (hex l) = true.
Proof.
  apply forallb_forall. intros c Hc. pose proof (hex_facts l) as H. rewrite List.Forall_forall in H.
  by apply H.
Qed.

Lemma format_uuid_chars u :
  Forall (fun c => graphic c = true /\ c <> Byte.x5f /\ c <> Byte.x23) (format_uuid u).
Proof.
  unfold format_uuid.
  assert (Hh : forall l, Forall (fun c => graphic c = true /\ c <> Byte.x5f /\ c <> Byte.x23) (hex l)).
  { intros l. eapply Forall_impl; [apply hex_facts|]. naive_solver. }
  repeat (apply Forall_app; split); try apply Hh; by repeat constructor.
Qed.

Lemma length_format_uuid u : length u = 16%nat -> length (format_uuid u) = 36%nat.
Proof.
  intros Hu. destruct (slices_uuid u Hu) as (_ & H1 & H2 & H3 & H4 & H5).
  unfold format_uuid. rewrite !length_app, !length_hex, H1, H2, H3, H4, H5. done.
Qed.

Lemma parse_format_uuid u : length u = 16%nat -> parse_uuid (format_uuid u) = Some u.
Proof.
  intros Hu. destruct (slices_uuid u Hu) as (Hs & H1 & H2 & H3 & H4 & H5).
  unfold parse_uuid. rewrite length_format_uuid by done. cbn [Z.of_nat].
  assert (Hd : existsb (fun i => negb (bool_decide (format_uuid u !! i = Some Byte.x2d)))
                 [8; 13; 18; 23]%nat = false).
  { assert (Hat : forall (a b : str) i, length a = i -> (a ++ !"-" ++ b) !! i = Some Byte.x2d).
    { intros a b i <-. rewrite lookup_app_r by lia. by rewrite Nat.sub_diag. }
    cbn [existsb]. unfold format_uuid. rewrite !bool_decide_true; [done|..].
    - rewrite !app_assoc, <- (app_assoc _ !"-"). apply Hat.
      rewrite !length_app, !length_hex, H1, H2, H3, H4. done.
    - rewrite (app_assoc (hex (slice 0 4 u))), (app_assoc (_ ++ _)), (app_assoc ((_ ++ _) ++ _)),
        (app_assoc (((_ ++ _) ++ _) ++ _)).
      apply Hat. rewrite !length_app, !length_hex, H1, H2, H3. done.
    - rewrite (app_assoc (hex (slice 0 4 u))), (app_assoc (_ ++ _)).
      apply Hat. rewrite !length_app, !length_hex, H1, H2. done.
    - apply Hat. by rewrite length_hex, H1. }
  rewrite Hd. change (negb (Z.of_nat 36 =? 36)) with false. cbn [orb].
  assert (Hf : filter (fun c => c <> dash) (format_uuid u) = hex u).
  { unfold format_uuid. rewrite !filter_hex, ?filter_dash.
    repeat (rewrite filter_hex, filter_dash).
    rewrite <- (app_nil_r (hex (slice 10 16 u))), filter_hex, filter_nil, app_nil_r.
    by rewrite <- !hex_app, <- Hs. }
  fold dash. rewrite Hf, length_hex, Hu, hexdigits_hex. apply hex_pairs_hex.
Qed.

Lemma hex_pairs_length l u : hex_pairs l = Some u -> length l = (2 * length u)%nat.
Proof.
  revert u. enough (forall n (m : str) u, (length m <= n)%nat -> hex_pairs m = Some u ->
                      length m = (2 * length u)%nat) by eauto.
  induction n as [|n IH]; intros [|h [|d m]] u Hl E; cbn in *; simplify_eq; try done; try lia.
  destruct (hex_val h), (hex_val d), (hex_pairs m) as [r|] eqn:Er; cbn in E; simplify_eq.
  apply IH in Er; [|lia]. cbn. lia.
Qed.

(** UUIDs are read exactly: the canonical text of any 16 bytes is parsed
    back to these bytes, and whatever is parsed has 36 characters and gives 16
    bytes. *)
Theorem parse_uuid_roundtrip u s v
    (Hu : length u = 16%nat) (Hs : parse_uuid s = Some v) :
  parse_uuid (format_uuid u) = Some u /\ length s = 36%nat /\ length v = 16%nat.
Proof.
  split; [by apply parse_format_uuid|]. unfold parse_uuid in Hs.
  destruct (_ || existsb _ _) eqn:E1; [done|].
  destruct (_ || negb (forallb _ _)) eqn:E2; [done|]. to_prop.
  apply hex_pairs_length in Hs. split; lia.
Qed.

(** ** NAT classification *)

(** The NAT type tells the situations apart: equal strings mean the same IP
    version of the public address, agreement on whether there is a NAT and
    whether it changes the IP version, the same scope of the public address
    behind a NAT, and the same scope of the local one if the version is kept. *)
Theorem nat_type_unambiguous l p l' p'
    (H : nat_type (Some l) p = nat_type (Some l') p') :
  is_ipv4 p = is_ipv4 p' /\ (l = p <-> l' = p') /\ is_ipv4 l = is_ipv4 l' /\
  (l <> p -> is_ip_local p = is_ip_local p' /\
             (is_ipv4 l = is_ipv4 p -> is_ip_local l = is_ip_local l')).
Proof.
  unfold nat_type, ip_version, ip_scope in H.
  destruct (decide (l = p)) as [->|Hl]; destruct (decide (l' = p')) as [->|Hl'].
  - rewrite !bool_decide_true in H by done.
    destruct (is_ipv4 p) eqn:E1, (is_ipv4 p') eqn:E2; try discriminate H; naive_solver.
  - rewrite bool_decide_true, bool_decide_false in H by done. exfalso.
    destruct (is_ipv4 p), (is_ipv4 l'), (is_ipv4 p'), (is_ip_local l'), (is_ip_local p');
      discriminate H.
  - rewrite bool_decide_false, bool_decide_true in H by done. exfalso.
    destruct (is_ipv4 p), (is_ipv4 l), (is_ipv4 p'), (is_ip_local l), (is_ip_local p);
      discriminate H.
  - rewrite !bool_decide_false in H by done.
    destruct (is_ipv4 p) eqn:E1, (is_ipv4 p') eqn:E2, (is_ipv4 l) eqn:E3, (is_ipv4 l') eqn:E4,
      (is_ip_local p) eqn:E5, (is_ip_local p') eqn:E6, (is_ip_local l) eqn:E7,
      (is_ip_local l') eqn:E8; try discriminate H; naive_solver.
Qed.

(** ** The signature *)

Lemma ip16_mapped ip : ip16 ip = mapped_ipv6 ip.
Proof. by destruct ip. Qed.

Lemma to_canonical_idemp ip : to_canonical (to_canonical ip) = to_canonical ip.
Proof.
  destruct ip as [|o]; [done|]. cbn. destruct (to_ipv4_mapped o) as [v4|] eqn:E.
  - apply to_ipv4_mapped_Some in E as (a & b & c & d & -> & _). done.
  - cbn. by rewrite E.
Qed.

Lemma length_ip16 ip : length (ip16 ip) = 16%nat.
Proof. destruct ip as [|o]; [done|]. cbn. apply length_vec_to_list. Qed.

Section answers.
Context `{Crypto} `{Serde}.

(** The body of an answer. *)
Definition answer_text (public : IpAddr) (local : option IpAddr) (members : str) : str :=
  answer_head public (nat_type local public) ++ members ++ !"}".

(** C17: what an answer proves: a signed answer is given only for a token that
    [check_ip_token] accepts for the address seen, signed with the key that
    validated it over this address and the UUID of the token; without a token the
    answer carries no signature. Nothing else gets a 200 answer. *)
Theorem ip_answer_authentic clk body public keys a
    (Hok : ip_response clk body public keys = Ok a) :
  let pub := to_canonical public in
  exists obj local,
    from_slice body = Ok (VObject obj) /\
    ((token_field obj = Ok None /\ ia_json a = answer_text pub local []) \/
     exists token checked uuid,
       token_field obj = Ok (Some token) /\
       check_ip_token clk token keys pub = Ok checked /\
       parse_uuid (open_test_uuid checked) = Some uuid /\
       ia_json a = answer_text pub local
         (answer_signature (matching_ip checked)
            (mac_sha256 (key (it_key checked)) (ip16 pub ++ uuid)))).
Proof.
  intros pub. unfold ip_response in Hok. destruct (bool_decide (body = [])); [done|].
  destruct (from_slice body) as [[| | | | |obj]|] eqn:Ej; try done.
  destruct (local_field obj) as [lf|]; [|done]. destruct (local_addr lf) as [local|]; [|done].
  destruct (token_field obj) as [[token|]|] eqn:Et; [| |done]; fold pub in Hok; cbv zeta in Hok.
  - unfold signed_part in Hok.
    destruct (check_ip_token clk token keys pub) as [checked|] eqn:Ec; [|done].
    destruct (parse_uuid (open_test_uuid checked)) as [uuid|] eqn:Eu; [|done].
    injection Hok as <-. exists obj, local. split; [done|]. right.
    exists token, checked, uuid. by split_and!.
  - injection Hok as <-. exists obj, local. split; [done|]. left. by split_and!.
Qed.

(** The signed text determines what is signed: equal texts mean the same
    address (an IPv4 address and its IPv4-mapped form being one) and the same
    test. *)
Theorem signature_binds a b u v
    (Hu : length u = 16%nat) (Hv : length v = 16%nat) (Heq : ip16 a ++ u = ip16 b ++ v) :
  to_canonical a = to_canonical b /\ u = v.
Proof.
  apply app_inj_1 in Heq as [Heq Huv]; [|by rewrite !length_ip16].
  split; [|done]. apply mapped_ipv6_inj. by rewrite <- !ip16_mapped.
Qed.
End answers.

(** *** Reading an answer *)

Lemma b64_char_graphic c : b64_char c = true -> graphic c = true.
Proof.
  unfold b64_char, graphic. intros Hc.
  repeat (apply orb_true_iff in Hc as [Hc|Hc]); to_prop; apply andb_true_iff;
    rewrite !Z.leb_le; lia.
Qed.

Lemma b64_char_unescaped c : b64_char c = true -> unescaped c = true.
Proof. by destruct c. Qed.

Lemma show_ip_unescaped ip : Forall (fun c => unescaped c = true) (show_ip ip).
Proof.
  eapply Forall_impl; [apply show_ip_chars|].
  intros c [Hc|[->| ->]]; [by destruct c|done..].
Qed.

Lemma nat_type_unescaped local public : Forall (fun c => unescaped c = true) (nat_type local public).
Proof.
  assert (Hv : forall ip, Forall (fun c => unescaped c = true) (ip_version ip))
    by (intros ip; unfold ip_version; destruct (is_ipv4 ip); by repeat constructor).
  assert (Hs : forall ip, Forall (fun c => unescaped c = true) (ip_scope ip))
    by (intros ip; unfold ip_scope; destruct (is_ip_local ip); by repeat constructor).
  unfold nat_type. repeat case_one; repeat (apply Forall_app; split); try apply Hv; try apply Hs;
    by repeat constructor.
Qed.

Section reading.
Context `{CryptoLaws} `{Serde}.

(** What a reader finds in an answer. *)
Definition answer_fields (version addr nat : str) (members : list (str * json_value))
    : list (str * json_value) :=
  [(!"v", JStr version); (!"ip", JStr addr); (!"nat_type", JStr nat)] ++ members.
Definition signature_fields (matching : bool) (signature : str) : list (str * json_value) :=
  [(!"matching_ip", JRaw (show_matching matching)); (!"signature", JStr signature)].

Definition version_of (ip : IpAddr) : str := if is_ipv4 ip then !"4" else !"6".

Ltac flat b :=
  destruct b; repeat change (json_escape (String.list_byte_of_string ?s)) with (String.list_byte_of_string s);
  do 4 (cbn; rewrite <- ?app_assoc); done.

Lemma read_answer public local :
  read_object (answer_text public local []) =
  Some (answer_fields (version_of public) (show_ip public) (nat_type local public) []).
Proof.
  rewrite <- (read_object_show (answer_fields _ _ _ [])); [|done|by repeat constructor].
  f_equal. unfold answer_text, IpCheck.answer_head, answer_fields, version_of. cbn [app map join].
  unfold show_field. cbn [fst snd show_value].
  rewrite !(json_escape_same (String.list_byte_of_string _)) by by repeat constructor.
  rewrite (json_escape_same (show_ip public)) by apply show_ip_unescaped.
  rewrite (json_escape_same (nat_type local public)) by apply nat_type_unescaped.
  unfold quoted. flat (is_ipv4 public).
Qed.

Lemma read_signed_answer public local matching sig :
  read_object (answer_text public local (answer_signature matching sig)) =
  Some (answer_fields (version_of public) (show_ip public) (nat_type local public)
          (signature_fields matching (B64_encode sig))).
Proof.
  rewrite <- (read_object_show (answer_fields _ _ _ (signature_fields _ _)));
    [|done|by repeat constructor; destruct matching; repeat constructor].
  f_equal. unfold answer_text, IpCheck.answer_head, answer_signature, answer_fields, version_of, signature_fields.
  cbn [app map join]. unfold show_field. cbn [fst snd show_value].
  rewrite (json_escape_same (show_ip public)) by apply show_ip_unescaped.
  rewrite (json_escape_same (nat_type local public)) by apply nat_type_unescaped.
  rewrite (json_escape_same (B64_encode sig))
    by (eapply Forall_impl; [apply B64_encode_chars|apply b64_char_unescaped]).
  unfold quoted. destruct matching; flat (is_ipv4 public).
Qed.
End reading.

Section issued.
Context `{CryptoLaws} `{Serde}.

Lemma issued_token_graphic key u start ip :
  token_start start ->
  Forall (fun c => graphic c = true) (make_test_token key (format_uuid u) start ip).
Proof.
  intros [Hs _].
  assert (Hb : forall l, Forall (fun c => graphic c = true) (B64_encode l)).
  { intros l. eapply Forall_impl; [apply B64_encode_chars|]. intros c. apply b64_char_graphic. }
  assert (Hu : Forall (fun c => graphic c = true) (format_uuid u)).
  { eapply Forall_impl; [apply format_uuid_chars|]. naive_solver. }
  unfold make_test_token, v1_part. rewrite show_int_nonneg by done.
  rewrite !Forall_app. split_and!; try apply Hb; try exact Hu; try by repeat constructor.
  apply digits_graphic, show_unsigned_digits.
Qed.

(** C25: the control server can verify an address: a client that presents the
    token issued for its test gets an answer whose fields, read from its JSON
    text, are the address this server sees (the text parses to it), its NAT type,
    whether the token was issued for that address, and a signature that decodes to
    the MAC under the key of the issuing control server of the address and the
    UUID of the test. The request is made within the time window of the token, and
    no other key in front of the issuing one, and no other address, gives the same
    MAC. *)
Theorem issued_token_signed clk k u start ip public ks1 ks2 body obj l local
    (Hclk : sane_clock clk) (Hu : length u = 16%nat) (Hstart : token_start start)
    (Hwin : in_window start (Z.of_N (clk 0%nat)))
    (Hcoll : Forall (fun k' => v1_key_matches (v1_message (format_uuid u) (show_int start))
       (hmac_sha1_b64 (key k) (v1_message (format_uuid u) (show_int start))) k' = false) ks1)
    (Hip : to_canonical public <> to_canonical ip ->
       take 4 (mac_sha256 (key k) (u32_to_be_bytes (wrap_u 32 start) ++ mapped_ipv6 public))
       <> take 4 (mac_sha256 (key k) (u32_to_be_bytes (wrap_u 32 start) ++ mapped_ipv6 ip)))
    (Hbody : body <> []) (Hjson : from_slice body = Ok (VObject obj))
    (Hl : local_field obj = Ok l) (Hlocal : local_addr l = Ok local)
    (Htoken : obj_get obj !"token" = Some (VString (make_test_token (key k) (format_uuid u) start ip))) :
  let pub := to_canonical public in
  exists a addr sig,
    ip_response clk body public (ks1 ++ k :: ks2) = Ok a /\
    read_object (ia_json a) =
      Some (answer_fields (version_of pub) addr (nat_type local pub)
              (signature_fields (bool_decide (pub = to_canonical ip)) sig)) /\
    parse_ip addr = Some pub /\
    B64_decode sig = Some (ip_signature (key k) pub u).
Proof.
  intros pub. unfold ip_response. rewrite bool_decide_false, Hjson, Hl, Hlocal by done.
  unfold token_field. rewrite Htoken.
  assert (Hg := issued_token_graphic (key k) u start ip Hstart).
  assert (Hne : make_test_token (key k) (format_uuid u) start ip <> []).
  { unfold make_test_token, v1_part. pose proof (length_format_uuid u Hu).
    by destruct (format_uuid u). }
  rewrite trim_graphic, bool_decide_false by done. cbv zeta. fold pub. unfold signed_part.
  assert (Hup : token_uuid (format_uuid u)).
  { pose proof (format_uuid_chars u) as Hc. split_and!.
    - by rewrite length_format_uuid.
    - intros Hin. rewrite Forall_forall in Hc. by apply Hc in Hin as (_ & ? & _).
    - intros Hin. rewrite Forall_forall in Hc. by apply Hc in Hin as (_ & _ & ?). }
  assert (Hm : mapped_ipv6 pub = mapped_ipv6 public) by apply mapped_ipv6_canonical.
  assert (Hc : to_canonical pub = pub) by apply to_canonical_idemp.
  rewrite (check_ip_issued clk k (format_uuid u) start ip pub ks1 ks2) by (rewrite ?Hc, ?Hm; done).
  cbn [open_test_uuid it_key matching_ip]. rewrite parse_format_uuid, Hc by done.
  eexists _, (show_ip pub), _. split; [reflexivity|]. cbn [ia_json].
  split_and!; [apply read_signed_answer|apply parse_show_ip|apply B64_decode_encode].
Qed.
End issued.

(** ** The request body *)

Lemma rx_upto_bytes n rx :
  exists pre, rx = pre ++ snd (rx_upto n rx) /\ (length (rx_bytes pre) <= n)%nat.
Proof.
  revert n. induction rx as [|[b|e] rx IH]; intros [|n].
  - by exists [].
  - exists []. cbn. split; [done|lia].
  - by exists [].
  - destruct (IH n) as (pre & Hp & Hl). exists (RxByte b :: pre). cbn [rx_upto].
    destruct (rx_upto n rx) as [[] ?]; cbn in *; rewrite <- Hp; split; try done;
      unfold rx_bytes in *; cbn; lia.
  - by exists [].
  - cbn [rx_upto]. case_decide.
    + destruct (IH (S n)) as (pre & Hp & Hl). exists (RxErr e :: pre). cbn. by rewrite <- Hp.
    + exists [RxErr e]. cbn. split; [done|lia].
Qed.

Section bounded.
Context `{Crypto} `{Serde}.

(** [m] consumes at most [n] bytes. *)
Definition consumes {A} (n : nat) (m : M A) : Prop :=
  forall w, exists pre, w_rx w = pre ++ w_rx (snd (m w)) /\ (length (rx_bytes pre) <= n)%nat.

Lemma consumes_none {A} n (m : M A) : (forall w, w_rx (snd (m w)) = w_rx w) -> consumes n m.
Proof. intros Hm w. exists []. rewrite Hm. cbn. split; [done|lia]. Qed.

Lemma consumes_then {A B} n (m : M A) (k : A -> M B) :
  consumes n m -> (forall a w, w_rx (snd (k a w)) = w_rx w) -> consumes n (bind m k).
Proof.
  intros Hm Hk w. destruct (Hm w) as (pre & Hp & Hl). exists pre. unfold bind.
  destruct (m w) as [[a|e| |] w1]; cbn in *; try done. by rewrite Hk.
Qed.

Lemma consumes_upto n m : (n <= m)%nat -> consumes m (on_rx (rx_upto n)).
Proof.
  intros Hn w. destruct (rx_upto_bytes n (w_rx w)) as (pre & Hp & Hl). exists pre.
  unfold on_rx. destruct (rx_upto n (w_rx w)) as [o rx]. destruct w. cbn in *. split; [done|lia].
Qed.

(** A request body cannot exhaust memory or hold the worker: whatever length
    it declares, [/ip] reads at most 8192 bytes of an acceptable body, and at most
    64 KiB of one that is too large before it is refused with 413. *)
Theorem body_bounded t method h keys w :
  exists pre, w_rx w = pre ++ w_rx (snd (ip_answer t method h keys w)) /\
    len (rx_bytes pre) <= (if content_length h >? MAX_BODY then MAX_DRAIN else MAX_BODY) /\
    (content_length h > MAX_BODY -> chunked h = false -> method = !"POST" ->
     forall a, fst (ip_answer t method h keys w) = Done a -> an_status a = !"413 Content Too Large").
Proof.
  assert (Hc : consumes (Z.to_nat (if content_length h >? MAX_BODY then MAX_DRAIN else MAX_BODY))
                 (ip_answer t method h keys)).
  { unfold ip_answer. destruct (str_eqb _ _); [by apply consumes_none|].
    destruct (str_eqb _ _); [|by apply consumes_none].
    destruct (chunked h); [by apply consumes_none|].
    destruct (content_length h >? MAX_BODY) eqn:El.
    - apply consumes_then; [|done]. apply consumes_upto. to_prop. unfold MAX_BODY, MAX_DRAIN in *. lia.
    - apply consumes_then; [apply consumes_upto; to_prop; unfold MAX_BODY in *; lia|].
      intros buf w'. destruct (_ <? _); [done|]. destruct (transport_peer_addr t); [|done].
      destruct (negb _); [done|]. unfold bind, wall_clock. cbn.
      destruct (ip_response _ _ _ _) as [|[? ?]]; done. }
  destruct (Hc w) as (pre & Hp & Hl). exists pre. split_and!; [done| |].
  - destruct (content_length h >? MAX_BODY); unfold MAX_BODY, MAX_DRAIN in *; lia.
  - intros Hlen Hch -> a. unfold ip_answer.
    change (str_eqb !"POST" !"OPTIONS") with false. change (str_eqb !"POST" !"POST") with true.
    rewrite Hch. replace (content_length h >? MAX_BODY) with true by lia.
    unfold bind. destruct (on_rx _ w) as [[]]; cbn; try done. by intros [= <-].
Qed.
End bounded.

(** ** Concrete runs *)

#[local] Existing Instance toy_crypto.
#[local] Existing Instance toy_crypto_laws.
#[local] Existing Instance ref_serde.

Definition uuid16 : list byte := repeat Byte.xa7 15 ++ [Byte.x01].
Definition token16 : str := make_test_token (key key_b) (format_uuid uuid16) 1700000007 ip_a.
Definition json_member (k v : str) : str := quoted k ++ !":" ++ quoted v.
Definition body16 : list byte :=
  !"{" ++ json_member !"client_ip_local" !"192.168.1.4" ++ !"," ++ json_member !"token" token16 ++ !"}".
Definition local16 : IpAddr := V4 Byte.xc0 Byte.xa8 Byte.x01 Byte.x04.

Lemma parse_uuid_roundtrip_witness :
  parse_uuid (format_uuid uuid16) = Some uuid16 /\
  length !"F71D53F4-c67c-4b99-b319-979f714cd408" = 36%nat /\
  length (default [] (parse_uuid !"F71D53F4-c67c-4b99-b319-979f714cd408")) = 16%nat.
Proof. apply parse_uuid_roundtrip; vm_compute; reflexivity. Defined.

Lemma nat_type_unambiguous_witness :
  is_ipv4 ip_a = is_ipv4 ip_other /\ (local16 = ip_a <-> local16 = ip_other) /\
  is_ipv4 local16 = is_ipv4 local16 /\
  (local16 <> ip_a -> is_ip_local ip_a = is_ip_local ip_other /\
     (is_ipv4 local16 = is_ipv4 ip_a -> is_ip_local local16 = is_ip_local local16)).
Proof. apply nat_type_unambiguous. vm_compute. reflexivity. Defined.

Lemma ip_answer_authentic_witness :
  let pub := to_canonical ip_a in
  exists obj local,
    from_slice body16 = Ok (VObject obj) /\
    ((token_field obj = Ok None /\
      ia_json (match ip_response clk17 body16 ip_a [key_a; key_b] with
               | Ok a => a | Err _ => mkIpAnswer [] [] end) = answer_text pub local []) \/
     exists token checked uuid,
       token_field obj = Ok (Some token) /\
       check_ip_token clk17 token [key_a; key_b] pub = Ok checked /\
       parse_uuid (open_test_uuid checked) = Some uuid /\
       ia_json (match ip_response clk17 body16 ip_a [key_a; key_b] with
                | Ok a => a | Err _ => mkIpAnswer [] [] end) = answer_text pub local
         (answer_signature (matching_ip checked)
            (mac_sha256 (key (it_key checked)) (ip16 pub ++ uuid)))).
Proof. apply (ip_answer_authentic clk17 body16 ip_a [key_a; key_b]). vm_compute. reflexivity. Defined.

Lemma signature_binds_witness : to_canonical ip_a = to_canonical ip_mapped /\ uuid16 = uuid16.
Proof. apply signature_binds; vm_compute; reflexivity. Defined.

Lemma issued_token_signed_witness :
  let pub := to_canonical ip_mapped in
  exists a addr sig,
    ip_response clk17 body16 ip_mapped ([key_a] ++ key_b :: []) = Ok a /\
    read_object (ia_json a) =
      Some (answer_fields (version_of pub) addr (nat_type (Some local16) pub)
              (signature_fields (bool_decide (pub = to_canonical ip_a)) sig)) /\
    parse_ip addr = Some pub /\
    B64_decode sig = Some (ip_signature (key key_b) pub uuid16).
Proof.
  apply (issued_token_signed clk17 key_b uuid16 1700000007 ip_a ip_mapped [key_a] [] body16
    [(!"client_ip_local", VString !"192.168.1.4"); (!"token", VString token16)]
    (Some !"192.168.1.4") (Some local16)).
  - exact clk17_sane.
  - reflexivity.
  - exact start_ok.
  - split; vm_compute; discriminate.
  - constructor; [vm_compute; reflexivity|constructor].
  - intros Hne. exfalso. apply Hne. vm_compute. reflexivity.
  - discriminate.
  - vm_compute. reflexivity.
  - vm_compute. reflexivity.
  - vm_compute. reflexivity.
  - vm_compute. reflexivity.
Defined.
