(* ===== verification/IpHttp.v ===== *)
(** * The answer of [/ip] on the wire

    What [ip_handle] sends is one HTTP response whatever the client put in its
    request: its header lines are exactly those the server means to send, so that
    no text of the request can add one, and the body is the one announced. *)

From S2P Require Import Prelude RustStr Net Crypto RefCrypto Config Token TokenFacts Stats Io Json Stream StreamFacts Version VersionFacts IpCheck RefSerde IpFacts.

(** ** Header lines *)

(** The pieces of a text joined with line breaks are found again, if none of
    them has a line break. *)
Lemma split_once_crlf l r :
  contains crlf l = false -> split_once crlf (l ++ crlf ++ r) = Some (l, r).
Proof.
  induction l as [|c l IH]; intros Hc; [done|].
  assert (Hl := contains_cons _ _ _ Hc). cbn [app split_once].
  assert (E : strip_prefix crlf (c :: l ++ crlf ++ r) = None).
  { destruct (strip_prefix crlf (c :: l ++ crlf ++ r)) as [x|] eqn:E; [|done]. exfalso.
    apply strip_prefix_Some in E. destruct l as [|d l]; cbn in E; [by simplify_eq|].
    injection E as -> -> _. pose proof (contains_app crlf [] l) as Ha. cbn in Ha, Hc. congruence. }
  by rewrite E, IH.
Qed.

Lemma split_once_absent p s : contains p s = false -> split_once p s = None.
Proof. unfold contains. by destruct (split_once p s). Qed.

Lemma join_cons p l l2 ls : join p (l :: l2 :: ls) = l ++ p ++ join p (l2 :: ls).
Proof. done. Qed.

Lemma split_join ls :
  ls <> [] -> Forall (fun l => contains crlf l = false) ls -> split crlf (join crlf ls) = ls.
Proof.
  intros Hne Hls. unfold split. assert (Hl : (length (join crlf ls) <= length (join crlf ls))%nat) by done.
  revert Hl. generalize (length (join crlf ls)) at 2 3. intros n. revert ls Hne Hls.
  induction n as [|n IH]; intros ls Hne Hls Hl; destruct Hls as [|l ls Hc Hls]; [done| |done|].
  - destruct ls; [|rewrite join_cons, !length_app in Hl; cbn in Hl; lia].
    by destruct l; [|cbn in Hl; lia].
  - cbn [split_fuel]. destruct ls as [|l2 ls]; [by rewrite split_once_absent|].
    rewrite join_cons in Hl |- *. rewrite split_once_crlf by done. f_equal. apply IH; [done|done|].
    rewrite !length_app in Hl. cbn [length crlf] in Hl. lia.
Qed.

Lemma contains_crlf_app a v :
  Byte.x0d ∉ a -> contains crlf v = false -> contains crlf (a ++ v) = false.
Proof.
  induction a as [|c a IH]; intros Ha Hv; [done|]. apply not_elem_of_cons in Ha as [Hc Ha].
  specialize (IH Ha Hv). unfold contains in *. cbn [app split_once].
  assert (E : strip_prefix crlf (c :: a ++ v) = None) by (cbn; by rewrite decide_False).
  rewrite E. by destruct (split_once crlf (a ++ v)).
Qed.

Lemma contains_crlf_text a : Byte.x0d ∉ a -> contains crlf a = false.
Proof. intros Ha. rewrite <- (app_nil_r a). by apply contains_crlf_app. Qed.

(** A header line: some text that begins with a visible character, without a
    line break. *)
Definition header_line (l : str) : bool :=
  negb (contains crlf l) && match l with c :: _ => graphic c | [] => false end.

Lemma header_line_text a v :
  Byte.x0d ∉ a -> match a with c :: _ => graphic c | [] => false end = true ->
  contains crlf v = false -> header_line (a ++ v) = true.
Proof.
  intros Ha Hc Hv. unfold header_line. rewrite contains_crlf_app by done. by destruct a.
Qed.

Lemma join_first ls l :
  Forall (fun l => header_line l = true) (ls ++ [l]) ->
  exists c t, join crlf (ls ++ [l]) = c :: t /\ graphic c = true.
Proof.
  destruct ls as [|l1 ls]; intros H; apply Forall_cons_1 in H as [[_ Hc]%andb_true_iff _].
  - destruct l as [|c t]; [done|]. by exists c, t.
  - destruct l1 as [|c t]; [done|]. destruct ls; cbn; eauto.
Qed.

(** The lines of a header block do not end it. *)
Lemma join_no_blank ls l :
  Forall (fun l => header_line l = true) (ls ++ [l]) -> no_blank_line l = true ->
  no_blank_line (join crlf (ls ++ [l])) = true.
Proof.
  intros Hls Hl. induction ls as [|l1 ls IH]; [done|].
  cbn [app] in Hls. apply Forall_cons_1 in Hls as [[Hc _]%andb_true_iff Hls].
  destruct (join_first ls l Hls) as (c & t & Ej & Hg).
  assert (E : join crlf ((l1 :: ls) ++ [l]) = l1 ++ crlf ++ join crlf (ls ++ [l])) by by destruct ls.
  rewrite E. apply no_blank_line_end; [by apply negb_true_iff|].
  specialize (IH Hls). rewrite Ej in IH |- *. cbn [app crlf no_blank_line] in IH |- *.
  rewrite IH. rewrite (bool_decide_false (c = Byte.x0d)) by (intros ->; done). done.
Qed.

(** A header block and a body: what a client finds. *)
Lemma block_framed ls l body :
  let block := join crlf (ls ++ [l]) in
  Forall (fun l => header_line l = true) (ls ++ [l]) -> no_blank_line l = true ->
  split_once (crlf ++ crlf) (block ++ crlf ++ crlf ++ body) = Some (block, body) /\
  split crlf block = ls ++ [l].
Proof.
  intros block Hls Hl. split; [by apply split_once_no_blank, join_no_blank|].
  apply split_join; [by destruct ls|]. eapply Forall_impl; [exact Hls|].
  intros x [Hx _]%andb_true_iff. by apply negb_true_iff.
Qed.

Definition with_crlf (ls : list str) : str := concat (map (fun l => l ++ crlf) ls).

Lemma join_lines ls l : join crlf (ls ++ [l]) = with_crlf ls ++ l.
Proof.
  induction ls as [|l1 ls IH]; [done|].
  assert (E : join crlf ((l1 :: ls) ++ [l]) = l1 ++ crlf ++ join crlf (ls ++ [l])) by by destruct ls.
  rewrite E, IH. unfold with_crlf. cbn. by rewrite <- !app_assoc.
Qed.

Lemma with_crlf_app a b : with_crlf (a ++ b) = with_crlf a ++ with_crlf b.
Proof. unfold with_crlf. by rewrite map_app, concat_app. Qed.

(** ** The request head *)

(** A value that is copied into the answer has no line break. *)
Lemma scan_header_safe l h h' :
  contains crlf l = false -> scan_header l h = Some h' ->
  0 <= content_length h -> contains crlf (request_headers h) = false ->
  0 <= content_length h' /\ contains crlf (request_headers h') = false.
Proof.
  intros Hl E Hn Hr. unfold scan_header in E.
  destruct (split_once !":" l) as [[name value]|] eqn:Es; [|by injection E as <-].
  apply split_once_Some in Es. destruct (trim_segment value) as (a & b & Ev).
  assert (Hv : contains crlf (trim value) = false).
  { apply (contains_part crlf (name ++ !":" ++ a) (trim value) b).
    rewrite <- !app_assoc, <- Ev. by rewrite <- Es. }
  repeat case_match; try (by injection E as <-).
  destruct (parse_unsigned u64_max (trim value)) as [n|] eqn:En; [|done].
  injection E as <-. by apply parse_unsigned_range in En as [? _].
Qed.

Lemma scan_headers_safe ls h h' :
  Forall (fun l => contains crlf l = false) ls -> scan_headers ls h = Some h' ->
  0 <= content_length h -> contains crlf (request_headers h) = false ->
  0 <= content_length h' /\ contains crlf (request_headers h') = false.
Proof.
  intros Hls. revert h. induction Hls as [|l ls Hl _ IH]; intros h E Hn Hr.
  - by injection E as <-.
  - cbn in E. destruct (scan_header l h) as [h1|] eqn:E1; [|done].
    destruct (scan_header_safe l h h1) as [Hn1 Hr1]; [done..|]. by apply (IH h1).
Qed.

Lemma rx_upto_done n rx b rx' :
  rx_upto n rx = (Done b, rx') -> exists pre, rx = pre ++ rx' /\ rx_bytes pre = b /\ (length b <= n)%nat.
Proof.
  revert n b. induction rx as [|[c|e] rx IH]; intros [|n] b; cbn [rx_upto]; intros E.
  1-3: injection E as <- <-; exists []; cbn; split_and!; [done|done|lia].
  - destruct (rx_upto n rx) as [[l| | |] rx1] eqn:E1; try done. injection E as <- <-.
    destruct (IH n l E1) as (pre & -> & <- & Hl). exists (RxByte c :: pre).
    unfold rx_bytes in *. cbn in *. split_and!; [done|done|lia].
  - injection E as <- <-. exists []. cbn. split_and!; [done|done|lia].
  - case_decide; [|done]. destruct (IH (S n) b E) as (pre & -> & <- & Hl). by exists (RxErr e :: pre).
Qed.

Lemma on_rx_upto_done n w b w1 :
  on_rx (rx_upto n) w = (Done b, w1) ->
  exists pre, w_rx w = pre ++ w_rx w1 /\ w_out w1 = w_out w /\
    rx_bytes pre = b /\ (length b <= n)%nat.
Proof.
  unfold on_rx. destruct (rx_upto n (w_rx w)) as [o rx] eqn:Er. intros [= -> <-].
  destruct (rx_upto_done _ _ _ _ Er) as (pre & Hp & Hb & Hl). by exists pre.
Qed.

(** ** The answer *)

Section answer.
Context `{Crypto} `{Serde}.

(** What is answered to a request with this method and header, whose body so
    far as the server reads it is [buf]: status line and body. *)
Definition reply (t : Transport) (method : str) (h : Head) (keys : list SecretKey)
    (buf : list byte) (status body : str) : Prop :=
  if str_eqb method !"OPTIONS" then buf = [] /\ status = !"200 OK" /\ body = []
  else if negb (str_eqb method !"POST") then
    buf = [] /\ status = !"405 Method Not Allowed" /\ body = []
  else if chunked h then
    buf = [] /\ status = !"411 Length Required" /\ body = error_body !"Content-Length required"
  else if content_length h >? MAX_BODY then
    len buf <= Z.min (content_length h) MAX_DRAIN /\
    status = !"413 Content Too Large" /\ body = error_body !"request body too large"
  else
    len buf = content_length h /\
    if negb (is_json (content_type h)) then
      status = !"415 Unsupported Media Type" /\
      body = error_body !"Content-Type must be application/json"
    else exists clk peer,
      transport_peer_addr t = Some peer /\
      match ip_response clk buf (sa_ip peer) keys with
      | Ok a => status = !"200 OK" /\ body = ia_json a
      | Err (s, msg) => status = s /\ body = error_body msg
      end.

(** The header lines that depend on the method and on the status. *)
Definition extra_lines (method : str) (h : Head) (status : str) : list str :=
  if str_eqb method !"OPTIONS" then
    [!"Access-Control-Allow-Methods: POST, OPTIONS";
     !"Access-Control-Allow-Headers: " ++ request_headers h;
     !"Access-Control-Max-Age: 1800"]
  else if str_eqb method !"POST" then
    if str_eqb status !"415 Unsupported Media Type" then [!"Accept: application/json"] else []
  else [!"Allow: POST, OPTIONS"].

Definition hsts_text : str := !"Strict-Transport-Security: max-age=31536000".

(** All header lines but the last, and the last. *)
Definition header_lines (hsts : bool) (method : str) (h : Head) (status body : str) : list str :=
  [!"HTTP/1.1 " ++ status; !"Connection: close"] ++
  (if hsts then [hsts_text] else []) ++
  (if origin h then [!"Access-Control-Allow-Origin: *"] else []) ++
  extra_lines method h status ++
  (if bool_decide (body = []) then [] else [!"Content-Type: application/json"]) ++
  [!"Cache-Control: no-cache, no-store, max-age=0, must-revalidate"].
Definition length_line (body : str) : str := !"Content-Length: " ++ show_unsigned (len body).

Definition status_lines : list str :=
  [!"200 OK"; !"400 Bad Request"; !"403 Forbidden"; !"405 Method Not Allowed";
   !"411 Length Required"; !"413 Content Too Large"; !"415 Unsupported Media Type"].

Lemma local_field_error obj e : local_field obj = Err e -> fst e = !"400 Bad Request".
Proof.
  unfold local_field. destruct (obj_get _ _) as [[]|]; try done; [|by intros [= <-]..].
  by destruct (bool_decide _).
Qed.

Lemma local_addr_error l e : local_addr l = Err e -> fst e = !"400 Bad Request".
Proof. unfold local_addr. destruct l as [s|]; [|done]. destruct (parse_ip s); [done|by intros [= <-]]. Qed.

Lemma token_field_error obj e : token_field obj = Err e -> fst e = !"400 Bad Request".
Proof.
  unfold token_field. destruct (obj_get _ _) as [[]|]; try done; try (by intros [= <-]).
  by destruct (bool_decide _).
Qed.

Lemma signed_part_error clk tok keys public e :
  signed_part clk tok keys public = Err e -> fst e = !"403 Forbidden".
Proof.
  unfold signed_part. destruct (check_ip_token _ _ _ _) as [c|r]; [|by intros [= <-]].
  destruct (parse_uuid _); [done|by intros [= <-]].
Qed.

Lemma ip_response_error clk buf public keys e :
  ip_response clk buf public keys = Err e -> fst e = !"400 Bad Request" \/ fst e = !"403 Forbidden".
Proof.
  unfold ip_response. destruct (bool_decide _); [intros [= <-]; by left|].
  destruct (from_slice buf) as [[| | | | |obj]|err]; try (intros [= <-]; by left).
  destruct (local_field obj) as [l|e1] eqn:E1; [|intros [= <-]; left; by eapply local_field_error].
  destruct (local_addr l) as [lo|e2] eqn:E2; [|intros [= <-]; left; by eapply local_addr_error].
  destruct (token_field obj) as [[tok|]|e3] eqn:E3; [|done|intros [= <-]; left; by eapply token_field_error].
  destruct (signed_part _ _ _ _) as [[m n]|e4] eqn:E4; [done|].
  intros [= <-]. right. by eapply signed_part_error.
Qed.

Ltac listed := by apply (bool_decide_unpack _).

Lemma reply_status t method h keys buf status body :
  reply t method h keys buf status body -> status ∈ status_lines.
Proof.
  unfold reply. intros Hr.
  repeat match type of Hr with (if ?b then _ else _) => destruct b end; try (destruct Hr as (_ & -> & _); listed).
  destruct Hr as [_ Hr]. destruct (negb _); [destruct Hr as (-> & _); listed|].
  destruct Hr as (clk & peer & _ & Hr).
  destruct (ip_response _ _ _ _) as [a|[s msg]] eqn:E; destruct Hr as [-> _]; [listed|].
  destruct (ip_response_error _ _ _ _ _ E) as [Es|Es]; cbn in Es; subst s; listed.
Qed.

Lemma header_lines_safe hsts method h status body :
  status ∈ status_lines -> contains crlf (request_headers h) = false ->
  Forall (fun l => header_line l = true) (header_lines hsts method h status body ++ [length_line body]).
Proof.
  intros Hs Hh.
  assert (Hs' : header_line (!"HTTP/1.1 " ++ status) = true)
    by (unfold status_lines in Hs; set_unfold in Hs; repeat (destruct Hs as [->|Hs]; [done|]); done).
  assert (Hl : header_line (length_line body) = true).
  { apply header_line_text; [by apply (bool_decide_unpack _)|done|].
    apply contains_crlf_text, digits_notin; [apply show_unsigned_digits|done]. }
  assert (Ha : header_line (!"Access-Control-Allow-Headers: " ++ request_headers h) = true).
  { apply header_line_text; [by apply (bool_decide_unpack _)|done|done]. }
  unfold header_lines, extra_lines. repeat rewrite Forall_app.
  repeat match goal with |- context [if ?b then _ else _] => destruct b end; split_and!;
    repeat constructor; done.
Qed.

Lemma length_line_no_blank body : no_blank_line (length_line body) = true.
Proof. apply no_blank_app; [done|]. apply digits_no_blank, show_unsigned_digits. Qed.

Lemma ip_answer_done t method h keys w a w1 :
  0 <= content_length h -> ip_answer t method h keys w = (Done a, w1) ->
  exists pre, w_rx w = pre ++ w_rx w1 /\ w_out w1 = w_out w /\
    reply t method h keys (rx_bytes pre) (an_status a) (an_body a) /\
    an_extra a = with_crlf (extra_lines method h (an_status a)).
Proof.
  intros Hn E. unfold ip_answer in E. unfold reply, extra_lines.
  destruct (str_eqb method !"OPTIONS").
  { injection E as <- <-. exists []. split_and!; try done. cbn. by rewrite <- !app_assoc. }
  destruct (str_eqb method !"POST"); cbn [negb]; [|by injection E as <- <-; exists []].
  destruct (chunked h); [by injection E as <- <-; exists []|].
  destruct (content_length h >? MAX_BODY) eqn:El.
  - apply bind_Done_inv in E as (b & w2 & E & Ea). injection Ea as <- <-.
    destruct (on_rx_upto_done _ _ _ _ E) as (pre & Hp & Ho & Hb & Hl). exists pre.
    split_and!; try done. rewrite Hb. unfold MAX_DRAIN, MAX_BODY in *. to_prop. lia.
  - unfold post_body in E. apply bind_Done_inv in E as (b & w2 & E & Ea).
    destruct (on_rx_upto_done _ _ _ _ E) as (pre & Hp & Ho & Hb & Hl). exists pre. rewrite Hb.
    destruct (len b <? content_length h) eqn:Elen; [done|].
    destruct (transport_peer_addr t) as [peer|] eqn:Et; [|done].
    assert (Hlen : len b = content_length h) by (to_prop; lia).
    destruct (negb (is_json (content_type h))); [by injection Ea as <- <-|].
    unfold bind, wall_clock in Ea. cbn in Ea.
    destruct (ip_response _ b (sa_ip peer) keys) as [ans|[s msg]] eqn:Ei; injection Ea as <- <-; cbn.
    + split_and!; try done. eexists _, _. split; [done|]. by rewrite Ei.
    + split_and!; try done; [eexists _, _; split; [done|]; by rewrite Ei|].
      by destruct (ip_response_error _ _ _ _ _ Ei) as [Es|Es]; cbn in Es; subst s.
Qed.

Lemma ip_http_lines (hsts : bool) method h a :
  an_extra a = with_crlf (extra_lines method h (an_status a)) ->
  ip_http (if hsts then HSTS_HEADER else []) (cors_header (origin h)) a =
  join crlf (header_lines hsts method h (an_status a) (an_body a) ++ [length_line (an_body a)]) ++
  crlf ++ crlf ++ an_body a.
Proof.
  intros Ea. unfold ip_http, header_lines, length_line. rewrite join_lines, !with_crlf_app, Ea, <- !app_assoc.
  unfold cors_header. by destruct hsts, (origin h), (bool_decide (an_body a = [])); cbn; rewrite <- ?app_assoc.
Qed.

(** C18: whatever a request to [/ip] contains, a completed answer is one well framed
    HTTP response. The server consumed of the stream exactly the body it had to
    read, status and body are those that belong to method, header and body, and a
    client that splits the response at the first blank line gets that body, and a
    header block whose lines are exactly the ones the server means to send: the
    text of [Access-Control-Request-Headers] is echoed but cannot add a line or
    end the block. (Lines are those that CRLF ends; a bare LF in that text is echoed
    as it came.) *)
Theorem ip_response_framed t head (hsts : bool) keys w note w'
    (Hrun : ip_handle t head (if hsts then HSTS_HEADER else []) keys w = (Done note, w')) :
  let method := request_method (nth 0 (split crlf head) []) in
  exists h pre status body,
    let ls := header_lines hsts method h status body ++ [length_line body] in
    let block := join crlf ls in
    scan_headers (tail (split crlf head)) Head_empty = Some h /\
    w_rx w = pre ++ w_rx w' /\
    reply t method h keys (rx_bytes pre) status body /\
    w_out w' = w_out w ++ [Sent (block ++ crlf ++ crlf ++ body)] /\
    split_once (crlf ++ crlf) (block ++ crlf ++ crlf ++ body) = Some (block, body) /\
    split crlf block = ls.
Proof.
  intros method. unfold ip_handle in Hrun. fold method in Hrun.
  destruct (scan_headers (tail (split crlf head)) Head_empty) as [h|] eqn:Eh; [|done].
  assert (Hls : Forall (fun l => contains crlf l = false) (tail (split crlf head))).
  { assert (Hp := split_pieces crlf head ltac:(done)). by destruct Hp. }
  destruct (scan_headers_safe _ _ _ Hls Eh) as [Hn Hh]; [done..|].
  apply bind_Done_inv in Hrun as (a & w1 & Ea & Hrun).
  apply bind_Done_inv in Hrun as (u1 & w2 & Ew & Hrun).
  apply bind_Done_inv in Hrun as (u2 & w3 & Ef & Hrun). injection Hrun as _ <-.
  destruct (ip_answer_done _ _ _ _ _ _ _ Hn Ea) as (pre & Hrx & Hout & Hr & Hx).
  apply transport_write_Done in Ew as [Ew1 Ew2]. apply transport_flush_Done in Ef as [Ef1 Ef2].
  exists h, pre, (an_status a), (an_body a). intros ls block.
  destruct (block_framed (header_lines hsts method h (an_status a) (an_body a))
              (length_line (an_body a)) (an_body a)) as [Hsplit Hlines].
  { apply header_lines_safe; [by eapply reply_status|done]. }
  { apply length_line_no_blank. }
  split_and!; [done|by rewrite Ef2, Ew2|done| |done|done].
  by rewrite Ef1, Ew1, Hout, (ip_http_lines hsts method h).
Qed.
End answer.

(** ** A concrete run: a preflight request that tries to smuggle a header *)

#[local] Existing Instance toy_crypto.
#[local] Existing Instance ref_serde.

Definition preflight : str :=
  !"OPTIONS /ip HTTP/1.1" ++ crlf ++
  !"Access-Control-Request-Headers: x-a" ++ [Byte.x0d] ++ !"Set-Cookie: a=b" ++ [Byte.x0a] ++ !"X: y".

Lemma ip_response_framed_witness :
  let t := mkTransport true None in
  let method := request_method (nth 0 (split crlf preflight) []) in
  exists h pre status body,
    let ls := header_lines true method h status body ++ [length_line body] in
    let block := join crlf ls in
    scan_headers (tail (split crlf preflight)) Head_empty = Some h /\
    w_rx sample_world = pre ++ w_rx (snd (ip_handle t preflight HSTS_HEADER [] sample_world)) /\
    reply t method h [] (rx_bytes pre) status body /\
    w_out (snd (ip_handle t preflight HSTS_HEADER [] sample_world)) =
      w_out sample_world ++ [Sent (block ++ crlf ++ crlf ++ body)] /\
    split_once (crlf ++ crlf) (block ++ crlf ++ crlf ++ body) = Some (block, body) /\
    split crlf block = ls.
Proof.
  apply (ip_response_framed (mkTransport true None) preflight true [] sample_world
           !"OPTIONS /ip -> 200").
  vm_compute. reflexivity.
Defined.
