(* ===== verification/Upgrade.v ===== *)
(** * The HTTP phase: [stream/websocket_upgrade.rs]

    Reads the request head, byte by byte and bounded, and routes it: [/ip],
    [/version], a WebSocket handshake, the RMBT upgrade, or a refusal. *)

From S2P Require Import Prelude RustStr Net Crypto Config Token Stats Io Stream Version IpCheck.

Definition WS_GUID : str := !"258EAFA5-E914-47DA-95CA-C5AB0DC85B11".

Inductive Upgrade : Type :=
  | Rmbt (s : Stream)
  | IpCheckAnswered (summary : str)
  | VersionAnswered (summary : str).

(** The size above which a request head is refused. *)
Definition MAX_HEAD : Z := 8192.

Definition end_of_head : str := crlf ++ crlf.

(** The loop that reads the head; [buf] is what was read so far. *)
Fixpoint read_head (fuel : nat) (buf : list byte) : M (list byte) :=
  match fuel with
  | O => out_of_fuel
  | S f =>
      let* tmp := on_rx (rx_exact 1) in
      let buf := buf ++ tmp in
      if ends_with end_of_head buf then ret buf
      else if len buf >? MAX_HEAD then fail InvalidData !"HTTP request too large"
      else read_head f buf
  end.

(** The head is refused after at most [MAX_HEAD + 1] bytes. *)
Definition head_fuel : nat := Z.to_nat (MAX_HEAD + 1).

(** [req.split(' ').nth(1).unwrap_or("")] *)
Definition request_target (req : str) : str := nth 1 (split !" " req) [].

Definition response_405 (hsts_line : str) : str :=
  !"HTTP/1.1 405 Method Not Allowed" ++ crlf ++
  !"Connection: close" ++ crlf ++
  hsts_line ++
  !"Content-Length: 0" ++ crlf ++
  crlf.

Definition response_101_rmbt (hsts_line : str) : str :=
  !"HTTP/1.1 101 Switching Protocols" ++ crlf ++
  !"Connection: Upgrade" ++ crlf ++
  !"Upgrade: RMBT" ++ crlf ++
  hsts_line ++ crlf.

Definition response_101_ws (accept hsts_line : str) : str :=
  !"HTTP/1.1 101 Switching Protocols" ++ crlf ++
  !"Connection: Upgrade" ++ crlf ++
  !"Upgrade: websocket" ++ crlf ++
  !"Sec-WebSocket-Accept: " ++ accept ++ crlf ++
  hsts_line ++ crlf.

(** The value of the first Sec-WebSocket-Key header. *)
Definition ws_key_of_line (line : str) : option str :=
  let lower := to_ascii_lowercase line in
  if starts_with !"sec-websocket-key:" lower then
    match split_once !":" lower with
    | Some (before, _) => Some (trim (drop (length before + 1) line))
    | None => None
    end
  else None.

Fixpoint find_map {A B} (f : A -> option B) (l : list A) : option B :=
  match l with
  | [] => None
  | x :: l' => or_else (f x) (fun _ => find_map f l')
  end.

Section upgrade.
Context `{Crypto} `{Serde} `{Build}.

Definition response_426 (hsts_line : str) : str :=
  let version := trim GREETING in
  let body := !"RMBT measurement server - " ++ version in
  !"HTTP/1.1 426 Upgrade Required" ++ crlf ++
  !"Connection: close" ++ crlf ++
  !"Upgrade: RMBT, websocket" ++ crlf ++
  hsts_line ++
  !"Content-Type: text/plain" ++ crlf ++
  !"Content-Length: " ++ show_unsigned (len body) ++ crlf ++
  crlf ++ body.

Definition ws_accept (key : str) : str := B64_encode (digest_sha1 (key ++ WS_GUID)).

Definition websocket_handshake (t : Transport) (request hsts_line : str) : M Stream :=
  match find_map ws_key_of_line (lines request) with
  | None => fail InvalidData !"missing Sec-WebSocket-Key"
  | Some key =>
      do* transport_write_all (response_101_ws (ws_accept key) hsts_line) in
      do* transport_flush in
      ret (WebSocket t)
  end.

(** Routing of a request head that was read. *)
Definition route (t : Transport) (add_hsts : bool) (keys : list SecretKey) (req : str)
    : M Upgrade :=
  let hsts_line := if add_hsts then HSTS_HEADER else [] in
  if ip_matches (request_target req) then
    let* summary := ip_handle t req hsts_line keys in
    do* transport_close t in
    ret (IpCheckAnswered summary)
  else if version_matches (request_target req) then
    let* summary := version_handle req hsts_line in
    do* transport_close t in
    ret (VersionAnswered summary)
  else if negb (starts_with !"GET " req) then
    do* ignore (transport_write_all (response_405 hsts_line)) in
    do* ignore transport_flush in
    fail InvalidData !"expected HTTP GET"
  else
    let req_lower := to_ascii_lowercase req in
    if contains !"upgrade: websocket" req_lower then
      let* s := websocket_handshake t req hsts_line in ret (Rmbt s)
    else if contains !"upgrade: rmbt" req_lower then
      do* transport_write_all (response_101_rmbt hsts_line) in
      ret (Rmbt (Raw t))
    else
      do* ignore (transport_write_all (response_426 hsts_line)) in
      do* ignore transport_flush in
      fail InvalidData !"no recognized Upgrade header (need 'websocket' or 'rmbt')".

Definition detect_and_upgrade (t : Transport) (add_hsts : bool) (keys : list SecretKey)
    : M Upgrade :=
  let* buf := read_head head_fuel [] in
  route t add_hsts keys (from_utf8_lossy buf).
End upgrade.
