(* ===== verification/UpgradeFacts.v ===== *)
(** * What the HTTP phase guarantees

    The request head is bounded, a protocol stream is handed out only for an
    upgrade request and after the 101 response, and no request makes a handler
    panic or loop. *)

From stdpp Require Import vector.
From S2P Require Import Prelude RustStr Net Crypto RefCrypto Config Token Stats Io Stream StreamFacts Greeting Version IpCheck RefSerde Upgrade.

(** ** Handlers that come to an end *)

(** [m] neither panics nor exhausts a bound of the model, keeps the clock and
    does not lengthen the input. *)
Definition sound {A} (m : M A) (w : World) : Prop :=
  fst (m w) <> Panicked /\ fst (m w) <> OutOfFuel /\
  w_mono (snd (m w)) = w_mono w /\ (input_left (snd (m w)) <= input_left w)%nat.

Lemma sound_ret {A} (a : A) w : sound (ret a) w.
Proof. split_and!; done. Qed.

Lemma sound_raise {A} (e : io_error) w : sound (A := A) (raise e) w.
Proof. split_and!; done. Qed.

Lemma sound_fail {A} k msg w : sound (A := A) (fail k msg) w.
Proof. split_and!; done. Qed.

Lemma sound_bind {A B} (m : M A) (k : A -> M B) w :
  sound m w ->
  (forall a w', m w = (Done a, w') -> w_mono w' = w_mono w ->
     (input_left w' <= input_left w)%nat -> sound (k a) w') -> sound (bind m k) w.
Proof.
  unfold sound. intros (Hp & Hf & Hm & Hi) Hk. unfold bind.
  destruct (m w) as [[a|e| |] w'] eqn:E; cbn [fst snd] in *.
  - destruct (Hk a w' eq_refl Hm Hi) as (? & ? & ? & ?). split_and!; [done|done|congruence|lia].
  - split_and!; done.
  - done.
  - done.
Qed.

Lemma sound_try {A} (m : M A) w : sound m w -> sound (try m) w.
Proof.
  unfold sound, try. destruct (m w) as [[] ?]; cbn; intros (? & ? & ? & ?); by split_and!.
Qed.

Lemma sound_ignore {A} (m : M A) w : sound m w -> sound (ignore m) w.
Proof. intros Hm. apply sound_bind; [by apply sound_try|]. intros. apply sound_ret. Qed.

Lemma sound_act a w : sound (act a) w.
Proof. split_and!; done. Qed.

Lemma sound_stats f w : sound (update_stats f) w.
Proof. split_and!; done. Qed.

Lemma sound_now w : sound instant_now w.
Proof. split_and!; done. Qed.

Lemma sound_elapsed start w : sound (elapsed start) w.
Proof. split_and!; done. Qed.

Lemma sound_wall_clock w : sound wall_clock w.
Proof. split_and!; done. Qed.

Lemma sound_timestamp w : sound timestamp w.
Proof. split_and!; done. Qed.

Lemma sound_write_all data w : sound (transport_write_all data) w.
Proof.
  unfold transport_write_all, bind, next_write, sound.
  destruct (w_wr w) as [|[|n e] wr]; cbn; split_and!; done.
Qed.

Lemma sound_flush w : sound transport_flush w.
Proof.
  unfold transport_flush, bind, next_write, sound.
  destruct (w_wr w) as [|[|n e] wr]; cbn; split_and!; done.
Qed.

Lemma sound_stream_write s data w : sound (write_all s data) w.
Proof.
  destruct (write_all_cases s data w) as (o & part & wr & E & Ho). unfold sound. rewrite E.
  by destruct o.
Qed.

Lemma sound_reads {A} (m : M A) w :
  reads m -> fst (m w) <> Panicked -> fst (m w) <> OutOfFuel -> sound m w.
Proof.
  intros Hm Hp Hf. destruct (Hm w) as (o & rx & ws & Hrx & Hws & E). unfold sound.
  rewrite (E w) in * by done. cbn in *. unfold input_left. cbn. split_and!; try done. lia.
Qed.

Lemma rx_upto_fine n rx :
  (length (snd (rx_upto n rx)) <= length rx)%nat /\
  fst (rx_upto n rx) <> Panicked /\ fst (rx_upto n rx) <> OutOfFuel.
Proof.
  revert n. induction rx as [|[b|e] rx IH]; intros [|n]; cbn; try (split_and!; done).
  - destruct (IH n) as (Hl & Hp & Hf). destruct (rx_upto n rx) as [[] ?]; cbn in *;
      split_and!; try done; lia.
  - case_decide; [|cbn; split_and!; try done; lia].
    destruct (IH (S n)) as (Hl & Hp & Hf). split_and!; try done. lia.
Qed.

Lemma sound_upto n w : sound (on_rx (rx_upto n)) w.
Proof.
  destruct (rx_upto_fine n (w_rx w)) as (Hl & Hp & Hf).
  apply sound_reads; [apply reads_on_rx; intros; apply rx_upto_fine|..]; unfold on_rx;
    by destruct (rx_upto n (w_rx w)).
Qed.

Create HintDb sound discriminated.
#[export] Hint Resolve sound_ret sound_raise sound_fail sound_act sound_stats sound_now
  sound_elapsed sound_wall_clock sound_timestamp sound_write_all sound_flush sound_stream_write
  sound_upto sound_ignore sound_try : sound.

(** Sequences of sound calls. *)
Ltac sound_seq :=
  repeat first [ solve [auto with sound] | apply sound_bind; [|intros]
               | progress cbv beta iota | case_match ].

(** ** Reading the head *)

(** One byte of the transport. *)
Lemma read_one rx :
  exists pre, rx = pre ++ snd (rx_exact 1 rx) /\
    match fst (rx_exact 1 rx) with
    | Done l => exists b, l = [b] /\ rx_bytes pre = [b]
    | Fail _ => rx_bytes pre = []
    | _ => False
    end.
Proof.
  induction rx as [|[b|e] rx IH]; rewrite rx_exact_eq.
  - by exists [].
  - exists [RxByte b]. cbn. eauto.
  - case_decide.
    + destruct IH as (pre & Hp & Hl). exists (RxErr e :: pre). cbn [app].
      by rewrite <- Hp.
    + by exists [RxErr e].
Qed.

Lemma read_head_spec fuel buf w :
  (length buf + fuel = Z.to_nat (MAX_HEAD + 1))%nat -> (0 < fuel)%nat ->
  exists pre, w_rx w = pre ++ w_rx (snd (read_head fuel buf w)) /\
    (length (rx_bytes pre) <= fuel)%nat /\
    (exists rx, snd (read_head fuel buf w) = set_rx rx w) /\
    match fst (read_head fuel buf w) with
    | Done head => head = buf ++ rx_bytes pre /\ ends_with end_of_head head = true
    | Fail _ => True
    | _ => False
    end.
Proof.
  revert buf w. induction fuel as [|fuel IH]; intros buf w Hb Hf; [lia|]. cbn [read_head].
  unfold bind, on_rx. destruct (read_one (w_rx w)) as (pre & Hp & Ho).
  destruct (rx_exact 1 (w_rx w)) as [o rx] eqn:E. cbn [fst snd] in *.
  destruct o as [l|e| |]; try done.
  - destruct Ho as (b & -> & Hpre). destruct (ends_with end_of_head (buf ++ [b])) eqn:Ee.
    { exists pre. rewrite Hpre. cbn. split_and!; [by destruct w|lia|eauto|done|done]. }
    destruct (len (buf ++ [b]) >? MAX_HEAD) eqn:El.
    { exists pre. rewrite Hpre. cbn. split_and!; [by destruct w|lia|eauto|done]. }
    rewrite length_app in El. cbn in El. to_prop.
    destruct (IH (buf ++ [b]) (set_rx rx w)) as (pre' & Hp' & Hl' & (rx' & Hr') & Hd').
    { rewrite length_app. cbn. lia. }
    { unfold MAX_HEAD in *. lia. }
    exists (pre ++ pre'). cbn in Hp'. unfold rx_bytes. rewrite omap_app. fold (rx_bytes pre).
    fold (rx_bytes pre'). rewrite Hpre, length_app. cbn [length].
    split_and!.
    + rewrite <- app_assoc, <- Hp'. by destruct w.
    + lia.
    + exists rx'. rewrite Hr'. by destruct w.
    + destruct (fst (read_head fuel (buf ++ [b]) (set_rx rx w))); try done.
      destruct Hd' as [-> Hh]. split; [by rewrite <- app_assoc|exact Hh].
  - exists pre. cbn. rewrite Ho. split_and!; [by destruct w|cbn; lia|eauto|done].
Qed.

Lemma sound_read_head w : sound (read_head head_fuel []) w.
Proof.
  destruct (read_head_spec head_fuel [] w) as (pre & Hp & _ & (rx & Hr) & Ho); [done| |].
  { unfold head_fuel, MAX_HEAD. lia. }
  unfold sound. rewrite Hr in *. unfold input_left. cbn in *. rewrite Hp, length_app.
  destruct (fst (read_head head_fuel [] w)); split_and!; try done; lia.
Qed.

Section upgrade.
Context `{Crypto} `{Serde} `{Build}.

Lemma sound_close t w : sound (transport_close t) w.
Proof. unfold transport_close. sound_seq. Qed.

Lemma sound_post_body t h keys w : sound (post_body t h keys) w.
Proof. unfold post_body. sound_seq. Qed.

Lemma sound_ip_handle t head hsts_line keys w : sound (ip_handle t head hsts_line keys) w.
Proof.
  unfold ip_handle. destruct (scan_headers _ _); [|apply sound_fail].
  apply sound_bind; [|intros; sound_seq].
  unfold ip_answer. destruct (str_eqb _ _); [sound_seq|]. destruct (str_eqb _ _); [|sound_seq].
  destruct (chunked _); [sound_seq|]. destruct (_ >? _); [sound_seq|]. apply sound_post_body.
Qed.

Lemma sound_version_handle head hsts_line w : sound (version_handle head hsts_line) w.
Proof. unfold version_handle. cbv zeta. destruct (version_answer _) as [[? ?] ?]. sound_seq. Qed.

Lemma sound_upgrade t add_hsts keys w : sound (detect_and_upgrade t add_hsts keys) w.
Proof.
  unfold detect_and_upgrade. apply sound_bind; [apply sound_read_head|]. intros buf w1 _ _ _.
  unfold route. cbv zeta. destruct (ip_matches _).
  { apply sound_bind; [apply sound_ip_handle|]. intros.
    apply sound_bind; [apply sound_close|]. intros. apply sound_ret. }
  destruct (version_matches _).
  { apply sound_bind; [apply sound_version_handle|]. intros.
    apply sound_bind; [apply sound_close|]. intros. apply sound_ret. }
  destruct (negb _); [sound_seq|]. destruct (contains _ _).
  - unfold websocket_handshake. sound_seq.
  - destruct (contains _ _); sound_seq.
Qed.

(** C36: the request head cannot exhaust memory: at most 8193 bytes are read
    before the request is refused or its end is found, and the request that is
    routed is exactly what was read. *)
Theorem request_head_bounded w :
  exists pre, w_rx w = pre ++ w_rx (snd (read_head head_fuel [] w)) /\
    len (rx_bytes pre) <= MAX_HEAD + 1 /\
    match fst (read_head head_fuel [] w) with
    | Done head => head = rx_bytes pre /\ ends_with end_of_head head = true
    | Fail _ => True
    | _ => False
    end.
Proof.
  destruct (read_head_spec head_fuel [] w) as (pre & Hp & Hl & _ & Ho); [done| |].
  { unfold head_fuel, MAX_HEAD. lia. }
  exists pre. split_and!; [done|unfold head_fuel, MAX_HEAD in *; lia|done].
Qed.

(** ** Who gets a protocol stream *)

(** The response that precedes a stream. *)
Definition switching (s : Stream) (req hsts_line : str) (resp : str) : Prop :=
  match s with
  | Raw _ => resp = response_101_rmbt hsts_line
  | WebSocket _ => exists key, find_map ws_key_of_line (lines req) = Some key /\
                     resp = response_101_ws (ws_accept key) hsts_line
  end.

(** C21: a client gets a protocol stream only through a GET request, not for [/ip]
    or [/version], in whose head the text "upgrade: rmbt" (for a raw stream) or
    "upgrade: websocket" (for a WebSocket) occurs, in upper or lower case; the code
    asks for the text anywhere in the head, so it need not be a header of its own
    ([upgrade_text_elsewhere]). The 101 response of the right kind has then been
    sent, for a WebSocket with the accept value of the first Sec-WebSocket-Key
    header of the client, and nothing else. *)
Theorem stream_needs_upgrade t add_hsts keys w s w'
    (Hrun : detect_and_upgrade t add_hsts keys w = (Done (Rmbt s), w')) :
  exists head resp,
    let req := from_utf8_lossy head in
    fst (read_head head_fuel [] w) = Done head /\
    ip_matches (request_target req) = false /\ version_matches (request_target req) = false /\
    starts_with !"GET " req = true /\
    contains (match s with Raw _ => !"upgrade: rmbt" | WebSocket _ => !"upgrade: websocket" end)
      (to_ascii_lowercase req) = true /\
    switching s req (if add_hsts then HSTS_HEADER else []) resp /\
    w_out w' = w_out w ++ [Sent resp].
Proof.
  apply bind_Done_inv in Hrun as (head & w1 & E1 & Hrun).
  destruct (read_head_spec head_fuel [] w) as (_ & _ & _ & (rx & Hr) & _); [done| |].
  { unfold head_fuel, MAX_HEAD. lia. }
  rewrite E1 in Hr. cbn in Hr. subst w1. exists head. rewrite E1.
  unfold route in Hrun. cbv zeta in Hrun.
  destruct (ip_matches _) eqn:Eip.
  { apply bind_Done_inv in Hrun as (? & ? & _ & Hrun).
    by apply bind_Done_inv in Hrun as (? & ? & _ & Hrun). }
  destruct (version_matches _) eqn:Ev.
  { apply bind_Done_inv in Hrun as (? & ? & _ & Hrun).
    by apply bind_Done_inv in Hrun as (? & ? & _ & Hrun). }
  destruct (starts_with !"GET " _) eqn:Eg; cbn [negb] in Hrun.
  2:{ apply bind_Done_inv in Hrun as (? & ? & _ & Hrun).
      by apply bind_Done_inv in Hrun as (? & ? & _ & Hrun). }
  destruct (contains !"upgrade: websocket" _) eqn:Ew.
  { apply bind_Done_inv in Hrun as (s' & w2 & E2 & Hrun). injection Hrun as -> <-.
    unfold websocket_handshake in E2. destruct (find_map _ _) as [key|] eqn:Ek; [|done].
    apply bind_Done_inv in E2 as (? & w3 & E3 & E2).
    apply bind_Done_inv in E2 as (? & w4 & E4 & E2). injection E2 as <- <-.
    eexists. cbv zeta. split_and!; try done; [cbn; eauto|].
    apply transport_write_Done in E3 as [E3 _]. apply transport_flush_Done in E4 as [E4 _]. by rewrite E4, E3. }
  destruct (contains !"upgrade: rmbt" _) eqn:Er.
  - apply bind_Done_inv in Hrun as (? & w2 & E2 & Hrun). injection Hrun as <- <-.
    eexists. cbv zeta. split_and!; try done. by apply transport_write_Done in E2 as [? _].
  - apply bind_Done_inv in Hrun as (? & ? & _ & Hrun).
    by apply bind_Done_inv in Hrun as (? & ? & _ & Hrun).
Qed.
End upgrade.

(** ** Concrete runs *)

#[local] Existing Instance toy_crypto.
#[local] Existing Instance ref_serde.
#[local] Instance build_1_9 : Build := {| RMBTD_VERSION := !"1.9.0"; RMBTD_BRANCH := !"main" |}.

Definition upgrade_request : str :=
  !"GET /rmbt HTTP/1.1" ++ crlf ++ !"Upgrade: RMBT" ++ crlf ++ crlf.

Definition upgrade_world : World := world_of (rx_of (upgrade_request ++ !"TOKEN x")) [].

Lemma stream_needs_upgrade_witness :
  exists head resp,
    let req := from_utf8_lossy head in
    fst (read_head head_fuel [] upgrade_world) = Done head /\
    ip_matches (request_target req) = false /\ version_matches (request_target req) = false /\
    starts_with !"GET " req = true /\
    contains !"upgrade: rmbt" (to_ascii_lowercase req) = true /\
    switching (Raw plain) req HSTS_HEADER resp /\
    w_out (snd (detect_and_upgrade plain true [] upgrade_world)) = w_out upgrade_world ++ [Sent resp].
Proof.
  apply (stream_needs_upgrade plain true [] upgrade_world (Raw plain)). vm_compute. reflexivity.
Defined.

(** The text is enough, also in the target of the request. *)
Example upgrade_text_elsewhere :
  let head := !"GET /?upgrade: rmbt HTTP/1.1" ++ crlf ++ crlf in
  fst (detect_and_upgrade plain false [] (world_of (rx_of head) [])) = Done (Rmbt (Raw plain)).
Proof. vm_compute. reflexivity. Qed.
