(* ===== verification/Frame.v ===== *)
(** * What handlers leave alone

    [keeps R m]: the run of [m] relates the world before and the world after it by
    [R], whatever the outcome.  A [Frame] is a preorder that holds across reading,
    writing and the clocks; the handlers of the HTTP phase keep every frame, the
    greeting and the commands keep those that hold across their own effects
    (auth events, statistics). *)

From stdpp Require Import vector.
From S2P Require Import Prelude RustStr Net Crypto Config Token Stats Io Stream StreamFacts Events Greeting Commands Version IpCheck Upgrade.

Definition keeps (R : relation World) {A} (m : M A) : Prop := forall w, R w (snd (m w)).

Class Frame (R : relation World) : Prop := {
  frame_pre :: PreOrder R;
  frame_rx v w : R w (set_rx v w);
  frame_ws v w : R w (set_ws v w);
  frame_bursts v w : R w (set_bursts v w);
  frame_wr v w : R w (set_wr v w);
  frame_tick w : R w (set_tick (S (w_tick w)) w);
  frame_act a w : (forall b, a <> Datagram b) -> R w (set_out (w_out w ++ [a]) w)
}.

Section frame.
Context (R : relation World) `{!Frame R}.

(** ** The monad *)

Lemma keeps_pure {A} (m : M A) : (forall w, snd (m w) = w) -> keeps R m.
Proof. intros H w. by rewrite H. Qed.

Lemma keeps_ret {A} (a : A) : keeps R (ret a).
Proof. by apply keeps_pure. Qed.
Lemma keeps_raise {A} e : keeps R (raise (A := A) e).
Proof. by apply keeps_pure. Qed.
Lemma keeps_fail {A} k msg : keeps R (fail (A := A) k msg).
Proof. by apply keeps_pure. Qed.
Lemma keeps_panic {A} : keeps R (panic (A := A)).
Proof. by apply keeps_pure. Qed.
Lemma keeps_out_of_fuel {A} : keeps R (out_of_fuel (A := A)).
Proof. by apply keeps_pure. Qed.

Lemma keeps_bind {A B} (m : M A) (k : A -> M B) :
  keeps R m -> (forall a, keeps R (k a)) -> keeps R (bind m k).
Proof.
  intros Hm Hk w. specialize (Hm w). unfold bind. destruct (m w) as [[a| | |] w'] eqn:E; try exact Hm.
  etrans; [exact Hm|apply Hk].
Qed.

Lemma keeps_try {A} (m : M A) : keeps R m -> keeps R (try m).
Proof. intros Hm w. specialize (Hm w). unfold try. by destruct (m w) as [[] ?]. Qed.

Lemma keeps_ignore {A} (m : M A) : keeps R m -> keeps R (ignore m).
Proof. intros Hm. apply keeps_bind; [by apply keeps_try|]. intros. apply keeps_ret. Qed.

Lemma keeps_world {A} (m : World -> M A) : (forall w, keeps R (m w)) -> keeps R (fun w => m w w).
Proof. intros H w. apply H. Qed.

(** ** Primitives *)

Lemma keeps_reads {A} (m : M A) : reads m -> keeps R m.
Proof.
  intros Hm w. destruct (Hm w) as (o & rx & ws & _ & _ & H). rewrite (H w) by done. cbn.
  etrans; [apply (frame_ws ws)|apply frame_rx].
Qed.

Lemma keeps_on_rx {A} (f : list rx_event -> outcome A * list rx_event) : keeps R (on_rx f).
Proof. intros w. unfold on_rx. destruct (f (w_rx w)). apply frame_rx. Qed.

Lemma keeps_act a : (forall b, a <> Datagram b) -> keeps R (act a).
Proof. intros Ha w. by apply frame_act. Qed.

Lemma keeps_sent b : keeps R (act (Sent b)).
Proof. by apply keeps_act. Qed.
Lemma keeps_frame_sent m : keeps R (act (SentFrame m)).
Proof. by apply keeps_act. Qed.
Lemma keeps_close_notify : keeps R (act CloseNotify).
Proof. by apply keeps_act. Qed.
Lemma keeps_slept n : keeps R (act (Slept n)).
Proof. by apply keeps_act. Qed.

Lemma keeps_now : keeps R instant_now.
Proof. intros w. apply frame_tick. Qed.
Lemma keeps_wall_clock : keeps R wall_clock.
Proof. intros w. etrans; [apply frame_tick|apply (frame_tick (set_tick (S (w_tick w)) w))]. Qed.
Lemma keeps_timestamp : keeps R timestamp.
Proof. intros w. apply frame_tick. Qed.

Lemma keeps_next_write : keeps R next_write.
Proof. intros w. unfold next_write. destruct (w_wr w); [apply keeps_ret|]. apply frame_wr. Qed.
End frame.

Create HintDb frame discriminated.
#[export] Hint Extern 1 (Frame _) => apply _ : frame.
#[export] Hint Resolve keeps_ret keeps_raise keeps_fail keeps_panic keeps_out_of_fuel keeps_on_rx
  keeps_sent keeps_frame_sent keeps_close_notify keeps_slept keeps_now keeps_wall_clock
  keeps_timestamp keeps_next_write : frame.

(** Sequences of calls that keep the frame. *)
Ltac keep_step :=
  lazymatch goal with
  | |- keeps _ (ignore _) => apply keeps_ignore; [apply _|]
  | |- keeps _ (try _) => apply keeps_try
  | |- keeps _ (bind _ _) => apply keeps_bind; [apply _| |intros]
  | |- keeps _ (if _ then _ else _) => case_match
  | |- keeps _ (match _ with _ => _ end) => case_match
  | |- keeps _ (let _ := _ in _) => cbv zeta
  end.

Ltac keep := repeat first [ solve [auto with frame] | keep_step | progress cbv beta iota ].

Section handlers.
Context (R : relation World) `{!Frame R}.

Lemma keeps_elapsed start : keeps R (elapsed start).
Proof. unfold elapsed. keep. Qed.

Lemma keeps_transport_write data : keeps R (transport_write_all data).
Proof. unfold transport_write_all. keep. Qed.

Lemma keeps_flush : keeps R transport_flush.
Proof. unfold transport_flush. keep. Qed.

Lemma keeps_write s data : keeps R (write_all s data).
Proof.
  destruct s; cbn; [apply keeps_transport_write|]. unfold ws_send, ws_flush. keep.
Qed.

Lemma keeps_write_line s line : keeps R (write_line s line).
Proof. apply keeps_write. Qed.

Lemma keeps_read_line s : keeps R (read_line s).
Proof. apply keeps_reads, reads_read_line. done. Qed.

Lemma keeps_read_exact s n : keeps R (read_exact s n).
Proof. apply keeps_reads, reads_read_exact. done. Qed.
End handlers.

#[export] Hint Resolve keeps_elapsed keeps_transport_write keeps_flush keeps_write keeps_write_line
  keeps_read_line keeps_read_exact : frame.

(** ** The HTTP phase *)

Section upgrade.
Context `{Crypto} `{Serde} `{Build} (R : relation World) `{!Frame R}.

Lemma keeps_close t : keeps R (transport_close t).
Proof. unfold transport_close. keep. Qed.

Lemma keeps_read_head fuel buf : keeps R (read_head fuel buf).
Proof. revert buf. induction fuel as [|fuel IH]; intros buf; cbn [read_head]; keep. Qed.

Lemma keeps_ip_handle t head hsts_line keys : keeps R (ip_handle t head hsts_line keys).
Proof. unfold ip_handle, ip_answer, post_body. keep. Qed.

Lemma keeps_version_handle head hsts_line : keeps R (version_handle head hsts_line).
Proof. unfold version_handle. keep. Qed.

Lemma keeps_upgrade t add_hsts keys : keeps R (detect_and_upgrade t add_hsts keys).
Proof.
  unfold detect_and_upgrade, route, websocket_handshake.
  pose proof keeps_close. pose proof keeps_ip_handle. pose proof keeps_version_handle.
  apply keeps_bind; [done|apply keeps_read_head|intros buf]. keep.
Qed.
End upgrade.

(** ** The commands *)

Lemma keeps_handle_ping (R : relation World) `{!Frame R} s :
  (forall ns, keeps R (update_stats (add_ping ns))) -> keeps R (handle_ping s).
Proof. intros Hadd. unfold handle_ping. keep. Qed.

Section commands.
Context (R : relation World) `{!Frame R}.
Context (random : nat -> byte) (clock_fuel : nat) (s : Stream).

(** What the statistics have to keep: every update of the handlers. *)
Context (Hcount : keeps R (update_stats count_command)).
Context (Hdown : forall n ns, keeps R (update_stats (add_download n ns))).
Context (Hup : forall n ns, keeps R (update_stats (add_upload n ns))).
Context (Hping : keeps R (handle_ping s)).

Lemma keeps_chunk_arg arg cs max : keeps R (chunk_arg s arg cs max).
Proof. unfold chunk_arg. keep. Qed.

Lemma keeps_set_last b buf : keeps R (set_last b buf).
Proof. unfold set_last. keep. Qed.

Lemma keeps_random_chunk n : keeps R (random_chunk random n).
Proof. unfold random_chunk. keep. Qed.

Lemma keeps_last_byte buf n : keeps R (last_byte buf n).
Proof. unfold last_byte. keep. Qed.

Lemma keeps_acknowledge start : keeps R (acknowledge s start).
Proof. unfold acknowledge. keep. Qed.

#[local] Hint Resolve keeps_chunk_arg keeps_set_last keeps_random_chunk keeps_last_byte
  keeps_acknowledge : frame.

Lemma keeps_gettime_loop fuel start max_ns cs buf n :
  keeps R (gettime_loop fuel s start max_ns cs buf n).
Proof. revert buf n. induction fuel as [|fuel IH]; intros buf n; cbn [gettime_loop]; keep. Qed.

Lemma keeps_getchunks_loop n buf : keeps R (getchunks_loop n s buf).
Proof. revert buf. induction n as [|n IH]; intros buf; cbn [getchunks_loop]; keep. Qed.

Lemma keeps_put_loop fuel start cs send total last :
  keeps R (put_loop fuel s start cs send total last).
Proof.
  revert total last. induction fuel as [|fuel IH]; intros total last; cbn [put_loop]; keep.
Qed.

#[local] Hint Resolve keeps_gettime_loop keeps_getchunks_loop keeps_put_loop : frame.

Lemma keeps_handle_gettime secs arg cs max :
  keeps R (handle_gettime random clock_fuel s secs arg cs max).
Proof. unfold handle_gettime. keep. Qed.

Lemma keeps_handle_getchunks n arg cs max : keeps R (handle_getchunks random s n arg cs max).
Proof. unfold handle_getchunks. keep. Qed.

Lemma keeps_handle_put arg cs max send : keeps R (handle_put s arg cs max send).
Proof.
  unfold handle_put. apply keeps_bind; [done|auto with frame|intros [cs'|]; [|auto with frame]].
  apply keeps_bind; [done|auto with frame|intros _]. apply keeps_bind; [done|auto with frame|intros start].
  apply keeps_bind; [done|apply (keeps_world R (fun w => put_loop _ s start cs' send 0 never_reported));
    auto with frame|intros total]. keep.
Qed.

#[local] Hint Resolve keeps_handle_gettime keeps_handle_getchunks keeps_handle_put : frame.

Lemma keeps_dispatch cmd arg1 arg2 cs max :
  keeps R (dispatch random clock_fuel s cmd arg1 arg2 cs max).
Proof. unfold dispatch. keep. Qed.

Lemma keeps_command_loop fuel cs max : keeps R (command_loop random clock_fuel fuel s cs max).
Proof.
  revert cs. induction fuel as [|fuel IH]; intros cs; cbn [command_loop]; [keep|].
  pose proof keeps_dispatch. keep.
Qed.

Lemma keeps_run_commands : keeps R (run_commands random clock_fuel s).
Proof.
  apply (keeps_world R (fun w => command_loop random clock_fuel (S (input_left w)) s CHUNK_SIZE MAX_CHUNK_SIZE)).
  intros w. apply keeps_command_loop.
Qed.
End commands.
