(* ===== verification/Logger.v ===== *)
(** * Log lines: [logger/mod.rs]

    [init] installs the formatter of the log lines; which records are written,
    and where, is [env_logger]. *)

From S2P Require Import Prelude RustStr Config.

(** [{:<n}] of an ASCII text. *)
Definition pad_right (n : nat) (s : str) : str := s ++ repeat Byte.x20 (n - length s).

(** One line: [ts] is the local time as [%Y-%m-%dT%H:%M:%S%.3f], [level] the name
    of the level of the record. *)
Definition log_line (ts level args : str) : str :=
  ts ++ !" [" ++ pad_right 5 level ++ !"] " ++ args ++ [Byte.x0a].

(** [try_init] is that of an [env_logger::Builder] with this filter and format:
    it installs the logger, or fails when there is one already. *)
Definition init (try_init : LevelFilter -> (str -> str -> str -> str) -> result unit str)
    (level : LevelFilter) : result unit str :=
  match try_init level log_line with
  | Ok _ => Ok tt
  | Err e => Err (!"logger init failed: " ++ e)
  end.

(** ** Reading a line *)

(** A level name as [log] has them: at most five letters. *)
Definition level_ok (l : str) : Prop := (length l <= 5)%nat /\ Byte.x20 ∉ l.

Lemma level_column l : level_ok l -> length (pad_right 5 l) = 5%nat.
Proof. intros [H _]. unfold pad_right. rewrite length_app, repeat_length. lia. Qed.

Lemma pad_right_inj n l l' :
  Byte.x20 ∉ l -> Byte.x20 ∉ l' -> pad_right n l = pad_right n l' -> l = l'.
Proof.
  unfold pad_right. revert l' n. induction l as [|c l IH]; intros [|c' l'] n Hl Hl' E; [done|..].
  - destruct n; cbn in E; [by simplify_eq|]. exfalso. injection E as <- _. apply Hl'. by left.
  - destruct n; cbn in E; [by simplify_eq|]. exfalso. injection E as -> _. apply Hl. by left.
  - cbn in E. injection E as -> E. f_equal. apply not_elem_of_cons in Hl as [_ Hl], Hl' as [_ Hl'].
    by apply (IH l' (pred n)); [done|done|]; destruct n.
Qed.

(** A line determines time, level and message, the times being of one length. *)
Lemma log_line_inj ts ts' l l' args args' :
  length ts = length ts' -> level_ok l -> level_ok l' -> log_line ts l args = log_line ts' l' args' ->
  ts = ts' /\ l = l' /\ args = args'.
Proof.
  unfold log_line. intros Hts Hl Hl' E. apply app_inj_1 in E as [-> E]; [|done].
  apply (app_inv_head !" [") in E. apply app_inj_1 in E as [E E']; [|by rewrite !level_column].
  apply (app_inv_head !"] ") in E'. apply app_inj_2 in E' as [-> _]; [|done].
  apply pad_right_inj in E as ->; [done|apply Hl|apply Hl'].
Qed.

Example a_line :
  log_line !"2026-06-21T12:34:56.789" !"INFO" !"ready" =
  !"2026-06-21T12:34:56.789 [INFO ] ready" ++ [Byte.x0a].
Proof. reflexivity. Qed.
