(* ===== verification/Tls.v ===== *)
(** * TLS configuration: [tls.rs]

    [build_tls_config] loads the certificate chain and the private key from PEM
    files.  Reading PEM ([rustls_pemfile]) and checking the pair ([rustls]) are
    the class [Rustls]; what is the program's own is the order of the steps, the
    choice of the key, the protocol versions, and the errors. *)

From S2P Require Import Prelude RustStr Io.

Inductive ProtocolVersion : Type :=
  | TLS12
  | TLS13.

#[export] Instance ProtocolVersion_eq_dec : EqDecision ProtocolVersion.
Proof. solve_decision. Defined.

(** [rustls::pki_types::PrivateKeyDer], as far as it is used. *)
Inductive PrivateKeyDer (K : Type) : Type :=
  | Pkcs8 (k : K)
  | Pkcs1 (k : K).
Arguments Pkcs8 {K} k.
Arguments Pkcs1 {K} k.

(** [rustls_pemfile] gives the items of a file in order, each of them with its
    own error; [with_single_cert] is
    [builder.with_no_client_auth().with_single_cert(..)], the builder being
    [ServerConfig::builder_with_protocol_versions] for [Some] versions and
    [ServerConfig::builder] for [None]. *)
Class Rustls : Type := {
  PemFile : Type;
  CertificateDer : Type;
  KeyDer : Type;
  ServerConfig : Type;
  certs : PemFile -> list (result CertificateDer str);
  pkcs8_private_keys : PemFile -> list (result KeyDer str);
  rsa_private_keys : PemFile -> list (result KeyDer str);
  with_single_cert : option (list ProtocolVersion) -> list CertificateDer -> PrivateKeyDer KeyDer ->
    result ServerConfig str;
  (** The versions that a configuration negotiates. *)
  offered : ServerConfig -> list ProtocolVersion
}.

(** What the documentation of [rustls] says of the two builders. *)
Class RustlsLaws (R : Rustls) : Prop := {
  offered_given vs chain key cfg :
    with_single_cert (Some vs) chain key = Ok cfg -> offered cfg = vs;
  offered_default chain key cfg :
    with_single_cert None chain key = Ok cfg -> offered cfg = [TLS13; TLS12]
}.

(** [collect::<Result<Vec<_>, _>>()]: the first error ends it. *)
Fixpoint collect {A E} (l : list (result A E)) : result (list A) E :=
  match l with
  | [] => Ok []
  | Err e :: _ => Err e
  | Ok a :: l' => match collect l' with Ok k => Ok (a :: k) | Err e => Err e end
  end.

Inductive tls_error : Type :=
  | CertNotOpened (path : str) (e : io_error)
  | CertNotParsed (path : str) (e : str)
  | NoCertificates (path : str)
  | KeyNotOpened (path : str) (e : io_error)
  | KeyNotReopened (e : io_error)
  | BadPkcs8 (e : str)
  | BadRsa (e : str)
  | NoPrivateKey (path : str)
  | ConfigRefused (e : str).

Section tls.
Context `{Rustls}.

(** [File::open]; the [k]-th call, for the file may change between two. *)
Variable open : nat -> str -> result PemFile io_error.

(** The first PKCS#8 key, else the first RSA key. *)
Definition private_key (key_path : str) (f1 f2 : PemFile) : result (PrivateKeyDer KeyDer) tls_error :=
  match pkcs8_private_keys f1 with
  | Ok k :: _ => Ok (Pkcs8 k)
  | Err e :: _ => Err (BadPkcs8 e)
  | [] =>
      match rsa_private_keys f2 with
      | Ok k :: _ => Ok (Pkcs1 k)
      | Err e :: _ => Err (BadRsa e)
      | [] => Err (NoPrivateKey key_path)
      end
  end.

(** The versions given to the builder. *)
Definition protocol_versions (tls13_only : bool) : option (list ProtocolVersion) :=
  if tls13_only then Some [TLS13] else None.

Definition build_tls_config (cert_path key_path : str) (tls13_only : bool)
    : result ServerConfig tls_error :=
  match open 0 cert_path with
  | Err e => Err (CertNotOpened cert_path e)
  | Ok cert_file =>
      match collect (certs cert_file) with
      | Err e => Err (CertNotParsed cert_path e)
      | Ok [] => Err (NoCertificates cert_path)
      | Ok cert_chain =>
          match open 1 key_path with
          | Err e => Err (KeyNotOpened key_path e)
          | Ok key_file =>
              match open 2 key_path with
              | Err e => Err (KeyNotReopened e)
              | Ok key_file2 =>
                  match private_key key_path key_file key_file2 with
                  | Err e => Err e
                  | Ok key =>
                      match with_single_cert (protocol_versions tls13_only) cert_chain key with
                      | Ok config => Ok config
                      | Err e => Err (ConfigRefused e)
                      end
                  end
              end
          end
      end
  end.

(** ** What a configuration is made of *)

Lemma collect_Ok {A E} (l : list (result A E)) k : collect l = Ok k <-> l = map Ok k.
Proof.
  revert k. induction l as [|[a|e] l IH]; intros k; cbn.
  - split; [by intros [= <-]|]. by destruct k.
  - destruct (collect l) as [k'|e] eqn:El.
    + split; [intros [= <-]; cbn; f_equal; by apply IH|].
      destruct k as [|b k]; [done|]. intros [= -> Hk]. apply IH in Hk. by simplify_eq.
    + split; [done|]. destruct k as [|b k]; [done|]. intros [= -> Hk]. by apply IH in Hk.
  - split; [done|]. by destruct k.
Qed.

(** The key that a PEM file gives. *)
Inductive key_in (f1 f2 : PemFile) : PrivateKeyDer KeyDer -> Prop :=
  | key_pkcs8 k l : pkcs8_private_keys f1 = Ok k :: l -> key_in f1 f2 (Pkcs8 k)
  | key_rsa k l : pkcs8_private_keys f1 = [] -> rsa_private_keys f2 = Ok k :: l ->
      key_in f1 f2 (Pkcs1 k).

Lemma private_key_Ok path f1 f2 key : private_key path f1 f2 = Ok key <-> key_in f1 f2 key.
Proof.
  unfold private_key. split.
  - destruct (pkcs8_private_keys f1) as [|[k|e] l] eqn:E1; [|intros [= <-]; by eapply key_pkcs8|done].
    destruct (rsa_private_keys f2) as [|[k|e] l] eqn:E2; [done| |done].
    intros [= <-]. by eapply key_rsa.
  - by intros [k l -> |k l -> ->].
Qed.

(** C20: there is a TLS configuration exactly when the certificate file opens and
    every item of it parses, at least one of them, the key file opens (twice)
    and has a PKCS#8 key as the first such item or, without any, an RSA key, and
    [rustls] takes the whole chain, in the order of the file, with that key. *)
Theorem tls_config_built cert_path key_path tls13_only config :
  build_tls_config cert_path key_path tls13_only = Ok config <->
  exists cert_file c chain f1 f2 key,
    open 0 cert_path = Ok cert_file /\ certs cert_file = map Ok (c :: chain) /\
    open 1 key_path = Ok f1 /\ open 2 key_path = Ok f2 /\ key_in f1 f2 key /\
    with_single_cert (if tls13_only then Some [TLS13] else None) (c :: chain) key = Ok config.
Proof.
  unfold build_tls_config, protocol_versions. split.
  - destruct (open 0 cert_path) as [cert_file|] eqn:E0; [|done].
    destruct (collect (certs cert_file)) as [[|c chain]|] eqn:Ec; [done| |done].
    apply collect_Ok in Ec. destruct (open 1 key_path) as [f1|] eqn:E1; [|done].
    destruct (open 2 key_path) as [f2|] eqn:E2; [|done].
    destruct (private_key key_path f1 f2) as [key|] eqn:Ek; [|done]. apply private_key_Ok in Ek.
    destruct (with_single_cert _ (c :: chain) key) eqn:Ew; [|done]. intros [= ->].
    by exists cert_file, c, chain, f1, f2, key.
  - intros (cert_file & c & chain & f1 & f2 & key & -> & Hc & -> & -> & Hk & Hw).
    apply collect_Ok in Hc. apply (private_key_Ok key_path) in Hk. by rewrite Hc, Hk, Hw.
Qed.

(** With [--tls13-only] the server never negotiates TLS 1.2; without it, it
    offers both versions. *)
Theorem tls13_only_offered `{!RustlsLaws H} cert_path key_path tls13_only config
    (Hc : build_tls_config cert_path key_path tls13_only = Ok config) :
  TLS13 ∈ offered config /\ (TLS12 ∈ offered config <-> tls13_only = false).
Proof.
  unfold build_tls_config in Hc. repeat (case_match; try done); simplify_eq.
  destruct tls13_only; cbn in *.
  - match goal with E : with_single_cert _ _ _ = Ok _ |- _ => apply offered_given in E as -> end.
    split; [by left|]. split; [|done]. by intros ?%list_elem_of_singleton.
  - match goal with E : with_single_cert _ _ _ = Ok _ |- _ => apply offered_default in E as -> end.
    split; [by left|]. split; [done|]. intros _. right. by left.
Qed.
End tls.

(** ** A concrete instance *)

(** A PEM file is the list of its items, a configuration what it was made from. *)
#[export] Instance ToyRustls : Rustls := {|
  PemFile := list (result nat str) * list (result nat str) * list (result nat str);
  CertificateDer := nat;
  KeyDer := nat;
  ServerConfig := list ProtocolVersion * list nat * PrivateKeyDer nat;
  certs := fun f => f.1.1;
  pkcs8_private_keys := fun f => f.1.2;
  rsa_private_keys := fun f => f.2;
  with_single_cert := fun vs chain key => Ok (default [TLS13; TLS12] vs, chain, key);
  offered := fun c => c.1.1
|}.

#[export] Instance ToyRustls_laws : RustlsLaws ToyRustls.
Proof. split; by intros; simplify_eq/=. Qed.

(** A chain of two certificates and an RSA key. *)
Definition toy_open (k : nat) (path : str) : result PemFile io_error :=
  if str_eqb path !"cert.pem" then Ok ([Ok 1%nat; Ok 2%nat], [], [])
  else if str_eqb path !"key.pem" then Ok ([], [], [Ok 7%nat])
  else Err (mkErr OtherKind !"No such file or directory").

Lemma tls13_only_offered_witness :
  let config := ([TLS13], [1%nat; 2%nat], Pkcs1 7%nat) in
  TLS13 ∈ offered config /\ (TLS12 ∈ offered config <-> true = false).
Proof. apply (tls13_only_offered toy_open !"cert.pem" !"key.pem" true). reflexivity. Defined.

(** A broken PKCS#8 key is an error even when there is an RSA key. *)
Example pkcs8_preferred :
  private_key !"key.pem" ([], [Err !"bad"], []) ([], [], [Ok 7%nat]) = Err (BadPkcs8 !"bad").
Proof. reflexivity. Qed.
