(* ===== verification/Connection.v ===== *)
(** * One connection: [handle_connection] of [server/mod.rs]

    Set-up, HTTP phase, greeting and command loop, with exactly one [close]
    event at the end.  The socket options and the TLS setup belong to the
    operating system and to [rustls]: whether they work is part of the
    description of the accepted socket. *)

From stdpp Require Import vector.
From S2P Require Import Prelude RustStr Net Crypto Config Token Stats Io Stream Events Greeting Commands Version IpCheck Upgrade.

(** The accepted socket: its peer address as [getpeername] gives it, whether
    the timeouts can be set, and whether [ServerConnection::new] succeeds. *)
Record TcpStream : Type := mkTcp {
  tcp_peer : option SocketAddr;
  tcp_timeouts : bool;
  tcp_tls_setup : bool
}.

(** [Transport::plain] and [Transport::tls] *)
Definition Transport_plain (stream : TcpStream) : Transport := mkTransport false (tcp_peer stream).

Definition Transport_tls (stream : TcpStream) : option Transport :=
  if tcp_tls_setup stream then Some (mkTransport true (tcp_peer stream)) else None.

Record WorkerCtx : Type := mkCtx {
  ctx_config : Config;
  ctx_keys : list SecretKey;
  ctx_tls : bool;              (* [tls_cfg.is_some()] *)
  ctx_sink : option EventSink
}.

Definition anonymise_addr (addr : SocketAddr) : str :=
  match sa_ip addr with
  | V4 a b c _ =>
      show_unsigned (bz a) ++ !"." ++ show_unsigned (bz b) ++ !"." ++ show_unsigned (bz c) ++ !".*"
  | V6 o =>
      show_hex (segment 0 o) ++ !":" ++ show_hex (segment 1 o) ++ !":" ++
      show_hex (segment 2 o) ++ !":*"
  end.

(** The address that goes into logs and events. *)
Definition client_name (cfg : Config) (addr : SocketAddr) : str :=
  if log_full_ip cfg then show_ip (sa_ip addr) else anonymise_addr addr.

Definition is_client_disconnect (e : io_error) : bool :=
  match e_kind e with
  | UnexpectedEof | ConnectionReset | ConnectionAborted | BrokenPipe => true
  | _ => false
  end.

(** How the command loop ended. *)
Definition command_end (r : result unit io_error) : str :=
  match r with
  | Ok _ => !"quit"
  | Err e => if is_client_disconnect e then !"disconnect" else !"error"
  end.

Section connection.
Context `{Crypto} `{Serde} `{Build}.
Variable random : nat -> byte.
Variable clock_fuel : nat.

(** [Transport::tls] or [Transport::plain]. *)
Definition make_transport (tcp : TcpStream) (is_tls : bool) (ctx : WorkerCtx)
    : result Transport str :=
  if is_tls then
    if ctx_tls ctx then
      match Transport_tls tcp with Some t => Ok t | None => Err !"tls_failed" end
    else Err !"no_tls_worker"
  else Ok (Transport_plain tcp).

(** The greeting and the commands on an upgraded stream. *)
Definition session_rmbt (conn_id : Z) (s : Stream) (client : str) (ctx : WorkerCtx)
    : M (str * option Greeting) :=
  let* r := try (run_greeting s conn_id (ctx_config ctx) (ctx_keys ctx) (ctx_sink ctx) client) in
  match r with
  | Err _ => ret (!"auth_failed", None)
  | Ok g =>
      let* r := try (run_commands random clock_fuel s) in
      ret (command_end r, Some g)
  end.

(** The labelled block: the end reason and the greeting, if it succeeded. *)
Definition session (conn_id : Z) (tcp : TcpStream) (is_tls : bool) (client : str)
    (ctx : WorkerCtx) : M (str * option Greeting) :=
  if negb (tcp_timeouts tcp) then ret (!"timeout_setup_failed", None)
  else
    match make_transport tcp is_tls ctx with
    | Err reason => ret (reason, None)
    | Ok transport =>
        let add_hsts := is_tls && hsts (ctx_config ctx) in
        let* r := try (detect_and_upgrade transport add_hsts (ctx_keys ctx)) in
        match r with
        | Ok (Rmbt s) => session_rmbt conn_id s client ctx
        | Ok (IpCheckAnswered _) => ret (!"ip_check", None)
        | Ok (VersionAnswered _) => ret (!"version", None)
        | Err e =>
            if is_client_disconnect e then ret (!"upgrade_disconnect", None)
            else ret (!"upgrade_failed", None)
        end
    end.

Definition close_event (sink : option EventSink) (conn_id : Z) (is_tls : bool) (start : Z)
    (greeting : option Greeting) (end_reason : str) : M unit :=
  match sink with
  | None => ret tt
  | Some s =>
      let '(uuid, token, secret) :=
        match greeting with
        | Some g => (g_uuid g, g_token_type g, g_label g)
        | None => ([], [], [])
        end in
      let* ns := elapsed start in
      fun w => close s conn_id uuid token secret is_tls ns (w_stats w) end_reason w
  end.

Definition handle_connection (conn_id : Z) (tcp : TcpStream) (addr : SocketAddr) (is_tls : bool)
    (ctx : WorkerCtx) : M unit :=
  let client := client_name (ctx_config ctx) addr in
  do* match ctx_sink ctx with
      | Some s => connect s conn_id client is_tls
      | None => ret tt
      end in
  let* start := instant_now in
  do* update_stats (fun _ => ConnStats_new) in
  let* r := session conn_id tcp is_tls client ctx in
  let '(end_reason, greeting) := r in
  close_event (ctx_sink ctx) conn_id is_tls start greeting end_reason.
End connection.
