(* ===== verification/SourceTests.v ===== *)
(** * The unit tests of the sources, run on the model

    Every [#\[test\]] function of the sources is a definition here, with its
    helpers; it is run by the kernel, with the cryptography of [RefCrypto] and the
    JSON reader of [RefSerde]. So the definitions of the development agree with
    the program wherever its authors said what it should do. [None] is an [unwrap]
    that panics. JSON is written with single quotes, see [dq]. *)

From stdpp Require Import vector.
From Stdlib Require Import SpecFloat.
From S2P Require Import Prelude RustStr Net Crypto RefCrypto Config Token Stats Json Io Stream Version IpCheck RefSerde Events Upgrade Connection.

#[local] Existing Instance ref_crypto.
#[local] Existing Instance ref_serde.

Definition dq (s : str) : str := map (fun c => if decide (c = Byte.x27) then quote else c) s.

Definition ok {A E} (r : result A E) : option A := match r with Ok a => Some a | Err _ => None end.

Definition passed (t : option bool) : bool := match t with Some b => b | None => false end.

Definition is_accepted (r : TokenResult) : bool := match r with Accepted _ _ => true | _ => false end.
Definition is_invalid_hmac (r : TokenResult) : bool := match r with InvalidHmac => true | _ => false end.
Definition is_invalid_ip (r : TokenResult) : bool := match r with InvalidIp => true | _ => false end.
Definition is_too_early (r : TokenResult) : bool := match r with TooEarly _ => true | _ => false end.
Definition is_too_late (r : TokenResult) : bool := match r with TooLate _ => true | _ => false end.
Definition is_parse_error (r : TokenResult) : bool := match r with ParseError => true | _ => false end.
Definition is_v2_required (r : TokenResult) : bool := match r with V2Required => true | _ => false end.

Definition rejects (p : TokenResult -> bool) (r : result IpToken TokenResult) : bool :=
  match r with Err e => p e | Ok _ => false end.

(** ** [protocol/token.rs] *)

Section token_tests.
Variable clk : clock.
Let now : Z := now_secs clk 0.

Definition two_keys : list SecretKey :=
  [mkKey !"control-a-secret" !"control-a"; mkKey !"control-b-secret" !"control-b"].

Definition UUID : str := !"8723358c-2037-4029-a70c-91e5d9d35cf3".

Definition SEED : str := !"topsecret".

Definition keys (k : str) : list SecretKey := [mkKey k !"test"].

Definition v2_bare (seed : str) (ip : IpAddr) (time : Z) : str :=
  let tb := u32_to_be_bytes time in
  let ph := hmac_sha256 seed [tb] in
  let ih := hmac_sha256 seed [tb; mapped_ipv6 ip] in
  B64_encode (tb ++ take 8 ph ++ take 4 ih).

Definition wrap_v2 (bare : str) : str :=
  !"8723358c-2037-4029-a70c-91e5d9d35cf3_1700000000_v1hmac_#v2#" ++ bare.

Definition make_v2 (seed : str) (ip : IpAddr) (time : Z) : str := wrap_v2 (v2_bare seed ip time).

Definition make_v1 (seed uuid : str) (ts : Z) : str :=
  let hmac := hmac_sha1_b64 seed (uuid ++ !"_" ++ show_int ts) in
  uuid ++ !"_" ++ show_int ts ++ !"_" ++ hmac.

Definition ip_token_selects_the_issuing_key_not_the_first : option bool :=
  ip ← parse_ip !"62.1.2.3";
  let tok := make_test_token !"control-b-secret" UUID now ip in
  t ← ok (check_ip_token clk tok two_keys ip);
  Some (str_eqb (label (it_key t)) !"control-b" && str_eqb (open_test_uuid t) UUID && matching_ip t).

Definition ip_token_matching_ip_false_for_other_address : option bool :=
  issued_for ← parse_ip !"62.1.2.3";
  let tok := make_test_token !"control-a-secret" UUID now issued_for in
  other ← parse_ip !"2001:db8::1";
  t ← ok (check_ip_token clk tok two_keys other);
  Some (str_eqb (label (it_key t)) !"control-a" && negb (matching_ip t)).

Definition ip_token_v1_only_or_broken_v2_is_not_matching_ip : option bool :=
  ip ← parse_ip !"62.1.2.3";
  let v1 := make_v1 !"control-a-secret" UUID now in
  t1 ← ok (check_ip_token clk v1 two_keys ip);
  let broken := v1 ++ !"_#v2#notbase64!" in
  t2 ← ok (check_ip_token clk broken two_keys ip);
  let other := make_test_token !"control-b-secret" UUID now ip in
  '(_, other_v2) ← split_once !"_#v2#" other;
  let mixed := v1 ++ !"_#v2#" ++ other_v2 in
  t3 ← ok (check_ip_token clk mixed two_keys ip);
  Some (negb (matching_ip t1) && negb (matching_ip t2) && negb (matching_ip t3)).

Definition ip_token_rejects_invalid_v1 : option bool :=
  ip ← parse_ip !"62.1.2.3";
  let unknown := make_test_token !"unknown-secret" UUID now ip in
  let late := make_test_token !"control-a-secret" UUID (now - MAX_ACCEPT_LATE - 5) ip in
  let early := make_test_token !"control-a-secret" UUID (now + MAX_ACCEPT_EARLY + 5) ip in
  let tok := make_test_token !"control-a-secret" UUID now ip in
  '(_, v2) ← split_once !"_#v2#" tok;
  let forged := UUID ++ !"_" ++ show_int now ++ !"_bogus_#v2#" ++ v2 in
  Some (rejects is_invalid_hmac (check_ip_token clk unknown two_keys ip)
        && rejects is_too_late (check_ip_token clk late two_keys ip)
        && rejects is_too_early (check_ip_token clk early two_keys ip)
        && rejects is_parse_error (check_ip_token clk !"garbage" two_keys ip)
        && rejects is_invalid_hmac (check_ip_token clk forged two_keys ip)).

(** [Ipv4Addr::new(62, 1, 2, 3)] and [(9, 9, 9, 9)] *)
Definition v4_62 : IpAddr := V4 Byte.x3e Byte.x01 Byte.x02 Byte.x03.
Definition v4_9 : IpAddr := V4 Byte.x09 Byte.x09 Byte.x09 Byte.x09.

Definition v2_correct_ipv4_accepted : option bool :=
  let tok := make_v2 SEED v4_62 (wrap_u 32 now) in
  Some (is_accepted (validate_token clk tok (keys SEED) (Some v4_62) false)).

Definition v2_correct_ipv6_accepted : option bool :=
  ip ← parse_ip !"2001:db8::1";
  let tok := make_v2 SEED ip (wrap_u 32 now) in
  Some (is_accepted (validate_token clk tok (keys SEED) (Some ip) false)).

Definition v2_wrong_ipv4_rejected : option bool :=
  let tok := make_v2 SEED v4_62 (wrap_u 32 now) in
  Some (is_invalid_ip (validate_token clk tok (keys SEED) (Some v4_9) false)).

Definition v2_wrong_ipv6_rejected : option bool :=
  issued_for ← parse_ip !"2001:db8::1";
  connecting ← parse_ip !"2001:db8::2";
  let tok := make_v2 SEED issued_for (wrap_u 32 now) in
  Some (is_invalid_ip (validate_token clk tok (keys SEED) (Some connecting) false)).

Definition v2_ipv4_token_from_ipv6_rejected : option bool :=
  connecting ← parse_ip !"2001:db8::1";
  let tok := make_v2 SEED v4_62 (wrap_u 32 now) in
  Some (is_invalid_ip (validate_token clk tok (keys SEED) (Some connecting) false)).

Definition v2_wrong_key_rejected : option bool :=
  let tok := make_v2 SEED v4_62 (wrap_u 32 now) in
  Some (is_invalid_hmac (validate_token clk tok (keys !"othersecret") (Some v4_62) false)).

Definition v2_too_late_rejected : option bool :=
  let tok := make_v2 SEED v4_62 (wrap_u 32 (now - 1000)) in
  Some (is_too_late (validate_token clk tok (keys SEED) (Some v4_62) false)).

Definition v2_too_early_rejected : option bool :=
  let tok := make_v2 SEED v4_62 (wrap_u 32 (now + 1000)) in
  Some (is_too_early (validate_token clk tok (keys SEED) (Some v4_62) false)).

Definition v2_missing_source_ip_rejected : option bool :=
  let tok := make_v2 SEED v4_62 (wrap_u 32 now) in
  Some (is_invalid_ip (validate_token clk tok (keys SEED) None false)).

Definition v1_still_accepted_by_default : option bool :=
  let tok := make_v1 SEED UUID now in
  Some (is_accepted (validate_token clk tok (keys SEED) None false)).

Definition v1_rejected_in_v2_only_mode : option bool :=
  let tok := make_v1 SEED UUID now in
  Some (is_v2_required (validate_token clk tok (keys SEED) None true)).

Definition v2_accepted_in_v2_only_mode : option bool :=
  let tok := make_v2 SEED v4_62 (wrap_u 32 now) in
  Some (is_accepted (validate_token clk tok (keys SEED) (Some v4_62) true)).

Definition ipv4_mapped_ipv6_matches_v4 : option bool :=
  mapped ← parse_ip !"::ffff:62.1.2.3";
  Some (bool_decide (mapped_ipv6 v4_62 = mapped_ipv6 mapped)).

Definition V2_GOLDEN : str := !"ZVPxAEzErM6+VBk3HmTzPw==".
Definition V1_GOLDEN : str :=
  !"8723358c-2037-4029-a70c-91e5d9d35cf3_1700000000_Q+55pZ/JOQgjMe49FlelxsfCxqA=".

Definition v2_golden_vector_is_byte_compatible_with_reference : option bool :=
  Some (str_eqb (v2_bare SEED v4_62 1700000000) V2_GOLDEN).

Definition v2_golden_token_crypto_valid_but_old : option bool :=
  Some (is_too_late (validate_token clk (wrap_v2 V2_GOLDEN) (keys SEED) (Some v4_62) false)).

Definition combined_token_ignores_v1_prefix_and_uses_v2 : option bool :=
  let tok := !"garbage_not_a_real_v1_token_#v2#" ++ v2_bare SEED v4_62 (wrap_u 32 now) in
  Some (is_accepted (validate_token clk tok (keys SEED) (Some v4_62) false)).

Definition v1_golden_token_crypto_valid_but_old : option bool :=
  Some (is_too_late (validate_token clk V1_GOLDEN (keys SEED) None false)).

Definition token_tests : list (option bool) :=
  [ip_token_selects_the_issuing_key_not_the_first; ip_token_matching_ip_false_for_other_address;
   ip_token_v1_only_or_broken_v2_is_not_matching_ip; ip_token_rejects_invalid_v1;
   v2_correct_ipv4_accepted; v2_correct_ipv6_accepted; v2_wrong_ipv4_rejected;
   v2_wrong_ipv6_rejected; v2_ipv4_token_from_ipv6_rejected; v2_wrong_key_rejected;
   v2_too_late_rejected; v2_too_early_rejected; v2_missing_source_ip_rejected;
   v1_still_accepted_by_default; v1_rejected_in_v2_only_mode; v2_accepted_in_v2_only_mode;
   ipv4_mapped_ipv6_matches_v4; v2_golden_vector_is_byte_compatible_with_reference;
   v2_golden_token_crypto_valid_but_old; combined_token_ignores_v1_prefix_and_uses_v2;
   v1_golden_token_crypto_valid_but_old].
End token_tests.

(** ** [ip_check.rs] *)

Section ip_tests.
Variable clk : clock.
Let now : Z := now_secs clk 0.

Definition KEY : str := !"testkey12345".
Definition IP_UUID : str := !"f71d53f4-c67c-4b99-b319-979f714cd408".

Definition ip_keys : list SecretKey :=
  [mkKey !"control-a-secret" !"control-a"; mkKey !"control-b-secret" !"control-b"].

Definition token_b (issued_for : str) : option str :=
  ip ← parse_ip issued_for; Some (make_test_token !"control-b-secret" IP_UUID now ip).

Definition answer (fields public : str) : option (result IpAnswer IpError) :=
  let sep := if bool_decide (fields = []) then [] else !"," in
  tok ← token_b public;
  let body := dq !"{'token':'" ++ tok ++ dq !"'" ++ sep ++ fields ++ !"}" in
  ip ← parse_ip public;
  Some (ip_response clk body ip ip_keys).

Definition json (fields public : str) : option str :=
  r ← answer fields public; a ← ok r; Some (ia_json a).

Definition status (body : str) : option str :=
  ip ← parse_ip !"203.0.113.1";
  Some match ip_response clk body ip ip_keys with
       | Ok _ => !"200"
       | Err (status, _) => take 3 status
       end.

Definition matches_path : option bool :=
  Some (ip_matches !"/ip" && ip_matches !"/ip?x=1" && negb (ip_matches !"/ip/")
        && negb (ip_matches !"/ipx") && negb (ip_matches !"/RMBTControlServer/ip")).

(** [nat(fields).contains(expected)] *)
Definition nat_is (fields expected : str) : option bool :=
  j ← json (dq fields) !"213.47.60.109"; Some (contains (dq expected) j).

Definition nat_types_match_control_server : option bool :=
  plain ← json [] !"213.47.60.109";
  t1 ← nat_is !"'client_ip_local':'192.168.1.5'" !"'nat_type':'nat_local_to_public_ipv4'";
  t2 ← nat_is !"'client_ip_local':'213.47.60.109'" !"'nat_type':'no_nat_ipv4'";
  t3 ← nat_is !"'client_ip_local':'::ffff:213.47.60.109'" !"'nat_type':'no_nat_ipv4'";
  t4 ← nat_is !"'client_ip_local':'fe80::1'" !"'nat_type':'nat_ipv6_to_public_ipv4'";
  t5 ← nat_is !"'client_ip_local':null,'client_uuid':'x'" !"'nat_type':'is_ipv4'";
  t6 ← nat_is !"'client_ip_local':'  '" !"'nat_type':'is_ipv4'";
  Some (starts_with (dq !"{'v':'4','ip':'213.47.60.109','nat_type':'is_ipv4',") plain
        && t1 && t2 && t3 && t4 && t5 && t6).

Definition ipv6_and_mapped_clients : option bool :=
  r1 ← json (dq !"'client_ip_local':'2001:db8::1'") !"2001:db8::1";
  r2 ← json [] !"::ffff:198.51.100.7";
  r3 ← json (dq !"'client_ip_local':'10.0.0.2'") !"10.0.0.1";
  Some (starts_with (dq !"{'v':'6','ip':'2001:db8::1','nat_type':'no_nat_ipv6',") r1
        && starts_with (dq !"{'v':'4','ip':'198.51.100.7','nat_type':'is_ipv4','matching_ip':true,") r2
        && contains (dq !"'nat_type':'nat_local_to_local_ipv4'") r3).

Definition status_is (expected body : str) : option bool :=
  s ← status body; Some (str_eqb s expected).

(** A request with this token and these further members. *)
Definition with_token (tok fields : str) : str := dq !"{'token':'" ++ tok ++ dq fields.

Definition rejects_bad_requests : option bool :=
  tok ← token_b !"203.0.113.1";
  t1 ← status_is !"400" [];
  t2 ← status_is !"400" !"{x";
  t3 ← status_is !"400" !"[]";
  t4 ← status_is !"400" (with_token tok !"','client_ip_local':'nope'}");
  t5 ← status_is !"400" (with_token tok !"','client_ip_local':5}");
  t6 ← status_is !"400" (with_token tok !"','client_ip_local':{}}");
  t7 ← status_is !"400" (dq !"{'token':5}");
  Some (t1 && t2 && t3 && t4 && t5 && t6 && t7).

(** One round of the loop of the next test. *)
Definition unsigned_for (ip : IpAddr) (body : str) : option bool :=
  a ← ok (ip_response clk (dq body) ip ip_keys);
  Some (negb (contains !"matching_ip" (ia_json a)) && negb (contains !"signature" (ia_json a))
        && contains !"unsigned" (ia_note a)).

Definition without_token_the_answer_is_unsigned : option bool :=
  ip ← parse_ip !"203.0.113.1";
  t1 ← unsigned_for ip !"{}";
  t2 ← unsigned_for ip !"{'token':null}";
  t3 ← unsigned_for ip !"{'token':'  '}";
  t4 ← unsigned_for ip !"{'client_ip_local':'192.168.1.5'}";
  a ← ok (ip_response clk (dq !"{'client_ip_local':'192.168.1.5'}") ip ip_keys);
  Some (t1 && t2 && t3 && t4
        && str_eqb (ia_json a)
             (dq !"{'v':'4','ip':'203.0.113.1','nat_type':'nat_local_to_public_ipv4'}")).

Definition a_given_token_must_be_valid : option bool :=
  ip ← parse_ip !"203.0.113.1";
  t1 ← status_is !"403" (dq !"{'token':'garbage'}");
  let unknown := make_test_token !"unknown-secret" IP_UUID now ip in
  t2 ← status_is !"403" (with_token unknown !"'}");
  let expired := make_test_token !"control-a-secret" IP_UUID (now - 3600) ip in
  t3 ← status_is !"403" (with_token expired !"'}");
  Some (t1 && t2 && t3).

Definition signs_with_the_key_that_issued_the_token : option bool :=
  r ← answer (dq !"'test_uuid':'ignored'") !"203.0.113.1";
  a ← ok r;
  uuid ← parse_uuid IP_UUID;
  ip ← parse_ip !"203.0.113.1";
  let sig_b := B64_encode (ip_signature !"control-b-secret" ip uuid) in
  let sig_a := B64_encode (ip_signature !"control-a-secret" ip uuid) in
  Some (contains !"key 'control-b'" (ia_note a)
        && negb (contains !"is_proxy" (ia_json a)) && negb (contains !"salt" (ia_json a))
        && contains (dq !"'signature':'" ++ sig_b ++ dq !"'") (ia_json a)
        && negb (contains sig_a (ia_json a))).

Definition matching_ip_reports_whether_the_token_was_issued_for_this_address : option bool :=
  r ← answer [] !"203.0.113.1";
  same ← ok r;
  tok ← token_b !"203.0.113.1";
  ip ← parse_ip !"2001:db8::7";
  other ← ok (ip_response clk (with_token tok !"'}") ip ip_keys);
  Some (contains (dq !"'matching_ip':true") (ia_json same)
        && contains (dq !"'ip':'2001:db8::7'") (ia_json other)
        && contains (dq !"'matching_ip':false") (ia_json other)
        && contains (dq !"'signature':") (ia_json other)).

Definition without_keys_a_token_is_refused : option bool :=
  ip ← parse_ip !"203.0.113.1";
  tok ← token_b !"203.0.113.1";
  a ← ok (ip_response clk !"{}" ip []);
  Some (negb (is_some (ok (ip_response clk (with_token tok !"'}") ip [])))
        && str_eqb (ia_json a) (dq !"{'v':'4','ip':'203.0.113.1','nat_type':'is_ipv4'}")).

Definition content_type : option bool :=
  Some (is_json !"application/json" && is_json !"Application/JSON; charset=utf-8"
        && negb (is_json !"text/plain") && negb (is_json [])).

(** [to_uppercase] of ASCII text *)
Definition to_uppercase (s : str) : str :=
  map (fun c => if between 97 122 c then zb (bz c - 32) else c) s.

Definition parses_uuid : option bool :=
  bytes ← parse_uuid IP_UUID;
  Some (bool_decide (take 4 bytes = [Byte.xf7; Byte.x1d; Byte.x53; Byte.xf4])
        && bool_decide (bytes !! 15%nat = Some Byte.x08)
        && bool_decide (parse_uuid (to_uppercase IP_UUID) = Some bytes)
        && negb (is_some (parse_uuid (!"O" ++ IP_UUID)))
        && negb (is_some (parse_uuid !"f71d53f4c67c4b99b319979f714cd408"))
        && negb (is_some (parse_uuid !"+71d53f4-c67c-4b99-b319-979f714cd408"))).

Definition signature_binds_ip_and_uuid : option bool :=
  uuid ← parse_uuid IP_UUID;
  v4 ← parse_ip !"203.0.113.1";
  mapped ← parse_ip !"::ffff:203.0.113.1";
  v4' ← parse_ip !"203.0.113.2";
  let sig := ip_signature KEY v4 uuid in
  let other := match uuid with b :: u => zb (Z.lxor (bz b) 1) :: u | [] => [] end in
  Some (str_eqb (B64_encode sig) !"HVDXiyb2awlRvPhVIx5y/ERz113y0rnCMCHyU2ktAcA="
        && bool_decide (sig = ip_signature KEY mapped uuid)
        && bool_decide (sig <> ip_signature KEY v4' uuid)
        && bool_decide (sig <> ip_signature KEY v4 other)
        && bool_decide (sig <> ip_signature !"otherkey" v4 uuid)).

Definition ip_tests : list (option bool) :=
  [matches_path; nat_types_match_control_server; ipv6_and_mapped_clients; rejects_bad_requests;
   without_token_the_answer_is_unsigned; a_given_token_must_be_valid;
   signs_with_the_key_that_issued_the_token;
   matching_ip_reports_whether_the_token_was_issued_for_this_address;
   without_keys_a_token_is_refused; content_type; parses_uuid; signature_binds_ip_and_uuid].
End ip_tests.

(** ** [events.rs] *)

Definition json_escapes_quotes_and_controls : option bool :=
  let s := json_escape (!"a" ++ [quote] ++ !"b\c" ++ [Byte.x0a]) in
  Some (str_eqb s (!"a\" ++ [quote] ++ !"b\\c\n")).

Definition json_builder_emits_object : option bool :=
  let j := json_str !"event" !"x" Json_new in
  let j := json_int !"conn" 3 j in
  let j := json_bool !"tls" true j in
  let j := json_float !"v" (f64_div (f64_of_Z 3) (f64_of_Z 2)) j in
  Some (str_eqb (json_done j) (dq !"{'event':'x','conn':3,'tls':true,'v':1.500}")).

Definition mbps_computes_throughput : option bool :=
  let diff := SFabs (SFsub 53 1024 (mbps 1000000 1000000000) (f64_of_Z 8)) in
  Some (SFltb diff (f64_div (f64_of_Z 1) (f64_of_Z 1000000000))
        && SFeqb (mbps 100 0) (f64_of_Z 0)).

Definition stats_track_min_ping_and_totals : option bool :=
  let s := ConnStats_new in
  let s := add_download 1000 500 s in
  let s := add_download 2000 1500 s in
  let s := add_ping 900 s in
  let s := add_ping 300 s in
  Some ((download_bytes s =? 3000) && (download_ns s =? 2000) && (ping_count s =? 2)
        && (ping_min_ns s =? 300) && (ping_max_ns s =? 900)).

Definition events_tests : list (option bool) :=
  [json_escapes_quotes_and_controls; json_builder_emits_object; mbps_computes_throughput;
   stats_track_min_ping_and_totals].

(** ** [server/mod.rs] *)

Definition ipv4_drops_last_octet : option bool :=
  addr ← parse_socket_addr !"203.0.113.42:8080";
  Some (str_eqb (anonymise_addr addr) !"203.0.113.*").

Definition ipv6_keeps_only_first_48_bits : option bool :=
  addr ← parse_socket_addr !"[2001:db8:85a3:8d3:1319:8a2e:370:7348]:443";
  Some (str_eqb (anonymise_addr addr) !"2001:db8:85a3:*").

Definition server_tests : list (option bool) := [ipv4_drops_last_octet; ipv6_keeps_only_first_48_bits].

(** ** [version.rs] *)

Section version_tests.
Context `{Build}.

Definition version_matches_path : option bool :=
  Some (version_matches !"/version" && version_matches !"/version?x=1"
        && negb (version_matches !"/version/") && negb (version_matches !"/versions")
        && negb (version_matches !"/RMBTControlServer/version")).

Definition body_is_json_with_the_build_version : option bool :=
  v ← ok (from_slice version_body);
  m ← match v with VObject m => Some m | _ => None end;
  s ← match obj_get m !"version" with Some (VString s) => Some s | _ => None end;
  Some (starts_with (!"v" ++ RMBTD_VERSION) s
        && Bool.eqb (ends_with !")" s) (negb (bool_decide (RMBTD_BRANCH = [])))
        && (length m =? 1)%nat).

Definition version_tests : list (option bool) :=
  [version_matches_path; body_is_json_with_the_build_version].
End version_tests.

(** ** The results *)

(** A day in 2025, and the last seconds before the 32-bit time of v2 tokens
    wraps around in 2106: there the token that is too early is one of the next
    period. *)
Definition day : clock := fun _ => 1750000000%N.
Definition before_wrap : clock := fun _ => 4294967290%N.

Lemma token_tests_pass : forallb passed (token_tests day) = true.
Proof. vm_compute. reflexivity. Qed.

Lemma v2_tests_pass_before_wrap :
  forallb passed [v2_correct_ipv4_accepted before_wrap; v2_too_late_rejected before_wrap;
    v2_too_early_rejected before_wrap] = true.
Proof. vm_compute. reflexivity. Qed.

Lemma ip_tests_pass : forallb passed (ip_tests day) = true.
Proof. vm_compute. reflexivity. Qed.

Lemma other_tests_pass : forallb passed (events_tests ++ server_tests) = true.
Proof. vm_compute. reflexivity. Qed.

Lemma version_tests_pass :
  let b v br := {| RMBTD_VERSION := v; RMBTD_BRANCH := br |} in
  forallb (fun build => forallb passed (@version_tests build))
    [b !"1.9.0" !"main"; b !"1.9.0-1-g0601658" []; b !"0.0.0-dev" !"feature/x"] = true.
Proof. vm_compute. reflexivity. Qed.

(** ** Other published vectors *)

(** The token of the reference test vector, both parts, byte for byte. *)
Lemma golden_token :
  make_test_token SEED UUID 1700000000 v4_62 = V1_GOLDEN ++ !"_#v2#" ++ V2_GOLDEN.
Proof. vm_compute. reflexivity. Qed.

(** The handshake answer of RFC 6455, section 1.3. *)
Lemma golden_accept :
  ws_accept !"dGhlIHNhbXBsZSBub25jZQ==" = !"s3pPLMBiTxaQ9kYGzzhZRbK+xOo=".
Proof. vm_compute. reflexivity. Qed.
