(* ===== verification/ConnectionFacts.v ===== *)
(** * What connection handling guarantees

    No client input, failing write or clock makes the worker thread panic or
    hang; every connection ends with its close event. *)

From stdpp Require Import vector.
From S2P Require Import Prelude RustStr Net Crypto RefCrypto Config Token TokenFacts Stats Io Stream StreamFacts Events Greeting Commands Protocol Termination CommandFacts GreetingFacts Version IpCheck RefSerde Upgrade UpgradeFacts Connection.

Section connection.
Context `{Crypto} `{Serde} `{Build}.
Context (random : nat -> byte) (clock_fuel : nat).

Lemma sound_read_line s w : sound (read_line s) w.
Proof.
  destruct (ends_read_line s w) as (Hf & Hm & Hi & _). destruct (silent_read_line s w) as [_ Hs].
  split_and!; try done. intros E. by rewrite E in Hs.
Qed.

Lemma sound_first_line fuel s w : (input_left w < fuel)%nat -> sound (first_line fuel s) w.
Proof.
  revert w. induction fuel as [|fuel IH]; intros w Hf; [lia|]. cbn [first_line].
  apply sound_bind; [apply sound_read_line|]. intros l w' E _ _.
  apply read_line_progress in E. case_bool_decide; [apply IH; lia|apply sound_ret].
Qed.

Lemma sound_auth k conn_id client uuid tt_ result label reason w :
  sound (auth k conn_id client uuid tt_ result label reason) w.
Proof. unfold auth, emit. cbv zeta. sound_seq. Qed.

Lemma sound_opt_auth sink conn_id client uuid tt_ result label reason w :
  sound (opt_auth sink conn_id client uuid tt_ result label reason) w.
Proof. destruct sink; cbn; [apply sound_auth|apply sound_ret]. Qed.

Lemma sound_check_token s conn_id cfg keys sink client uuid tt_ tok w :
  sound (check_greeting_token s conn_id cfg keys sink client uuid tt_ tok) w.
Proof.
  unfold check_greeting_token. destruct (check_token cfg); cbv zeta.
  - apply sound_bind; [apply sound_wall_clock|]. intros clk w1 _ _ _.
    destruct (validate_token _ _ _ _ _).
    1: { apply sound_bind; [apply sound_opt_auth|]. intros. sound_seq. }
    all: apply sound_bind; [apply sound_opt_auth|]; intros; unfold write_line; sound_seq.
  - apply sound_bind; [apply sound_opt_auth|]. intros. apply sound_ret.
Qed.

Lemma sound_greeting s conn_id cfg keys sink client w :
  sound (run_greeting s conn_id cfg keys sink client) w.
Proof.
  unfold sound, run_greeting, write_line.
  match goal with |- context [fst (bind ?m ?k w)] => change (sound (bind m k) w) end.
  apply sound_bind; [apply sound_stream_write|]. intros _ w1 _ _ Hi1.
  apply sound_bind; [apply sound_stream_write|]. intros _ w2 _ _ Hi2.
  apply sound_bind; [apply sound_first_line; lia|]. intros line w3 _ _ _.
  destruct (strip_prefix _ _).
  - cbv zeta. apply sound_bind; [apply sound_check_token|]. intros. sound_seq.
  - destruct (starts_with _ _); sound_seq.
Qed.

Lemma sound_run_commands s w :
  clock_advances clock_fuel (w_mono w) -> sound (run_commands random clock_fuel s) w.
Proof.
  intros Hc.
  assert (Hcs : size_ok CHUNK_SIZE) by (split; vm_compute; discriminate).
  destruct (ends_command_loop random clock_fuel s (S (input_left w)) CHUNK_SIZE w)
    as (Hf & Hm & Hi & _); [done|done|lia|].
  destruct (conv_run_commands random clock_fuel s w) as (? & ? & ? & _ & _ & Hp).
  split_and!; try done. intros E. by rewrite E in Hp.
Qed.

Lemma sound_session conn_id tcp is_tls client ctx w :
  clock_advances clock_fuel (w_mono w) ->
  sound (session random clock_fuel conn_id tcp is_tls client ctx) w.
Proof.
  intros Hc. unfold session. destruct (negb _); [apply sound_ret|].
  destruct (make_transport _ _ _) as [t|]; [|apply sound_ret]. cbv zeta.
  apply sound_bind; [apply sound_try, sound_upgrade|]. intros r w1 _ Hm1 _.
  destruct r as [[s| |]|e]; try apply sound_ret; [|destruct (is_client_disconnect e); apply sound_ret].
  unfold session_rmbt. apply sound_bind; [apply sound_try, sound_greeting|].
  intros r w2 _ Hm2 _. destruct r as [g|]; [|apply sound_ret].
  apply sound_bind; [|intros; apply sound_ret].
  apply sound_try, sound_run_commands. by rewrite Hm2, Hm1.
Qed.

(** ** How a connection goes *)

Definition outcome_of {A} (r : result A io_error) : outcome A :=
  match r with Ok a => Done a | Err e => Fail e end.

Lemma sound_result {A} (m : M A) w :
  sound m w ->
  exists r w', m w = (outcome_of r, w') /\ try m w = (Done r, w') /\ w_mono w' = w_mono w.
Proof.
  unfold sound, try. intros (Hp & Hf & Hm & _). destruct (m w) as [[a|e| |] w1]; cbn in *; [| |done..].
  - by exists (Ok a), w1.
  - by exists (Err e), w1.
Qed.

Section course.
Context (conn_id : Z) (tcp : TcpStream) (is_tls : bool) (client : str) (ctx : WorkerCtx) (w : World).

(** The HTTP phase is reached and has the result [u]. *)
Definition upgraded (u : result Upgrade io_error) (w1 : World) : Prop :=
  tcp_timeouts tcp = true /\ (is_tls = true -> ctx_tls ctx = true /\ tcp_tls_setup tcp = true) /\
  detect_and_upgrade (mkTransport is_tls (tcp_peer tcp)) (is_tls && hsts (ctx_config ctx))
    (ctx_keys ctx) w = (outcome_of u, w1).

(** The greeting is reached on the stream [s] and has the result [r]. *)
Definition greeted_with (s : Stream) (r : result Greeting io_error) (w2 : World) : Prop :=
  exists w1, upgraded (Ok (Rmbt s)) w1 /\
    run_greeting s conn_id (ctx_config ctx) (ctx_keys ctx) (ctx_sink ctx) client w1
      = (outcome_of r, w2).

(** The ways a connection can go from [w] on: what decides, the end reason, the
    greeting exactly if it succeeded, and the world at the end. *)
Inductive course : str -> option Greeting -> World -> Prop :=
  | no_timeouts : tcp_timeouts tcp = false -> course !"timeout_setup_failed" None w
  | no_tls_here : tcp_timeouts tcp = true -> is_tls = true -> ctx_tls ctx = false ->
      course !"no_tls_worker" None w
  | tls_setup_fails : tcp_timeouts tcp = true -> is_tls = true -> ctx_tls ctx = true ->
      tcp_tls_setup tcp = false -> course !"tls_failed" None w
  | upgrade_lost e w1 : upgraded (Err e) w1 -> is_client_disconnect e = true ->
      course !"upgrade_disconnect" None w1
  | upgrade_fails e w1 : upgraded (Err e) w1 -> is_client_disconnect e = false ->
      course !"upgrade_failed" None w1
  | ip_answered sum w1 : upgraded (Ok (IpCheckAnswered sum)) w1 -> course !"ip_check" None w1
  | version_answered sum w1 : upgraded (Ok (VersionAnswered sum)) w1 -> course !"version" None w1
  | greeting_fails s e w2 : greeted_with s (Err e) w2 -> course !"auth_failed" None w2
  | client_quits s g w2 w3 : greeted_with s (Ok g) w2 ->
      run_commands random clock_fuel s w2 = (Done tt, w3) -> course !"quit" (Some g) w3
  | client_lost s g e w2 w3 : greeted_with s (Ok g) w2 ->
      run_commands random clock_fuel s w2 = (Fail e, w3) -> is_client_disconnect e = true ->
      course !"disconnect" (Some g) w3
  | commands_fail s g e w2 w3 : greeted_with s (Ok g) w2 ->
      run_commands random clock_fuel s w2 = (Fail e, w3) -> is_client_disconnect e = false ->
      course !"error" (Some g) w3.

Context (Hclock : clock_advances clock_fuel (w_mono w)).

(** The part after the transport was made. *)
Lemma stream_course r w1 :
  upgraded r w1 -> w_mono w1 = w_mono w ->
  exists reason g w2,
    match r with
    | Ok (Rmbt s) => session_rmbt random clock_fuel conn_id s client ctx
    | Ok (IpCheckAnswered _) => ret (!"ip_check", None)
    | Ok (VersionAnswered _) => ret (!"version", None)
    | Err e =>
        if is_client_disconnect e then ret (!"upgrade_disconnect", None)
        else ret (!"upgrade_failed", None)
    end w1 = (Done (reason, g), w2) /\ course reason g w2 /\ w_mono w2 = w_mono w.
Proof.
  intros Hu Hm1. destruct r as [[s|sum|sum]|e].
  - destruct (sound_result _ _ (sound_greeting s conn_id (ctx_config ctx) (ctx_keys ctx)
      (ctx_sink ctx) client w1)) as (r & w2 & E2 & T2 & Hm2).
    assert (Hg : greeted_with s r w2) by (by exists w1).
    unfold session_rmbt. rewrite (bind_Done _ _ _ _ _ T2). destruct r as [g|e].
    + assert (Hc : clock_advances clock_fuel (w_mono w2)) by (by rewrite Hm2, Hm1).
      destruct (sound_result _ _ (sound_run_commands s w2 Hc)) as (r & w3 & E3 & T3 & Hm3).
      rewrite (bind_Done _ _ _ _ _ T3). eexists _, _, w3. split; [reflexivity|].
      split; [|by rewrite Hm3, Hm2]. destruct r as [[]|e]; cbn [command_end]; [by eapply client_quits|].
      destruct (is_client_disconnect e) eqn:Ee; [by eapply client_lost|by eapply commands_fail].
    + eexists _, _, w2. split; [reflexivity|]. split; [by eapply greeting_fails|by rewrite Hm2].
  - eexists _, _, w1. split; [reflexivity|]. split; [by eapply ip_answered|done].
  - eexists _, _, w1. split; [reflexivity|]. split; [by eapply version_answered|done].
  - destruct (is_client_disconnect e) eqn:Ee; eexists _, _, w1; (split; [reflexivity|split; [|done]]).
    + by eapply upgrade_lost.
    + by eapply upgrade_fails.
Qed.

(** The labelled block takes one of these courses. *)
Lemma session_course :
  exists reason g w1,
    session random clock_fuel conn_id tcp is_tls client ctx w = (Done (reason, g), w1) /\
    course reason g w1 /\ w_mono w1 = w_mono w.
Proof.
  unfold session, make_transport, Transport_tls, Transport_plain.
  destruct (tcp_timeouts tcp) eqn:Et; cbn [negb].
  2:{ eexists _, _, w. split_and!; [reflexivity|by apply no_timeouts|done]. }
  destruct (sound_result _ _ (sound_upgrade (mkTransport is_tls (tcp_peer tcp))
    (is_tls && hsts (ctx_config ctx)) (ctx_keys ctx) w)) as (r & w1 & E1 & T1 & Hm1).
  assert (Hrun : (is_tls = true -> ctx_tls ctx = true /\ tcp_tls_setup tcp = true) -> upgraded r w1)
    by (by intros Htls).
  destruct is_tls eqn:Etls.
  - destruct (ctx_tls ctx) eqn:Ec.
    2:{ eexists _, _, w. split_and!; [reflexivity|by apply no_tls_here|done]. }
    destruct (tcp_tls_setup tcp) eqn:Es.
    2:{ eexists _, _, w. split_and!; [reflexivity|by apply tls_setup_fails|done]. }
    cbv zeta. rewrite (bind_Done _ _ _ _ _ T1). by apply stream_course; [apply Hrun|].
  - cbv zeta. rewrite (bind_Done _ _ _ _ _ T1). by apply stream_course; [apply Hrun|].
Qed.
End course.

(** The end reasons, by whether the greeting had succeeded. *)
Definition reasons_before : list str :=
  [!"timeout_setup_failed"; !"tls_failed"; !"no_tls_worker"; !"ip_check"; !"version";
   !"upgrade_disconnect"; !"upgrade_failed"; !"auth_failed"].
Definition reasons_after : list str := [!"quit"; !"disconnect"; !"error"].

Lemma course_reasons conn_id tcp is_tls client ctx w reason g w1 :
  course conn_id tcp is_tls client ctx w reason g w1 ->
  reason ∈ (match g with None => reasons_before | Some _ => reasons_after end).
Proof. unfold reasons_before, reasons_after. destruct 1; set_solver. Qed.

(** ** The whole connection *)

(** The identity a close event carries. *)
Definition close_identity (g : option Greeting) : str * str * str :=
  match g with
  | Some g => (g_uuid g, g_token_type g, g_label g)
  | None => ([], [], [])
  end.

Definition event_out (sink : option EventSink) (ts msgid body : str) : list action :=
  match sink with
  | Some k => [Datagram (frame k ts SEV_INFO msgid body)]
  | None => []
  end.

(** The clock reading at which the connection starts, after the connect event. *)
Definition start_tick (sink : option EventSink) (w : World) : nat := (event_ticks sink + w_tick w)%nat.

(** The connection is announced, its clock started, its statistics are zero. *)
Definition opened (sink : option EventSink) (conn_id : Z) (client : str) (is_tls : bool) (w : World)
    : World :=
  set_stats ConnStats_new
    (done_out (event_out sink (w_stamp w (w_tick w)) !"connect" (connect_body conn_id client is_tls))
       (S (start_tick sink w)) w).

(** The close event of a connection from [w] that has gone to [w1]. *)
Definition close_out (sink : option EventSink) (conn_id : Z) (is_tls : bool) (reason : str)
    (g : option Greeting) (w w1 : World) : list action :=
  let '(uuid, token, secret) := close_identity g in
  event_out sink (w_stamp w1 (S (w_tick w1))) !"close"
    (close_body conn_id uuid token secret is_tls
       (elapsed_between w (start_tick sink w) (w_tick w1)) (w_stats w1) reason).

Lemma close_event_run sink conn_id is_tls reason g w w1 :
  w_mono w1 = w_mono w ->
  exists w',
    close_event sink conn_id is_tls (w_mono w (start_tick sink w)) g reason w1 = (Done tt, w') /\
    w_out w' = w_out w1 ++ close_out sink conn_id is_tls reason g w w1 /\
    w_stats w' = w_stats w1 /\ (w_tick w1 <= w_tick w')%nat.
Proof.
  intros Hm. unfold close_event, close_out, elapsed_between. destruct sink as [k|].
  - fold (close_identity g). destruct (close_identity g) as [[uuid token] secret].
    eexists. split; [reflexivity|]. cbn. rewrite Hm. split_and!; [done|done|lia].
  - exists w1. destruct (close_identity g) as [[uuid token] secret]. cbn.
    rewrite app_nil_r. by split_and!.
Qed.

Lemma connection_run conn_id tcp addr is_tls ctx w :
  clock_advances clock_fuel (w_mono w) ->
  let client := client_name (ctx_config ctx) addr in
  let w0 := opened (ctx_sink ctx) conn_id client is_tls w in
  exists w' reason g w1,
    handle_connection random clock_fuel conn_id tcp addr is_tls ctx w = (Done tt, w') /\
    session random clock_fuel conn_id tcp is_tls client ctx w0 = (Done (reason, g), w1) /\
    course conn_id tcp is_tls client ctx w0 reason g w1 /\
    w_out w' = w_out w1 ++ close_out (ctx_sink ctx) conn_id is_tls reason g w w1 /\
    w_stats w' = w_stats w1 /\ (w_tick w1 <= w_tick w')%nat.
Proof.
  intros Hclock client w0. destruct (session_course conn_id tcp is_tls client ctx w0 Hclock)
    as (reason & g & w1 & E & Hc & Hm).
  destruct (close_event_run (ctx_sink ctx) conn_id is_tls reason g w w1 Hm) as (w' & E' & Ho & Hs & Ht).
  exists w', reason, g, w1. split_and!; try done.
  unfold handle_connection. cbv zeta. fold client.
  assert (Hcon : match ctx_sink ctx with Some k => connect k conn_id client is_tls | None => ret tt end w
    = (Done tt, done_out (event_out (ctx_sink ctx) (w_stamp w (w_tick w)) !"connect"
         (connect_body conn_id client is_tls)) (start_tick (ctx_sink ctx) w) w)).
  { destruct (ctx_sink ctx); [reflexivity|]. unfold done_out, ret. cbn. rewrite app_nil_r.
    by destruct w. }
  rewrite (bind_Done _ _ _ _ _ Hcon). erewrite bind_Done by reflexivity.
  erewrite bind_Done by reflexivity. by rewrite (bind_Done _ _ _ _ _ E).
Qed.

(** C7: the worker thread survives every connection: whatever the client sends,
    whichever reads and writes fail, as long as the clock advances,
    [handle_connection] returns normally, having gone one of the ways of
    [course]: the end reason is the one of the call that decided, the greeting is
    there exactly if [run_greeting] succeeded, and the statistics are what the
    commands made of fresh ones. With a collector the last thing it does is to
    send the close event: it has this end reason, the time since the connection
    was announced, these statistics, and the UUID, token type and secret label of
    the greeting, which are empty without one. *)
Theorem worker_survives conn_id tcp addr is_tls ctx w
    (Hclock : clock_advances clock_fuel (w_mono w)) :
  let sink := ctx_sink ctx in
  let client := client_name (ctx_config ctx) addr in
  exists w' reason g w1,
    handle_connection random clock_fuel conn_id tcp addr is_tls ctx w = (Done tt, w') /\
    course conn_id tcp is_tls client ctx (opened sink conn_id client is_tls w) reason g w1 /\
    reason ∈ (match g with None => reasons_before | Some _ => reasons_after end) /\
    w_stats w' = w_stats w1 /\
    w_out w' = w_out w1 ++
      let '(uuid, token, secret) := close_identity g in
      match sink with
      | None => []
      | Some k =>
          [Datagram (frame k (w_stamp w1 (S (w_tick w1))) SEV_INFO !"close"
             (close_body conn_id uuid token secret is_tls
                (elapsed_between w (start_tick sink w) (w_tick w1)) (w_stats w1) reason))]
      end.
Proof.
  cbv zeta. destruct (connection_run conn_id tcp addr is_tls ctx w Hclock)
    as (w' & reason & g & w1 & E & _ & Hc & Ho & Hs & _).
  exists w', reason, g, w1. split_and!; [done|done|by eapply course_reasons|done|].
  rewrite Ho. unfold close_out. by destruct (close_identity g) as [[uuid token] secret].
Qed.

(** C40: On a WebSocket a failed write is reported as an error of kind Other,
    whatever its cause: a client that is gone (BrokenPipe, ConnectionReset) is
    logged with the end reason "error" there and "disconnect" on a raw stream. *)
Theorem websocket_write_failure t data n e w l
    (Hw : w_wr w = WrFail n e :: l) (He : is_client_disconnect e = true) :
  (exists e' w', write_all (WebSocket t) data w = (Fail e', w') /\ command_end (Err e') = !"error") /\
  (exists w', write_all (Raw t) data w = (Fail e, w') /\ command_end (Err e) = !"disconnect").
Proof.
  cbn. unfold ws_send, transport_write_all, bind, next_write. rewrite Hw. cbn. split.
  - eexists _, _. split; reflexivity.
  - eexists. split; [reflexivity|]. by rewrite He.
Qed.
End connection.

(** ** Concrete runs *)

#[local] Existing Instance toy_crypto.
#[local] Existing Instance ref_serde.
#[local] Instance build_1_9 : Build := {| RMBTD_VERSION := !"1.9.0"; RMBTD_BRANCH := !"main" |}.

Definition session_input : str :=
  !"GET /rmbt HTTP/1.1" ++ crlf ++ !"Upgrade: RMBT" ++ crlf ++ crlf ++
  !"TOKEN " ++ token_b ++ lf ++ !"QUIT" ++ lf.

Definition session_world : World := timed_world slow_clock (rx_of session_input).

Definition ctx_a : WorkerCtx := mkCtx Config_default [key_a; key_b] false (Some sink_a).
Definition tcp_a : TcpStream := mkTcp (Some (SocketAddr_new ip_a 40000)) true true.

Lemma worker_survives_witness :
  let addr := SocketAddr_new ip_a 40000 in
  let sink := ctx_sink ctx_a in
  let client := client_name (ctx_config ctx_a) addr in
  exists w' reason g w1,
    handle_connection (fun _ => Byte.x2a) 3 1 tcp_a addr false ctx_a session_world = (Done tt, w') /\
    course (fun _ => Byte.x2a) 3 1 tcp_a false client ctx_a
      (opened sink 1 client false session_world) reason g w1 /\
    reason ∈ (match g with None => reasons_before | Some _ => reasons_after end) /\
    w_stats w' = w_stats w1 /\
    w_out w' = w_out w1 ++
      let '(uuid, token, secret) := close_identity g in
      match sink with
      | None => []
      | Some k =>
          [Datagram (frame k (w_stamp w1 (S (w_tick w1))) SEV_INFO !"close"
             (close_body 1 uuid token secret false
                (elapsed_between session_world (start_tick sink session_world) (w_tick w1))
                (w_stats w1) reason))]
      end.
Proof. apply worker_survives. exact slow_clock_advances. Defined.

Definition broken_pipe_world : World :=
  set_wr [WrFail 0 (mkErr BrokenPipe !"Broken pipe (os error 32)")] (world_of [] []).

Lemma websocket_write_failure_witness :
  (exists e' w', write_all (WebSocket plain) !"PONG" broken_pipe_world = (Fail e', w') /\
     command_end (Err e') = !"error") /\
  (exists w', write_all (Raw plain) !"PONG" broken_pipe_world
       = (Fail (mkErr BrokenPipe !"Broken pipe (os error 32)"), w') /\
     command_end (Err (mkErr BrokenPipe !"Broken pipe (os error 32)")) = !"disconnect").
Proof. apply (websocket_write_failure plain !"PONG" 0 _ _ []); reflexivity. Defined.

(** The whole connection: upgrade, greeting with an early token, QUIT. *)
Example whole_connection :
  let r := handle_connection (fun _ => Byte.x2a) 3 1 tcp_a (SocketAddr_new ip_a 40000) false ctx_a
             session_world in
  let sent := omap (fun a => match a with Sent b => Some b | _ => None end) (w_out (snd r)) in
  sent = [response_101_rmbt []; !"RMBTv1.9.0" ++ lf; !"ACCEPT TOKEN QUIT" ++ lf; ok_line;
          chunksize_line; ACCEPT_LINE; bye_line] /\
  length (w_out (snd r)) = 11%nat /\ Slept 7 ∈ w_out (snd r).
Proof.
  vm_compute. split_and!; [reflexivity|reflexivity|]. do 5 right. by left.
Qed.
