(* ===== verification/Accounting.v ===== *)
(** * What is reported of a connection

    The statistics stay within their types whatever the client does, and the
    events of a connection are its connect event, at most one auth event and its
    close event, in this order, all with the same connection id. *)

From stdpp Require Import vector.
From S2P Require Import Prelude RustStr Net Crypto RefCrypto Config Token TokenFacts Stats Io Stream StreamFacts Events Greeting Commands Termination CommandFacts GreetingFacts Version IpCheck RefSerde Upgrade UpgradeFacts Frame Connection ConnectionFacts.

(** ** The statistics *)

Definition fits (max n : Z) : Prop := 0 <= n <= max.

Definition stats_typed (s : ConnStats) : Prop :=
  (fits u64_max (download_bytes s) /\ fits u128_max (download_ns s)) /\
  (fits u64_max (upload_bytes s) /\ fits u128_max (upload_ns s)) /\
  (fits u32_max (ping_count s) /\ fits u128_max (ping_min_ns s) /\ fits u128_max (ping_max_ns s)) /\
  fits u32_max (commands s) /\
  (ping_min_ns s <= ping_max_ns s \/
   ping_count s = 0 /\ ping_min_ns s = u128_max /\ ping_max_ns s = 0).

(** The first [n] readings of the clock fit into a [u128], as [Duration::as_nanos]
    does. *)
Definition clock_fits (mono : nat -> Z) (n : nat) : Prop :=
  forall t, (t < n)%nat -> fits u128_max (mono t).

Lemma clock_fits_le mono n m : (m <= n)%nat -> clock_fits mono n -> clock_fits mono m.
Proof. intros Hm H t Ht. apply H. lia. Qed.

Lemma fits_wrap32 n : fits u32_max (wrap_u 32 n).
Proof. pose proof (wrap_u_range 32 n ltac:(lia)). unfold fits, u32_max. lia. Qed.
Lemma fits_wrap64 n : fits u64_max (wrap_u 64 n).
Proof. pose proof (wrap_u_range 64 n ltac:(lia)). unfold fits, u64_max. lia. Qed.
Lemma fits_wrap128 n : fits u128_max (wrap_u 128 n).
Proof. pose proof (wrap_u_range 128 n ltac:(lia)). unfold fits, u128_max. lia. Qed.

Lemma fits_zero max : 0 <= max -> fits max 0.
Proof. unfold fits. lia. Qed.

#[local] Hint Resolve fits_wrap32 fits_wrap64 fits_wrap128 : core.

Lemma typed_new : stats_typed ConnStats_new.
Proof.
  split_and!; cbn; try (apply fits_zero; vm_compute; discriminate); [|by right].
  unfold fits, u128_max. lia.
Qed.

Lemma typed_download n ns s : stats_typed s -> stats_typed (add_download n ns s).
Proof. intros (_ & ? & ? & ? & ?). split_and!; cbn; auto; tauto. Qed.

Lemma typed_upload n ns s : stats_typed s -> stats_typed (add_upload n ns s).
Proof. intros (? & _ & ? & ? & ?). split_and!; cbn; auto; tauto. Qed.

Lemma typed_count s : stats_typed s -> stats_typed (count_command s).
Proof. intros (? & ? & ? & _ & ?). split_and!; cbn; auto; tauto. Qed.

(** A ping keeps minimum and maximum in order. *)
Lemma typed_ping ns s : fits u128_max ns -> stats_typed s -> stats_typed (add_ping ns s).
Proof.
  intros Hns (? & ? & (_ & Hmin & Hmax) & ? & Ho). split_and!; cbn; auto; try tauto.
  - by destruct (ns <? ping_min_ns s).
  - by destruct (ns >? ping_max_ns s).
  - left. unfold fits in *.
    destruct (ns <? ping_min_ns s) eqn:E1; destruct (ns >? ping_max_ns s) eqn:E2; to_prop; lia.
Qed.

(** Well-typed statistics stay so, given [P]. *)
Definition keeps_typed (P : Prop) (w w' : World) : Prop :=
  w_mono w' = w_mono w /\ (w_tick w <= w_tick w')%nat /\
  (P -> clock_fits (w_mono w) (w_tick w') -> stats_typed (w_stats w) -> stats_typed (w_stats w')).

#[export] Instance keeps_typed_frame P : Frame (keeps_typed P).
Proof.
  split; try (intros; split_and!; cbn; [done|lia|done]).
  split; [intros w; by split_and!|]. intros w1 w2 w3 (E1 & L1 & H1) (E2 & L2 & H2).
  split_and!; [congruence|lia|]. intros HP Hc Hs.
  apply H2; [done|by rewrite E1|]. apply H1; [done| |done]. by eapply clock_fits_le.
Qed.

Lemma keeps_typed_stats P f :
  (forall s, stats_typed s -> stats_typed (f s)) -> keeps (keeps_typed P) (update_stats f).
Proof. intros Hf w. split_and!; [done|done|]. intros _ _. apply Hf. Qed.

(** The time of a ping is the difference of two readings. *)
Lemma keeps_typed_elapsed start :
  keeps (keeps_typed (0 <= start)) (let* ns := elapsed start in update_stats (add_ping ns)).
Proof.
  intros w. split_and!; [done|cbn; lia|]. intros Hs Hc Hst. cbn. apply typed_ping; [|done].
  specialize (Hc (w_tick w)). cbn in Hc. unfold fits in *. lia.
Qed.

Lemma keeps_typed_ping s : keeps (keeps_typed True) (handle_ping s).
Proof.
  assert (Htail : forall start, keeps (keeps_typed (0 <= start))
    (do* write_line s pong_line in
     let* ack := read_line s in
     if negb (str_eqb (trim ack) !"OK") then write_line s err_line
     else
       let* ns := elapsed start in
       do* update_stats (add_ping ns) in
       write_line s (time_line ns))).
  { intros start. do 2 (apply keeps_bind; [apply _|auto with frame|intros]).
    case_match; [apply keeps_write_line; apply _|]. intros w.
    pose proof (keeps_typed_elapsed start w) as Ht. unfold elapsed, bind in *. cbn in *.
    etrans; [exact Ht|]. apply keeps_write_line. apply _. }
  intros w. specialize (Htail (w_mono w (w_tick w)) (set_tick (S (w_tick w)) w)) as (E & L & H).
  match type of E with w_mono ?w1 = _ => change (snd (handle_ping s w)) with w1 end.
  cbn [w_tick set_tick] in L. split_and!; [exact E|lia|].
  intros _ Hc. apply H; [|exact Hc]. apply (Hc (w_tick w)). lia.
Qed.

Lemma keeps_typed_commands random clock_fuel s :
  keeps (keeps_typed True) (run_commands random clock_fuel s).
Proof.
  apply keeps_run_commands; [apply _|..].
  - apply keeps_typed_stats, typed_count.
  - intros. apply keeps_typed_stats. intros st. apply typed_download.
  - intros. apply keeps_typed_stats. intros st. apply typed_upload.
  - apply keeps_typed_ping.
Qed.

(** C19: the statistics of a connection are well typed whatever the client does and
    however the command loop ends: every counter stays within the range of its
    Rust type, and the shortest ping is at most the longest as soon as there is
    one. *)
Theorem commands_keep_stats_typed random clock_fuel s w
    (Hfits : clock_fits (w_mono w) (w_tick (snd (run_commands random clock_fuel s w))))
    (Hw : stats_typed (w_stats w)) :
  stats_typed (w_stats (snd (run_commands random clock_fuel s w))).
Proof. by apply keeps_typed_commands. Qed.

(** ** The events *)

(** The datagrams among the actions. *)
Definition events (l : list action) : list str :=
  omap (fun a => match a with Datagram b => Some b | _ => None end) l.

Lemma events_concat l k : events (l ++ k) = events l ++ events k.
Proof. apply omap_app. Qed.

Definition same_events (w w' : World) : Prop := events (w_out w') = events (w_out w).

#[export] Instance same_events_frame : Frame same_events.
Proof.
  split; try done.
  - split; [done|]. unfold same_events. intros w1 w2 w3 E1 E2. congruence.
  - intros a w Ha. unfold same_events. cbn. rewrite events_concat. destruct a; cbn; rewrite ?app_nil_r; try done.
    by destruct (Ha b).
Qed.

(** [m] adds events, and outcome and events are related by [Q]. *)
Definition says {A} (m : M A) (Q : outcome A -> list str -> Prop) : Prop :=
  forall w, exists l, events (w_out (snd (m w))) = events (w_out w) ++ l /\ Q (fst (m w)) l.

Lemma says_mono {A} (m : M A) (P Q : outcome A -> list str -> Prop) :
  says m P -> (forall o l, P o l -> Q o l) -> says m Q.
Proof. intros Hm HPQ w. destruct (Hm w) as (l & El & HP). eauto. Qed.

Lemma says_quiet {A} (m : M A) : keeps same_events m -> says m (fun _ l => l = []).
Proof. intros Hm w. exists []. rewrite app_nil_r. split; [apply Hm|done]. Qed.

Lemma says_ret {A} (a : A) (Q : outcome A -> list str -> Prop) : Q (Done a) [] -> says (ret a) Q.
Proof. intros HQ w. exists []. by rewrite app_nil_r. Qed.

Lemma says_fail {A} k msg (Q : outcome A -> list str -> Prop) :
  Q (Fail (mkErr k msg)) [] -> says (fail k msg) Q.
Proof. intros HQ w. exists []. by rewrite app_nil_r. Qed.

Lemma says_bind {A B} (m : M A) (k : A -> M B) P (Q : outcome B -> list str -> Prop) :
  says m P ->
  (forall a l, P (Done a) l -> says (k a) (fun o l' => Q o (l ++ l'))) ->
  (forall e l, P (Fail e) l -> Q (Fail e) l) -> (forall l, P Panicked l -> Q Panicked l) ->
  (forall l, P OutOfFuel l -> Q OutOfFuel l) -> says (bind m k) Q.
Proof.
  intros Hm Hk He Hp Hf w. destruct (Hm w) as (l & El & HP). unfold bind.
  destruct (m w) as [[a|e| |] w1]; cbn [fst snd] in *; [|by eauto..].
  destruct (Hk a l HP w1) as (l' & El' & HQ). exists (l ++ l'). by rewrite El', El, app_assoc.
Qed.

(** A quiet call in front. *)
Lemma says_then {A B} (m : M A) (k : A -> M B) (Q : outcome B -> list str -> Prop) :
  keeps same_events m -> (forall a, says (k a) Q) ->
  (forall e, Q (Fail e) []) -> Q Panicked [] -> Q OutOfFuel [] -> says (bind m k) Q.
Proof.
  intros Hm Hk He Hp Hf. eapply says_bind; [by apply says_quiet|..].
  - intros a l ->. apply Hk.
  - by intros e l ->.
  - by intros l ->.
  - by intros l ->.
Qed.

(** A quiet call that succeeds in front. *)
Lemma says_done {A B} (m : M A) (k : A -> M B) (Q : outcome B -> list str -> Prop) :
  (forall w, exists a w1, m w = (Done a, w1) /\ same_events w w1) ->
  (forall a, says (k a) Q) -> says (bind m k) Q.
Proof.
  intros Hm Hk w. destruct (Hm w) as (a & w1 & E & Ho). erewrite bind_Done by exact E.
  destruct (Hk a w1) as (l & El & HQ). exists l. by rewrite El, Ho.
Qed.

Lemma says_try {A} (m : M A) (P : outcome A -> list str -> Prop) :
  says m P -> says (try m) (fun o l =>
    match o with
    | Done (Ok a) => P (Done a) l
    | Done (Err e) => P (Fail e) l
    | Fail _ => False
    | Panicked => P Panicked l
    | OutOfFuel => P OutOfFuel l
    end).
Proof.
  intros Hm w. destruct (Hm w) as (l & El & HQ). exists l. unfold try.
  by destruct (m w) as [[] ?].
Qed.

Lemma says_emit k sev msgid body :
  says (emit k sev msgid body) (fun o l => o = Done tt /\ exists ts, l = [frame k ts sev msgid body]).
Proof.
  intros w. eexists. split; [|split; [reflexivity|by eexists]]. cbn. by rewrite events_concat.
Qed.

Section events.
Context `{Crypto} `{Serde} `{Build}.
Context (random : nat -> byte) (clock_fuel : nat).

(** An event, or nothing without a collector. *)
Definition event_frames (sink : option EventSink) (sev : Z) (ts msgid body : str) : list str :=
  match sink with Some k => [frame k ts sev msgid body] | None => [] end.

(** The auth event of a client that was let in, with the label of the key that
    validated its token, or with none when tokens are not checked. *)
Definition granted (cfg : Config) sink (conn_id : Z) (client uuid token_type label : str)
    (l : list str) : Prop :=
  (check_token cfg = false -> label = []) /\
  exists ts, l = event_frames sink SEV_INFO ts !"auth"
    (auth_body conn_id client uuid token_type
       (if check_token cfg then !"accepted" else !"not_checked")
       (if check_token cfg then Some label else None) None).

(** The auth event of a client whose token was rejected. *)
Definition denied (cfg : Config) sink (conn_id : Z) (client uuid token_type : str) (l : list str)
    : Prop :=
  check_token cfg = true /\
  exists why ts, l = event_frames sink SEV_NOTICE ts !"auth"
    (auth_body conn_id client uuid token_type !"rejected" None (Some (reject_reason why))).

Lemma says_opt_auth sink conn_id client uuid tt_ result label reason :
  says (opt_auth sink conn_id client uuid tt_ result label reason)
    (fun o l => o = Done tt /\ exists ts,
       l = event_frames sink (if str_eqb result !"rejected" then SEV_NOTICE else SEV_INFO) ts !"auth"
             (auth_body conn_id client uuid tt_ result label reason)).
Proof.
  destruct sink as [k|]; cbn; [|apply says_ret; split; [done|by exists []]].
  unfold auth. cbv zeta. eapply says_mono; [apply says_emit|].
  intros o l (-> & ts & ->). split; [done|]. by exists ts.
Qed.

Lemma says_auth_then {A} sink conn_id client uuid tt_ result label reason (k : unit -> M A) Q :
  (forall l ts,
     l = event_frames sink (if str_eqb result !"rejected" then SEV_NOTICE else SEV_INFO) ts !"auth"
           (auth_body conn_id client uuid tt_ result label reason) ->
     says (k tt) (fun o l' => Q o (l ++ l'))) ->
  says (bind (opt_auth sink conn_id client uuid tt_ result label reason) k) Q.
Proof.
  intros Hk. eapply says_bind; [apply says_opt_auth| |by intros e l [? _]|by intros l [? _]|by intros l [? _]].
  intros [] l (_ & ts & Hl). by eapply Hk.
Qed.

(** The token phase: it succeeds with the auth event of a client let in. *)
Definition checked cfg sink conn_id client uuid tt_ (o : outcome str) (l : list str) : Prop :=
  match o with
  | Done label => granted cfg sink conn_id client uuid tt_ label l
  | _ => denied cfg sink conn_id client uuid tt_ l
  end.

Lemma says_check_token s conn_id cfg keys sink client uuid tt_ tok :
  says (check_greeting_token s conn_id cfg keys sink client uuid tt_ tok)
    (checked cfg sink conn_id client uuid tt_).
Proof.
  unfold check_greeting_token. destruct (check_token cfg) eqn:Ec; cbv zeta.
  - assert (Hrej : forall r,
      says (do* opt_auth sink conn_id client uuid tt_ !"rejected" None (Some (reject_reason r)) in
            do* write_line s (!"ERR" ++ lf) in fail (A := str) PermissionDenied !"token rejected")
        (checked cfg sink conn_id client uuid tt_)).
    { intros r. apply says_auth_then. intros l ts Hl.
      assert (Hd : denied cfg sink conn_id client uuid tt_ (l ++ []))
        by (rewrite app_nil_r; split; [done|by exists r, ts]).
      apply says_then; [apply keeps_write_line; apply _|intros _; by apply says_fail|done..]. }
    apply says_done; [intros w; eexists _, _; by split|intros clk].
    destruct (validate_token _ _ _ _ _) as [secs lbl| | | | | |]; [|apply Hrej..].
    apply says_auth_then. intros l ts Hl. apply says_done.
    + intros w. destruct (secs >? 0); [|eexists _, _; by split]. eexists _, _. split; [reflexivity|].
      unfold same_events. cbn. rewrite events_concat. by rewrite app_nil_r.
    + intros _. apply says_ret. rewrite app_nil_r. cbn. unfold granted. rewrite Ec.
      split; [done|]. by exists ts.
  - apply says_auth_then. intros l ts Hl. apply says_ret. rewrite app_nil_r. cbn. unfold granted.
    rewrite Ec. split; [done|]. by exists ts.
Qed.

(** The auth event of a greeting: that of a client let in when it succeeds;
    otherwise none, that of a rejection, or that of a client let in that could
    not be told so. *)
Definition greeted cfg sink conn_id client (o : outcome Greeting) (l : list str) : Prop :=
  match o with
  | Done g => granted cfg sink conn_id client (g_uuid g) (g_token_type g) (g_label g) l
  | _ => l = [] \/ (exists uuid tt_, denied cfg sink conn_id client uuid tt_ l) \/
         exists uuid tt_ label, granted cfg sink conn_id client uuid tt_ label l
  end.

Lemma keeps_first_line fuel s : keeps same_events (first_line fuel s).
Proof. induction fuel as [|fuel IH]; cbn [first_line]; keep. Qed.

Lemma says_greeting s conn_id cfg keys sink client :
  says (run_greeting s conn_id cfg keys sink client) (greeted cfg sink conn_id client).
Proof.
  intros w0. revert w0. unfold run_greeting. intros w0.
  match goal with |- context [fst (?f w0)] => enough (H' : says f (greeted cfg sink conn_id client)) by apply H' end.
  apply says_then; [auto with frame|intros _|by left..].
  apply says_then; [auto with frame|intros _|by left..].
  apply says_then; [apply keeps_first_line|intros line|by left..].
  destruct (strip_prefix _ _) as [rest|].
  - cbv zeta. eapply says_bind; [apply says_check_token|..].
    + intros label l Hl.
      do 2 (apply says_then; [auto with frame|intros _|
        intros; right; right; rewrite app_nil_r; eauto..]).
      apply says_ret. by rewrite app_nil_r.
    + intros e l Hl. right. left. eauto.
    + intros l Hl. right. left. eauto.
    + intros l Hl. right. left. eauto.
  - destruct (starts_with _ _);
      (apply says_then; [auto with frame|intros _; apply says_fail; by left|by left..]).
Qed.

(** ** The connection *)

Lemma keeps_typed_datagram b : keeps (keeps_typed True) (act (Datagram b)).
Proof. intros w. by split_and!. Qed.

Lemma keeps_typed_auth sink conn_id client uuid tt_ result label reason :
  keeps (keeps_typed True) (opt_auth sink conn_id client uuid tt_ result label reason).
Proof. unfold opt_auth, auth, emit. pose proof keeps_typed_datagram. keep. Qed.

Lemma keeps_typed_first_line fuel s : keeps (keeps_typed True) (first_line fuel s).
Proof. induction fuel as [|fuel IH]; cbn [first_line]; keep. Qed.

Lemma keeps_typed_greeting s conn_id cfg keys sink client :
  keeps (keeps_typed True) (run_greeting s conn_id cfg keys sink client).
Proof.
  intros w0. unfold run_greeting.
  match goal with |- context [snd (?f w0)] => enough (H' : keeps (keeps_typed True) f) by apply H' end.
  unfold check_greeting_token. pose proof keeps_typed_auth. pose proof keeps_typed_first_line. keep.
Qed.

Lemma keeps_typed_session conn_id tcp is_tls client ctx :
  keeps (keeps_typed True) (session random clock_fuel conn_id tcp is_tls client ctx).
Proof.
  unfold session, session_rmbt. pose proof keeps_typed_greeting. pose proof keeps_typed_commands.
  pose proof (keeps_upgrade (keeps_typed True)). keep.
Qed.

Lemma same_events_stats f : keeps same_events (update_stats f).
Proof. done. Qed.

Lemma same_events_commands s : keeps same_events (run_commands random clock_fuel s).
Proof.
  apply keeps_run_commands; [apply _|..]; try (intros; apply same_events_stats).
  apply keeps_handle_ping; [apply _|intros; apply same_events_stats].
Qed.

(** The auth event of a connection: the one of its greeting, which is none before
    the greeting. *)
Definition auth_reported ctx conn_id client (reason : str) (g : option Greeting) (l : list str) : Prop :=
  let cfg := ctx_config ctx in
  let sink := ctx_sink ctx in
  match g with
  | Some g => granted cfg sink conn_id client (g_uuid g) (g_token_type g) (g_label g) l
  | None =>
      l = [] \/
      reason = !"auth_failed" /\
      ((exists uuid tt_, denied cfg sink conn_id client uuid tt_ l) \/
       exists uuid tt_ label, granted cfg sink conn_id client uuid tt_ label l)
  end.

Lemma says_session conn_id tcp is_tls client ctx :
  says (session random clock_fuel conn_id tcp is_tls client ctx)
    (fun o l => forall reason g, o = Done (reason, g) -> auth_reported ctx conn_id client reason g l).
Proof.
  assert (Hret : forall reason,
    says (ret (reason, None)) (fun o l => forall (reason : str) g, o = Done (reason, g) ->
      auth_reported ctx conn_id client reason g l)).
  { intros reason. apply says_ret. intros ? g [= _ <-]. by left. }
  unfold session. destruct (negb _); [apply Hret|].
  destruct (make_transport _ _ _); [|apply Hret]. cbv zeta.
  apply says_then; [apply keeps_try, keeps_upgrade; apply _| |done..].
  intros [[s| |]|e]; [|apply Hret|apply Hret|destruct (is_client_disconnect e); apply Hret].
  unfold session_rmbt. eapply says_bind; [apply says_try, says_greeting| |done..].
  intros [g|e] l Hg; cbn in Hg.
  - apply says_then; [apply keeps_try, same_events_commands| |done..]. intros r.
    apply says_ret. intros ? g' [= _ <-]. by rewrite app_nil_r.
  - apply says_ret. intros ? g' [= <- <-]. rewrite app_nil_r. destruct Hg as [Hg|Hg]; [by left|by right].
Qed.

(** What the collector is told about a connection from [w] that has gone to [w1]
    with this end reason and greeting. *)
Definition report_of ctx conn_id client is_tls (reason : str) (g : option Greeting) (w w1 : World)
    (l : list str) : Prop :=
  let sink := ctx_sink ctx in
  let '(uuid, token, secret) := close_identity g in
  exists auth_part,
    auth_reported ctx conn_id client reason g auth_part /\
    l = event_frames sink SEV_INFO (w_stamp w (w_tick w)) !"connect"
          (connect_body conn_id client is_tls) ++
        auth_part ++
        event_frames sink SEV_INFO (w_stamp w1 (S (w_tick w1))) !"close"
          (close_body conn_id uuid token secret is_tls
             (elapsed_between w (start_tick sink w) (w_tick w1)) (w_stats w1) reason).

Lemma events_event_out sink ts msgid body :
  events (event_out sink ts msgid body) = event_frames sink SEV_INFO ts msgid body.
Proof. by destruct sink. Qed.

Lemma connection_report conn_id tcp addr is_tls ctx w
    (Hclock : clock_advances clock_fuel (w_mono w)) :
  let client := client_name (ctx_config ctx) addr in
  exists w' reason g w1 l,
    handle_connection random clock_fuel conn_id tcp addr is_tls ctx w = (Done tt, w') /\
    course random clock_fuel conn_id tcp is_tls client ctx
      (opened (ctx_sink ctx) conn_id client is_tls w) reason g w1 /\
    events (w_out w') = events (w_out w) ++ l /\
    report_of ctx conn_id client is_tls reason g w w1 l /\
    (clock_fits (w_mono w) (w_tick w') -> stats_typed (w_stats w1)).
Proof.
  intros client. set (sink := ctx_sink ctx).
  destruct (connection_run random clock_fuel conn_id tcp addr is_tls ctx w Hclock)
    as (w' & reason & g & w1 & E & Es & Hc & Ho & Hst & Htick).
  fold client sink in Es, Hc, Ho. set (w0 := opened sink conn_id client is_tls w) in *.
  destruct (says_session conn_id tcp is_tls client ctx w0) as (a & Ha & Hg). rewrite Es in Ha, Hg.
  destruct (keeps_typed_session conn_id tcp is_tls client ctx w0) as (_ & _ & Ht). rewrite Es in Ht.
  cbn [fst snd] in *. specialize (Hg reason g eq_refl).
  assert (Hev : events (w_out w') = events (w_out w) ++
    (event_frames sink SEV_INFO (w_stamp w (w_tick w)) !"connect" (connect_body conn_id client is_tls)
     ++ a ++ events (close_out sink conn_id is_tls reason g w w1))).
  { rewrite Ho, events_concat, Ha.
    change (w_out w0) with (w_out w ++ event_out sink (w_stamp w (w_tick w)) !"connect"
      (connect_body conn_id client is_tls)).
    rewrite events_concat, events_event_out. by rewrite <- !app_assoc. }
  eexists w', reason, g, w1, _. split_and!; [done|done|exact Hev| |].
  - unfold report_of, close_out. destruct (close_identity g) as [[uuid token] secret].
    rewrite events_event_out. by exists a.
  - intros Hfits. apply Ht; [done| |apply typed_new]. by eapply clock_fits_le.
Qed.

(** C8: the events of a connection, as long as the clock advances: one connect
    event, then at most one auth event, then one close event, with the same
    connection id and, for the first two, the same client name. If [run_greeting]
    succeeded the auth event says so, with the client's UUID, its token type and
    its label, and the close event repeats them; otherwise there is an auth event
    only if the greeting was begun, and the close event has no identity. The close
    event has the end reason of the call that decided ([course]), the time since
    the connection was announced, and the statistics at the end, which are well
    typed. Without a collector nothing is sent. *)
Theorem connection_events conn_id tcp addr is_tls ctx w
    (Hclock : clock_advances clock_fuel (w_mono w)) :
  let client := client_name (ctx_config ctx) addr in
  exists w' reason g w1 l,
    handle_connection random clock_fuel conn_id tcp addr is_tls ctx w = (Done tt, w') /\
    course random clock_fuel conn_id tcp is_tls client ctx
      (opened (ctx_sink ctx) conn_id client is_tls w) reason g w1 /\
    events (w_out w') = events (w_out w) ++ l /\
    report_of ctx conn_id client is_tls reason g w w1 l /\
    (clock_fits (w_mono w) (w_tick w') -> stats_typed (w_stats w1)).
Proof. by apply connection_report. Qed.
End events.

(** ** Concrete runs *)

#[local] Existing Instance toy_crypto.
#[local] Existing Instance ref_serde.
#[local] Instance build_1_9 : Build := {| RMBTD_VERSION := !"1.9.0"; RMBTD_BRANCH := !"main" |}.

Definition two_pings : World :=
  timed_world slow_clock (rx_of (!"PING" ++ lf ++ !"OK" ++ lf ++ !"PING" ++ lf ++ !"OK" ++ lf)).

Lemma commands_keep_stats_typed_witness :
  stats_typed (w_stats (snd (run_commands (fun _ => Byte.x2a) 3 (Raw plain) two_pings))).
Proof.
  apply (commands_keep_stats_typed (fun _ => Byte.x2a) 3 (Raw plain) two_pings).
  - apply (clock_fits_le _ 100); [vm_compute; lia|]. intros t Ht. cbn [two_pings timed_world w_mono].
    unfold fits, u128_max, slow_clock. lia.
  - apply typed_new.
Defined.

Example two_pings_counted :
  let st := w_stats (snd (run_commands (fun _ => Byte.x2a) 3 (Raw plain) two_pings)) in
  ping_count st = 2 /\ commands st = 2.
Proof. vm_compute. done. Qed.

Lemma connection_events_witness :
  let addr := SocketAddr_new ip_a 40000 in
  let client := client_name (ctx_config ctx_a) addr in
  exists w' reason g w1 l,
    handle_connection (fun _ => Byte.x2a) 3 1 tcp_a addr false ctx_a session_world = (Done tt, w') /\
    course (fun _ => Byte.x2a) 3 1 tcp_a false client ctx_a
      (opened (ctx_sink ctx_a) 1 client false session_world) reason g w1 /\
    events (w_out w') = events (w_out session_world) ++ l /\
    report_of ctx_a 1 client false reason g session_world w1 l /\
    (clock_fits (w_mono session_world) (w_tick w') -> stats_typed (w_stats w1)).
Proof. apply connection_events. exact slow_clock_advances. Defined.

(** Three events for the whole connection of [ConnectionFacts]. *)
Example three_events :
  length (events (w_out (snd (handle_connection (fun _ => Byte.x2a) 3 1 tcp_a
    (SocketAddr_new ip_a 40000) false ctx_a session_world)))) = 3%nat.
Proof. vm_compute. reflexivity. Qed.
