(* ===== verification/EndToEnd.v ===== *)
(** * A whole connection of a client that behaves

    HTTP phase, greeting and command loop composed: what an admitted client gets,
    from the upgrade response to the close event, computed from its requests and
    the clock readings. *)

From stdpp Require Import vector.
From S2P Require Import Prelude RustStr Net Crypto RefCrypto Config Token TokenFacts Stats Io Stream StreamFacts Incoming Events Greeting Commands Protocol Termination CommandFacts Session SessionFacts GreetingFacts Version IpCheck RefSerde Upgrade UpgradeFacts Connection ConnectionFacts.

(** ** The HTTP phase *)

(** A request head: it ends at its first empty line and is not too large. *)
Definition head_ok (head : list byte) : Prop :=
  ends_with end_of_head head = true /\
  (forall a b, head = a ++ b -> b <> [] -> ends_with end_of_head a = false) /\
  len head <= MAX_HEAD.

Lemma read_head_run todo : forall buf fuel w rest,
  w_rx w = rx_of todo ++ rest -> todo <> [] -> head_ok (buf ++ todo) -> (length todo <= fuel)%nat ->
  read_head fuel buf w = (Done (buf ++ todo), set_rx rest w).
Proof.
  induction todo as [|b todo IH]; intros buf fuel w rest Hrx Hne Hok Hf; [done|].
  destruct fuel as [|fuel]; [cbn in Hf; lia|]. cbn [read_head]. unfold bind, on_rx.
  rewrite Hrx. cbn [rx_of map app]. rewrite rx_exact_eq. fold (rx_of todo).
  replace (rx_exact 0 (rx_of todo ++ rest)) with (Done (A := list byte) [], rx_of todo ++ rest) by done.
  cbv iota beta. destruct Hok as (He & Hp & Hl).
  destruct todo as [|b' todo].
  - rewrite He. done.
  - rewrite (Hp (buf ++ [b]) (b' :: todo)); [|by rewrite <- app_assoc|done].
    destruct (len (buf ++ [b]) >? MAX_HEAD) eqn:Eg.
    { to_prop. rewrite length_app in *. cbn [length] in *. lia. }
    rewrite (IH (buf ++ [b]) fuel (set_rx (rx_of (b' :: todo) ++ rest) w) rest); cbn in *.
    + rewrite <- app_assoc. by destruct w.
    + done.
    + done.
    + rewrite <- app_assoc. done.
    + lia.
Qed.

Lemma forallb_true {A} (f : A -> bool) l : forallb f l = true -> Forall (fun x => f x = true) l.
Proof. induction l as [|x l IH]; cbn; [done|]. intros [Hx Hl]%andb_true_iff. auto. Qed.

(** The check of a concrete head. *)
Lemma head_ok_check head :
  ends_with end_of_head head = true ->
  forallb (fun n => negb (ends_with end_of_head (take n head))) (seq 0 (length head)) = true ->
  len head <= MAX_HEAD -> head_ok head.
Proof.
  intros He Hp Hl. split_and!; [done| |done]. intros a b -> Hb.
  rewrite forallb_forall in Hp. specialize (Hp (length a)). rewrite take_app_length in Hp.
  apply negb_true_iff, Hp, in_seq. rewrite length_app. destruct b; [done|cbn; lia].
Qed.

Section whole.
Context `{Crypto} `{Serde} `{Build}.
Context (random : nat -> byte) (clock_fuel : nat).

(** The request for a stream: what routes to it, and the response. *)
Definition asks_for (add_hsts : bool) (head : list byte) (s : Stream) (resp : str) : Prop :=
  let req := from_utf8_lossy head in
  let lower := to_ascii_lowercase req in
  head_ok head /\ ip_matches (request_target req) = false /\
  version_matches (request_target req) = false /\ starts_with !"GET " req = true /\
  match s with
  | Raw _ => contains !"upgrade: websocket" lower = false /\ contains !"upgrade: rmbt" lower = true
  | WebSocket _ => contains !"upgrade: websocket" lower = true
  end /\ switching s req (if add_hsts then HSTS_HEADER else []) resp.

Definition transport_of (s : Stream) : Transport := match s with Raw t | WebSocket t => t end.

Lemma upgrade_run s add_hsts keys head resp rest w :
  w_wr w = [] -> w_rx w = rx_of head ++ rest -> asks_for add_hsts head s resp ->
  detect_and_upgrade (transport_of s) add_hsts keys w =
  (Done (Rmbt s), set_out (w_out w ++ [Sent resp]) (set_rx rest w)).
Proof.
  intros Hwr Hrx (Hok & Hip & Hv & Hget & Hup & Hsw).
  assert (Hhead : read_head head_fuel [] w = (Done head, set_rx rest w)).
  { apply (read_head_run head []); [done| |done|].
    - intros ->. by destruct Hok.
    - destruct Hok as (_ & _ & Hl). unfold head_fuel. lia. }
  unfold detect_and_upgrade. rewrite (bind_Done _ _ _ _ _ Hhead). unfold route. cbv zeta.
  rewrite Hip, Hv, Hget. cbn [negb].
  assert (Hw : forall data, transport_write_all data (set_rx rest w) =
    (Done tt, set_out (w_out w ++ [Sent data]) (set_rx rest w))).
  { intros data. unfold transport_write_all, bind, next_write. cbn. by rewrite Hwr. }
  destruct s as [t|t]; cbn [transport_of switching] in *.
  - destruct Hup as [-> ->]. rewrite Hsw. by rewrite (bind_Done _ _ _ _ _ (Hw _)).
  - rewrite Hup. destruct Hsw as (key & Hkey & ->). unfold websocket_handshake. rewrite Hkey.
    unfold bind at 1. rewrite (bind_Done _ _ _ _ _ (Hw _)). unfold transport_flush, bind, next_write.
    cbn. by rewrite Hwr.
Qed.

(** ** Greeting and commands *)

(** A token as control servers write it: graphic characters. *)
Definition graphic_token (tok : str) : Prop := tok <> [] /\ Forall (fun c => graphic c = true) tok.

Lemma trim_token_line tok : graphic_token tok -> trim (!"TOKEN " ++ tok) <> [].
Proof.
  intros [Hne Hg]. destruct (exists_last Hne) as (t & d & ->).
  apply Forall_app in Hg as [_ Hd]. inversion_clear Hd as [|? ? Hd' _].
  change (!"TOKEN " ++ t ++ [d]) with (Byte.x54 :: (!"OKEN " ++ t ++ [d])).
  rewrite (trim_ends _ _ d (!"TOKEN " ++ t)); [done|reflexivity|exact Hd'|].
  by rewrite <- app_assoc.
Qed.

Lemma first_line_delivered s tok w i1 fuel :
  graphic_token tok -> delivers s (input_at w) (Line (!"TOKEN " ++ tok)) i1 ->
  first_line (S fuel) s w = (Done (!"TOKEN " ++ tok), with_input i1 w).
Proof.
  intros Ht Hd. specialize (Hd w). rewrite with_input_at in Hd. cbn [first_line].
  rewrite (bind_Done _ _ _ _ _ Hd). by rewrite bool_decide_false by by apply trim_token_line.
Qed.

Section client.
Context (s : Stream) (conn_id : Z) (cfg : Config) (keys : list SecretKey)
  (sink : option EventSink) (client tok label : str) (secs : Z) (rs : list request).
Context (Htok : graphic_token tok) (Hcheck : check_token cfg = true)
  (Hvalid : session_valid CHUNK_SIZE rs).

(** What is said from the greeting to BYE, when the greeting starts at clock
    reading [t]; and the clock readings and statistics at the end. *)
Definition served (w : World) (t : nat) : list (list byte) * session_state :=
  session_spec random clock_fuel (w_mono w)
    (mkSession CHUNK_SIZE (event_ticks sink + S (S t)) (w_stats w)) rs.

Definition dialogue (w : World) (t : nat) : list action :=
  opening s ++
  auth_out sink w (S (S t)) conn_id client tok !"accepted" (Some label) None ++
  wait_out secs ++ map (sends s) [ok_line; chunksize_line] ++ map (sends s) (served w t).1.

Lemma session_rmbt_run w i' ctx :
  w_wr w = [] -> clock_advances clock_fuel (w_mono w) ->
  ctx_config ctx = cfg -> ctx_keys ctx = keys -> ctx_sink ctx = sink ->
  incoming s (input_at w) (Line (!"TOKEN " ++ tok) :: session_items rs) i' ->
  validate_token (clock_from w (w_tick w)) tok keys (source_ip s) (v2_only cfg) = Accepted secs label ->
  session_rmbt random clock_fuel conn_id s client ctx w =
  (Done (!"quit", Some (mkGreeting (greeting_uuid tok) (greeting_token_type tok) label)),
   set_stats (ss_stats (served w (w_tick w)).2)
     (done_out (dialogue w (w_tick w)) (ss_tick (served w (w_tick w)).2) (with_input i' w))).
Proof.
  intros Hwr Hclk Ec Ek Es ([rx1 ws1] & Hline & Hrest)%incoming_cons_inv Hv.
  unfold session_rmbt. rewrite Ec, Ek, Es.
  assert (Et : trim tok = tok) by (apply trim_graphic; apply Htok).
  pose proof (greeting_accepts_run s conn_id cfg keys sink client
    (!"TOKEN " ++ tok) tok w (with_input (rx1, ws1) w) Hwr
    (first_line_delivered s tok w (rx1, ws1) _ Htok Hline) eq_refl Hcheck secs label) as Hg.
  rewrite Et in Hg. specialize (Hg Hv).
  unfold bind at 1. unfold try at 1. rewrite Hg.
  set (out := opening s ++ _). set (w1 := set_rx _ _).
  assert (Ew1 : w1 = with_input (rx1, ws1) w) by (by destruct w). rewrite Ew1. clear Ew1 w1.
  pose proof (run_commands_spec random clock_fuel s
    (done_out out (event_ticks sink + S (S (w_tick w))) (with_input (rx1, ws1) w))
    Hwr Hclk rs i' Hvalid Hrest) as Hs.
  cbv zeta in Hs. unfold bind, try. rewrite Hs. unfold ret. f_equal.
  assert (Ed : dialogue w (w_tick w) = out ++ map (sends s) (served w (w_tick w)).1)
    by (unfold dialogue, out; by rewrite <- !app_assoc).
  rewrite Ed. change (session_spec random clock_fuel _ _ _) with (served w (w_tick w)).
  clearbody out. generalize (served w (w_tick w)). intros r.
  unfold live, after, done_out. destruct w. cbn. by rewrite app_assoc.
Qed.
End client.

(** C3: what an admitted client gets: a client that asks for a raw or a WebSocket
    stream, shows a token that validates for its address, and makes valid
    requests, gets the upgrade response, the greeting with the wait of its token,
    exactly the replies that the session specification computes from the clock
    readings, and BYE; the connection ends with "quit", having consumed exactly
    what the client sent, and the collector gets its connect, auth and close
    events with the measurements of the session. *)
Theorem client_served conn_id tcp addr is_tls ctx s head resp rest tok label secs rs i' w
    (Hwr : w_wr w = []) (Hclk : clock_advances clock_fuel (w_mono w))
    (Htcp : tcp_timeouts tcp = true) (Htr : make_transport tcp is_tls ctx = Ok (transport_of s))
    (Hrx : w_rx w = rx_of head ++ rest)
    (Hup : asks_for (is_tls && hsts (ctx_config ctx)) head s resp)
    (Htok : graphic_token tok) (Hcheck : check_token (ctx_config ctx) = true)
    (Hin : incoming s (rest, w_ws w) (Line (!"TOKEN " ++ tok) :: session_items rs) i')
    (Hvalid : session_valid CHUNK_SIZE rs)
    (Hv : validate_token (clock_from w (S (event_ticks (ctx_sink ctx) + w_tick w))) tok (ctx_keys ctx)
            (source_ip s) (v2_only (ctx_config ctx)) = Accepted secs label) :
  let sink := ctx_sink ctx in
  let client := client_name (ctx_config ctx) addr in
  let start := (event_ticks sink + w_tick w)%nat in
  let w0 := set_stats ConnStats_new w in
  let final := (served sink rs w0 (S start)).2 in
  exists w',
    handle_connection random clock_fuel conn_id tcp addr is_tls ctx w = (Done tt, w') /\
    w_out w' = w_out w ++
      event_out sink (w_stamp w (w_tick w)) !"connect" (connect_body conn_id client is_tls) ++
      [Sent resp] ++ dialogue s conn_id sink client tok label secs rs w0 (S start) ++
      event_out sink (w_stamp w (S (ss_tick final))) !"close"
        (close_body conn_id (greeting_uuid tok) (greeting_token_type tok) label is_tls
           (el (w_mono w) start (ss_tick final)) (ss_stats final) !"quit") /\
    input_at w' = i'.
Proof.
  cbv zeta. set (sink := ctx_sink ctx) in *. set (client := client_name _ _).
  set (start := (event_ticks sink + w_tick w)%nat) in *.
  unfold handle_connection. cbv zeta. fold client sink.
  assert (Hc : match sink with Some k => connect k conn_id client is_tls | None => ret tt end w =
    (Done tt, done_out (event_out sink (w_stamp w (w_tick w)) !"connect"
       (connect_body conn_id client is_tls)) start w)).
  { unfold start. destruct sink; [reflexivity|]. unfold done_out, ret. cbn. rewrite app_nil_r.
    by destruct w. }
  rewrite (bind_Done _ _ _ _ _ Hc). erewrite bind_Done by reflexivity.
  erewrite bind_Done by reflexivity. set (out1 := event_out _ _ _ _).
  set (w1 := set_stats ConnStats_new _).
  set (w2 := set_out (w_out w1 ++ [Sent resp]) (set_rx rest w1)).
  pose proof (upgrade_run s (is_tls && hsts (ctx_config ctx)) (ctx_keys ctx) head resp rest w1
    Hwr Hrx Hup) as Hu. fold w2 in Hu.
  pose proof (session_rmbt_run s conn_id (ctx_config ctx) (ctx_keys ctx) sink client tok label secs rs
    Htok Hcheck Hvalid w2 i' ctx Hwr Hclk eq_refl eq_refl eq_refl Hin Hv) as Hr.
  assert (Hsess : session random clock_fuel conn_id tcp is_tls client ctx w1 =
    session_rmbt random clock_fuel conn_id s client ctx w2).
  { unfold session. rewrite Htcp, Htr. cbn [negb]. cbv zeta.
    unfold bind at 1, try at 1. by rewrite Hu. }
  rewrite Hr in Hsess. rewrite (bind_Done _ _ _ _ _ Hsess).
  change (served sink rs w2 (w_tick w2)) with (served sink rs (set_stats ConnStats_new w) (S start)).
  change (dialogue s conn_id sink client tok label secs rs w2 (w_tick w2))
    with (dialogue s conn_id sink client tok label secs rs (set_stats ConnStats_new w) (S start)).
  set (talk := dialogue _ _ _ _ _ _ _ _ _ _). set (r := served _ _ _ _).
  clearbody talk r. unfold close_event. destruct sink as [k|].
  - eexists. split; [reflexivity|]. split; [|by destruct i'].
    cbn. unfold out1, el, event_out. by rewrite <- !app_assoc.
  - eexists. split; [reflexivity|]. split; [|by destruct i'].
    cbn. unfold out1, event_out. by rewrite <- !app_assoc, app_nil_r.
Qed.
End whole.

(** ** A concrete connection *)

#[local] Existing Instance toy_crypto.
#[local] Existing Instance ref_serde.
#[local] Instance build_1_9 : Build := {| RMBTD_VERSION := !"1.9.0"; RMBTD_BRANCH := !"main" |}.

Definition client_items : list item := Line (!"TOKEN " ++ token_b) :: session_items session_a.

Definition client_world : World :=
  timed_world slow_clock (rx_of upgrade_request ++ rx_of (items_bytes client_items) ++ rx_of !"x").

Definition stream_a : Stream := Raw (mkTransport false (Some (SocketAddr_new ip_a 40000))).

Lemma client_items_ok : Forall item_ok client_items.
Proof.
  apply Forall_cons. split.
  - apply printable_line_ok; [apply forallb_true; by vm_compute|by vm_compute].
  - eapply session_items_ok; [exact session_a_valid|exact session_a_text].
Qed.

Lemma client_served_witness :
  let w := client_world in
  let sink := Some sink_a in
  let client := client_name Config_default (SocketAddr_new ip_a 40000) in
  let w0 := set_stats ConnStats_new w in
  let final := (served byte42 3 sink session_a w0 2).2 in
  exists w',
    handle_connection byte42 3 1 tcp_a (SocketAddr_new ip_a 40000) false ctx_a w = (Done tt, w') /\
    w_out w' = w_out w ++
      event_out sink (w_stamp w (w_tick w)) !"connect" (connect_body 1 client false) ++
      [Sent (response_101_rmbt [])] ++
      dialogue byte42 3 stream_a 1 sink client token_b !"control-b" 7 session_a w0 2 ++
      event_out sink (w_stamp w (S (ss_tick final))) !"close"
        (close_body 1 (greeting_uuid token_b) (greeting_token_type token_b) !"control-b" false
           (el (w_mono w) 1 (ss_tick final)) (ss_stats final) !"quit") /\
    input_at w' = (rx_of !"x", []).
Proof.
  apply (client_served byte42 3 1 tcp_a (SocketAddr_new ip_a 40000) false ctx_a stream_a upgrade_request
    (response_101_rmbt []) (rx_of (items_bytes client_items) ++ rx_of !"x") token_b !"control-b" 7
    session_a (rx_of !"x", []) client_world).
  - reflexivity.
  - exact slow_clock_advances.
  - reflexivity.
  - reflexivity.
  - reflexivity.
  - split; [apply head_ok_check; vm_compute; done|]. by vm_compute.
  - split; [done|apply forallb_true; by vm_compute].
  - reflexivity.
  - apply incoming_raw, client_items_ok.
  - exact session_a_valid.
  - vm_compute. reflexivity.
Defined.
