(* ===== verification/Server.v ===== *)
(** * The server: [server/mod.rs]

    Start-up ([Server::new]), the accept loop ([Server::run]) and the worker
    threads ([worker_loop]) with their bounded queues.  Accept loop and workers
    run concurrently: the model is a transition system whose steps are the
    points where a thread reads or writes shared state (the shutdown flag and
    the queues).  [step] is executable; a run is a list of labels. *)

From S2P Require Import Prelude RustStr Net Config Stats Io Events Connection.

(** ** [Server::new] *)

Inductive startup_error : Type :=
  | KeysNotLoaded (e : key_file_error)
  | BindFailed (addr : SocketAddr) (e : io_error).

(** A listener is its address. [tcp_bind] is [TcpListener::bind]. *)
Definition bind_listener (tcp_bind : SocketAddr -> result unit io_error)
    (set_nonblocking : SocketAddr -> bool -> result unit io_error) (addr : SocketAddr)
    : result SocketAddr io_error :=
  match tcp_bind addr with
  | Err e => Err e
  | Ok _ => match set_nonblocking addr false with Err e => Err e | Ok _ => Ok addr end
  end.

(** The listeners of a list of addresses, up to the first that fails. *)
Fixpoint bind_all (bind : SocketAddr -> result SocketAddr io_error) (addrs : list SocketAddr)
    : result (list SocketAddr) startup_error :=
  match addrs with
  | [] => Ok []
  | a :: rest =>
      match bind a with
      | Ok listener =>
          match bind_all bind rest with Ok l => Ok (listener :: l) | Err e => Err e end
      | Err e => Err (BindFailed a e)
      end
  end.

(** The secret keys; without token check a missing key file is not fatal. *)
Definition load_keys (fs : str -> option str) (cfg : Config)
    : result (list SecretKey) startup_error :=
  match read_secret_keys fs (secret_key_path cfg) with
  | Ok keys => Ok keys
  | Err e => if negb (check_token cfg) then Ok [] else Err (KeysNotLoaded e)
  end.

(** Whether there is a TLS configuration; [build_tls cert key tls13_only] is
    [build_tls_config(..).is_ok()]. *)
Definition tls_configured (build_tls : str -> str -> bool -> bool) (cfg : Config) : bool :=
  match cert_path cfg, key_path cfg with
  | Some cert, Some key => build_tls cert key (tls13_only cfg)
  | _, _ => false
  end.

(** The worker context and the bound listeners. *)
Definition Server_new (fs : str -> option str) (build_tls : str -> str -> bool -> bool)
    (bind : SocketAddr -> result SocketAddr io_error) (cfg : Config) (tcp_addrs tls_addrs : list SocketAddr)
    (sink : option EventSink)
    : result (WorkerCtx * list SocketAddr * list SocketAddr) startup_error :=
  match load_keys fs cfg with
  | Err e => Err e
  | Ok keys =>
      let tls := tls_configured build_tls cfg in
      match bind_all bind tcp_addrs with
      | Err e => Err e
      | Ok tcp_listeners =>
          match (if tls then bind_all bind tls_addrs else Ok []) with
          | Err e => Err e
          | Ok tls_listeners => Ok (mkCtx cfg keys tls sink, tcp_listeners, tls_listeners)
          end
      end
  end.

(** The worker threads; a thread that cannot be spawned is a panic. *)
Definition spawn_workers (spawn : nat -> bool) (num_workers : nat) : bool :=
  forallb spawn (seq 0 num_workers).

(** ** [Server::run] before its loop *)

(** A call for every element, up to the first that fails. *)
Fixpoint for_each {A E} (f : A -> result unit E) (l : list A) : result unit E :=
  match l with
  | [] => Ok tt
  | x :: l' => match f x with Ok _ => for_each f l' | Err e => Err e end
  end.

(** The listeners with their TLS flag; the index in the list is the token that
    the listener is registered with. *)
Definition tagged_listeners (tcp tls : list SocketAddr) : list (SocketAddr * bool) :=
  map (fun a => (a, false)) tcp ++ map (fun a => (a, true)) tls.

Definition no_listeners : io_error := mkErr AddrNotAvailable !"no listeners bound".

Definition run_setup (set_nonblocking : SocketAddr -> bool -> result unit io_error)
    (poll_new : result unit io_error) (register : nat -> result unit io_error)
    (tcp tls : list SocketAddr) : result (list (SocketAddr * bool)) io_error :=
  let all := tagged_listeners tcp tls in
  match all with
  | [] => Err no_listeners
  | _ =>
      match for_each (fun l => set_nonblocking l.1 true) all with
      | Err e => Err e
      | Ok _ =>
          match poll_new with
          | Err e => Err e
          | Ok _ =>
              match for_each register (seq 0 (length all)) with
              | Err e => Err e
              | Ok _ => Ok all
              end
          end
      end
  end.

(** ** State of the running server *)

(** An accepted connection; [C] stands for socket, address and TLS flag. *)
Inductive Job (C : Type) : Type :=
  | Connection (c : C)
  | Shutdown.
Arguments Connection {C} c.
Arguments Shutdown {C}.

(** Where a worker is in its loop. *)
Inductive worker_pc : Type :=
  | AtCheck             (* before [shutdown.load] *)
  | AtRecv              (* in [recv_timeout] *)
  | Handling            (* in [handle_connection] *)
  | Stopped.

Record Worker (C : Type) : Type := mkWorker {
  wk_pc : worker_pc;
  wk_queue : list (Job C);
  wk_seq : Z                     (* [conn_seq] *)
}.
Arguments mkWorker {C} _ _ _.
Arguments wk_pc {C} _.
Arguments wk_queue {C} _.
Arguments wk_seq {C} _.

(** Where the accept loop is. *)
Inductive accept_pc : Type :=
  | Polling             (* in [poll] *)
  | Draining            (* accepting the pending connections *)
  | Signalling (i : nat) (* about to signal worker [i] *)
  | Returned
  | AcceptFailed         (* [poll] failed: [run] returns its error *)
  | AcceptPanicked.

(** What happened, in order. *)
Inductive event (C : Type) : Type :=
  | Enqueued (worker : nat) (c : C)
  | Dropped (worker : nat) (c : C)
  | Handled (worker : nat) (conn_id : Z) (c : C).
Arguments Enqueued {C} worker c.
Arguments Dropped {C} worker c.
Arguments Handled {C} worker conn_id c.

Record State (C : Type) : Type := mkState {
  st_shutdown : bool;
  st_accept : accept_pc;
  st_next : Z;                   (* [next_worker] *)
  st_workers : list (Worker C);
  st_log : list (event C)
}.
Arguments mkState {C} _ _ _ _ _.
Arguments st_shutdown {C} _.
Arguments st_accept {C} _.
Arguments st_next {C} _.
Arguments st_workers {C} _.
Arguments st_log {C} _.

(** The capacity of [mpsc::sync_channel]. *)
Definition QUEUE_CAPACITY : nat := 8.

Definition CONN_ID_STRIDE : Z := 100000.

(** The steps of the system. *)
Inductive step_label (C : Type) : Type :=
  | LFlag                        (* the signal handler sets the flag *)
  | LPoll                        (* [poll] returns, then the flag is checked *)
  | LPollError                   (* [poll] fails, not with [Interrupted] *)
  | LAccept (c : C)
  | LBlocking (c : C)            (* accepted, but [set_nonblocking(false)] fails *)
  | LDrained                     (* [WouldBlock] on every listener *)
  | LSignal                      (* one [try_send(Shutdown)] *)
  | LWorker (i : nat)            (* worker [i] goes on *)
  | LDisconnected (i : nat).     (* the server is gone, and worker [i] finds out *)
Arguments LFlag {C}.
Arguments LPoll {C}.
Arguments LPollError {C}.
Arguments LAccept {C} c.
Arguments LBlocking {C} c.
Arguments LDrained {C}.
Arguments LSignal {C}.
Arguments LWorker {C} i.
Arguments LDisconnected {C} i.

Section server.
Context {C : Type}.
Implicit Types (w : Worker C) (s : State C).

Definition worker_init : Worker C := mkWorker AtCheck [] 0.

Definition Server_init (num_workers : nat) : State C :=
  mkState false Polling 0 (replicate num_workers worker_init) [].

(** [try_send]: [None] when the queue is full or the receiver is gone. *)
Definition try_send (j : Job C) w : option (Worker C) :=
  match wk_pc w with
  | Stopped => None
  | pc =>
      if Nat.ltb (length (wk_queue w)) QUEUE_CAPACITY
      then Some (mkWorker pc (wk_queue w ++ [j]) (wk_seq w)) else None
  end.

(** Round-robin dispatch of an accepted connection. *)
Definition dispatch_connection (c : C) s : State C :=
  let n := len (st_workers s) in
  if n =? 0 then mkState (st_shutdown s) AcceptPanicked (st_next s) (st_workers s) (st_log s)
  else
    let i := Z.to_nat (st_next s mod n) in
    let next := wrap_u 64 (st_next s + 1) in
    match st_workers s !! i with
    | None => s
    | Some w =>
        match try_send (Connection c) w with
        | Some w' =>
            mkState (st_shutdown s) (st_accept s) next (<[i := w']> (st_workers s))
              (st_log s ++ [Enqueued i c])
        | None =>
            mkState (st_shutdown s) (st_accept s) next (st_workers s) (st_log s ++ [Dropped i c])
        end
    end.

(** [id * 100_000 + conn_seq] *)
Definition conn_id_of (id : nat) (conn_seq : Z) : Z :=
  wrap_u 64 (Z.of_nat id * CONN_ID_STRIDE + conn_seq).

(** One step of [worker_loop] of worker [i]: the worker and the log entry. *)
Definition worker_step (shutdown : bool) (i : nat) w : option (Worker C * list (event C)) :=
  match wk_pc w with
  | AtCheck =>
      Some (mkWorker (if shutdown then Stopped else AtRecv) (wk_queue w) (wk_seq w), [])
  | AtRecv =>
      match wk_queue w with
      | [] => Some (mkWorker AtCheck [] (wk_seq w), [])
      | Shutdown :: q => Some (mkWorker Stopped q (wk_seq w), [])
      | Connection c :: q =>
          let seq := wrap_u 64 (wk_seq w + 1) in
          Some (mkWorker Handling q seq, [Handled i (conn_id_of i seq) c])
      end
  | Handling => Some (mkWorker AtCheck (wk_queue w) (wk_seq w), [])
  | Stopped => None
  end.

(** The accept loop has ended, so that [main] drops the server with its senders;
    when that happens is left open. *)
Definition server_gone s : bool :=
  match st_accept s with Returned | AcceptFailed => true | _ => false end.

(** [recv_timeout] gives [Disconnected]: the senders are gone, the queue is empty. *)
Definition worker_disconnected w : option (Worker C) :=
  match wk_pc w, wk_queue w with
  | AtRecv, [] => Some (mkWorker Stopped [] (wk_seq w))
  | _, _ => None
  end.

Definition set_accept pc s : State C :=
  mkState (st_shutdown s) pc (st_next s) (st_workers s) (st_log s).

(** [None]: the step is not possible in the state. *)
Definition step (l : step_label C) s : option (State C) :=
  match l, st_accept s with
  | LFlag, _ => Some (mkState true (st_accept s) (st_next s) (st_workers s) (st_log s))
  | LPoll, Polling =>
      Some (set_accept (if st_shutdown s then Signalling 0 else Draining) s)
  | LPollError, Polling => Some (set_accept AcceptFailed s)
  | LAccept c, Draining => Some (dispatch_connection c s)
  | LBlocking c, Draining => Some s
  | LDrained, Draining => Some (set_accept Polling s)
  | LSignal, Signalling i =>
      match st_workers s !! i with
      | None => Some (set_accept Returned s)
      | Some w =>
          let workers :=
            match try_send Shutdown w with
            | Some w' => <[i := w']> (st_workers s)
            | None => st_workers s
            end in
          Some (mkState (st_shutdown s) (Signalling (S i)) (st_next s) workers (st_log s))
      end
  | LWorker i, _ =>
      w ← st_workers s !! i;
      '(w', log) ← worker_step (st_shutdown s) i w;
      Some (mkState (st_shutdown s) (st_accept s) (st_next s) (<[i := w']> (st_workers s))
              (st_log s ++ log))
  | LDisconnected i, _ =>
      if server_gone s then
        w ← st_workers s !! i;
        w' ← worker_disconnected w;
        Some (mkState (st_shutdown s) (st_accept s) (st_next s) (<[i := w']> (st_workers s)) (st_log s))
      else None
  | _, _ => None
  end.

Fixpoint steps (ls : list (step_label C)) s : option (State C) :=
  match ls with
  | [] => Some s
  | l :: ls' => s' ← step l s; steps ls' s'
  end.

(** The states a server with [n] workers can reach. *)
Inductive reachable (n : nat) : State C -> Prop :=
  | reach_init : reachable n (Server_init n)
  | reach_step l s s' : reachable n s -> step l s = Some s' -> reachable n s'.
End server.
