(* ===== verification/ServerFacts.v ===== *)
(** * What the server guarantees

    Invariants of the accept loop and the workers, by induction over the
    reachable states: bounded queues, round-robin dispatch, first-in first-out
    handling, unique connection ids, and what happens at shutdown; and what a
    successful start-up means. *)

From S2P Require Import Prelude RustStr Net Config Stats Io Events Connection Server.

Section server.
Context {C : Type}.
Implicit Types (w : Worker C) (s : State C) (log : list (event C)).

(** ** Reading the log *)

(** The workers that connections were offered to. *)
Definition targets log : list nat :=
  omap (fun e => match e with Enqueued i _ | Dropped i _ => Some i | Handled _ _ _ => None end) log.

(** What worker [i] was given, and what it handled. *)
Definition enqueued (i : nat) log : list C :=
  omap (fun e => match e with Enqueued j c => if decide (j = i) then Some c else None | _ => None end) log.

Definition handled (i : nat) log : list (Z * C) :=
  omap (fun e => match e with
                 | Handled j id c => if decide (j = i) then Some (id, c) else None
                 | _ => None
                 end) log.

(** The ids of all connections handled so far. *)
Definition conn_ids log : list Z :=
  omap (fun e => match e with Handled _ id _ => Some id | _ => None end) log.

Definition connections (q : list (Job C)) : list C :=
  omap (fun j => match j with Connection c => Some c | Shutdown => None end) q.

Lemma targets_app l k : targets (l ++ k) = targets l ++ targets k.
Proof. apply omap_app. Qed.
Lemma enqueued_app i l k : enqueued i (l ++ k) = enqueued i l ++ enqueued i k.
Proof. apply omap_app. Qed.
Lemma handled_app i l k : handled i (l ++ k) = handled i l ++ handled i k.
Proof. apply omap_app. Qed.
Lemma conn_ids_app l k : conn_ids (l ++ k) = conn_ids l ++ conn_ids k.
Proof. apply omap_app. Qed.
Lemma connections_app l k : connections (l ++ k) = connections l ++ connections k.
Proof. apply omap_app. Qed.

(** ** The shape of a step *)

Inductive shape (l : step_label C) s s' : Prop :=
  | shape_quiet :
      st_workers s' = st_workers s -> st_log s' = st_log s -> st_next s' = st_next s ->
      (st_accept s' = AcceptPanicked -> st_accept s = AcceptPanicked) -> shape l s s'
  | shape_signal i w w' :
      st_workers s !! i = Some w -> try_send Shutdown w = Some w' ->
      st_workers s' = <[i := w']> (st_workers s) -> st_log s' = st_log s ->
      st_next s' = st_next s -> st_accept s' <> AcceptPanicked -> shape l s s'
  | shape_accept c : s' = dispatch_connection c s -> st_accept s = Draining -> shape l s s'
  | shape_worker i w w' log :
      st_workers s !! i = Some w -> worker_step (st_shutdown s) i w = Some (w', log) ->
      s' = mkState (st_shutdown s) (st_accept s) (st_next s) (<[i := w']> (st_workers s))
             (st_log s ++ log) -> shape l s s'
  | shape_disconnected i w :
      st_workers s !! i = Some w -> wk_pc w = AtRecv -> wk_queue w = [] -> server_gone s = true ->
      s' = mkState (st_shutdown s) (st_accept s) (st_next s)
             (<[i := mkWorker Stopped [] (wk_seq w)]> (st_workers s)) (st_log s) -> shape l s s'.

Lemma step_worker i s :
  step (LWorker i) s =
  (w ← st_workers s !! i; '(w', log) ← worker_step (st_shutdown s) i w;
   Some (mkState (st_shutdown s) (st_accept s) (st_next s) (<[i := w']> (st_workers s))
           (st_log s ++ log))).
Proof. by destruct s as [? []]. Qed.

Lemma step_disconnected i s s' :
  step (LDisconnected i) s = Some s' ->
  exists w, st_workers s !! i = Some w /\ wk_pc w = AtRecv /\ wk_queue w = [] /\ server_gone s = true /\
    s' = mkState (st_shutdown s) (st_accept s) (st_next s)
           (<[i := mkWorker Stopped [] (wk_seq w)]> (st_workers s)) (st_log s).
Proof.
  intros E.
  assert (E' : server_gone s = true /\
    (w ← st_workers s !! i; w' ← worker_disconnected w;
     Some (mkState (st_shutdown s) (st_accept s) (st_next s) (<[i := w']> (st_workers s)) (st_log s)))
    = Some s') by (destruct s as [? []]; done).
  destruct E' as [Hg E']. destruct (st_workers s !! i) as [[[] [|] q]|]; cbn in E'; try done.
  injection E' as <-. by eexists.
Qed.

Lemma step_shape l s s' : step l s = Some s' -> shape l s s'.
Proof.
  intros E. destruct l as [| | |c|c| | |i|i]; [cbn in E..| |].
  - injection E as <-. by apply shape_quiet.
  - destruct (st_accept s); try done. injection E as <-. apply shape_quiet; try done.
    cbn. by destruct (st_shutdown s).
  - destruct (st_accept s); try done. injection E as <-. by apply shape_quiet.
  - destruct (st_accept s) eqn:Ea; try done. injection E as <-. by eapply shape_accept.
  - destruct (st_accept s); try done. injection E as <-. by apply shape_quiet.
  - destruct (st_accept s); try done. injection E as <-. by apply shape_quiet.
  - destruct (st_accept s) as [| |i| | |]; try done.
    destruct (st_workers s !! i) as [w|] eqn:Ew; [|injection E as <-; by apply shape_quiet].
    destruct (try_send Shutdown w) as [w'|] eqn:Et; injection E as <-.
    + by eapply shape_signal.
    + by apply shape_quiet.
  - assert (E' := E). rewrite step_worker in E'.
    destruct (st_workers s !! i) as [w|] eqn:Ew; cbn in E'; [|done].
    destruct (worker_step (st_shutdown s) i w) as [[w' log]|] eqn:Es; cbn in E'; [|done].
    injection E' as <-. by eapply shape_worker.
  - apply step_disconnected in E as (w & Hw & Hpc & Hq & Hg & ->). by eapply shape_disconnected.
Qed.

(** The worker a connection is offered to exists when there are workers. *)
Lemma dispatch_cases c s :
  (st_workers s = [] /\ st_accept (dispatch_connection c s) = AcceptPanicked) \/
  exists i w, 0 < len (st_workers s) /\ i = Z.to_nat (st_next s mod len (st_workers s)) /\
    st_workers s !! i = Some w /\
    dispatch_connection c s =
      match try_send (Connection c) w with
      | Some w' => mkState (st_shutdown s) (st_accept s) (wrap_u 64 (st_next s + 1))
                     (<[i := w']> (st_workers s)) (st_log s ++ [Enqueued i c])
      | None => mkState (st_shutdown s) (st_accept s) (wrap_u 64 (st_next s + 1))
                  (st_workers s) (st_log s ++ [Dropped i c])
      end.
Proof.
  unfold dispatch_connection. destruct (Z.eqb_spec (len (st_workers s)) 0) as [E|E].
  - left. split; [|done]. destruct (st_workers s); [done|cbn in E; lia].
  - right. pose proof (Z.mod_pos_bound (st_next s) (len (st_workers s)) ltac:(lia)) as Hm.
    destruct (lookup_lt_is_Some_2 (st_workers s)
      (Z.to_nat (st_next s mod len (st_workers s)))) as [w Hw]; [lia|].
    eexists _, w. rewrite Hw. split_and!; try done. lia.
Qed.

(** ** One invariant for all of it *)

(** The connections of worker [i], what it handled being numbered from 1. *)
Definition numbered (i : nat) (l : list (Z * C)) (seq : Z) : Prop :=
  l.*1 = map (fun k => conn_id_of i (Z.of_nat k)) (List.seq 1 (length l)) /\
  seq = wrap_u 64 (Z.of_nat (length l)).

Definition worker_inv log (i : nat) w : Prop :=
  (length (wk_queue w) <= QUEUE_CAPACITY)%nat /\
  (exists rest, enqueued i log = (handled i log).*2 ++ rest /\
     (wk_pc w <> Stopped -> rest = connections (wk_queue w))) /\
  numbered i (handled i log) (wk_seq w).

Definition server_inv (n : nat) s : Prop :=
  length (st_workers s) = n /\
  (forall i w, st_workers s !! i = Some w -> worker_inv (st_log s) i w) /\
  (forall e, e ∈ st_log s -> match e with Handled i _ _ | Enqueued i _ | Dropped i _ => (i < n)%nat end) /\
  st_next s = wrap_u 64 (len (targets (st_log s))).

Lemma try_send_spec j w w' :
  try_send j w = Some w' ->
  wk_pc w <> Stopped /\ wk_pc w' = wk_pc w /\ wk_queue w' = wk_queue w ++ [j] /\
  wk_seq w' = wk_seq w /\ (length (wk_queue w) < QUEUE_CAPACITY)%nat.
Proof.
  unfold try_send. destruct (Nat.ltb_spec (length (wk_queue w)) QUEUE_CAPACITY) as [Hl|Hl];
    destruct w as [[] q k]; cbn in *; try done; intros [= <-]; cbn; done.
Qed.

(** A log entry of another worker changes nothing for worker [i]. *)
Lemma worker_inv_log log log' i w :
  enqueued i log' = [] -> handled i log' = [] -> worker_inv log i w -> worker_inv (log ++ log') i w.
Proof.
  unfold worker_inv. rewrite enqueued_app, handled_app. intros -> ->. by rewrite !app_nil_r.
Qed.

Lemma worker_inv_dispatch log i c w w' :
  worker_inv log i w -> try_send (Connection c) w = Some w' ->
  worker_inv (log ++ [Enqueued i c]) i w'.
Proof.
  intros (Hq & (rest & He & Hr) & Hn) (Hpc & Hpc' & Hq' & Hs' & Hl)%try_send_spec.
  unfold worker_inv. rewrite enqueued_app, handled_app, Hpc', Hq', Hs'. cbn.
  rewrite decide_True by done. rewrite app_nil_r. split_and!; [rewrite length_app; cbn; lia| |done].
  exists (rest ++ [c]). rewrite He, <- app_assoc. split; [done|]. intros Hp.
  rewrite connections_app, Hr by done. done.
Qed.

Lemma worker_inv_signal log i w w' :
  worker_inv log i w -> try_send Shutdown w = Some w' -> worker_inv log i w'.
Proof.
  intros (Hq & (rest & He & Hr) & Hn) (Hpc & Hpc' & Hq' & Hs' & Hl)%try_send_spec.
  unfold worker_inv. rewrite Hpc', Hq', Hs'. split_and!; [rewrite length_app; cbn; lia| |done].
  exists rest. split; [done|]. intros Hp. rewrite connections_app, Hr by done.
  by rewrite app_nil_r.
Qed.

Lemma numbered_next i l seq c :
  numbered i l seq -> numbered i (l ++ [(conn_id_of i (wrap_u 64 (seq + 1)), c)]) (wrap_u 64 (seq + 1)).
Proof.
  intros [Hl ->]. unfold numbered. rewrite length_app, fmap_app, Hl, Nat.add_comm. cbn [length Nat.add].
  assert (E : wrap_u 64 (wrap_u 64 (len l) + 1) = wrap_u 64 (Z.of_nat (S (length l)))).
  { unfold wrap_u. rewrite Zplus_mod_idemp_l. f_equal. lia. }
  rewrite E. split; [|done].
  rewrite seq_S, map_app. cbn. f_equal. f_equal. unfold conn_id_of, wrap_u.
  rewrite Zplus_mod_idemp_r. done.
Qed.

Lemma worker_inv_step log shutdown i w w' log' :
  worker_inv log i w -> worker_step shutdown i w = Some (w', log') ->
  worker_inv (log ++ log') i w'.
Proof.
  intros (Hq & (rest & He & Hr) & Hn) E. destruct w as [pc q k]. cbn in *.
  destruct pc; cbn in E; [| |injection E as <- <-|done].
  - injection E as <- <-. rewrite app_nil_r. split_and!; [done| |done].
    exists rest. split; [done|]. intros _. by apply Hr.
  - destruct q as [|[c|] q]; injection E as <- <-; cbn in Hq.
    + rewrite app_nil_r. split_and!; [cbn; lia| |done]. exists rest. split; [done|]. auto.
    + unfold worker_inv. rewrite enqueued_app, handled_app. cbn.
      rewrite decide_True, app_nil_r by done. split_and!; [lia| |by apply numbered_next].
      rewrite Hr in He by done. cbn in He. exists (connections q).
      rewrite fmap_app, <- app_assoc. done.
    + rewrite app_nil_r. split_and!; [cbn; lia| |done]. exists rest. done.
  - rewrite app_nil_r. split_and!; [done| |done]. exists rest. split; [done|]. auto.
Qed.

Lemma worker_step_log shutdown i w w' log :
  worker_step shutdown i w = Some (w', log) ->
  targets log = [] /\ (forall j, j <> i -> enqueued j log = [] /\ handled j log = []) /\
  (forall e, e ∈ log -> exists id c, e = Handled i id c).
Proof.
  intros E. destruct w as [pc q k].
  assert (Hlog : log = [] \/ exists id c, log = [Handled i id c]).
  { destruct pc; cbn in E; [|destruct q as [|[c|] q]| |done]; injection E as _ <-; eauto. }
  destruct Hlog as [->|(id & c & ->)].
  - split_and!; [done|done|]. set_solver.
  - split_and!; [done| |].
    + intros j Hj. cbn. by rewrite decide_False by congruence.
    + intros e ->%list_elem_of_singleton. eauto.
Qed.

Lemma lookup_update (l : list (Worker C)) i w' j w :
  <[i := w']> l !! j = Some w -> (j = i /\ w = w' /\ (i < length l)%nat) \/ (j <> i /\ l !! j = Some w).
Proof. intros H. apply list_lookup_insert_Some in H. naive_solver. Qed.

Lemma server_inv_step n l s s' : server_inv n s -> step l s = Some s' -> server_inv n s'.
Proof.
  intros (Hlen & Hw & Hlog & Hnext) [E1 E2 E3 _|i w w' Ei Et E1 E2 E3 _|c -> _|i w w' log Ei Es ->|i w Ei Hpc Hq _ ->]%step_shape.
  - unfold server_inv. by rewrite E1, E2, E3.
  - unfold server_inv. rewrite E1, E2, E3, length_insert. split_and!; try done.
    intros j x [(-> & -> & _)|[Hj Hx]]%lookup_update; [|by apply Hw].
    eapply worker_inv_signal; [by apply Hw|done].
  - destruct (dispatch_cases c s) as [[Hnil _]|(i & w & Hpos & Hi & Ei & ->)].
    { unfold dispatch_connection, server_inv. rewrite Hnil in *. cbn. by split_and!. }
    assert (Hin : (i < n)%nat) by (rewrite <- Hlen; by eapply lookup_lt_Some).
    assert (Hn : wrap_u 64 (st_next s + 1) = wrap_u 64 (len (targets (st_log s)) + 1)).
    { rewrite Hnext. unfold wrap_u. by rewrite Zplus_mod_idemp_l. }
    destruct (try_send (Connection c) w) as [w'|] eqn:Et; unfold server_inv;
      cbn [st_workers st_log st_next]; rewrite targets_app, length_app; cbn [targets omap list_omap length];
      rewrite ?length_insert, Hn, Nat2Z.inj_add; (split_and!; [done| | |done]).
    + intros j x [(-> & -> & _)|[Hj Hx]]%lookup_update.
      * eapply worker_inv_dispatch; [by apply Hw|done].
      * apply worker_inv_log; [|done|by apply Hw]. cbn. by rewrite decide_False by congruence.
    + intros e [He| ->%list_elem_of_singleton]%elem_of_app; [by apply Hlog|done].
    + intros j x Hx. apply worker_inv_log; [done|done|by apply Hw].
    + intros e [He| ->%list_elem_of_singleton]%elem_of_app; [by apply Hlog|done].
  - assert (Hin : (i < n)%nat) by (rewrite <- Hlen; by eapply lookup_lt_Some).
    destruct (worker_step_log _ _ _ _ _ Es) as (Ht & Hoth & Hev).
    unfold server_inv. cbn [st_workers st_log st_next].
    rewrite targets_app, Ht, app_nil_r, length_insert. split_and!; [done| | |done].
    + intros j x [(-> & -> & _)|[Hj Hx]]%lookup_update.
      * eapply worker_inv_step; [by apply Hw|done].
      * destruct (Hoth j Hj). apply worker_inv_log; [done|done|by apply Hw].
    + intros e [He|He]%elem_of_app; [by apply Hlog|].
      destruct (Hev e He) as (id & c & ->). done.
  - unfold server_inv. cbn [st_workers st_log st_next]. rewrite length_insert.
    split_and!; [done| |done|done]. intros j x [(-> & -> & _)|[_ Hx]]%lookup_update; [|by apply Hw].
    destruct (Hw i w Ei) as (_ & (rest & He & _) & Hn). split_and!; [cbn; lia| |done].
    exists rest. split; [done|]. by intros [].
Qed.

Lemma server_inv_reachable n s : reachable n s -> server_inv n s.
Proof.
  induction 1 as [|l s s' _ IH E]; [|by eapply server_inv_step].
  unfold server_inv, Server_init. cbn. rewrite length_replicate. split_and!; [done| |set_solver|done].
  intros i w [-> _]%lookup_replicate. split_and!; [cbn; lia| |done]. exists []. done.
Qed.

(** ** Queues *)

(** No worker ever has more than eight jobs waiting: when a queue is full the
    connection is dropped, the accept loop never waits. *)
Theorem queues_bounded n s i w
    (Hs : reachable n s) (Hw : st_workers s !! i = Some w) :
  (length (wk_queue w) <= 8)%nat.
Proof. apply server_inv_reachable in Hs as (_ & H & _). by apply (H i w). Qed.

(** C22: connections are handled at most once and in the order they came: what a
    worker was given is what it has handled, in the same order, followed by what
    waits in its queue (unless it has stopped and its queue was discarded). *)
Theorem fifo_handling n s i w
    (Hs : reachable n s) (Hw : st_workers s !! i = Some w) :
  exists rest, enqueued i (st_log s) = (handled i (st_log s)).*2 ++ rest /\
    (wk_pc w <> Stopped -> rest = connections (wk_queue w)).
Proof. apply server_inv_reachable in Hs as (_ & H & _). by apply (H i w). Qed.

(** ** Round robin *)

Definition round_robin (n k : nat) : list nat := map (fun j => (j mod n)%nat) (seq 0 k).

Lemma step_log_app l s s' : step l s = Some s' -> exists k, st_log s' = st_log s ++ k.
Proof.
  intros [_ E _ _|? ? ? _ _ _ E _ _|c -> _|? ? ? k _ _ ->|? ? _ _ _ _ ->]%step_shape.
  - exists []. by rewrite app_nil_r.
  - exists []. by rewrite app_nil_r.
  - destruct (dispatch_cases c s) as [[Hnil _]|(i & w & _ & _ & _ & ->)].
    + exists []. unfold dispatch_connection. rewrite Hnil. by rewrite app_nil_r.
    + destruct (try_send _ _); cbn; eauto.
  - cbn. eauto.
  - exists []. cbn. by rewrite app_nil_r.
Qed.

Lemma reachable_not_panicked n s : (0 < n)%nat -> reachable n s -> st_accept s <> AcceptPanicked.
Proof.
  intros Hn. induction 1 as [|l s s' Hr IH E]; [done|].
  pose proof (server_inv_reachable n s Hr) as (Hlen & _).
  apply step_shape in E as [_ _ _ Hp|? ? ? _ _ _ _ _ Hp|c -> Hd|? ? ? k _ _ ->|? ? _ _ _ _ ->]; auto.
  destruct (dispatch_cases c s) as [[Hnil _]|(i & w & _ & _ & _ & ->)].
  - rewrite Hnil in Hlen. cbn in Hlen. lia.
  - destruct (try_send _ _); cbn; by rewrite Hd.
Qed.

(** C34: dispatch is round robin over all workers: the [k]-th accepted connection
    is offered to worker [k mod n], whether or not its queue has room; with at
    least one worker the accept loop does not panic. *)
Theorem dispatch_round_robin n s
    (Hs : reachable n s) (Hn : (0 < n)%nat) (Hk : len (targets (st_log s)) < 2 ^ 64) :
  targets (st_log s) = round_robin n (length (targets (st_log s))) /\
  st_accept s <> AcceptPanicked.
Proof.
  split; [|by eapply reachable_not_panicked].
  induction Hs as [|l s s' Hr IH E]; [done|].
  destruct (step_log_app l s s' E) as [k Hk'].
  assert (Hks : len (targets (st_log s)) < 2 ^ 64).
  { rewrite Hk', targets_app, length_app in Hk. lia. }
  specialize (IH Hks). pose proof (server_inv_reachable n s Hr) as (Hlen & _ & _ & Hnext).
  apply step_shape in E as [_ E _ _|? ? ? _ _ _ E _ _|c -> _|? ? ? k' _ Es ->|? ? _ _ _ _ ->];
    [by rewrite E|by rewrite E| | |done].
  - destruct (dispatch_cases c s) as [[Hnil _]|(i & w & _ & Hi & _ & E)].
    { rewrite Hnil in Hlen. cbn in Hlen. lia. }
    assert (Ht : targets (st_log (dispatch_connection c s)) = targets (st_log s) ++ [i])
      by (rewrite E; destruct (try_send _ _); cbn; by rewrite targets_app).
    rewrite Ht, length_app, Nat.add_1_r. unfold round_robin. rewrite seq_S, map_app.
    fold (round_robin n (length (targets (st_log s)))). rewrite <- IH. f_equal. cbn. f_equal.
    rewrite Hi, Hnext, Hlen, wrap_u_small by (split; [lia|exact Hks]).
    rewrite <- Nat2Z.inj_mod. apply Nat2Z.id.
  - destruct (worker_step_log _ _ _ _ _ Es) as (Ht & _). cbn.
    by rewrite targets_app, Ht, app_nil_r.
Qed.

(** ** Connection ids *)

Lemma conn_ids_handled i id log :
  id ∈ (handled i log).*1 <-> exists c, Handled i id c ∈ log.
Proof.
  rewrite list_elem_of_fmap. split.
  - intros ([id' c] & -> & H). apply list_elem_of_omap in H as (e & He & H).
    destruct e as [| |j k c']; try done. case_decide; [|done]. naive_solver.
  - intros [c H]. exists (id, c). split; [done|]. apply list_elem_of_omap.
    exists (Handled i id c). split; [done|]. by rewrite decide_True.
Qed.

Lemma conn_ids_elem id log : id ∈ conn_ids log -> exists i c, Handled i id c ∈ log.
Proof.
  intros (e & He & H)%list_elem_of_omap. destruct e as [| |j k c]; try done. naive_solver.
Qed.

(** The ids of worker [i] are those of its first [k] connections. *)
Lemma handled_id n s i id c :
  reachable n s -> Handled i id c ∈ st_log s ->
  (i < n)%nat /\
  exists k, (1 <= k <= length (handled i (st_log s)))%nat /\ id = conn_id_of i (Z.of_nat k).
Proof.
  intros Hr He. pose proof (server_inv_reachable n s Hr) as (Hlen & Hw & Hlog & _).
  assert (Hi : (i < n)%nat) by exact (Hlog _ He). split; [done|].
  destruct (lookup_lt_is_Some_2 (st_workers s) i) as [w Hwi]; [lia|].
  destruct (Hw i w Hwi) as (_ & _ & [Hids _]).
  assert (Hin : id ∈ (handled i (st_log s)).*1) by (apply conn_ids_handled; eauto).
  rewrite Hids in Hin. apply list_elem_of_fmap in Hin as (k & -> & Hk).
  apply elem_of_seq in Hk. exists k. split; [lia|done].
Qed.

Lemma conn_id_inj i j k m :
  0 <= Z.of_nat i * CONN_ID_STRIDE + CONN_ID_STRIDE < 2 ^ 64 ->
  0 <= Z.of_nat j * CONN_ID_STRIDE + CONN_ID_STRIDE < 2 ^ 64 ->
  1 <= k <= CONN_ID_STRIDE -> 1 <= m <= CONN_ID_STRIDE ->
  conn_id_of i k = conn_id_of j m -> i = j /\ k = m.
Proof.
  unfold conn_id_of, CONN_ID_STRIDE. change (2 ^ 64) with 18446744073709551616.
  intros Hi Hj Hk Hm. rewrite !wrap_u_small by (change (2 ^ 64) with 18446744073709551616; lia).
  intros E. assert (Z.of_nat i = Z.of_nat j) by lia. split; lia.
Qed.

(** C35: connection ids identify connections in the logs: as long as no worker
    has handled more than 100000 connections, no two connections of the server
    have the same id. *)
Theorem conn_ids_unique n s
    (Hs : reachable n s) (Hn : Z.of_nat n * CONN_ID_STRIDE < 2 ^ 64)
    (Hbound : forall i, len (handled i (st_log s)) <= CONN_ID_STRIDE) :
  NoDup (conn_ids (st_log s)).
Proof.
  induction Hs as [|l s s' Hr IH E]; [constructor|].
  destruct (step_log_app l s s' E) as [k Hk].
  assert (Hb : forall i, len (handled i (st_log s)) <= CONN_ID_STRIDE).
  { intros i. specialize (Hbound i). rewrite Hk, handled_app, length_app in Hbound. lia. }
  specialize (IH Hb). rewrite Hk, conn_ids_app. apply NoDup_app. split; [done|].
  assert (Hnew : conn_ids k = [] \/ exists i id c, k = [Handled i id c]).
  { apply step_shape in E as [_ E _ _|? ? ? _ _ _ E _ _|c -> _|i w w' k' _ Es ->|? ? _ _ _ _ ->].
    - left. rewrite E in Hk. by rewrite (app_inv_head (st_log s) k []) by (by rewrite app_nil_r).
    - left. rewrite E in Hk. by rewrite (app_inv_head (st_log s) k []) by (by rewrite app_nil_r).
    - left. destruct (dispatch_cases c s) as [[Hnil _]|(j & w & _ & _ & _ & E)].
      + unfold dispatch_connection in Hk. rewrite Hnil in Hk. cbn in Hk.
        by rewrite (app_inv_head (st_log s) k []) by (by rewrite app_nil_r).
      + rewrite E in Hk. destruct (try_send _ _); cbn in Hk; apply app_inv_head in Hk; by subst k.
    - cbn in Hk. apply app_inv_head in Hk as <-. destruct w as [[] [|[]] q]; cbn in Es;
        try done; injection Es as _ <-; naive_solver.
    - left. cbn in Hk. by rewrite (app_inv_head (st_log s) k []) by (by rewrite app_nil_r). }
  destruct Hnew as [->|(i & id & c & ->)]; [split; [set_solver|constructor]|].
  cbn. split; [|apply NoDup_singleton].
  intros id' Hold ->%list_elem_of_singleton.
  apply conn_ids_elem in Hold as (j & c' & Hj).
  assert (Hr' : reachable n s') by (by econstructor).
  destruct (handled_id n s j id c' Hr Hj) as (Hjn & a & Ha & Eid).
  assert (Hi' : Handled i id c ∈ st_log s') by (rewrite Hk; set_solver).
  destruct (handled_id n s' i id c Hr' Hi') as (Hin & _).
  pose proof (server_inv_reachable n s' Hr') as (Hlen & Hw & _).
  destruct (lookup_lt_is_Some_2 (st_workers s') i) as [w Hwi]; [lia|].
  destruct (Hw i w Hwi) as (_ & _ & [Hids _]).
  rewrite Hk, handled_app in Hids. cbn in Hids. rewrite decide_True in Hids by done.
  rewrite length_app, fmap_app, Nat.add_1_r, seq_S, map_app in Hids. cbn in Hids.
  apply app_inj_tail in Hids as [_ Eid'].
  pose proof (Hbound i) as Hbi. rewrite Hk, handled_app, length_app in Hbi. cbn in Hbi.
  rewrite decide_True in Hbi by done. cbn in Hbi. pose proof (Hb j) as Hbj.
  assert (E2 : j = i /\ Z.of_nat a = Z.of_nat (S (length (handled i (st_log s))))).
  { apply conn_id_inj; [unfold CONN_ID_STRIDE in *; nia|unfold CONN_ID_STRIDE in *; nia
      |lia|lia|]. rewrite <- Eid. by rewrite Eid'. }
  destruct E2 as [-> Ea]. lia.
Qed.

(** ** Shutdown *)

(** The connections worker [i] may still start once the flag is set. *)
Definition may_start (i : nat) s : nat :=
  match st_workers s !! i with
  | Some w => match wk_pc w with AtRecv => 1 | _ => 0 end
  | None => 0
  end.

Lemma step_shutdown l s s' i :
  st_shutdown s = true -> step l s = Some s' ->
  st_shutdown s' = true /\
  (length (handled i (st_log s')) + may_start i s' <= length (handled i (st_log s)) + may_start i s)%nat.
Proof.
  intros Hd E. split.
  { destruct l; cbn in E; try (destruct (st_accept s); try done); repeat case_match; simplify_eq/=;
      try done; unfold dispatch_connection; repeat case_match; try done;
      repeat (match goal with H : _ ≫= _ = Some _ |- _ => apply bind_Some in H as (? & ? & H) end);
      repeat case_match; simplify_eq/=; done. }
  assert (Hsame : forall w w', st_workers s !! i = Some w -> wk_pc w' = wk_pc w ->
    st_workers s' = <[i := w']> (st_workers s) -> may_start i s' = may_start i s).
  { intros w w' Hw Hpc E'. unfold may_start. rewrite E', Hw, list_lookup_insert_eq, Hpc; [done|].
    by eapply lookup_lt_Some. }
  assert (Hother : forall j w', j <> i -> st_workers s' = <[j := w']> (st_workers s) ->
    may_start i s' = may_start i s).
  { intros j w' Hj E'. unfold may_start. by rewrite E', list_lookup_insert_ne. }
  apply step_shape in E as [E1 E2 _ _|j w w' Ej Et E1 E2 _ _|c -> _|j w w' k Ej Es ->|j w Ej Hpc _ _ ->].
  - unfold may_start. by rewrite E1, E2.
  - rewrite E2. destruct (decide (j = i)) as [->|Hj].
    + erewrite (Hsame w w'); [done|done| |done]. by apply try_send_spec in Et as (_ & -> & _).
    + by rewrite (Hother j w').
  - destruct (dispatch_cases c s) as [[Hnil _]|(j & w & _ & _ & Ej & E)].
    + replace (dispatch_connection c s) with (mkState (st_shutdown s) AcceptPanicked (st_next s)
        (st_workers s) (st_log s)); [done|]. unfold dispatch_connection. by rewrite Hnil.
    + rewrite E in *. destruct (try_send (Connection c) w) as [w'|] eqn:Et;
        cbn [st_log]; rewrite handled_app; cbn [handled omap list_omap]; rewrite app_nil_r.
      * destruct (decide (j = i)) as [->|Hj].
        -- rewrite (Hsame w w'); [done|done| |done]. by apply try_send_spec in Et as (_ & -> & _).
        -- by rewrite (Hother j w').
      * done.
  - cbn [st_log]. rewrite handled_app, length_app. destruct (decide (j = i)) as [->|Hj].
    + unfold may_start. cbn [st_workers]. rewrite Ej, list_lookup_insert_eq by (by eapply lookup_lt_Some).
      rewrite Hd in Es. destruct w as [[] [|[]] q]; cbn in Es; try done;
        injection Es as <- <-; cbn; rewrite ?decide_True by done; cbn; lia.
    + destruct (worker_step_log _ _ _ _ _ Es) as (_ & Hoth & _).
      destruct (Hoth i ltac:(congruence)) as [_ ->]. rewrite (Hother j w') by done. cbn. lia.
  - cbn [st_log]. destruct (decide (j = i)) as [->|Hj]; [|by erewrite (Hother j) by done].
    unfold may_start. cbn [st_workers]. rewrite list_lookup_insert_eq by (by eapply lookup_lt_Some).
    cbn. lia.
Qed.

(** C33: after the shutdown flag is set, each worker starts at most one more
    connection (the one it may already be waiting for), whatever is still
    queued, accepted or signalled afterwards. *)
Theorem shutdown_drains ls s s' i
    (Hd : st_shutdown s = true) (Hrun : steps ls s = Some s') :
  (length (handled i (st_log s')) <= length (handled i (st_log s)) + 1)%nat.
Proof.
  assert (H : (length (handled i (st_log s')) + may_start i s'
               <= length (handled i (st_log s)) + may_start i s)%nat).
  { revert s Hd Hrun. induction ls as [|l ls IH]; intros s Hd Hrun; cbn in Hrun;
      [by injection Hrun as ->|].
    apply bind_Some in Hrun as (s1 & E & Hrun).
    destruct (step_shutdown l s s1 i Hd E) as [Hd1 H1]. specialize (IH s1 Hd1 Hrun). lia. }
  assert (may_start i s <= 1)%nat by (unfold may_start; repeat case_match; lia). lia.
Qed.

Lemma steps_reachable n ls s s' : reachable n s -> steps ls s = Some s' -> reachable n s'.
Proof.
  revert s. induction ls as [|l ls IH]; intros s Hr E; cbn in E; [by injection E as <-|].
  apply bind_Some in E as (s1 & E1 & E). eapply IH; [|done]. by econstructor.
Qed.
End server.

(** ** Start-up *)

Lemma bind_listener_Ok tcp_bind nb a l :
  bind_listener tcp_bind nb a = Ok l -> l = a /\ tcp_bind a = Ok tt /\ nb a false = Ok tt.
Proof.
  unfold bind_listener. destruct (tcp_bind a) as [[]|]; [|done].
  destruct (nb a false) as [[]|]; [|done]. by intros [= <-].
Qed.

Lemma bind_all_Ok tcp_bind nb addrs l :
  bind_all (bind_listener tcp_bind nb) addrs = Ok l ->
  l = addrs /\ Forall (fun a => tcp_bind a = Ok tt) addrs.
Proof.
  revert l. induction addrs as [|a addrs IH]; intros l; cbn [bind_all]; [intros [= <-]; by split|].
  destruct (bind_listener tcp_bind nb a) as [l'|] eqn:Ea; [|done].
  apply bind_listener_Ok in Ea as (-> & Ha & _).
  destruct (bind_all _ addrs) as [k|]; [|done].
  intros [= <-]. destruct (IH k eq_refl) as [-> ?]. split; [done|]. by constructor.
Qed.

Lemma read_secret_keys_nonempty fs path keys : read_secret_keys fs path = Ok keys -> keys <> [].
Proof.
  unfold read_secret_keys. destruct (fs path); [|done].
  destruct (omap key_of_line _) eqn:E; [done|]. intros [= <-]. done.
Qed.

(** A server that starts checks tokens with at least one key (unless token
    checking is off), listens on every address it was given, and on the TLS
    addresses exactly when certificate, key and TLS configuration are there. *)
Lemma startup_complete fs build_tls tcp_bind nb cfg tcp_addrs tls_addrs sink ctx tcp tls
    (H : Server_new fs build_tls (bind_listener tcp_bind nb) cfg tcp_addrs tls_addrs sink = Ok (ctx, tcp, tls)) :
  ctx_config ctx = cfg /\
  (check_token cfg = true -> ctx_keys ctx <> []) /\
  tcp = tcp_addrs /\ tls = (if ctx_tls ctx then tls_addrs else []) /\
  Forall (fun a => tcp_bind a = Ok tt) (tcp ++ tls) /\
  (ctx_tls ctx = true <->
     exists cert key, cert_path cfg = Some cert /\ key_path cfg = Some key /\
       build_tls cert key (tls13_only cfg) = true).
Proof.
  unfold Server_new in H. destruct (load_keys fs cfg) as [keys|] eqn:Ek; [|done].
  destruct (bind_all _ tcp_addrs) as [l1|] eqn:E1; [|done].
  destruct (if tls_configured build_tls cfg then bind_all _ tls_addrs else Ok []) as [l2|] eqn:E2;
    [|done].
  injection H as <- <- <-. cbn. apply bind_all_Ok in E1 as [-> Hb1].
  assert (Hl2 : l2 = (if tls_configured build_tls cfg then tls_addrs else []) /\
                Forall (fun a => tcp_bind a = Ok tt) l2).
  { destruct (tls_configured build_tls cfg); [|injection E2 as <-; by split].
    by apply bind_all_Ok in E2 as [-> ?]. }
  destruct Hl2 as [-> Hb2]. split_and!; try done.
  - intros Hc. unfold load_keys in Ek. rewrite Hc in Ek.
    destruct (read_secret_keys fs (secret_key_path cfg)) eqn:Er; [|done].
    injection Ek as <-. by eapply read_secret_keys_nonempty.
  - by apply Forall_app.
  - unfold tls_configured. destruct (cert_path cfg), (key_path cfg); naive_solver.
Qed.

(** [-t 0] is accepted on the command line, and a server with no workers
    panics at the first connection (remainder by zero). *)
Theorem zero_workers_panic parse_level c :
  (exists cli, parse_cli parse_level [!"-t"; !"0"] = Run cli /\ num_workers (config cli) = 0) /\
  exists s, steps [LPoll; LAccept c] (Server_init (C := nat) 0) = Some s /\
    st_accept s = AcceptPanicked.
Proof. split; [eexists; split; [reflexivity|reflexivity]|]. eexists. split; reflexivity. Qed.

(** ** Concrete runs *)

(** Two workers, three connections, the first two being handled. *)
Definition run_a : list (step_label nat) :=
  [LPoll; LAccept 10%nat; LAccept 11%nat; LAccept 12%nat; LDrained; LWorker 0; LWorker 0; LWorker 1;
   LWorker 1; LFlag; LPoll; LSignal; LSignal; LSignal].

Definition state_a : State nat :=
  match steps run_a (Server_init 2) with Some s => s | None => Server_init 2 end.

Lemma state_a_reachable : reachable 2 state_a.
Proof. apply (steps_reachable 2 run_a (Server_init 2)); [constructor|vm_compute; reflexivity]. Defined.

Definition worker_a : Worker nat := mkWorker Handling [Connection 12%nat; Shutdown] 1.

Lemma worker_a_lookup : st_workers state_a !! 0%nat = Some worker_a.
Proof. vm_compute. reflexivity. Defined.

Lemma queues_bounded_witness : (length (wk_queue worker_a) <= 8)%nat.
Proof. apply (queues_bounded 2 state_a 0); [exact state_a_reachable|exact worker_a_lookup]. Defined.

Lemma fifo_handling_witness :
  exists rest, enqueued 0 (st_log state_a) = (handled 0 (st_log state_a)).*2 ++ rest /\
    (wk_pc worker_a <> Stopped -> rest = connections (wk_queue worker_a)).
Proof. apply (fifo_handling 2); [exact state_a_reachable|exact worker_a_lookup]. Defined.

Lemma dispatch_round_robin_witness :
  targets (st_log state_a) = round_robin 2 (length (targets (st_log state_a))) /\
  st_accept state_a <> AcceptPanicked.
Proof.
  apply dispatch_round_robin; [exact state_a_reachable|lia|]. vm_compute. reflexivity.
Defined.

Lemma conn_ids_unique_witness : NoDup (conn_ids (st_log state_a)).
Proof.
  apply (conn_ids_unique 2); [exact state_a_reachable|vm_compute; reflexivity|].
  intros [|[|i]]; vm_compute; discriminate.
Defined.

Lemma shutdown_drains_witness :
  (length (handled 0 (st_log (match steps [LWorker 0; LWorker 0] state_a with
                              | Some s => s | None => state_a end)))
   <= length (handled 0 (st_log state_a)) + 1)%nat.
Proof. apply (shutdown_drains [LWorker 0; LWorker 0]); vm_compute; reflexivity. Defined.
