(* ===== verification/Service.v ===== *)
(** * The running service: the server and its connections

    [Server] says when a worker handles which connection, [Connection] what
    handling one does. Here the two are composed: a worker that is in
    [handle_connection] runs it, on what the client and the environment of this
    connection do, before it goes on; if it panicked, the thread would be dead. *)

From S2P Require Import Prelude RustStr Net Crypto RefCrypto Config Token Stats Json Io Stream Events Greeting IpCheck RefSerde Connection Termination TokenFacts ConnectionFacts Accounting Server ServerFacts.

Section service.
Context `{Crypto} `{Serde} `{Build}.
Variable random : nat -> byte.
Variable clock_fuel : nat.
Variable ctx : WorkerCtx.

(** A connection: what [accept] returns, and the world it will meet, in which
    the clock advances. *)
Record Conn : Type := mkConn {
  cn_tcp : TcpStream;
  cn_addr : SocketAddr;
  cn_tls : bool;
  cn_world : World;
  cn_clock : clock_advances clock_fuel (w_mono cn_world)
}.

Definition serve (id : Z) (c : Conn) : outcome unit * World :=
  handle_connection random clock_fuel id (cn_tcp c) (cn_addr c) (cn_tls c) ctx
    (set_out [] (cn_world c)).

(** The server, the workers whose thread has died, and what was reported to the
    collector for the finished connections: worker, id and events. *)
Record Service : Type := mkService {
  sv_server : State Conn;
  sv_dead : list nat;
  sv_reports : list (nat * Z * list str)
}.

Definition Service_init (num_workers : nat) : Service := mkService (Server_init num_workers) [] [].

Definition handling (i : nat) (s : State Conn) : bool :=
  match st_workers s !! i with
  | Some w => match wk_pc w with Handling => true | _ => false end
  | None => false
  end.

(** The connection worker [i] took last. *)
Definition current (i : nat) (s : State Conn) : option (Z * Conn) := last (handled i (st_log s)).

Definition service_step (l : step_label Conn) (S : Service) : option Service :=
  match l with
  | LWorker i =>
      if bool_decide (i ∈ sv_dead S) then None
      else
        s' ← step l (sv_server S);
        if handling i (sv_server S) then
          '(id, c) ← current i (sv_server S);
          match serve id c with
          | (Done _, w) =>
              Some (mkService s' (sv_dead S) (sv_reports S ++ [(i, id, events (w_out w))]))
          | _ => Some (mkService (sv_server S) (i :: sv_dead S) (sv_reports S))
          end
        else Some (mkService s' (sv_dead S) (sv_reports S))
  | _ => s' ← step l (sv_server S); Some (mkService s' (sv_dead S) (sv_reports S))
  end.

Fixpoint service_steps (ls : list (step_label Conn)) (S : Service) : option Service :=
  match ls with
  | [] => Some S
  | l :: ls' => S' ← service_step l S; service_steps ls' S'
  end.

(** ** What a step does to worker [i] *)

Inductive change (l : step_label Conn) (s s' : State Conn) (i : nat) : Prop :=
  | change_none :
      handling i s' = handling i s -> handled i (st_log s') = handled i (st_log s) ->
      (l = LWorker i -> handling i s = false) -> change l s s' i
  | change_start x :
      l = LWorker i -> handling i s = false -> handling i s' = true ->
      handled i (st_log s') = handled i (st_log s) ++ [x] -> change l s s' i
  | change_finish :
      l = LWorker i -> handling i s = true -> handling i s' = false ->
      handled i (st_log s') = handled i (st_log s) -> change l s s' i.

Lemma handling_same (s s' : State Conn) j w w' i :
  st_workers s !! j = Some w -> st_workers s' = <[j := w']> (st_workers s) -> wk_pc w' = wk_pc w ->
  handling i s' = handling i s.
Proof.
  intros Hj E Hpc. unfold handling. rewrite E. destruct (decide (i = j)) as [->|Hij].
  - rewrite list_lookup_insert_eq by by eapply lookup_lt_Some. by rewrite Hj, Hpc.
  - by rewrite list_lookup_insert_ne by congruence.
Qed.

Lemma step_not_worker l (s s' : State Conn) :
  step l s = Some s' -> (forall i, l <> LWorker i) ->
  forall i, handling i s' = handling i s /\ handled i (st_log s') = handled i (st_log s).
Proof.
  intros E Hl i. destruct l as [| | |c|c| | |j|j]; [cbn in E..|by exfalso; eapply Hl|].
  - by injection E as <-.
  - destruct (st_accept s); try done. by injection E as <-.
  - destruct (st_accept s); try done. by injection E as <-.
  - destruct (st_accept s); try done. injection E as <-.
    destruct (dispatch_cases c s) as [[Hnil _]|(j & w & _ & _ & Ej & ->)].
    { unfold handling, dispatch_connection. by rewrite !Hnil. }
    destruct (try_send (Connection c) w) as [w'|] eqn:Et;
      (split; [|cbn [st_log]; rewrite handled_app; apply app_nil_r]); [|done].
    apply try_send_spec in Et as (_ & Hpc & _). by eapply handling_same.
  - destruct (st_accept s); try done. by injection E as <-.
  - destruct (st_accept s); try done. by injection E as <-.
  - destruct (st_accept s) as [| |j| | |]; try done.
    destruct (st_workers s !! j) as [w|] eqn:Ew; [|by injection E as <-].
    destruct (try_send Shutdown w) as [w'|] eqn:Et; injection E as <-; [|done].
    split; [|done]. apply try_send_spec in Et as (_ & Hpc & _). by eapply handling_same.
  - apply step_disconnected in E as (w & Hw & Hpc & _ & _ & ->). split; [|done].
    unfold handling. cbn [st_workers]. destruct (decide (i = j)) as [->|Hij].
    + by rewrite list_lookup_insert_eq, Hw, Hpc by (by eapply lookup_lt_Some).
    + by rewrite list_lookup_insert_ne by congruence.
Qed.

Lemma step_changes l (s s' : State Conn) : step l s = Some s' -> forall i, change l s s' i.
Proof.
  intros E i.
  assert (Hl : (exists j, l = LWorker j) \/ forall j, l <> LWorker j)
    by (destruct l; try (by right); left; eauto).
  destruct Hl as [[j ->]|Hl].
  - rewrite step_worker in E. destruct (st_workers s !! j) as [w|] eqn:Ej; cbn in E; [|done].
    destruct (worker_step (st_shutdown s) j w) as [[w' log]|] eqn:Es; cbn in E; [|done].
    injection E as <-. destruct (decide (i = j)) as [->|Hij].
    + assert (Hw : forall a b c, handling j (mkState a b c (<[j:=w']> (st_workers s)) (st_log s ++ log)) =
                 match wk_pc w' with Handling => true | _ => false end).
      { intros. unfold handling. cbn. by rewrite list_lookup_insert_eq by by eapply lookup_lt_Some. }
      assert (Hh : handling j s = match wk_pc w with Handling => true | _ => false end)
        by (unfold handling; by rewrite Ej).
      destruct w as [[] q k]; cbn in Es; [| | |done].
      * injection Es as <- <-. apply change_none; [rewrite Hw, Hh; by destruct (st_shutdown s)| |done].
        cbn [st_log]. by rewrite app_nil_r.
      * destruct q as [|[c|] q]; injection Es as <- <-.
        -- apply change_none; [by rewrite Hw, Hh| |done]. cbn [st_log]. by rewrite app_nil_r.
        -- eapply change_start; [done|done|by rewrite Hw|].
           cbn [st_log]. rewrite handled_app. cbn. by rewrite decide_True.
        -- apply change_none; [by rewrite Hw, Hh| |done]. cbn [st_log]. by rewrite app_nil_r.
      * injection Es as <- <-. apply change_finish; [done|done|by rewrite Hw|].
        cbn [st_log]. by rewrite app_nil_r.
    + apply change_none; [| |congruence].
      * unfold handling. cbn. by rewrite list_lookup_insert_ne by congruence.
      * cbn [st_log]. rewrite handled_app. destruct (worker_step_log _ _ _ _ _ Es) as (_ & Hoth & _).
        destruct (Hoth i Hij) as [_ ->]. apply app_nil_r.
  - destruct (step_not_worker l s s' E Hl i) as [H1' H2].
    apply change_none; [done|done|]. intros E'. by apply Hl in E'.
Qed.

(** ** The invariant *)

(** The ids of the finished connections of worker [i], in order. *)
Definition reported_ids (i : nat) (L : list (nat * Z * list str)) : list Z :=
  omap (fun r => if decide (r.1.1 = i) then Some r.1.2 else None) L.

Lemma reported_ids_app i L K : reported_ids i (L ++ K) = reported_ids i L ++ reported_ids i K.
Proof. apply omap_app. Qed.

(** The complete report of a connection: its events, the close event having the
    end reason, the greeting and the measurements of the way the connection went
    in its own world. *)
Definition complete_report (id : Z) (c : Conn) (l : list str) : Prop :=
  let client := client_name (ctx_config ctx) (cn_addr c) in
  let w := set_out [] (cn_world c) in
  exists reason g w1,
    course random clock_fuel id (cn_tcp c) (cn_tls c) client ctx
      (opened (ctx_sink ctx) id client (cn_tls c) w) reason g w1 /\
    report_of ctx id client (cn_tls c) reason g w w1 l.

Lemma serve_reports id c :
  exists w, serve id c = (Done tt, w) /\ complete_report id c (events (w_out w)).
Proof.
  destruct (connection_report random clock_fuel id (cn_tcp c) (cn_addr c) (cn_tls c) ctx
    (set_out [] (cn_world c)) (cn_clock c)) as (w & reason & g & w1 & l & E & Hc & Hev & Hr & _).
  exists w. split; [exact E|]. cbn in Hev. rewrite Hev. by exists reason, g, w1.
Qed.

Definition finished_ids (i : nat) (S : Service) : Prop :=
  let ids := (handled i (st_log (sv_server S))).*1 in
  if handling i (sv_server S) then exists id, ids = reported_ids i (sv_reports S) ++ [id]
  else ids = reported_ids i (sv_reports S).

Definition service_inv (n : nat) (S : Service) : Prop :=
  reachable n (sv_server S) /\ sv_dead S = [] /\
  (forall i, finished_ids i S) /\
  (forall r, r ∈ sv_reports S -> exists c, Handled r.1.1 r.1.2 c ∈ st_log (sv_server S) /\
     complete_report r.1.2 c r.2).

Lemma service_inv_init n : service_inv n (Service_init n).
Proof.
  split_and!; [constructor|done| |cbn; set_solver]. intros i. unfold finished_ids, handling. cbn.
  destruct (replicate n worker_init !! i) as [w|] eqn:E; [|done].
  by apply lookup_replicate in E as [-> _].
Qed.

Lemma handled_elem i id c (log : list (event Conn)) : (id, c) ∈ handled i log -> Handled i id c ∈ log.
Proof.
  intros (e & He & E)%list_elem_of_omap. destruct e as [| |j id' c']; try done.
  case_decide; [|done]. by simplify_eq.
Qed.

(** A worker that is handling has a last connection. *)
Lemma current_some n S i :
  service_inv n S -> handling i (sv_server S) = true ->
  exists id c, current i (sv_server S) = Some (id, c) /\
    Handled i id c ∈ st_log (sv_server S) /\
    (handled i (st_log (sv_server S))).*1 = reported_ids i (sv_reports S) ++ [id].
Proof.
  intros (_ & _ & Hf & _) Hh. specialize (Hf i). unfold finished_ids in Hf. rewrite Hh in Hf.
  destruct Hf as [id Hf]. unfold current.
  destruct (handled i (st_log (sv_server S))) as [|[id' c] l _] eqn:E using rev_ind.
  { by destruct (reported_ids i (sv_reports S)). }
  rewrite fmap_app in Hf. cbn in Hf. apply app_inj_tail in Hf as [Hl ->].
  exists id, c. rewrite last_snoc, fmap_app. cbn. rewrite Hl. split_and!; [done| |done].
  apply handled_elem. rewrite E. set_solver.
Qed.

(** A step of the server that finishes no connection. *)
Lemma service_inv_quiet n l S s' :
  service_inv n S -> step l (sv_server S) = Some s' ->
  (forall i, l = LWorker i -> handling i (sv_server S) = false) ->
  service_inv n (mkService s' (sv_dead S) (sv_reports S)).
Proof.
  intros (Hr & Hd & Hf & Hrep) E Hq. split_and!; [by econstructor|done| |].
  - intros i. specialize (Hf i). unfold finished_ids in *. cbn [sv_server sv_reports].
    destruct (step_changes l _ _ E i) as [E1 E2 _|x El E1 E2 E3|El E1 _ _].
    + by rewrite E1, E2.
    + rewrite E1 in Hf. rewrite E2, E3, fmap_app, Hf. by exists x.1.
    + by rewrite (Hq i El) in E1.
  - intros r (c & Hc & Hcr)%Hrep. exists c. split; [|done]. cbn.
    destruct (step_log_app _ _ _ E) as [k ->]. apply elem_of_app. by left.
Qed.

Lemma service_inv_finish n i S s' id c w :
  service_inv n S -> step (LWorker i) (sv_server S) = Some s' -> handling i (sv_server S) = true ->
  current i (sv_server S) = Some (id, c) -> complete_report id c (events (w_out w)) ->
  service_inv n (mkService s' (sv_dead S) (sv_reports S ++ [(i, id, events (w_out w))])).
Proof.
  intros Hinv E Hh Hcur Hcr. destruct (current_some n S i Hinv Hh) as (id' & c' & Hcur' & Hin & Hids).
  rewrite Hcur in Hcur'. injection Hcur' as <- <-.
  destruct Hinv as (Hr & Hd & Hf & Hrep). split_and!; [by econstructor|done| |].
  - intros j. specialize (Hf j). unfold finished_ids in *. cbn [sv_server sv_reports].
    rewrite reported_ids_app. cbn [reported_ids omap list_omap fst snd].
    destruct (step_changes _ _ _ E j) as [E1 E2 Hq|x El E1 E2 E3|El E1 E2 E3].
    + destruct (decide (i = j)) as [->|]; [by rewrite Hq in Hh|]. by rewrite app_nil_r, E1, E2.
    + injection El as <-. by rewrite E1 in Hh.
    + injection El as <-. rewrite decide_True, E2, E3 by done. exact Hids.
  - cbn. destruct (step_log_app _ _ _ E) as [k ->].
    intros r [(c1 & Hc & Hcr1)%Hrep| ->%list_elem_of_singleton]%elem_of_app.
    + exists c1. split; [|done]. apply elem_of_app. by left.
    + exists c. split; [|done]. apply elem_of_app. by left.
Qed.

(** The service makes exactly the steps of the server, and keeps the invariant. *)
Lemma service_step_spec n l S :
  service_inv n S ->
  match step l (sv_server S) with
  | Some s' => exists S', service_step l S = Some S' /\ sv_server S' = s' /\ service_inv n S'
  | None => service_step l S = None
  end.
Proof.
  intros Hinv. assert (Hd : sv_dead S = []) by apply Hinv.
  destruct (step l (sv_server S)) as [s'|] eqn:E.
  - assert (Hq : (forall i, l = LWorker i -> handling i (sv_server S) = false) \/
                 exists i, l = LWorker i /\ handling i (sv_server S) = true).
    { destruct l as [| | |c|c| | |i|i]; try (by left).
      destruct (handling i (sv_server S)) eqn:Eh; [right; eauto|left]. by intros j [= <-]. }
    destruct Hq as [Hq|(i & -> & Hh)].
    + exists (mkService s' (sv_dead S) (sv_reports S)). split_and!; [|done|by eapply service_inv_quiet].
      destruct l as [| | |c|c| | |i|i]; cbn [service_step]; rewrite ?E; try done.
      rewrite Hd, bool_decide_false by set_solver. cbn [mbind option_bind]. by rewrite Hq.
    + destruct (current_some n S i Hinv Hh) as (id & c & Hcur & _).
      destruct (serve_reports id c) as (w & Es & Hcr).
      eexists (mkService s' (sv_dead S) (sv_reports S ++ [(i, id, events (w_out w))])).
      split_and!; [|done|by eapply service_inv_finish].
      cbn [service_step]. rewrite Hd, bool_decide_false, E by set_solver.
      cbn [mbind option_bind]. rewrite Hh, Hcur. cbn [mbind option_bind]. by rewrite Es.
  - destruct l as [| | |c|c| | |i|i]; cbn [service_step]; rewrite ?E; try done.
    by destruct (bool_decide _).
Qed.

Lemma service_steps_spec n ls S :
  service_inv n S ->
  match steps ls (sv_server S) with
  | Some s' => exists S', service_steps ls S = Some S' /\ sv_server S' = s' /\ service_inv n S'
  | None => service_steps ls S = None
  end.
Proof.
  revert S. induction ls as [|l ls IH]; intros S Hinv; cbn [steps service_steps]; [by exists S|].
  pose proof (service_step_spec n l S Hinv) as Hs.
  destruct (step l (sv_server S)) as [s1|]; cbn [mbind option_bind]; [|by rewrite Hs].
  destruct Hs as (S1 & -> & <- & Hinv1). by apply IH.
Qed.

(** ** The ids of the reports *)

Lemma reported_ids_elem i id L :
  id ∈ reported_ids i L <-> exists l, (i, id, l) ∈ L.
Proof.
  unfold reported_ids. rewrite list_elem_of_omap. split.
  - intros ([[j id'] l] & Hr & E). cbn in E. case_decide; [|done]. naive_solver.
  - intros [l Hl]. exists (i, id, l). split; [done|]. cbn. by rewrite decide_True.
Qed.

Lemma reports_NoDup L :
  (forall i, NoDup (reported_ids i L)) ->
  (forall r r', r ∈ L -> r' ∈ L -> r.1.2 = r'.1.2 -> r.1.1 = r'.1.1) ->
  NoDup (map (fun r => r.1.2) L).
Proof.
  induction L as [|[[i id] l] L IH]; intros Hi Hw; cbn; [constructor|]. constructor.
  - intros ([[j id'] l'] & -> & Hr)%list_elem_of_fmap.
    assert (E : i = j) by exact (Hw (i, id', l) (j, id', l') ltac:(set_solver) ltac:(set_solver) eq_refl).
    subst j. specialize (Hi i). cbn in Hi. rewrite decide_True in Hi by done.
    apply NoDup_cons in Hi as [Hi _]. apply Hi, reported_ids_elem. by exists l'.
  - apply IH; [|intros; apply Hw; set_solver].
    intros j. specialize (Hi j). cbn in Hi. case_decide; [by apply NoDup_cons in Hi as [_ ?]|done].
Qed.

(** The bounds under which connection ids do not repeat. *)
Definition ids_fit (n : nat) (s : State Conn) : Prop :=
  Z.of_nat n * CONN_ID_STRIDE < 2 ^ 64 /\
  forall i, len (handled i (st_log s)) <= CONN_ID_STRIDE.

Lemma worker_ids_fit n i :
  Z.of_nat n * CONN_ID_STRIDE < 2 ^ 64 -> (i < n)%nat ->
  0 <= Z.of_nat i * CONN_ID_STRIDE + CONN_ID_STRIDE < 2 ^ 64.
Proof. unfold CONN_ID_STRIDE. lia. Qed.

Lemma worker_ids_NoDup n s i :
  reachable n s -> ids_fit n s -> NoDup (handled i (st_log s)).*1.
Proof.
  intros Hr [Hn Hb]. destruct (handled i (st_log s)) as [|[id c] l] eqn:E; [constructor|].
  rewrite <- E. assert (Hin : (id, c) ∈ handled i (st_log s)) by (rewrite E; set_solver).
  apply handled_elem in Hin. destruct (handled_id n s i id c Hr Hin) as [Hi _].
  destruct (server_inv_reachable n s Hr) as (Hlen & Hw & _).
  destruct (lookup_lt_is_Some_2 (st_workers s) i) as [w Hwi]; [lia|].
  destruct (Hw i w Hwi) as (_ & _ & [-> _]). specialize (Hb i).
  apply NoDup_fmap_2_strong; [|apply NoDup_seq].
  intros x y Hx%elem_of_seq Hy%elem_of_seq Exy.
  apply (conn_id_inj i i) in Exy as [_ ?]; [lia|by eapply worker_ids_fit..| |]; lia.
Qed.

Lemma finished_prefix i S :
  finished_ids i S -> reported_ids i (sv_reports S) `prefix_of` (handled i (st_log (sv_server S))).*1.
Proof.
  unfold finished_ids. destruct (handling _ _); [intros [id ->]; by eexists|intros ->; done].
Qed.

Lemma reports_unique n S :
  service_inv n S -> ids_fit n (sv_server S) -> NoDup (map (fun r => r.1.2) (sv_reports S)).
Proof.
  intros (Hr & _ & Hf & Hrep) Hfit. apply reports_NoDup.
  - intros i. destruct (finished_prefix i S (Hf i)) as [k Hk].
    pose proof (worker_ids_NoDup n _ i Hr Hfit) as Hnd. rewrite Hk in Hnd.
    by apply NoDup_app in Hnd as [? _].
  - intros r r' (c & Hc & _)%Hrep (c' & Hc' & _)%Hrep E. destruct Hfit as [Hn Hb].
    destruct (handled_id n _ _ _ _ Hr Hc) as (Hi & k & Hk & Ek).
    destruct (handled_id n _ _ _ _ Hr Hc') as (Hj & m & Hm & Em).
    pose proof (Hb r.1.1). pose proof (Hb r'.1.1). rewrite Ek, Em in E.
    apply (conn_id_inj r.1.1 r'.1.1) in E as [? _]; [done|by eapply worker_ids_fit..| |]; lia.
Qed.

(** A handled connection is finished, and then reported, or it is the one its
    worker is in [handle_connection] with. *)
Lemma handled_accounted n S i id c :
  service_inv n S -> Handled i id c ∈ st_log (sv_server S) ->
  (exists l, (i, id, l) ∈ sv_reports S) \/
  (handling i (sv_server S) = true /\ exists c', current i (sv_server S) = Some (id, c')).
Proof.
  intros Hinv He. assert (Hin : id ∈ (handled i (st_log (sv_server S))).*1)
    by (apply conn_ids_handled; eauto).
  destruct (handling i (sv_server S)) eqn:Eh.
  - destruct (current_some n S i Hinv Eh) as (id' & c' & Hcur & _ & Hids).
    rewrite Hids in Hin. apply elem_of_app in Hin as [Hin| ->%list_elem_of_singleton].
    + left. by apply reported_ids_elem.
    + right. eauto.
  - left. destruct Hinv as (_ & _ & Hf & _). specialize (Hf i). unfold finished_ids in Hf.
    rewrite Eh in Hf. rewrite Hf in Hin. by apply reported_ids_elem.
Qed.

(** C9: The running service refines the server: composed with what each
    connection really does on its client and its environment (in which the clock
    advances), every run of accept loop and workers is still possible exactly as
    it was, and no worker thread ever dies in a connection. Every report the
    collector gets of a finished connection is complete: it is the one of a
    connection that the worker handled under this id, and its connect, auth and
    close events say how that connection went ([course]) -- which greeting, which
    end reason, which statistics. Every handled connection is reported, or is the
    one its worker is handling now; and as long as no worker has handled more than
    100000 connections (and all ids fit into 64 bits) no two reports have the same id. *)
Theorem service_runs n ls :
  sv_server <$> service_steps ls (Service_init n) = steps ls (Server_init n) /\
  forall S, service_steps ls (Service_init n) = Some S ->
    sv_dead S = [] /\
    (forall i id l, (i, id, l) ∈ sv_reports S ->
       exists c, Handled i id c ∈ st_log (sv_server S) /\ complete_report id c l) /\
    (forall i id c, Handled i id c ∈ st_log (sv_server S) ->
       (exists l, (i, id, l) ∈ sv_reports S) \/
       (handling i (sv_server S) = true /\ exists c', current i (sv_server S) = Some (id, c'))) /\
    (ids_fit n (sv_server S) -> NoDup (map (fun r => r.1.2) (sv_reports S))).
Proof.
  pose proof (service_steps_spec n ls (Service_init n) (service_inv_init n)) as Hs.
  change (sv_server (Service_init n)) with (Server_init (C := Conn) n) in Hs.
  destruct (steps ls (Server_init n)) as [s'|]; [|by rewrite Hs].
  destruct Hs as (S' & -> & <- & Hinv). split; [done|]. intros S [= <-].
  split_and!; [apply Hinv| | |by apply reports_unique].
  - intros i id l Hr. by apply (proj2 (proj2 (proj2 Hinv)) (i, id, l)).
  - intros i id c. by apply (handled_accounted n).
Qed.
End service.

(** ** A concrete run *)

#[local] Existing Instance toy_crypto.
#[local] Existing Instance ref_serde.
#[local] Existing Instance build_1_9.

Definition conn_a : Conn 3 := mkConn 3 tcp_a (SocketAddr_new ip_a 40000) false session_world slow_clock_advances.

(** Two workers; two connections; the first one finishes, the second is being
    handled. *)
Definition short_run : list (step_label (Conn 3)) :=
  [LPoll; LAccept conn_a; LAccept conn_a; LWorker 0; LWorker 0; LWorker 1; LWorker 1; LWorker 0].

#[local] Notation short_result :=
  (service_steps (fun _ => Byte.x2a) 3 ctx_a short_run (Service_init 3 2)).

Lemma handled_length {C} i (log : list (event C)) : (length (handled i log) <= length log)%nat.
Proof.
  unfold handled. induction log as [|e log IH]; [done|]. cbn [omap list_omap length].
  destruct e as [| |j id c]; [lia..|]. case_decide; cbn [length]; lia.
Qed.

Lemma short_run_computed :
  (fun S => (map fst (sv_reports 3 S), length (st_log (sv_server 3 S)), handling 3 1 (sv_server 3 S)))
    <$> short_result = Some ([(0%nat, 1)], 4%nat, true).
Proof. vm_compute. reflexivity. Qed.

Lemma service_runs_witness :
  exists S, short_result = Some S /\ sv_dead 3 S = [] /\ map fst (sv_reports 3 S) = [(0%nat, 1)] /\
    NoDup (map (fun r => r.1.2) (sv_reports 3 S)) /\
    handling 3 1 (sv_server 3 S) = true.
Proof.
  destruct (fmap_Some_1 _ _ _ short_run_computed) as (S & ES & E).
  destruct (proj2 (service_runs (fun _ => Byte.x2a) 3 ctx_a 2 short_run) S ES) as (Hd & _ & _ & Hu).
  injection E as E1 E2 E3. exists S. split_and!; [done..| |done].
  apply Hu. split; [reflexivity|]. intros i. pose proof (handled_length i (st_log (sv_server 3 S))).
  unfold CONN_ID_STRIDE. lia.
Defined.
