(* ===== verification/Liveness.v ===== *)
(** * The server makes progress

    Under a fair schedule every queued connection is handled, and after the
    shutdown flag is set the accept loop returns and every worker stops. A thread
    that is scheduled while it cannot go on waits; that handling a connection ends
    is shown in [ConnectionFacts]. *)

From S2P Require Import Prelude RustStr Net Config Stats Io Events Connection Server ServerFacts.

Section liveness.
Context {C : Type}.
Implicit Types (w : Worker C) (s : State C).

(** ** Schedules *)

(** One turn: a step that is not possible is waited for. *)
Definition turn (l : step_label C) s : State C := default s (step l s).

(** The state after [k] turns. *)
Fixpoint run (sched : nat -> step_label C) (k : nat) s : State C :=
  match k with
  | O => s
  | S k' => turn (sched k') (run sched k' s)
  end.

(** Every thread gets its turn again and again: each worker, and each kind of
    step of the accept loop that is not the arrival of a connection. *)
Definition fair (n : nat) (sched : nat -> step_label C) : Prop :=
  forall l, (l = LPoll \/ l = LDrained \/ l = LSignal \/ exists i, (i < n)%nat /\ l = LWorker i) ->
  forall k, exists k', (k <= k')%nat /\ sched k' = l.

Lemma turn_reachable n l s : reachable n s -> reachable n (turn l s).
Proof. unfold turn. destruct (step l s) eqn:E; [|done]. intros H. by econstructor. Qed.

Lemma run_reachable n sched k s : reachable n s -> reachable n (run sched k s).
Proof. intros H. induction k as [|k IH]; [done|]. by apply turn_reachable. Qed.

(** ** Measures *)

Section measure.
Context (sched : nat -> step_label C) (s : State C) (P : State C -> Prop).
Context (HP : P s) (Hstep : forall k x, P x -> P (turn (sched k) x)).

Lemma run_inv k : P (run sched k s).
Proof. induction k; [done|]. by apply Hstep. Qed.

Lemma run_decreasing (m : State C -> nat) (Hm : forall k x, P x -> (m (turn (sched k) x) <= m x)%nat) k k' :
  (k <= k')%nat -> (m (run sched k' s) <= m (run sched k s))%nat.
Proof.
  induction 1 as [|k' _ IH]; [done|]. cbn [run]. etrans; [apply Hm, run_inv|exact IH].
Qed.

(** A measure that is decreased by some turn to come, as long as it is positive,
    becomes zero. *)
Lemma measure_vanishes (m : State C -> nat)
    (Hdec : forall k, m (run sched k s) <> 0%nat ->
       exists k', (k <= k')%nat /\ (m (run sched k' s) < m (run sched k s))%nat) :
  forall k, exists k', (k <= k')%nat /\ m (run sched k' s) = 0%nat.
Proof.
  intros k. remember (m (run sched k s)) as x eqn:Ex. revert k Ex.
  induction x as [x IH] using (well_founded_induction lt_wf). intros k ->.
  destruct (decide (m (run sched k s) = 0%nat)) as [E|E]; [by exists k|].
  destruct (Hdec k E) as (k1 & Hk1 & Hlt).
  destruct (IH _ Hlt k1 eq_refl) as (k2 & Hk2 & E2). exists k2. split; [lia|done].
Qed.
End measure.

(** ** Shutdown *)

(** How many of its own steps a worker is away from its end, once the flag is
    set. *)
Definition to_stop w : nat :=
  match wk_pc w with Stopped => 0 | AtCheck => 1 | Handling => 2 | AtRecv => 3 end.

Definition worker_left (i : nat) s : nat :=
  match st_workers s !! i with Some w => to_stop w | None => 0 end.

(** The same for the accept loop, with [n] workers to signal. *)
Definition accept_left (n : nat) s : nat :=
  match st_accept s with
  | Draining => n + 3
  | Polling => n + 2
  | Signalling i => (n - i) + 1
  | Returned | AcceptFailed | AcceptPanicked => 0
  end.

Definition closing (n : nat) s : Prop := reachable n s /\ st_shutdown s = true.

Lemma step_flag l s s' : st_shutdown s = true -> step l s = Some s' -> st_shutdown s' = true.
Proof. intros Hd E. by apply (step_shutdown l s s' 0). Qed.

Lemma closing_turn n l s : closing n s -> closing n (turn l s).
Proof.
  intros [Hr Hd]. split; [by apply turn_reachable|]. unfold turn.
  destruct (step l s) eqn:E; [|done]. by eapply step_flag.
Qed.

Lemma worker_step_left i w w' log :
  worker_step true i w = Some (w', log) -> (to_stop w' < to_stop w)%nat.
Proof. destruct w as [[] [|[] q] k]; cbn; intros E; simplify_eq; cbn; lia. Qed.

Lemma worker_step_some sh i w : wk_pc w <> Stopped -> exists r, worker_step sh i w = Some r.
Proof. destruct w as [[] [|[] q] k]; cbn; try done; eauto. Qed.

(** Nobody takes a worker further from its end. *)
Lemma worker_left_same i j w w' s s' :
  st_workers s !! j = Some w -> st_workers s' = <[j := w']> (st_workers s) ->
  to_stop w' = to_stop w -> worker_left i s' = worker_left i s.
Proof.
  intros Hj Ew Hw. unfold worker_left. rewrite Ew. destruct (decide (j = i)) as [->|Hne].
  - by rewrite list_lookup_insert_eq, Hj by (by eapply lookup_lt_Some).
  - by rewrite list_lookup_insert_ne.
Qed.

Lemma worker_left_step i l s s' :
  st_shutdown s = true -> step l s = Some s' -> (worker_left i s' <= worker_left i s)%nat.
Proof.
  intros Hd [E _ _ _|j w w' Ej Et E _ _ _|c -> _|j w w' log Ej Es ->|j w Ej _ _ _ ->]%step_shape.
  - unfold worker_left. by rewrite E.
  - rewrite (worker_left_same i j w w' s); [done|done|done|].
    apply try_send_spec in Et as (_ & Hpc & _). unfold to_stop. by rewrite Hpc.
  - destruct (dispatch_cases c s) as [[Hnil _]|(j & w & _ & _ & Ej & E)].
    + unfold dispatch_connection, worker_left. by rewrite Hnil.
    + rewrite E. destruct (try_send (Connection c) w) as [w'|] eqn:Et; [|done].
      rewrite (worker_left_same i j w w' s); [done|done|done|].
      apply try_send_spec in Et as (_ & Hpc & _). unfold to_stop. by rewrite Hpc.
  - rewrite Hd in Es. apply worker_step_left in Es. unfold worker_left. cbn [st_workers].
    destruct (decide (j = i)) as [->|Hne]; [|by rewrite list_lookup_insert_ne].
    rewrite list_lookup_insert_eq, Ej by (by eapply lookup_lt_Some). lia.
  - unfold worker_left. cbn [st_workers].
    destruct (decide (j = i)) as [->|Hne]; [|by rewrite list_lookup_insert_ne].
    rewrite list_lookup_insert_eq by (by eapply lookup_lt_Some). cbn. lia.
Qed.

Lemma worker_left_own i s :
  st_shutdown s = true -> worker_left i s <> 0%nat ->
  (worker_left i (turn (LWorker i) s) < worker_left i s)%nat.
Proof.
  unfold worker_left at 1 3, turn. intros Hd Hne. rewrite step_worker.
  destruct (st_workers s !! i) as [w|] eqn:Ew; [|done]. cbn [mbind option_bind].
  destruct (worker_step_some (st_shutdown s) i w) as ([w' log] & Es);
    [intros Hpc; apply Hne; unfold to_stop; by rewrite Hpc|].
  rewrite Es. cbn [mbind option_bind from_option id]. unfold worker_left. cbn [st_workers].
  rewrite list_lookup_insert_eq by (by eapply lookup_lt_Some).
  rewrite Hd in Es. by eapply worker_step_left.
Qed.

(** The accept loop leaves its state by its own steps only. *)
Lemma accept_left_step n l s s' :
  st_shutdown s = true -> length (st_workers s) = n -> step l s = Some s' ->
  st_accept s' = st_accept s \/ (accept_left n s' < accept_left n s)%nat.
Proof.
  intros Hd Hn E. destruct l as [| | |c|c| | |i|i]; [cbn in E..| |].
  - injection E as <-. by left.
  - destruct (st_accept s) eqn:Ea; try done. injection E as <-. right.
    unfold accept_left. rewrite Ea, Hd. cbn. lia.
  - destruct (st_accept s) eqn:Ea; try done. injection E as <-. right.
    unfold accept_left. rewrite Ea. cbn. lia.
  - destruct (st_accept s) eqn:Ea; try done. injection E as <-.
    destruct (dispatch_cases c s) as [[Hnil Hp]|(j & w & _ & _ & _ & ->)].
    + right. unfold accept_left. rewrite Ea, Hp. lia.
    + left. destruct (try_send _ _); by cbn.
  - destruct (st_accept s) eqn:Ea; try done. injection E as <-. by left.
  - destruct (st_accept s) eqn:Ea; try done. injection E as <-. right.
    unfold accept_left. rewrite Ea. cbn. lia.
  - destruct (st_accept s) as [| |i| | |] eqn:Ea; try done. right. unfold accept_left. rewrite Ea.
    destruct (st_workers s !! i) as [w|] eqn:Ew; injection E as <-; cbn; [|lia].
    apply lookup_lt_Some in Ew. lia.
  - rewrite step_worker in E. destruct (st_workers s !! i); cbn in E; [|done].
    destruct (worker_step _ _ _) as [[? ?]|]; cbn in E; [|done]. injection E as <-. by left.
  - apply step_disconnected in E as (w & _ & _ & _ & _ & ->). by left.
Qed.

(** The step the accept loop waits for. *)
Definition accept_label s : step_label C :=
  match st_accept s with
  | Draining => LDrained
  | Polling => LPoll
  | _ => LSignal
  end.

Lemma accept_left_own n s :
  st_shutdown s = true -> length (st_workers s) = n -> accept_left n s <> 0%nat ->
  (accept_left n (turn (accept_label s) s) < accept_left n s)%nat.
Proof.
  intros Hd Hn Hne. unfold turn, accept_label, accept_left in *.
  destruct (st_accept s) as [| |i| | |] eqn:Ea; try done; cbn; rewrite Ea; cbn.
  - rewrite Hd. cbn. lia.
  - lia.
  - destruct (st_workers s !! i) as [w|] eqn:Ew; cbn; [|lia].
    apply lookup_lt_Some in Ew. lia.
Qed.

Section shutdown.
Context (n : nat) (sched : nat -> step_label C) (s : State C).
Context (Hs : closing n s) (Hfair : fair n sched).

Abbreviation now k := (run sched k s).

Lemma closing_now k : closing n (now k).
Proof. apply (run_inv sched s (closing n)); [done|]. intros. by apply closing_turn. Qed.

Lemma closing_workers x : closing n x -> length (st_workers x) = n.
Proof. intros [Hr _]. by apply server_inv_reachable in Hr as (? & _). Qed.

Lemma worker_left_turn i l x : closing n x -> (worker_left i (turn l x) <= worker_left i x)%nat.
Proof.
  intros [_ Hd]. unfold turn. destruct (step l x) eqn:E; [|done]. by eapply worker_left_step.
Qed.

Lemma worker_left_le i k k' :
  (k <= k')%nat -> (worker_left i (now k') <= worker_left i (now k))%nat.
Proof.
  apply (run_decreasing sched s (closing n) Hs); intros; [by apply closing_turn|by apply worker_left_turn].
Qed.

Lemma worker_left_vanishes i : (i < n)%nat -> exists k, worker_left i (now k) = 0%nat.
Proof.
  intros Hi. enough (Hv : forall k, exists k', (k <= k')%nat /\ worker_left i (now k') = 0%nat)
    by (destruct (Hv 0%nat) as (k & _ & Ek); by exists k).
  apply (measure_vanishes sched s).
  intros k Hk. destruct (Hfair (LWorker i) ltac:(naive_solver) k) as (k' & Hle & El).
  pose proof (worker_left_le i k k' Hle).
  exists (S k'). split; [lia|]. cbn [run]. rewrite El.
  destruct (decide (worker_left i (now k') = 0%nat)) as [E|E].
  - pose proof (worker_left_turn i (LWorker i) (now k') (closing_now k')). lia.
  - pose proof (worker_left_own i (now k') ltac:(apply closing_now) E). lia.
Qed.

Lemma accept_left_turn l x : closing n x ->
  st_accept (turn l x) = st_accept x \/ (accept_left n (turn l x) < accept_left n x)%nat.
Proof.
  intros H. pose proof (closing_workers x H). unfold turn.
  destruct (step l x) eqn:E; [|by left]. destruct H. by eapply accept_left_step.
Qed.

Lemma accept_left_le l x : closing n x -> (accept_left n (turn l x) <= accept_left n x)%nat.
Proof. intros [E|E]%(accept_left_turn l); [|lia]. unfold accept_left. by rewrite E. Qed.

(** The accept loop stays where it is until it gets its turn. *)
Lemma accept_waits k k' : (k <= k')%nat ->
  st_accept (now k') = st_accept (now k) \/ (accept_left n (now k') < accept_left n (now k))%nat.
Proof.
  induction 1 as [|k' _ IH]; [by left|]. cbn [run].
  pose proof (accept_left_le (sched k') (now k') (closing_now k')).
  destruct (accept_left_turn (sched k') (now k') (closing_now k')) as [E|E], IH as [IH|IH];
    try (right; lia); [left; congruence|].
  right. unfold accept_left at 2. rewrite <- IH. exact E.
Qed.

Lemma accept_left_vanishes : exists k, accept_left n (now k) = 0%nat.
Proof.
  enough (Hv : forall k, exists k', (k <= k')%nat /\ accept_left n (now k') = 0%nat)
    by (destruct (Hv 0%nat) as (k & _ & Ek); by exists k).
  apply (measure_vanishes sched s).
  intros k Hk. destruct (Hfair (accept_label (now k))) with (k := k) as (k' & Hle & El).
  { unfold accept_label. destruct (st_accept (now k)); auto. }
  destruct (accept_waits k k' Hle) as [E|E]; [|by exists k'].
  exists (S k'). split; [lia|]. cbn [run]. rewrite El.
  replace (accept_label (now k)) with (accept_label (now k')) by (unfold accept_label; by rewrite E).
  replace (accept_left n (now k)) with (accept_left n (now k')) in *
    by (unfold accept_left; by rewrite E).
  pose proof (closing_now k'). apply accept_left_own; [by destruct H|by apply closing_workers|done].
Qed.

(** Workers that have stopped stay so. *)
Lemma all_workers_stop m : (m <= n)%nat ->
  exists k, forall i, (i < m)%nat -> worker_left i (now k) = 0%nat.
Proof.
  induction m as [|m IH]; intros Hm; [by exists 0%nat; lia|].
  destruct IH as [k1 H1]; [lia|]. destruct (worker_left_vanishes m) as [k2 H2]; [lia|].
  exists (k1 `max` k2)%nat. intros i Hi.
  destruct (decide (i = m)) as [->|Hne].
  - pose proof (worker_left_le m k2 (k1 `max` k2)). lia.
  - pose proof (worker_left_le i k1 (k1 `max` k2)). specialize (H1 i). lia.
Qed.
End shutdown.

(** C12: shutdown completes: once the flag of a server with at least one worker is
    set, under every fair schedule the accept loop ends after finitely many steps
    (it returns [Ok], or the error of a [poll] that failed), and so does every worker thread that the process lets
    run on, whatever connections still arrive and whatever is queued. *)
Theorem shutdown_completes n sched s
    (Hs : reachable n s) (Hn : (0 < n)%nat) (Hd : st_shutdown s = true) (Hfair : fair n sched) :
  exists k, forall k', (k <= k')%nat ->
    (st_accept (run sched k' s) = Returned \/ st_accept (run sched k' s) = AcceptFailed) /\
    Forall (fun w => wk_pc w = Stopped) (st_workers (run sched k' s)).
Proof.
  assert (Hc : closing n s) by done.
  destruct (accept_left_vanishes n sched s Hc Hfair) as [k1 H1].
  destruct (all_workers_stop n sched s Hc Hfair n ltac:(done)) as [k2 H2].
  exists (k1 `max` k2)%nat. intros k' Hk'.
  pose proof (closing_now n sched s Hc k') as Hc'. split.
  - assert (H : (accept_left n (run sched k' s) <= accept_left n (run sched k1 s))%nat).
    { apply (run_decreasing sched s (closing n) Hc); [| |lia]; intros;
        [by apply closing_turn|by apply accept_left_le]. }
    rewrite H1 in H. unfold accept_left in H.
    pose proof (reachable_not_panicked n _ Hn ltac:(apply Hc')).
    destruct (st_accept (run sched k' s)); auto; done || lia.
  - apply Forall_lookup. intros i w Hw. assert (Hi : (i < n)%nat).
    { rewrite <- (closing_workers n _ Hc'). by eapply lookup_lt_Some. }
    pose proof (worker_left_le n sched s Hc i k2 k' ltac:(lia)) as H.
    rewrite H2 in H by done. unfold worker_left in H. rewrite Hw in H.
    unfold to_stop in H. destruct (wk_pc w); done || lia.
Qed.

(** ** Serving *)

(** While the flag is not set and the accept loop has not failed, no worker is
    told to stop. *)
Definition serving s : Prop :=
  st_shutdown s = false /\ server_gone s = false /\ (forall i, st_accept s <> Signalling i) /\
  forall i w, st_workers s !! i = Some w -> wk_pc w <> Stopped /\ Shutdown ∉ wk_queue w.

Lemma serving_insert (l : list (Worker C)) i w :
  (forall j x, l !! j = Some x -> wk_pc x <> Stopped /\ Shutdown ∉ wk_queue x) ->
  wk_pc w <> Stopped /\ Shutdown ∉ wk_queue w ->
  forall j x, <[i := w]> l !! j = Some x -> wk_pc x <> Stopped /\ Shutdown ∉ wk_queue x.
Proof. intros Hl Hw j x [(-> & -> & _)|[_ Hx]]%lookup_update; [done|by eapply Hl]. Qed.

Lemma serving_step l s s' :
  l <> LFlag -> l <> LPollError -> serving s -> step l s = Some s' -> serving s'.
Proof.
  intros Hl Hl' (Hd & Hg & Ha & Hw) E.
  destruct l as [| | |c|c| | |i|i]; [done|cbn in E|done|cbn in E..| |].
  - destruct (st_accept s); try done. injection E as <-. cbn. rewrite Hd. by split_and!.
  - destruct (st_accept s) eqn:Ea; try done. injection E as <-.
    destruct (dispatch_cases c s) as [[Hnil _]|(j & w & _ & _ & Ej & ->)].
    { unfold dispatch_connection. rewrite Hnil. by cbn; split_and!. }
    destruct (try_send (Connection c) w) as [w'|] eqn:Et;
      (split_and!; [done|unfold server_gone; cbn; by rewrite Ea|cbn; by rewrite Ea|]); [|done].
    apply serving_insert; [done|]. apply try_send_spec in Et as (? & -> & -> & _).
    destruct (Hw j w Ej). split; [done|]. by rewrite elem_of_app, list_elem_of_singleton; intros [|].
  - assert (s' = s) as -> by (destruct (st_accept s); by simplify_eq). by split_and!.
  - destruct (st_accept s); try done. injection E as <-. by split_and!.
  - destruct (st_accept s); try done. by destruct (Ha i).
  - rewrite step_worker in E. destruct (st_workers s !! i) as [w|] eqn:Ei; cbn in E; [|done].
    destruct (Hw i w Ei) as [Hpc Hq].
    destruct (worker_step (st_shutdown s) i w) as [[w' log]|] eqn:Es; cbn in E; [|done].
    injection E as <-. rewrite Hd in Es. split_and!; [done|done|done|].
    apply serving_insert; [done|]. destruct w as [[] [|[] q] k]; cbn in *; simplify_eq;
      try (by destruct Hq; left); (split; [done|]); try done; intros Hin; apply Hq; by right.
  - apply step_disconnected in E as (w & _ & _ & _ & Hg' & _). congruence.
Qed.

(** Once the accept loop has ended it stays so. *)
Lemma gone_step l s s' : server_gone s = true -> step l s = Some s' -> server_gone s' = true.
Proof.
  unfold server_gone. intros Hg E. destruct l as [| | |c|c| | |i|i]; [cbn in E..| |].
  - by injection E as <-.
  - by destruct (st_accept s).
  - by destruct (st_accept s).
  - by destruct (st_accept s).
  - by destruct (st_accept s).
  - by destruct (st_accept s).
  - by destruct (st_accept s).
  - rewrite step_worker in E. destruct (st_workers s !! i); cbn in E; [|done].
    destruct (worker_step _ _ _) as [[? ?]|]; cbn in E; [|done]. by injection E as <-.
  - by apply step_disconnected in E as (w & _ & _ & _ & _ & ->).
Qed.

Lemma serving_reachable n s :
  reachable n s -> st_shutdown s = false -> server_gone s = false -> serving s.
Proof.
  induction 1 as [|l s s' Hr IH E]; intros Hd Hg.
  - split_and!; [done..|]. intros i w [-> _]%lookup_replicate. split; [done|apply not_elem_of_nil].
  - destruct (st_shutdown s) eqn:Hd1; [by rewrite (step_flag l s s') in Hd|].
    destruct (server_gone s) eqn:Hg1; [by rewrite (gone_step l s s') in Hg|].
    apply (serving_step l s s'); [| |auto|done].
    + intros ->. cbn in E. by injection E as <-.
    + intros ->. cbn in E. destruct (st_accept s); try done. by injection E as <-.
Qed.

Definition listening s : Prop := st_accept s = Polling \/ st_accept s = Draining.

(** Only the flag, or a [poll] that fails, ends the accept loop. *)
Lemma listening_step n l s s' :
  (0 < n)%nat -> reachable n s -> st_shutdown s = false -> l <> LPollError ->
  listening s -> step l s = Some s' -> listening s'.
Proof.
  unfold listening. intros Hn Hr Hd Hl Ha E.
  pose proof (server_inv_reachable n s Hr) as (Hlen & _).
  destruct l as [| | |c|c| | |i|i]; [cbn in E..| |].
  - by injection E as <-.
  - destruct (st_accept s); try done. injection E as <-. cbn. rewrite Hd. by right.
  - done.
  - destruct (st_accept s) eqn:Ea; try done. injection E as <-.
    destruct (dispatch_cases c s) as [[Hnil _]|(j & w & _ & _ & Ej & ->)].
    { rewrite Hnil in Hlen. cbn in Hlen. lia. }
    right. by destruct (try_send (Connection c) w); cbn.
  - destruct (st_accept s) eqn:Ea; try done. injection E as <-. by right.
  - destruct (st_accept s); try done. injection E as <-. by left.
  - by destruct Ha as [E' |E']; rewrite E' in E.
  - rewrite step_worker in E. destruct (st_workers s !! i); cbn in E; [|done].
    destruct (worker_step _ _ _) as [[? ?]|]; cbn in E; [|done]. by injection E as <-.
  - by apply step_disconnected in E as (w & _ & _ & _ & _ & ->).
Qed.

(** How many steps worker [i] needs to handle [m] connections in all. *)
Definition served_left (i m : nat) s : nat :=
  match st_workers s !! i with
  | Some w =>
      match (m - length (handled i (st_log s)))%nat with
      | O => 0
      | r => 3 * r + match wk_pc w with Handling => 3 | AtCheck => 2 | _ => 1 end
      end
  | None => 0
  end.

(** A worker handles connections in its own steps only. *)
Lemma worker_undisturbed i l s s' :
  l <> LWorker i -> server_gone s = false -> step l s = Some s' ->
  handled i (st_log s') = handled i (st_log s) /\
  wk_pc <$> st_workers s' !! i = wk_pc <$> st_workers s !! i.
Proof.
  intros Hl Hg E. destruct l as [| | |c|c| | |j|j]; [cbn in E..| |].
  - by injection E as <-.
  - destruct (st_accept s); try done. by injection E as <-.
  - destruct (st_accept s); try done. by injection E as <-.
  - destruct (st_accept s); try done. injection E as <-.
    destruct (dispatch_cases c s) as [[Hnil _]|(j & w & _ & _ & Ej & ->)].
    { unfold dispatch_connection. rewrite Hnil. by cbn; rewrite ?Hnil. }
    destruct (try_send (Connection c) w) as [w'|] eqn:Et; cbn [st_log st_workers];
      rewrite handled_app; cbn [handled omap list_omap]; rewrite app_nil_r; (split; [done|]); [|done].
    apply try_send_spec in Et as (_ & Hpc & _). destruct (decide (j = i)) as [->|Hne].
    + rewrite list_lookup_insert_eq, Ej by (by eapply lookup_lt_Some). cbn. by rewrite Hpc.
    + by rewrite list_lookup_insert_ne.
  - destruct (st_accept s); try done. by injection E as <-.
  - destruct (st_accept s); try done. by injection E as <-.
  - destruct (st_accept s) as [| |j| | |]; try done.
    destruct (st_workers s !! j) as [w|] eqn:Ej; injection E as <-; [|done]. cbn. split; [done|].
    destruct (try_send Shutdown w) as [w'|] eqn:Et; [|done].
    apply try_send_spec in Et as (_ & Hpc & _). destruct (decide (j = i)) as [->|Hne].
    + rewrite list_lookup_insert_eq, Ej by (by eapply lookup_lt_Some). cbn. by rewrite Hpc.
    + by rewrite list_lookup_insert_ne.
  - rewrite step_worker in E. destruct (st_workers s !! j) as [w|] eqn:Ej; cbn in E; [|done].
    destruct (worker_step _ _ _) as [[w' log]|] eqn:Es; cbn in E; [|done]. injection E as <-.
    cbn [st_log st_workers]. assert (Hne : j <> i) by congruence. apply worker_step_log in Es as (_ & Ho & _).
    rewrite handled_app. destruct (Ho i) as [_ ->]; [congruence|].
    by rewrite app_nil_r, list_lookup_insert_ne.
  - apply step_disconnected in E as (w & _ & _ & _ & Hg' & _). congruence.
Qed.

(** Its own steps bring it closer to the connections that wait for it. *)
Lemma served_left_own n i m s :
  reachable n s -> serving s -> (m <= length (enqueued i (st_log s)))%nat ->
  (served_left i m (turn (LWorker i) s) <= pred (served_left i m s))%nat.
Proof.
  intros Hr (Hd & _ & _ & Hw) Hm. pose proof (server_inv_reachable n s Hr) as (_ & Hinv & _).
  unfold turn. rewrite step_worker. unfold served_left at 2.
  destruct (st_workers s !! i) as [w|] eqn:Ew; [|unfold served_left; cbn; by rewrite Ew].
  destruct (Hw i w Ew) as [Hpc Hq]. destruct (Hinv i w Ew) as (_ & (rest & He & Hrest) & _).
  specialize (Hrest Hpc). apply (f_equal length) in He. rewrite length_app, length_fmap in He.
  destruct (worker_step_some (st_shutdown s) i w Hpc) as ([w' log] & Es).
  cbn [mbind option_bind]. rewrite Es. cbn [mbind option_bind from_option id].
  unfold served_left. cbn [st_workers st_log].
  rewrite list_lookup_insert_eq, handled_app, length_app by (by eapply lookup_lt_Some).
  rewrite Nat.sub_add_distr. rewrite Hd in Es.
  destruct w as [[] [|[c|] q] k]; cbn in Es, Hpc, Hq, Hrest; simplify_eq/=; rewrite ?decide_True by done; cbn.
  all: try (by destruct Hq; left).
  all: destruct (m - length (handled i (st_log s)))%nat as [|[|r]] eqn:Er; cbn; lia.
Qed.

Lemma served_left_other i m l x :
  l <> LWorker i -> server_gone x = false -> served_left i m (turn l x) = served_left i m x.
Proof.
  intros Hl Hg. unfold turn. destruct (step l x) as [x'|] eqn:E; [|done]. cbn.
  destruct (worker_undisturbed i l x x' Hl Hg E) as [Hh Hpc]. unfold served_left. rewrite Hh.
  destruct (st_workers x' !! i), (st_workers x !! i); simplify_eq/=; [|done].
  by rewrite Hpc.
Qed.

Section serve.
Context (n : nat) (sched : nat -> step_label C) (s : State C).
Context (Hs : reachable n s) (Hd : st_shutdown s = false).
Context (Hn : (0 < n)%nat) (Ha : listening s).
Context (Hfair : fair n sched) (Hopen : forall k, sched k <> LFlag /\ sched k <> LPollError).

Lemma serving_run k : reachable n (run sched k s) /\ serving (run sched k s) /\
  listening (run sched k s) /\ exists log, st_log (run sched k s) = st_log s ++ log.
Proof.
  induction k as [|k (IHr & IHs & IHa & log & IHl)].
  - split_and!; [done| |done|].
    { eapply serving_reachable; [done|done|]. unfold server_gone. by destruct Ha as [Ea|Ea]; cbn; rewrite Ea. }
    exists []. cbn. by rewrite app_nil_r.
  - cbn [run]. destruct (Hopen k). split_and!; [by apply turn_reachable| | |]; unfold turn;
      destruct (step (sched k) (run sched k s)) as [s'|] eqn:E; cbn; eauto.
    + by eapply serving_step.
    + eapply (listening_step n); try done. apply IHs.
    + destruct (step_log_app _ _ _ E) as [log' ->]. exists (log ++ log'). by rewrite IHl, app_assoc.
Qed.

Section worker.
Context (i : nat) (Hi : (i < n)%nat).
Abbreviation left k := (served_left i (length (enqueued i (st_log s))) (run sched k s)) (only parsing).

Lemma served_left_turn k : (left (S k) <= left k)%nat /\
  (sched k = LWorker i -> (left (S k) <= pred (left k))%nat).
Proof.
  destruct (serving_run k) as (Hr & Hsv & _ & log & Hlog).
  assert (Hown : sched k = LWorker i -> (left (S k) <= pred (left k))%nat).
  { intros E. cbn [run]. rewrite E. apply (served_left_own n); [done|done|].
    rewrite Hlog, enqueued_app, length_app. lia. }
  split; [|done]. assert (Hcase : sched k = LWorker i \/ sched k <> LWorker i).
  { destruct (sched k) as [| | | | | | |j|j]; try (by right). destruct (decide (j = i)); [left|right]; congruence. }
  destruct Hcase as [E|E]; [specialize (Hown E); lia|]. cbn [run]. rewrite served_left_other; [done|done|apply Hsv].
Qed.

Lemma served_left_le k k' : (k <= k')%nat -> (left k' <= left k)%nat.
Proof. induction 1 as [|k' _ IH]; [done|]. destruct (served_left_turn k') as [H _]. lia. Qed.

Lemma served_left_vanishes : exists k, left k = 0%nat.
Proof.
  enough (Hv : forall k, exists k', (k <= k')%nat /\ left k' = 0%nat)
    by (destruct (Hv 0%nat) as (k & _ & Ek); by exists k).
  apply (measure_vanishes sched s). intros k Hk.
  destruct (Hfair (LWorker i) ltac:(naive_solver) k) as (k' & Hle & El).
  exists (S k'). split; [lia|]. pose proof (served_left_le k k' Hle).
  pose proof (proj2 (served_left_turn k') El). lia.
Qed.
End worker.
End serve.

(** C10: no connection is left waiting: under every fair schedule, as long as
    neither the shutdown flag is set nor [poll] fails, every connection that was
    queued for a worker has been handled by that worker after finitely many steps,
    in the order of the queue, and the accept loop still runs. *)
Theorem connection_served n sched s i
    (Hs : reachable n s) (Hi : (i < n)%nat) (Hd : st_shutdown s = false) (Ha : listening s)
    (Hfair : fair n sched) (Hopen : forall k, sched k <> LFlag /\ sched k <> LPollError) :
  exists k rest, (handled i (st_log (run sched k s))).*2 = enqueued i (st_log s) ++ rest /\
    listening (run sched k s).
Proof.
  assert (Hn : (0 < n)%nat) by lia.
  destruct (served_left_vanishes n sched s Hs Hd Hn Ha Hfair Hopen i Hi) as [k Hk]. exists k.
  destruct (serving_run n sched s Hs Hd Hn Ha Hopen k) as (Hr & Hsv & Ha' & log & Hlog).
  pose proof (server_inv_reachable n _ Hr) as (Hlen & Hinv & _).
  destruct (lookup_lt_is_Some_2 (st_workers (run sched k s)) i) as [w Hw]; [lia|].
  destruct (Hinv i w Hw) as (_ & (rest & He & _) & _). revert Hk. unfold served_left. rewrite Hw.
  intros Hk. assert (Hl : (length (enqueued i (st_log s)) <= length (handled i (st_log (run sched k s))))%nat)
    by (destruct (length (enqueued i (st_log s)) - length (handled i (st_log (run sched k s))))%nat eqn:E; lia).
  rewrite Hlog, enqueued_app, <- Hlog in He.
  exists (drop (length (enqueued i (st_log s))) (handled i (st_log (run sched k s))).*2).
  split; [|done].
  rewrite <- (take_drop (length (enqueued i (st_log s))) (handled i (st_log (run sched k s))).*2) at 1.
  f_equal. apply (f_equal (take (length (enqueued i (st_log s))))) in He.
  rewrite take_app_length, take_app_le in He; [done|]. by rewrite length_fmap.
Qed.
End liveness.

(** ** Concrete schedules *)

(** Everybody in turn, two workers. *)
Definition in_turn (k : nat) : step_label nat :=
  match (k mod 5)%nat with
  | 0%nat => LPoll
  | 1%nat => LDrained
  | 2%nat => LSignal
  | 3%nat => LWorker 0
  | _ => LWorker 1
  end.

Lemma in_turn_fair : fair 2 in_turn.
Proof.
  intros l Hl k. assert (Hj : exists j, (j < 5)%nat /\ in_turn j = l).
  { destruct Hl as [->|[->|[->|([|[|i]] & Hi & ->)]]];
      [exists 0%nat|exists 1%nat|exists 2%nat|exists 3%nat|exists 4%nat|lia];
      (split; [lia|reflexivity]). }
  destruct Hj as (j & Hj & <-). exists (k * 5 + j)%nat. split; [lia|]. unfold in_turn.
  by rewrite Nat.add_comm, Nat.Div0.mod_add.
Defined.

Lemma shutdown_completes_witness :
  exists k, forall k', (k <= k')%nat ->
    (st_accept (run in_turn k' state_a) = Returned \/ st_accept (run in_turn k' state_a) = AcceptFailed) /\
    Forall (fun w => wk_pc w = Stopped) (st_workers (run in_turn k' state_a)).
Proof.
  apply (shutdown_completes 2 in_turn state_a);
    [exact state_a_reachable|lia|vm_compute; reflexivity|exact in_turn_fair].
Defined.

(** Three connections are accepted, none is handled yet. *)
Definition state_b : State nat :=
  match steps [LPoll; LAccept 10%nat; LAccept 11%nat; LAccept 12%nat] (Server_init 2) with
  | Some s => s
  | None => Server_init 2
  end.

Lemma connection_served_witness :
  exists k rest, (handled 0 (st_log (run in_turn k state_b))).*2 = [10%nat; 12%nat] ++ rest /\
    listening (run in_turn k state_b).
Proof.
  apply (connection_served 2 in_turn state_b 0);
    [|lia|vm_compute; reflexivity|right; vm_compute; reflexivity|exact in_turn_fair|].
  - apply (steps_reachable 2 [LPoll; LAccept 10%nat; LAccept 11%nat; LAccept 12%nat] (Server_init 2));
      [constructor|vm_compute; reflexivity].
  - intros k. unfold in_turn. by destruct (k mod 5)%nat as [|[|[|[|]]]].
Defined.
