(* ===== verification/Main.v ===== *)
(** * The process: [main.rs]

    From the command line to the accept loop and to the exit code.  What the
    operating system and the libraries answer is the record [System]; the
    actions of the start-up are those of the monad [M]. *)

From stdpp Require Import vector.
From S2P Require Import Prelude RustStr Net Crypto Config Token Stats Json Io Events Logger Tls Connection Server.

Section main.
Context {B : Build} {R : Rustls}.

(** The answers of the calls that the start-up makes. *)
Record System : Type := mkSystem {
  runtime_new : bool;                                    (* [Runtime::new().is_ok()] *)
  parse_level : str -> option LevelFilter;               (* [LevelFilter::from_str] *)
  try_init : LevelFilter -> (str -> str -> str -> str) -> result unit str;  (* [env_logger] *)
  env_var : str -> option str;
  process_id : Z;
  udp_bind : SocketAddr -> result unit io_error;
  udp_connect : SocketAddr -> SocketAddr -> result unit io_error;
  read_file : str -> option str;
  open_pem : nat -> str -> result PemFile io_error;
  tcp_bind : SocketAddr -> result unit io_error;
  spawn_thread : nat -> bool;
  set_nonblocking : SocketAddr -> bool -> result unit io_error;
  poll_new : result unit io_error;
  register : nat -> result unit io_error
}.

(** How the start-up ends: the process exits, or the accept loop begins. *)
Inductive started : Type :=
  | ExitWith (code : Z) (stdout : str)
  | Accepting (ctx : WorkerCtx) (listeners : list (SocketAddr * bool)).

Section run.
Variable sys : System.

Definition init_logger (cfg : Config) : result unit str :=
  match log_level cfg with Off => Ok tt | l => Logger.init (try_init sys) l end.

Definition make_sink (cfg : Config) : result (option EventSink) io_error :=
  match syslog_target cfg with
  | None => Ok None
  | Some target =>
      match EventSink_new (udp_bind sys) (udp_connect sys) (env_var sys) (process_id sys) target with
      | Ok s => Ok (Some s)
      | Err e => Err e
      end
  end.

(** [build_tls_config(..).is_ok()] *)
Definition build_tls (cert key : str) (only13 : bool) : bool :=
  match build_tls_config (open_pem sys) cert key only13 with Ok _ => true | Err _ => false end.

Definition new_server (cli : Cli) (sink : option EventSink)
    : result (WorkerCtx * list SocketAddr * list SocketAddr) startup_error :=
  Server_new (read_file sys) build_tls (bind_listener (tcp_bind sys) (set_nonblocking sys))
    (config cli) (tcp_addrs cli) (tls_addrs cli) sink.

(** From the workers on: the startup event, then the set-up of the accept loop. *)
Definition launch (cfg : Config) (ctx : WorkerCtx) (tcp tls : list SocketAddr)
    (sink : option EventSink) : M started :=
  if negb (spawn_workers (spawn_thread sys) (Z.to_nat (num_workers cfg))) then panic
  else
    do* match sink with
        | Some s => startup s (num_workers cfg) (len tcp) (len tls)
        | None => ret tt
        end in
    match run_setup (set_nonblocking sys) (poll_new sys) (register sys) tcp tls with
    | Err _ => ret (ExitWith 1 [])
    | Ok listeners => ret (Accepting ctx listeners)
    end.

(** [run] up to the loop of [Server::run] *)
Definition run_start (args : list str) : M started :=
  match parse_cli (parse_level sys) args with
  | Printed p => ret (ExitWith 0 (printout p))
  | BadArgument _ _ => ret (ExitWith 1 [])
  | ExitUnknown _ => ret (ExitWith 1 help_page)
  | Run cli =>
      let cfg := config cli in
      match init_logger cfg with
      | Err _ => ret (ExitWith 1 [])
      | Ok _ =>
          match make_sink cfg with
          | Err _ => ret (ExitWith 1 [])
          | Ok sink =>
              match new_server cli sink with
              | Err _ => ret (ExitWith 1 [])
              | Ok (ctx, tcp, tls) => launch cfg ctx tcp tls sink
              end
          end
      end
  end.

Definition main_start (args : list str) : M started :=
  if runtime_new sys then run_start args else panic.
End run.
End main.

(** ** From the accept loop to the exit code *)

(** The exit code once the accept loop has ended; a panic of the main thread
    exits with 101. *)
Definition exit_code (a : accept_pc) : option Z :=
  match a with
  | Returned => Some 0
  | AcceptFailed => Some 1
  | AcceptPanicked => Some 101
  | Polling | Draining | Signalling _ => None
  end.

(** The process: its threads, or its exit code. *)
Inductive process (C : Type) : Type :=
  | Alive (s : State C)
  | Exited (code : Z).
Arguments Alive {C} s.
Arguments Exited {C} code.

(** [None]: [main] returns, which ends the process with all its threads. *)
Definition process_step {C} (l : option (step_label C)) (p : process C) : option (process C) :=
  match p, l with
  | Alive s, Some l => Alive <$> step l s
  | Alive s, None => Exited <$> exit_code (st_accept s)
  | Exited _, _ => None
  end.

Fixpoint process_steps {C} (ls : list (option (step_label C))) (p : process C) : option (process C) :=
  match ls with
  | [] => Some p
  | l :: ls' => p' ← process_step l p; process_steps ls' p'
  end.
