(* ===== verification/MainFacts.v ===== *)
(** * How the process starts and ends

    The process serves only with the listeners and keys it was configured with,
    every failure of the start-up has its exit code, and exit code 0 is help,
    version or a shutdown. *)

From stdpp Require Import vector.
From S2P Require Import Prelude RustStr Net Crypto RefCrypto Config Token Stats Json Io Events Tls Connection Server ServerFacts StreamFacts Main.

Lemma forallb_false {A} (f : A -> bool) l : forallb f l = false -> exists x, x ∈ l /\ f x = false.
Proof.
  induction l as [|x l IH]; cbn; [done|]. destruct (f x) eqn:E; cbn.
  - intros (y & Hy & Ey)%IH. exists y. split; [by right|done].
  - intros _. exists x. split; [by left|done].
Qed.

Section start.
Context {B : Build} {R : Rustls}.
Variable sys : System.
Implicit Types (w : World) (cli : Cli).

(** What the start-up sends: one event, when there is a collector. *)
Definition startup_events (w : World) (sink : option EventSink) (workers tcp tls : Z) : list action :=
  match sink with
  | Some k => [Datagram (frame k (w_stamp w (w_tick w)) SEV_INFO !"lifecycle" (startup_body workers tcp tls))]
  | None => []
  end.

Lemma run_setup_Ok nb pn reg tcp tls l :
  run_setup nb pn reg tcp tls = Ok l -> l = tagged_listeners tcp tls /\ l <> [].
Proof.
  unfold run_setup. destruct (tagged_listeners tcp tls) as [|a k]; [done|].
  destruct (for_each _ (a :: k)); [|done]. destruct pn; [|done].
  destruct (for_each reg _); [|done]. by intros [= <-].
Qed.

Lemma launch_spec cfg ctx tcp tls sink w :
  let r := launch sys cfg ctx tcp tls sink w in
  if spawn_workers (spawn_thread sys) (Z.to_nat (num_workers cfg)) then
    w_out r.2 = w_out w ++ startup_events w sink (num_workers cfg) (len tcp) (len tls) /\
    r.1 = Done (match run_setup (set_nonblocking sys) (poll_new sys) (register sys) tcp tls with
                | Err _ => ExitWith 1 []
                | Ok l => Accepting ctx l
                end)
  else r = (Panicked, w).
Proof.
  cbv zeta. unfold launch. destruct (spawn_workers _ _); [|done]. cbn [negb].
  destruct sink as [k|]; cbn; destruct (run_setup _ _ _ _ _); cbn; by rewrite ?app_nil_r.
Qed.

Lemma make_sink_Ok cfg sink : make_sink sys cfg = Ok sink -> sink = None <-> syslog_target cfg = None.
Proof.
  unfold make_sink, EventSink_new. destruct (syslog_target cfg); [|by intros [= <-]].
  destruct (udp_bind _ _); [|done]. destruct (udp_connect _ _ _); [|done]. by intros [= <-].
Qed.

Lemma build_tls_true cert key only13 :
  build_tls sys cert key only13 = true <->
  exists c, build_tls_config (open_pem sys) cert key only13 = Ok c.
Proof. unfold build_tls. destruct (build_tls_config _ _ _ _); naive_solver. Qed.

Lemma Server_new_sink fs tls bind cfg ta la sink ctx l1 l2 :
  Server_new fs tls bind cfg ta la sink = Ok (ctx, l1, l2) -> ctx_sink ctx = sink.
Proof. unfold Server_new. intros E. repeat (case_match; try done); by simplify_eq. Qed.

(** C11: when the process begins to accept connections, everything it was
    configured with is in place: the configuration is that of the command line,
    tokens are checked with at least one key unless that is switched off, TLS is
    there exactly when certificate and key give a TLS configuration, there is at
    least one listener and all addresses are bound, and the collector, if there
    is one, was told the numbers of workers and listeners, and nothing else. *)
Theorem start_serves args w ctx ls w'
    (Hrun : main_start sys args w = (Done (Accepting ctx ls), w')) :
  exists cli, parse_cli (parse_level sys) args = Run cli /\ ctx_config ctx = config cli /\
    (check_token (config cli) = true -> ctx_keys ctx <> []) /\
    (ctx_tls ctx = true <-> exists cert key c,
       cert_path (config cli) = Some cert /\ key_path (config cli) = Some key /\
       build_tls_config (open_pem sys) cert key (tls13_only (config cli)) = Ok c) /\
    (let tls := if ctx_tls ctx then tls_addrs cli else [] in
     ls = tagged_listeners (tcp_addrs cli) tls /\ ls <> [] /\
     Forall (fun a => tcp_bind sys a = Ok tt) (tcp_addrs cli ++ tls) /\
     (ctx_sink ctx = None <-> syslog_target (config cli) = None) /\
     w_out w' = w_out w ++
       startup_events w (ctx_sink ctx) (num_workers (config cli)) (len (tcp_addrs cli)) (len tls)).
Proof.
  unfold main_start, run_start in Hrun. destruct (runtime_new sys); [|done].
  destruct (parse_cli (parse_level sys) args) as [cli| | |] eqn:Ec; try done.
  destruct (init_logger sys (config cli)); [|done].
  destruct (make_sink sys (config cli)) as [sink|] eqn:Es; [|done]. apply make_sink_Ok in Es.
  destruct (new_server sys cli sink) as [[[ctx0 tcp] tls]|] eqn:En; [|done].
  pose proof (launch_spec (config cli) ctx0 tcp tls sink w) as Hl. rewrite Hrun in Hl.
  destruct (spawn_workers _ _) in Hl; [|done]. destruct Hl as [Hout Hr].
  destruct (run_setup _ _ _ tcp tls) as [l|] eqn:Eset in Hr; [|done].
  injection Hr as <- <-. apply run_setup_Ok in Eset as [-> Hne]. cbn [snd] in Hout.
  unfold new_server in En. pose proof (Server_new_sink _ _ _ _ _ _ _ _ _ _ En) as ->.
  apply startup_complete in En as (Hcfg & Hkeys & -> & -> & Hbound & Htls). rewrite Hcfg in *.
  exists cli. split_and!; try done.
  rewrite Htls. setoid_rewrite build_tls_true. naive_solver.
Qed.

(** C28: every failure of the start-up ends the process with exit code 1, and code
    0 without serving means that help or version were printed, before anything
    else was done; a panic needs an operating system that refuses the runtime or
    a worker thread. *)
Theorem start_fails args w :
  match main_start sys args w with
  | (Done (ExitWith code out), w') =>
      (code = 0 /\ w' = w /\ exists p, parse_cli (parse_level sys) args = Printed p /\ out = printout p)
      \/ (code = 1 /\ forall p, parse_cli (parse_level sys) args <> Printed p)
  | (Done (Accepting _ _), _) => exists cli, parse_cli (parse_level sys) args = Run cli
  | (Panicked, w') => w' = w /\ (runtime_new sys = false \/ exists i, spawn_thread sys i = false)
  | (Fail _, _) | (OutOfFuel, _) => False
  end.
Proof.
  unfold main_start, run_start. destruct (runtime_new sys); [|cbn; auto].
  destruct (parse_cli (parse_level sys) args) as [cli|p|opt arg|opt] eqn:Ec; cbn;
    [|left; split_and!; eauto|right; split; done..].
  destruct (init_logger sys (config cli)); [|by right].
  destruct (make_sink sys (config cli)) as [sink|]; [|by right].
  destruct (new_server sys cli sink) as [[[ctx0 tcp] tls]|]; [|by right].
  pose proof (launch_spec (config cli) ctx0 tcp tls sink w) as Hl.
  destruct (launch _ _ _ _ _ _ w) as [r w']. cbn [fst snd] in Hl.
  destruct (spawn_workers _ _) eqn:Esp.
  - destruct Hl as [_ ->]. destruct (run_setup _ _ _ tcp tls); eauto.
  - injection Hl as -> ->. split; [done|]. right. unfold spawn_workers in Esp.
    apply forallb_false in Esp as (i & _ & Hi). by exists i.
Qed.
End start.

(** ** Exit codes of a running server *)

Section process.
Context {C : Type}.
Implicit Types (s : State C) (ls : list (option (step_label C))).

(** The accept loop has seen the flag. *)
Definition ending (a : accept_pc) : bool :=
  match a with Returned | Signalling _ => true | _ => false end.

(** What must have happened before the server is in a state. *)
Definition explained (happened : list (option (step_label C))) s : Prop :=
  (st_shutdown s = true -> Some LFlag ∈ happened) /\
  (st_accept s = AcceptFailed -> Some LPollError ∈ happened) /\
  (ending (st_accept s) = true -> st_shutdown s = true).

Lemma dispatch_accept c s :
  st_shutdown (dispatch_connection c s) = st_shutdown s /\
  (st_accept (dispatch_connection c s) = st_accept s \/
   st_accept (dispatch_connection c s) = AcceptPanicked).
Proof. unfold dispatch_connection. repeat case_match; cbn; auto. Qed.

Lemma step_explained l s s' : step l s = Some s' ->
  (l = LFlag \/ st_shutdown s' = st_shutdown s) /\
  (st_accept s' = AcceptFailed -> l = LPollError \/ st_accept s = AcceptFailed) /\
  (ending (st_accept s') = true -> st_shutdown s = true \/ ending (st_accept s) = true).
Proof.
  intros E. destruct l as [| | |c|c| | |i|i]; [cbn in E..| |].
  - injection E as <-. cbn. auto.
  - destruct (st_accept s); try done. injection E as <-. cbn.
    destruct (st_shutdown s); split_and!; auto; done.
  - destruct (st_accept s); try done. injection E as <-. split_and!; auto; done.
  - destruct (st_accept s) eqn:Ea; try done. injection E as <-.
    destruct (dispatch_accept c s) as [-> [-> | ->]]; rewrite ?Ea; split_and!; auto; done.
  - destruct (st_accept s) eqn:Ea; try done. injection E as <-. rewrite Ea. split_and!; auto; done.
  - destruct (st_accept s); try done. injection E as <-. split_and!; auto; done.
  - destruct (st_accept s); try done.
    destruct (st_workers s !! i); injection E as <-; split_and!; auto; done.
  - rewrite step_worker in E. destruct (st_workers s !! i); cbn in E; [|done].
    destruct (worker_step _ _ _) as [[w' log]|]; cbn in E; [|done]. injection E as <-. cbn. auto.
  - apply step_disconnected in E as (w & _ & _ & _ & _ & ->). cbn. auto.
Qed.

Lemma explained_step h l s s' :
  explained h s -> step l s = Some s' -> explained (h ++ [Some l]) s'.
Proof.
  intros (Hf & Hp & Hr) E. assert (Hst : st_shutdown s = true -> st_shutdown s' = true)
    by (intros Hd; by apply (step_shutdown l s s' 0)).
  apply step_explained in E as (E1 & E2 & E3). unfold explained.
  rewrite !elem_of_app, !list_elem_of_singleton. split_and!.
  - intros Hd. destruct E1 as [-> |E1]; [by right|]. left. apply Hf. congruence.
  - intros [-> |Ha]%E2; [by right|]. left. auto.
  - intros [Hd|Hd]%E3; auto.
Qed.

Lemma process_steps_explained n ls h s p :
  reachable n s -> explained h s -> process_steps ls (Alive s) = Some p ->
  match p with
  | Alive s' => reachable n s' /\ explained (h ++ ls) s'
  | Exited code => exists s' k, reachable n s' /\ explained (h ++ take k ls) s' /\
      exit_code (st_accept s') = Some code
  end.
Proof.
  revert h s. induction ls as [|[l|] ls IH]; intros h s Hr Hs E; cbn in E.
  - injection E as <-. by rewrite app_nil_r.
  - destruct (step l s) as [s1|] eqn:E1; cbn in E; [|done].
    specialize (IH (h ++ [Some l]) s1 ltac:(by econstructor) ltac:(by eapply explained_step) E).
    destruct p as [s'|code].
    + by rewrite <- app_assoc in IH.
    + destruct IH as (s' & k & ? & He & ?). exists s', (S k). cbn.
      by rewrite <- app_assoc in He.
  - destruct (exit_code (st_accept s)) as [code|] eqn:E1; cbn in E; [|done].
    destruct ls; cbn in E; [|done]. injection E as <-. exists s, 0%nat. cbn. by rewrite app_nil_r.
Qed.

(** C29: the exit code says how the server ended: 0 only after the shutdown flag
    was set, 1 only after [poll] failed, and 101 (a panic) only when the server
    was started without workers. *)
Theorem server_exit_code n ls code
    (Hrun : process_steps ls (Alive (Server_init (C := C) n)) = Some (Exited code)) :
  (code = 0 /\ Some LFlag ∈ ls) \/ (code = 1 /\ Some LPollError ∈ ls) \/ (code = 101 /\ n = 0%nat).
Proof.
  destruct (process_steps_explained n ls [] (Server_init n) (Exited code)) as (s & k & Hr & He & Hx);
    [constructor|by split_and!|done|].
  destruct He as (Hf & Hp & Hret). cbn in *.
  assert (Hin : forall l, l ∈ take k ls -> l ∈ ls) by (intros l; apply subseteq_take).
  destruct (st_accept s) eqn:Ea; cbn in Hx; try done; injection Hx as <-.
  - left. auto.
  - right. left. auto.
  - right. right. split; [done|]. destruct n as [|n]; [done|].
    by destruct (reachable_not_panicked (S n) s ltac:(lia) Hr).
Qed.
End process.

(** ** Exit does not wait for the workers *)

(** Worker 0 is handling a connection and another one is queued for it when the
    accept loop returns. *)
Definition busy_run : list (step_label nat) :=
  [LPoll; LAccept 10%nat; LWorker 0; LWorker 0; LAccept 11%nat; LDrained; LFlag; LPoll; LSignal; LSignal].

(** The process does not wait for its workers: after the shutdown flag it can
    exit with code 0 while a connection is being handled, whose close event is
    then never sent, and another one is still queued. *)
Theorem exit_abandons_connections :
  exists s, process_steps (map Some busy_run) (Alive (Server_init 1)) = Some (Alive s) /\
    process_step None (Alive s) = Some (Exited 0) /\
    st_workers s = [mkWorker Handling [Connection 11%nat; Shutdown] 1] /\
    handled 0 (st_log s) = [(1, 10%nat)].
Proof. eexists. repeat split; vm_compute; reflexivity. Qed.

Lemma server_exit_code_witness :
  (0 = 0 /\ Some LFlag ∈ map Some busy_run ++ [None]) \/
  (0 = 1 /\ Some LPollError ∈ map Some busy_run ++ [None]) \/ (0 = 101 /\ 1%nat = 0%nat).
Proof. apply (server_exit_code 1 (map Some busy_run ++ [None]) 0). vm_compute. reflexivity. Defined.

(** ** A concrete start *)

(** A machine where everything works. *)
Definition healthy : System (R := ToyRustls) := {|
  runtime_new := true;
  parse_level := fun _ => None;
  try_init := fun _ _ => Ok tt;
  env_var := fun _ => Some !"host";
  process_id := 4242;
  udp_bind := fun _ => Ok tt;
  udp_connect := fun _ _ => Ok tt;
  read_file := fun _ => Some !"topsecret prod";
  open_pem := toy_open;
  tcp_bind := fun _ => Ok tt;
  spawn_thread := fun _ => true;
  set_nonblocking := fun _ _ => Ok tt;
  poll_new := Ok tt;
  register := fun _ => Ok tt
|}.

#[local] Instance build_1_9 : Build := {| RMBTD_VERSION := !"1.9.0"; RMBTD_BRANCH := !"main" |}.

(** [rmbtd -l 5231 -c cert.pem -k key.pem -t 2 --syslog 192.0.2.1] *)
Definition start_args : list str :=
  [!"-l"; !"5231"; !"-c"; !"cert.pem"; !"-k"; !"key.pem"; !"-t"; !"2"; !"--syslog"; !"192.0.2.1"].

Definition start_cli : Cli :=
  match parse_cli (parse_level healthy) start_args with
  | Run c => c
  | _ => mkCli Config_default [] []
  end.

Definition start_ctx : WorkerCtx :=
  mkCtx (config start_cli) [mkKey !"topsecret" !"prod"] true (Some (mkSink !"host" 4242)).

Lemma start_serves_witness :
  let sys := healthy in let ctx := start_ctx in
  exists cli, parse_cli (parse_level sys) start_args = Run cli /\ ctx_config ctx = config cli /\
    (check_token (config cli) = true -> ctx_keys ctx <> []) /\
    (ctx_tls ctx = true <-> exists cert key c,
       cert_path (config cli) = Some cert /\ key_path (config cli) = Some key /\
       build_tls_config (open_pem sys) cert key (tls13_only (config cli)) = Ok c) /\
    (let tls := if ctx_tls ctx then tls_addrs cli else [] in
     tagged_listeners (tcp_addrs start_cli) (tls_addrs start_cli) = tagged_listeners (tcp_addrs cli) tls /\
     tagged_listeners (tcp_addrs start_cli) (tls_addrs start_cli) <> [] /\
     Forall (fun a => tcp_bind sys a = Ok tt) (tcp_addrs cli ++ tls) /\
     (ctx_sink ctx = None <-> syslog_target (config cli) = None) /\
     w_out (main_start sys start_args (world_of [] [])).2 = w_out (world_of [] []) ++
       startup_events (world_of [] []) (ctx_sink ctx) (num_workers (config cli)) (len (tcp_addrs cli)) (len tls)).
Proof.
  intros sys ctx. apply (start_serves sys start_args (world_of [] []) ctx).
  vm_compute. reflexivity.
Defined.
